(** * The Go 1.11.1 scheduler core (runtime/proc.go): run queues, stealing,
      readying, syscall retake and goroutine creation.

    A shallow embedding of the scheduler routines of [runtime/proc.go] as
    functions over an explicit machine state, followed by the properties
    proved about them.

    One thread of control is followed at a time.  Shared words are fields of
    the state; an atomic load reads the field, an atomic store writes it and
    a compare-and-swap compares the field with the expected value.  Loops
    that retry after a failed compare-and-swap or an inconsistent read are
    written as loops ([loop]) whose back edge consumes fuel carried by the
    state, so that a loop which would spin forever runs out of fuel instead
    of returning.  Where a property speaks of values read earlier than the
    state they are used in (a snapshot), the loop body takes the values read
    as arguments. *)

From Stdlib Require Import ZArith Lia Znumtheory.
From stdpp Require Import base list gmap strings sorting.

Local Open Scope Z_scope.

(** ** Machine integers *)

(** Go's fixed-width integers are integers of [Z] reduced after every
    arithmetic operation. *)
Definition uint32 (x : Z) : Z := x mod 4294967296.
Definition int32 (x : Z) : Z := (x + 2147483648) mod 4294967296 - 2147483648.
Definition int64 (x : Z) : Z :=
  (x + 9223372036854775808) mod 18446744073709551616 - 9223372036854775808.
Definition uint64 (x : Z) : Z := x mod 18446744073709551616.

Definition is_uint32 (x : Z) : Prop := 0 <= x < 4294967296.
Definition is_int32 (x : Z) : Prop := -2147483648 <= x < 2147483648.

(** A [guintptr] is the address of a g; 0 is nil. *)
Abbreviation guintptr := Z.

(** ** Constants declared outside proc.go *)

(** Modelled from the spec: the G statuses of section 3.4 (idle, runnable,
    running, syscall, waiting, dead, copystack) and the scan bit that may be
    OR'd into a status; their declarations (runtime2.go) are not part of the
    sources at hand, the numbering is that of the Go runtime. *)
Definition _Gidle : Z := 0.
Definition _Grunnable : Z := 1.
Definition _Grunning : Z := 2.
Definition _Gsyscall : Z := 3.
Definition _Gwaiting : Z := 4.
Definition _Gdead : Z := 6.
Definition _Gcopystack : Z := 8.
Definition _Gscan : Z := 4096.
Definition _Gscanrunnable : Z := _Gscan + _Grunnable.
Definition _Gscanrunning : Z := _Gscan + _Grunning.
Definition _Gscansyscall : Z := _Gscan + _Gsyscall.
Definition _Gscanwaiting : Z := _Gscan + _Gwaiting.

(** Modelled from the spec: the P statuses of section 3.3 (idle, running,
    syscall, gcstop, dead), declared in runtime2.go. *)
Definition _Pidle : Z := 0.
Definition _Prunning : Z := 1.
Definition _Pgcstop : Z := 3.
Definition _Pdead : Z := 4.

(** [len(_p_.runq)]: the local run queue is an array of 256 entries. *)
Definition runqlen : Z := 256.

(** [x &^ y]: the bits of [x] that are not bits of [y]. *)
Definition andnot (x y : Z) : Z := Z.land x (Z.lnot y).

(** ** The state *)

Record g := mkG {
  g_schedlink : guintptr;
  g_atomicstatus : Z;
  g_gcscanvalid : bool;
  g_preempt : bool;
  g_stackguard0 : Z;
  g_stack_lo : Z;
  g_stack_hi : Z;
  g_goid : Z;
  g_gopc : Z;
  g_startpc : Z
}.

Record sysmontick := mkTick {
  st_schedtick : Z;
  st_schedwhen : Z;
  st_syscalltick : Z;
  st_syscallwhen : Z
}.

Record p := mkP {
  p_status : Z;
  p_schedtick : Z;
  p_syscalltick : Z;
  p_sysmontick : sysmontick;
  p_runqhead : Z;
  p_runqtail : Z;
  p_runq : list guintptr;
  p_runnext : guintptr;
  p_gfree : guintptr;
  p_gfreecnt : Z;
  p_goidcache : Z;
  p_goidcacheend : Z
}.

Record schedt := mkSched {
  sched_lock : bool;
  sched_gflock : bool;
  sched_goidgen : Z;
  sched_ngsys : Z;
  sched_npidle : Z;
  sched_nmspinning : Z;
  sched_runqhead : guintptr;
  sched_runqtail : guintptr;
  sched_runqsize : Z;
  sched_gfreeStack : guintptr;
  sched_gfreeNoStack : guintptr;
  sched_ngfree : Z;
  sched_gcwaiting : Z
}.

(** The M that runs the modelled code. *)
Record m := mkM {
  m_locks : Z;
  m_spinning : bool;
  m_throwing : Z;
  m_p : option nat;
  m_curg : guintptr
}.

Record randomOrder := mkOrd {
  ord_count : Z;
  ord_coprimes : list Z
}.

Record randomEnum := mkEnum {
  enum_i : Z;
  enum_count : Z;
  enum_pos : Z;
  enum_inc : Z
}.

(** Calls into the parts of the runtime that are not modelled (thread
    management, sleeping, diagnostics) are recorded, in order. *)
Inductive event :=
  | EvStartm (pp : option nat) (spinning : bool)
  | EvHandoffp (pp : nat)
  | EvPreemptone (pp : nat)
  | EvIncidlelocked (v : Z)
  | EvUsleep (us : Z)
  | EvOsyield
  | EvProcyield
  | EvDumpgstatus (gp : guintptr)
  | EvMemmove (to from n : Z).

Record world := mkWorld {
  heap : gmap Z g;
  allgs : list guintptr;
  allp : list (option p);
  sched : schedt;
  gomaxprocs : Z;
  stealOrder : randomOrder;
  curm : m;
  getg : guintptr;
  raceenabled : bool;
  windows : bool;
  mainStarted : bool;
  rng : nat -> Z;
  rng_pos : nat;
  trace : list event;
  fuel : nat;
  allpLock : bool;
  allglock : bool
}.

(** *** Field updates *)

Definition g_set_schedlink (v : guintptr) (x : g) : g :=
  mkG v (g_atomicstatus x) (g_gcscanvalid x) (g_preempt x) (g_stackguard0 x)
      (g_stack_lo x) (g_stack_hi x) (g_goid x) (g_gopc x) (g_startpc x).
Definition g_set_atomicstatus (v : Z) (x : g) : g :=
  mkG (g_schedlink x) v (g_gcscanvalid x) (g_preempt x) (g_stackguard0 x)
      (g_stack_lo x) (g_stack_hi x) (g_goid x) (g_gopc x) (g_startpc x).
Definition g_set_gcscanvalid (v : bool) (x : g) : g :=
  mkG (g_schedlink x) (g_atomicstatus x) v (g_preempt x) (g_stackguard0 x)
      (g_stack_lo x) (g_stack_hi x) (g_goid x) (g_gopc x) (g_startpc x).
Definition g_set_stackguard0 (v : Z) (x : g) : g :=
  mkG (g_schedlink x) (g_atomicstatus x) (g_gcscanvalid x) (g_preempt x) v
      (g_stack_lo x) (g_stack_hi x) (g_goid x) (g_gopc x) (g_startpc x).
Definition g_set_stack (lo hi : Z) (x : g) : g :=
  mkG (g_schedlink x) (g_atomicstatus x) (g_gcscanvalid x) (g_preempt x)
      (g_stackguard0 x) lo hi (g_goid x) (g_gopc x) (g_startpc x).
Definition g_set_goid (v : Z) (x : g) : g :=
  mkG (g_schedlink x) (g_atomicstatus x) (g_gcscanvalid x) (g_preempt x)
      (g_stackguard0 x) (g_stack_lo x) (g_stack_hi x) v (g_gopc x) (g_startpc x).
Definition g_set_gopc (v : Z) (x : g) : g :=
  mkG (g_schedlink x) (g_atomicstatus x) (g_gcscanvalid x) (g_preempt x)
      (g_stackguard0 x) (g_stack_lo x) (g_stack_hi x) (g_goid x) v (g_startpc x).
Definition g_set_startpc (v : Z) (x : g) : g :=
  mkG (g_schedlink x) (g_atomicstatus x) (g_gcscanvalid x) (g_preempt x)
      (g_stackguard0 x) (g_stack_lo x) (g_stack_hi x) (g_goid x) (g_gopc x) v.

Definition p_set_status (v : Z) (x : p) : p :=
  mkP v (p_schedtick x) (p_syscalltick x) (p_sysmontick x) (p_runqhead x)
      (p_runqtail x) (p_runq x) (p_runnext x) (p_gfree x) (p_gfreecnt x)
      (p_goidcache x) (p_goidcacheend x).
Definition p_set_runqhead (v : Z) (x : p) : p :=
  mkP (p_status x) (p_schedtick x) (p_syscalltick x) (p_sysmontick x) v
      (p_runqtail x) (p_runq x) (p_runnext x) (p_gfree x) (p_gfreecnt x)
      (p_goidcache x) (p_goidcacheend x).
Definition p_set_runqtail (v : Z) (x : p) : p :=
  mkP (p_status x) (p_schedtick x) (p_syscalltick x) (p_sysmontick x)
      (p_runqhead x) v (p_runq x) (p_runnext x) (p_gfree x) (p_gfreecnt x)
      (p_goidcache x) (p_goidcacheend x).
Definition p_set_runq (v : list guintptr) (x : p) : p :=
  mkP (p_status x) (p_schedtick x) (p_syscalltick x) (p_sysmontick x)
      (p_runqhead x) (p_runqtail x) v (p_runnext x) (p_gfree x) (p_gfreecnt x)
      (p_goidcache x) (p_goidcacheend x).
Definition p_set_runnext (v : guintptr) (x : p) : p :=
  mkP (p_status x) (p_schedtick x) (p_syscalltick x) (p_sysmontick x)
      (p_runqhead x) (p_runqtail x) (p_runq x) v (p_gfree x) (p_gfreecnt x)
      (p_goidcache x) (p_goidcacheend x).
Definition p_set_gfree (v : guintptr) (c : Z) (x : p) : p :=
  mkP (p_status x) (p_schedtick x) (p_syscalltick x) (p_sysmontick x)
      (p_runqhead x) (p_runqtail x) (p_runq x) (p_runnext x) v c
      (p_goidcache x) (p_goidcacheend x).
Definition p_set_goidcache (v e : Z) (x : p) : p :=
  mkP (p_status x) (p_schedtick x) (p_syscalltick x) (p_sysmontick x)
      (p_runqhead x) (p_runqtail x) (p_runq x) (p_runnext x) (p_gfree x)
      (p_gfreecnt x) v e.

Definition sched_set_lock (v : bool) (s : schedt) : schedt :=
  mkSched v (sched_gflock s) (sched_goidgen s) (sched_ngsys s) (sched_npidle s)
          (sched_nmspinning s) (sched_runqhead s) (sched_runqtail s)
          (sched_runqsize s) (sched_gfreeStack s) (sched_gfreeNoStack s)
          (sched_ngfree s) (sched_gcwaiting s).
Definition sched_set_gflock (v : bool) (s : schedt) : schedt :=
  mkSched (sched_lock s) v (sched_goidgen s) (sched_ngsys s) (sched_npidle s)
          (sched_nmspinning s) (sched_runqhead s) (sched_runqtail s)
          (sched_runqsize s) (sched_gfreeStack s) (sched_gfreeNoStack s)
          (sched_ngfree s) (sched_gcwaiting s).
Definition sched_set_goidgen (v : Z) (s : schedt) : schedt :=
  mkSched (sched_lock s) (sched_gflock s) v (sched_ngsys s) (sched_npidle s)
          (sched_nmspinning s) (sched_runqhead s) (sched_runqtail s)
          (sched_runqsize s) (sched_gfreeStack s) (sched_gfreeNoStack s)
          (sched_ngfree s) (sched_gcwaiting s).
Definition sched_set_ngsys (v : Z) (s : schedt) : schedt :=
  mkSched (sched_lock s) (sched_gflock s) (sched_goidgen s) v (sched_npidle s)
          (sched_nmspinning s) (sched_runqhead s) (sched_runqtail s)
          (sched_runqsize s) (sched_gfreeStack s) (sched_gfreeNoStack s)
          (sched_ngfree s) (sched_gcwaiting s).
Definition sched_set_nmspinning (v : Z) (s : schedt) : schedt :=
  mkSched (sched_lock s) (sched_gflock s) (sched_goidgen s) (sched_ngsys s)
          (sched_npidle s) v (sched_runqhead s) (sched_runqtail s)
          (sched_runqsize s) (sched_gfreeStack s) (sched_gfreeNoStack s)
          (sched_ngfree s) (sched_gcwaiting s).
Definition sched_set_runqhead (v : guintptr) (s : schedt) : schedt :=
  mkSched (sched_lock s) (sched_gflock s) (sched_goidgen s) (sched_ngsys s)
          (sched_npidle s) (sched_nmspinning s) v (sched_runqtail s)
          (sched_runqsize s) (sched_gfreeStack s) (sched_gfreeNoStack s)
          (sched_ngfree s) (sched_gcwaiting s).
Definition sched_set_runqtail (v : guintptr) (s : schedt) : schedt :=
  mkSched (sched_lock s) (sched_gflock s) (sched_goidgen s) (sched_ngsys s)
          (sched_npidle s) (sched_nmspinning s) (sched_runqhead s) v
          (sched_runqsize s) (sched_gfreeStack s) (sched_gfreeNoStack s)
          (sched_ngfree s) (sched_gcwaiting s).
Definition sched_set_runqsize (v : Z) (s : schedt) : schedt :=
  mkSched (sched_lock s) (sched_gflock s) (sched_goidgen s) (sched_ngsys s)
          (sched_npidle s) (sched_nmspinning s) (sched_runqhead s)
          (sched_runqtail s) v (sched_gfreeStack s) (sched_gfreeNoStack s)
          (sched_ngfree s) (sched_gcwaiting s).
Definition sched_set_gfree (st nost : guintptr) (n : Z) (s : schedt) : schedt :=
  mkSched (sched_lock s) (sched_gflock s) (sched_goidgen s) (sched_ngsys s)
          (sched_npidle s) (sched_nmspinning s) (sched_runqhead s)
          (sched_runqtail s) (sched_runqsize s) st nost n (sched_gcwaiting s).

Definition m_set_locks (v : Z) (x : m) : m :=
  mkM v (m_spinning x) (m_throwing x) (m_p x) (m_curg x).
Definition m_set_spinning (v : bool) (x : m) : m :=
  mkM (m_locks x) v (m_throwing x) (m_p x) (m_curg x).
Definition m_set_throwing (v : Z) (x : m) : m :=
  mkM (m_locks x) (m_spinning x) v (m_p x) (m_curg x).

Definition w_set_heap (v : gmap Z g) (w : world) : world :=
  mkWorld v (allgs w) (allp w) (sched w) (gomaxprocs w) (stealOrder w) (curm w)
          (getg w) (raceenabled w) (windows w) (mainStarted w) (rng w)
          (rng_pos w) (trace w) (fuel w)
          (allpLock w) (allglock w).
Definition w_set_allgs (v : list guintptr) (w : world) : world :=
  mkWorld (heap w) v (allp w) (sched w) (gomaxprocs w) (stealOrder w) (curm w)
          (getg w) (raceenabled w) (windows w) (mainStarted w) (rng w)
          (rng_pos w) (trace w) (fuel w)
          (allpLock w) (allglock w).
Definition w_set_allp (v : list (option p)) (w : world) : world :=
  mkWorld (heap w) (allgs w) v (sched w) (gomaxprocs w) (stealOrder w) (curm w)
          (getg w) (raceenabled w) (windows w) (mainStarted w) (rng w)
          (rng_pos w) (trace w) (fuel w)
          (allpLock w) (allglock w).
Definition w_set_sched (v : schedt) (w : world) : world :=
  mkWorld (heap w) (allgs w) (allp w) v (gomaxprocs w) (stealOrder w) (curm w)
          (getg w) (raceenabled w) (windows w) (mainStarted w) (rng w)
          (rng_pos w) (trace w) (fuel w)
          (allpLock w) (allglock w).
Definition w_set_stealOrder (v : randomOrder) (w : world) : world :=
  mkWorld (heap w) (allgs w) (allp w) (sched w) (gomaxprocs w) v (curm w)
          (getg w) (raceenabled w) (windows w) (mainStarted w) (rng w)
          (rng_pos w) (trace w) (fuel w)
          (allpLock w) (allglock w).
Definition w_set_curm (v : m) (w : world) : world :=
  mkWorld (heap w) (allgs w) (allp w) (sched w) (gomaxprocs w) (stealOrder w) v
          (getg w) (raceenabled w) (windows w) (mainStarted w) (rng w)
          (rng_pos w) (trace w) (fuel w)
          (allpLock w) (allglock w).
Definition w_set_rng_pos (v : nat) (w : world) : world :=
  mkWorld (heap w) (allgs w) (allp w) (sched w) (gomaxprocs w) (stealOrder w)
          (curm w) (getg w) (raceenabled w) (windows w) (mainStarted w) (rng w)
          v (trace w) (fuel w)
          (allpLock w) (allglock w).
Definition w_set_trace (v : list event) (w : world) : world :=
  mkWorld (heap w) (allgs w) (allp w) (sched w) (gomaxprocs w) (stealOrder w)
          (curm w) (getg w) (raceenabled w) (windows w) (mainStarted w) (rng w)
          (rng_pos w) v (fuel w)
          (allpLock w) (allglock w).
Definition w_set_fuel (v : nat) (w : world) : world :=
  mkWorld (heap w) (allgs w) (allp w) (sched w) (gomaxprocs w) (stealOrder w)
          (curm w) (getg w) (raceenabled w) (windows w) (mainStarted w) (rng w)
          (rng_pos w) (trace w) v
          (allpLock w) (allglock w).

Definition w_set_getg (v : guintptr) (w : world) : world :=
  mkWorld (heap w) (allgs w) (allp w) (sched w) (gomaxprocs w) (stealOrder w)
          (curm w) v (raceenabled w) (windows w) (mainStarted w) (rng w)
          (rng_pos w) (trace w) (fuel w) (allpLock w) (allglock w).
Definition w_set_allglock (v : bool) (w : world) : world :=
  mkWorld (heap w) (allgs w) (allp w) (sched w) (gomaxprocs w) (stealOrder w)
          (curm w) (getg w) (raceenabled w) (windows w) (mainStarted w) (rng w)
          (rng_pos w) (trace w) (fuel w) (allpLock w) v.

(** ** The monad of runtime code *)

Inductive failure :=
  | Throw (msg : string)   (* runtime.throw: fatal, the process aborts *)
  | Panic (msg : string)   (* a Go run-time panic: nil dereference, index *)
  | Deadlock               (* lock of a mutex that is already held *)
  | OutOfFuel.             (* a retry loop did not finish *)

Inductive outcome (A : Type) :=
  | Done (a : A) (w : world)
  | Fail (e : failure).
Arguments Done {A} a w.
Arguments Fail {A} e.

Definition M (A : Type) : Type := world -> outcome A.

Definition ret {A} (a : A) : M A := fun w => Done a w.
Definition bind {A B} (c : M A) (k : A -> M B) : M B :=
  fun w => match c w with
           | Done a w' => k a w'
           | Fail e => Fail e
           end.
Definition throw {A} (msg : string) : M A := fun _ => Fail (Throw msg).
Definition panic {A} (msg : string) : M A := fun _ => Fail (Panic msg).
Definition gets {A} (f : world -> A) : M A := fun w => Done (f w) w.
Definition modify (f : world -> world) : M unit := fun w => Done tt (f w).

Declare Scope go_scope.
Delimit Scope go_scope with go.
Notation "'let*' x ':=' c 'in' k" := (bind c (fun x => k))
  (at level 10, x name, c at level 100, k at level 200, only parsing) : go_scope.
Notation "c ;;; k" := (bind c (fun _ => k))
  (at level 100, k at level 200, right associativity, only parsing) : go_scope.
Local Open Scope go_scope.

(** [loop body] runs [body] until it yields a result; each back edge takes
    one unit of fuel from the state. *)
Fixpoint loop_n {A} (n : nat) (body : M (option A)) : M A :=
  fun w => match body w with
           | Done (Some a) w' => Done a w'
           | Done None w' =>
               match n with
               | O => Fail OutOfFuel
               | S n' => loop_n n' body (w_set_fuel n' w')
               end
           | Fail e => Fail e
           end.
Definition loop {A} (body : M (option A)) : M A :=
  fun w => loop_n (fuel w) body w.

(** [for i := lo; i < lo+n; i++ { body i }] *)
Fixpoint for_range (lo : Z) (n : nat) (body : Z -> M unit) : M unit :=
  match n with
  | O => ret tt
  | S n' => body lo ;;; for_range (lo + 1) n' body
  end.

Definition when (b : bool) (c : M unit) : M unit := if b then c else ret tt.

Definition emit (e : event) : M unit :=
  modify (fun w => w_set_trace (trace w ++ [e]) w).

(** *** Access to the objects of the state *)

Definition nil_deref : string := "invalid memory address or nil pointer dereference".
Definition out_of_range : string := "index out of range".

(** [allp[i]], dereferenced. *)
Definition getp (i : nat) : M p :=
  fun w => match allp w !! i with
           | Some (Some pp) => Done pp w
           | Some None => Fail (Panic nil_deref)
           | None => Fail (Panic out_of_range)
           end.
Definition setp (i : nat) (pp : p) : M unit :=
  modify (fun w => w_set_allp (<[i := Some pp]> (allp w)) w).
Definition modp (i : nat) (f : p -> p) : M unit :=
  let* pp := getp i in setp i (f pp).

(** [*gp] for a g pointer. *)
Definition readg (gp : guintptr) : M g :=
  fun w => match heap w !! gp with
           | Some x => if gp =? 0 then Fail (Panic nil_deref) else Done x w
           | None => Fail (Panic nil_deref)
           end.
Definition modg (gp : guintptr) (f : g -> g) : M unit :=
  let* x := readg gp in modify (fun w => w_set_heap (<[gp := f x]> (heap w)) w).

Definition get_sched : M schedt := gets sched.
Definition mod_sched (f : schedt -> schedt) : M unit :=
  modify (fun w => w_set_sched (f (sched w)) w).
Definition mod_m (f : m -> m) : M unit :=
  modify (fun w => w_set_curm (f (curm w)) w).

(** [_g_.m.p.ptr()], used as a P. *)
Definition curp : M nat :=
  fun w => match m_p (curm w) with
           | Some i => Done i w
           | None => Fail (Panic nil_deref)
           end.

(** Modelled from the spec: the scheduler lock of section 5 is a mutex that
    is not reentrant; [lock] and [unlock] (lock_futex.go, lock_sema.go) are
    not part of the sources at hand.  Locking a held mutex blocks, which for
    the one thread followed here is a deadlock; unlocking a free mutex is a
    fatal error. *)
Definition lock_sched : M unit :=
  let* s := get_sched in
  if sched_lock s then (fun _ => Fail Deadlock)
  else mod_sched (sched_set_lock true).
Definition unlock_sched : M unit :=
  let* s := get_sched in
  if sched_lock s then mod_sched (sched_set_lock false)
  else throw "unlock of unlocked lock".
Definition lock_gflock : M unit :=
  let* s := get_sched in
  if sched_gflock s then (fun _ => Fail Deadlock)
  else mod_sched (sched_set_gflock true).
Definition unlock_gflock : M unit :=
  let* s := get_sched in
  if sched_gflock s then mod_sched (sched_set_gflock false)
  else throw "unlock of unlocked lock".

(** [fastrand()] (stubs.go) draws the next 32-bit value of the random
    source of the state. *)
Definition fastrand : M Z :=
  fun w => Done (uint32 (rng w (rng_pos w))) (w_set_rng_pos (S (rng_pos w)) w).

(** [fastrandn(n)] (stubs.go) is
    [uint32(uint64(fastrand()) * uint64(n) >> 32)], a value below [n]. *)
Definition fastrandn (n : Z) : M Z :=
  let* r := fastrand in ret (uint32 (Z.shiftr (uint64 (r * n)) 32)).

(** [const randomizeScheduler = raceenabled]; [raceenabled] is a constant of
    the build (race.go, race0.go), carried by the state and never written. *)
Definition randomizeScheduler : M bool := gets raceenabled.

(** ** Atomics on the fields of a P *)

(** [atomic.Load(&_p_.f)], and the plain read [_p_.f]. *)
Definition p_load {A} (i : nat) (f : p -> A) : M A :=
  let* pp := getp i in ret (f pp).

Definition cas_runnext (i : nat) (old new : guintptr) : M bool :=
  let* pp := getp i in
  if p_runnext pp =? old then setp i (p_set_runnext new pp) ;;; ret true
  else ret false.

Definition cas_runqhead (i : nat) (old new : Z) : M bool :=
  let* pp := getp i in
  if p_runqhead pp =? old then setp i (p_set_runqhead new pp) ;;; ret true
  else ret false.


(** [q[i % len(q)]] for a run queue array. *)
Definition runq_at (q : list guintptr) (i : Z) : guintptr :=
  default 0 (q !! Z.to_nat (i mod runqlen)).

(** [_p_.runq[i % len(_p_.runq)] = gp] *)
Definition runq_set (pi : nat) (i : Z) (gp : guintptr) : M unit :=
  modp pi (fun pp => p_set_runq (<[Z.to_nat (i mod runqlen) := gp]> (p_runq pp)) pp).

(** A local array of g pointers indexed by a [uint32]. *)
Definition batch_at (b : list guintptr) (i : Z) : guintptr :=
  default 0 (b !! Z.to_nat i).

(** [for i := lo; i < lo+n; i++] with the local variables the body updates. *)
Fixpoint for_acc {S} (lo : Z) (n : nat) (body : Z -> S -> M S) (acc : S) : M S :=
  match n with
  | O => ret acc
  | S n' => let* acc' := body lo acc in for_acc (lo + 1) n' body acc'
  end.

(** ** The global run queue *)

(** Put gp on the global runnable queue.  Sched must be locked. *)
Definition globrunqput (gp : guintptr) : M unit :=
  modg gp (g_set_schedlink 0) ;;;
  let* s := get_sched in
  (if negb (sched_runqtail s =? 0)
   then modg (sched_runqtail s) (g_set_schedlink gp)
   else mod_sched (sched_set_runqhead gp)) ;;;
  mod_sched (sched_set_runqtail gp) ;;;
  mod_sched (fun s => sched_set_runqsize (int32 (sched_runqsize s + 1)) s).

(** Put gp at the head of the global runnable queue.  Sched must be locked. *)
Definition globrunqputhead (gp : guintptr) : M unit :=
  let* s := get_sched in
  modg gp (g_set_schedlink (sched_runqhead s)) ;;;
  mod_sched (sched_set_runqhead gp) ;;;
  let* s := get_sched in
  when (sched_runqtail s =? 0) (mod_sched (sched_set_runqtail gp)) ;;;
  mod_sched (fun s => sched_set_runqsize (int32 (sched_runqsize s + 1)) s).

(** Put a batch of runnable goroutines on the global runnable queue.
    Sched must be locked. *)
Definition globrunqputbatch (ghead gtail : guintptr) (n : Z) : M unit :=
  modg gtail (g_set_schedlink 0) ;;;
  let* s := get_sched in
  (if negb (sched_runqtail s =? 0)
   then modg (sched_runqtail s) (g_set_schedlink ghead)
   else mod_sched (sched_set_runqhead ghead)) ;;;
  mod_sched (sched_set_runqtail gtail) ;;;
  mod_sched (fun s => sched_set_runqsize (int32 (sched_runqsize s + n)) s).

(** ** The local run queue *)

(** runqempty returns true if _p_ has no Gs on its local run queue. *)
Definition runqempty (_p_ : nat) : M bool :=
  loop (let* head := p_load _p_ p_runqhead in
        let* tail := p_load _p_ p_runqtail in
        let* runnext := p_load _p_ p_runnext in
        let* tail' := p_load _p_ p_runqtail in
        if tail =? tail' then ret (Some ((head =? tail) && (runnext =? 0)))
        else ret None).

(** Put g and a batch of work from local runnable queue on global queue.
    Executed only by the owner P. *)
Definition runqputslow (_p_ : nat) (gp : guintptr) (h t : Z) : M bool :=
  let batch := replicate (Z.to_nat (runqlen / 2 + 1)) (0 : guintptr) in
  (* First, grab a batch from local queue. *)
  let n := uint32 (t - h) in
  let n := n / 2 in
  if negb (n =? runqlen / 2) then throw "runqputslow: queue is not full" else
  let* batch :=
    for_acc 0 (Z.to_nat n)
      (fun i b => let* q := p_load _p_ p_runq in
                  ret (<[Z.to_nat i := runq_at q (uint32 (h + i))]> b)) batch in
  let* ok := cas_runqhead _p_ h (uint32 (h + n)) in
  if negb ok then ret false else
  let batch := <[Z.to_nat n := gp]> batch in
  let* rs := randomizeScheduler in
  let* batch :=
    (if rs then
       for_acc 1 (Z.to_nat n)
         (fun i b => let* j := fastrandn (uint32 (i + 1)) in
                     ret (<[Z.to_nat j := batch_at b i]>
                            (<[Z.to_nat i := batch_at b j]> b))) batch
     else ret batch) in
  (* Link the goroutines. *)
  for_range 0 (Z.to_nat n)
    (fun i => modg (batch_at batch i) (g_set_schedlink (batch_at batch (i + 1)))) ;;;
  (* Now put the batch on global queue. *)
  lock_sched ;;;
  globrunqputbatch (batch_at batch 0) (batch_at batch n) (int32 (uint32 (n + 1))) ;;;
  unlock_sched ;;;
  ret true.

(** runqput tries to put g on the local runnable queue.
    If next is false, runqput adds g to the tail of the runnable queue.
    If next is true, runqput puts g in the _p_.runnext slot.
    If the run queue is full, runnext puts g on the global queue.
    Executed only by the owner P. *)
Definition runqput (_p_ : nat) (gp : guintptr) (next : bool) : M unit :=
  let* rs := randomizeScheduler in
  let* next :=
    (if rs && next
     then let* r := fastrand in ret (if r mod 2 =? 0 then false else next)
     else ret next) in
  let* kicked :=
    (if next then
       let* oldnext :=
         loop (let* oldnext := p_load _p_ p_runnext in
               let* ok := cas_runnext _p_ oldnext gp in
               ret (if ok then Some oldnext else None)) in
       (* Kick the old runnext out to the regular run queue. *)
       ret (if oldnext =? 0 then None else Some oldnext)
     else ret (Some gp)) in
  match kicked with
  | None => ret tt
  | Some gp =>
      loop (let* h := p_load _p_ p_runqhead in
            let* t := p_load _p_ p_runqtail in
            if uint32 (t - h) <? runqlen then
              runq_set _p_ t gp ;;;
              modp _p_ (p_set_runqtail (uint32 (t + 1))) ;;;
              ret (Some tt)
            else
              let* ok := runqputslow _p_ gp h t in
              (* the queue is not full, now the put above must succeed *)
              ret (if ok then Some tt else None))
  end.

(** Get g from local runnable queue.
    If inheritTime is true, gp should inherit the remaining time in the
    current time slice.  Executed only by the owner P. *)
Definition runqget (_p_ : nat) : M (guintptr * bool) :=
  (* If there's a runnext, it's the next G to run. *)
  let* r :=
    loop (let* next := p_load _p_ p_runnext in
          if next =? 0 then ret (Some None)
          else let* ok := cas_runnext _p_ next 0 in
               ret (if ok then Some (Some next) else None)) in
  match r with
  | Some next => ret (next, true)
  | None =>
      loop (let* h := p_load _p_ p_runqhead in
            let* t := p_load _p_ p_runqtail in
            if t =? h then ret (Some (0, false))
            else
              let* gp := p_load _p_ (fun pp => runq_at (p_runq pp) h) in
              let* ok := cas_runqhead _p_ h (uint32 (h + 1)) in
              ret (if ok then Some (gp, false) else None))
  end.

(** One turn of the loop of runqgrab, after [h] and [t] have been loaded.
    [batch] is the P whose run queue array is the ring buffer written to.
    The result is [None] when the turn ends in [continue]. *)
Definition runqgrab_body (_p_ : nat) (batch : nat) (batchHead : Z)
    (stealRunNextG : bool) (h t : Z) : M (option Z) :=
  let n := uint32 (t - h) in
  let n := uint32 (n - n / 2) in
  if n =? 0 then
    if stealRunNextG then
      (* Try to steal from _p_.runnext. *)
      let* next := p_load _p_ p_runnext in
      if negb (next =? 0) then
        let* st := p_load _p_ p_status in
        when (st =? _Prunning)
          (let* win := gets windows in
           if negb win then emit (EvUsleep 3) else emit EvOsyield) ;;;
        let* ok := cas_runnext _p_ next 0 in
        if negb ok then ret None
        else runq_set batch batchHead next ;;; ret (Some 1)
      else ret (Some 0)
    else ret (Some 0)
  else if n >? runqlen / 2 then ret None (* read inconsistent h and t *)
  else
    for_range 0 (Z.to_nat n)
      (fun i => let* gv := p_load _p_ (fun pp => runq_at (p_runq pp) (uint32 (h + i))) in
                runq_set batch (uint32 (batchHead + i)) gv) ;;;
    let* ok := cas_runqhead _p_ h (uint32 (h + n)) in
    ret (if ok then Some n else None).

(** Grabs a batch of goroutines from _p_'s runnable queue into batch.
    Batch is a ring buffer starting at batchHead.
    Returns number of grabbed goroutines.  Can be executed by any P. *)
Definition runqgrab (_p_ : nat) (batch : nat) (batchHead : Z)
    (stealRunNextG : bool) : M Z :=
  loop (let* h := p_load _p_ p_runqhead in
        let* t := p_load _p_ p_runqtail in
        runqgrab_body _p_ batch batchHead stealRunNextG h t).

(** Steal half of elements from local runnable queue of p2
    and put onto local runnable queue of p.
    Returns one of the stolen elements (or nil if failed). *)
Definition runqsteal (_p_ p2 : nat) (stealRunNextG : bool) : M guintptr :=
  let* t := p_load _p_ p_runqtail in
  let* n := runqgrab p2 _p_ t stealRunNextG in
  if n =? 0 then ret 0 else
  let n := uint32 (n - 1) in
  let* gp := p_load _p_ (fun pp => runq_at (p_runq pp) (uint32 (t + n))) in
  if n =? 0 then ret gp else
  let* h := p_load _p_ p_runqhead in
  if uint32 (uint32 (t - h) + n) >=? runqlen then throw "runqsteal: runq overflow" else
  modp _p_ (p_set_runqtail (uint32 (t + n))) ;;;
  ret gp.

(** Try get a batch of G's from the global runnable queue.
    Sched must be locked. *)
Definition globrunqget (_p_ : nat) (max : Z) : M guintptr :=
  let* s := get_sched in
  if sched_runqsize s =? 0 then ret 0 else
  let* procs := gets gomaxprocs in
  if procs =? 0 then panic "integer divide by zero" else
  let n := int32 (int32 (Z.quot (sched_runqsize s) procs) + 1) in
  let n := if n >? sched_runqsize s then sched_runqsize s else n in
  let n := if (max >? 0) && (n >? max) then max else n in
  let n := if n >? runqlen / 2 then runqlen / 2 else n in
  mod_sched (sched_set_runqsize (int32 (sched_runqsize s - n))) ;;;
  let* s := get_sched in
  when (sched_runqsize s =? 0) (mod_sched (sched_set_runqtail 0)) ;;;
  let* s := get_sched in
  let gp := sched_runqhead s in
  let* gv := readg gp in
  mod_sched (sched_set_runqhead (g_schedlink gv)) ;;;
  for_range 0 (Z.to_nat (int32 (n - 1)))
    (fun _ => let* s := get_sched in
              let gp1 := sched_runqhead s in
              let* gv1 := readg gp1 in
              mod_sched (sched_set_runqhead (g_schedlink gv1)) ;;;
              runqput _p_ gp1 false) ;;;
  ret gp.
(** ** Random enumeration of the P's *)

(** [gcd]: the loop [for b != 0 { a, b = b, a%b }].  The second argument
    decreases at every turn, so [b + 1] turns are enough. *)
Fixpoint gcd_loop (n : nat) (a b : Z) : Z :=
  match n with
  | O => a
  | S n' => if negb (b =? 0) then gcd_loop n' b (a mod b) else a
  end.
Definition gcd (a b : Z) : Z := gcd_loop (S (Z.to_nat b)) a b.

(** [ord.reset(count)]: the loop [for i := 1; i <= count; i++] appends the
    [i] coprime to [count]. *)
Fixpoint reset_loop (i : Z) (n : nat) (count : Z) (coprimes : list Z) : list Z :=
  match n with
  | O => coprimes
  | S n' =>
      reset_loop (i + 1) n' count
        (if gcd i count =? 1 then coprimes ++ [i] else coprimes)
  end.
Definition randomOrder_reset (count : Z) : randomOrder :=
  mkOrd count (reset_loop 1 (Z.to_nat count) count []).

(** [ord.start(i)] *)
Definition randomOrder_start (ord : randomOrder) (i : Z) : M randomEnum :=
  if ord_count ord =? 0 then panic "integer divide by zero" else
  let len := Z.of_nat (length (ord_coprimes ord)) in
  if len =? 0 then panic "integer divide by zero" else
  match ord_coprimes ord !! Z.to_nat (i mod len) with
  | Some inc => ret (mkEnum 0 (ord_count ord) (i mod ord_count ord) inc)
  | None => panic out_of_range
  end.

Definition enum_done (enum : randomEnum) : bool :=
  enum_i enum =? enum_count enum.
Definition enum_next (enum : randomEnum) : randomEnum :=
  mkEnum (uint32 (enum_i enum + 1)) (enum_count enum)
         (uint32 (enum_pos enum + enum_inc enum) mod enum_count enum)
         (enum_inc enum).
Definition enum_position (enum : randomEnum) : Z := enum_pos enum.

(** [for ; !enum.done(); enum.next() { body }], where [body] may leave the
    loop with a result.  [enum.i] counts up to [enum.count], so [n] turns
    are enough for [n] at least [enum.count - enum.i]. *)
Fixpoint enum_for {A} (n : nat) (enum : randomEnum)
    (body : randomEnum -> M (option A)) : M (option A) :=
  if enum_done enum then ret None else
  match n with
  | O => fun _ => Fail OutOfFuel
  | S n' =>
      let* r := body enum in
      match r with
      | Some a => ret (Some a)
      | None => enum_for n' (enum_next enum) body
      end
  end.

(** [for i := lo; i < lo+n; i++ { body }], where [body] may leave the loop
    with a result. *)
Fixpoint for_until {A} (lo : Z) (n : nat) (body : Z -> M (option A)) : M (option A) :=
  match n with
  | O => ret None
  | S n' =>
      let* r := body lo in
      match r with
      | Some a => ret (Some a)
      | None => for_until (lo + 1) n' body
      end
  end.

(** ** The stealing phase of findrunnable *)

(** Where the stealing phase of findrunnable (from [// Steal work from other
    P's.] to the label [stop]) goes next. *)
Inductive steal_exit :=
  | StealReturn (gp : guintptr)   (* return gp, false *)
  | StealTop                      (* goto top *)
  | StealStop.                    (* goto stop, or the loops ran out *)

(** One pass: [for enum := stealOrder.start(fastrand()); ...]. *)
Definition steal_pass (_p_ : nat) (i : Z) : M (option steal_exit) :=
  let* seed := fastrand in
  let* ord := gets stealOrder in
  let* enum := randomOrder_start ord seed in
  enum_for (Z.to_nat (enum_count enum)) enum
    (fun enum =>
       let* s := get_sched in
       if negb (sched_gcwaiting s =? 0) then ret (Some StealTop) else
       let stealRunNextG := i >? 2 in (* first look for ready queues with more than 1 g *)
       let* gp := runqsteal _p_ (Z.to_nat (enum_position enum)) stealRunNextG in
       if negb (gp =? 0) then ret (Some (StealReturn gp)) else ret None).

Definition findrunnable_steal : M steal_exit :=
  let* _p_ := curp in
  (* Steal work from other P's. *)
  let* procs := gets (fun w => uint32 (gomaxprocs w)) in
  let* s := get_sched in
  if sched_npidle s =? uint32 (procs - 1) then
    (* Either GOMAXPROCS=1 or everybody, except for us, is idle already. *)
    ret StealStop
  else
  (* If number of spinning M's >= number of busy P's, block. *)
  let* spinning := gets (fun w => m_spinning (curm w)) in
  let* s := get_sched in
  if negb spinning
     && (uint32 (2 * sched_nmspinning s) >=? uint32 (procs - sched_npidle s))
  then ret StealStop
  else
  let* spinning := gets (fun w => m_spinning (curm w)) in
  when (negb spinning)
    (mod_m (m_set_spinning true) ;;;
     mod_sched (fun s => sched_set_nmspinning (uint32 (sched_nmspinning s + 1)) s)) ;;;
  let* r := for_until 0 4 (steal_pass _p_) in
  match r with
  | Some e => ret e
  | None => ret StealStop
  end.

(** ** G status *)

Definition readgstatus (gp : guintptr) : M Z :=
  let* gv := readg gp in ret (g_atomicstatus gv).

(** [atomic.Cas(&gp.atomicstatus, old, new)] *)
Definition cas_gstatus (gp : guintptr) (old new : Z) : M bool :=
  let* gv := readg gp in
  if g_atomicstatus gv =? old
  then modg gp (g_set_atomicstatus new) ;;; ret true
  else ret false.

(** casgstatus will loop if the g->atomicstatus is in a Gscan status until
    the routine that put it in the Gscan state is finished.  The back-off
    between two attempts (procyield or osyield, chosen by the clock) is
    recorded as one event. *)
Definition casgstatus (gp : guintptr) (oldval newval : Z) : M unit :=
  if negb (Z.land oldval _Gscan =? 0) || negb (Z.land newval _Gscan =? 0)
     || (oldval =? newval)
  then throw "casgstatus: bad incoming values" else
  let* bad :=
    (if oldval =? _Grunning
     then let* gv := readg gp in ret (g_gcscanvalid gv)
     else ret false) in
  if bad then throw "casgstatus" else
  (* loop if gp->atomicstatus is in a scan state giving
     GC time to finish and change the state to oldval. *)
  loop (let* ok := cas_gstatus gp oldval newval in
        if ok then ret (Some tt) else
        let* gv := readg gp in
        if (oldval =? _Gwaiting) && (g_atomicstatus gv =? _Grunnable)
        then throw "casgstatus: waiting for Gwaiting but is Grunnable"
        else emit EvProcyield ;;; ret None) ;;;
  when (newval =? _Grunning) (modg gp (g_set_gcscanvalid false)).

(** ** Waking and readying *)

(** Modelled from the spec: the sentinel [stackPreempt] of section 4.8
    (stack.go), the value of a 64-bit target. *)
Definition stackPreempt : Z := 18446744073709550302.

(** Tries to add one more P to execute G's.
    Called when a G is made runnable (newproc, ready).
    [startm] manages threads; the call is recorded. *)
Definition wakep : M unit :=
  (* be conservative about spinning threads *)
  let* s := get_sched in
  if negb (sched_nmspinning s =? 0) then ret tt else
  mod_sched (sched_set_nmspinning 1) ;;;
  emit (EvStartm None true).

(** [_g_.m.locks--] and the restoring of the preemption request that ends
    ready and newproc1. *)
Definition unlock_m : M unit :=
  mod_m (fun x => m_set_locks (int32 (m_locks x - 1)) x) ;;;
  let* _g_ := gets getg in
  let* locks := gets (fun w => m_locks (curm w)) in
  if locks =? 0 then
    let* gv := readg _g_ in
    when (g_preempt gv) (modg _g_ (g_set_stackguard0 stackPreempt))
  else ret tt.


(** ** The monitor's retake *)






(** ** Goroutine creation *)

(** Number of goroutine ids to grab from sched.goidgen to local per-P cache
    at once. *)
Definition _GoidCacheBatch : Z := 16.

(** Modelled from the spec: the allocator and the stack manager of section 6
    ([new G], [stackalloc]) are supplied by collaborators; they and the
    constants of the stack layout are declared outside proc.go (stack.go,
    malloc.go, traceback.go, internal/sys), and the code is embedded over
    any choice of them.  [stackalloc n w] is the pair [(stack.lo, stack.hi)]
    of the stack allocated in state [w]. *)
Record platform := mkPlatform {
  _StackMin : Z;
  _StackSystem : Z;
  _FixedStack : Z;
  _StackGuard : Z;
  RegSize : Z;
  MinFrameSize : Z;
  SpAlign : Z;
  usesLR : bool;
  round2 : Z -> Z;
  stackalloc : Z -> world -> Z * Z;
  isSystemGoroutine : world -> g -> bool
}.

Definition lock_allg : M unit :=
  fun w => if allglock w then Fail Deadlock else Done tt (w_set_allglock true w).
Definition unlock_allg : M unit :=
  fun w => if allglock w then Done tt (w_set_allglock false w)
           else Fail (Throw "unlock of unlocked lock").

(** [new(g)]: a zeroed g at an address that is not in use (and not nil). *)
Definition g_zero : g := mkG 0 0 false false 0 0 0 0 0 0.
Definition new_g : M guintptr :=
  fun w => let a := fresh ({[0]} ∪ dom (heap w) : gset Z) in
           Done a (w_set_heap (<[a := g_zero]> (heap w)) w).

Definition allgadd (gp : guintptr) : M unit :=
  let* st := readgstatus gp in
  if st =? _Gidle then throw "allgadd: bad status Gidle" else
  lock_allg ;;;
  modify (fun w => w_set_allgs (allgs w ++ [gp]) w) ;;;
  unlock_allg.

(** The loop [for _p_.gfreecnt < 32] of gfget, which moves free g's from
    the global lists to the list of the P.  [gfreecnt] grows at every turn,
    so [n] turns are enough for [n] at least [32 - gfreecnt]. *)
Fixpoint gfget_fill (n : nat) (_p_ : nat) : M unit :=
  let* pp := getp _p_ in
  if negb (p_gfreecnt pp <? 32) then ret tt else
  match n with
  | O => fun _ => Fail OutOfFuel
  | S n' =>
      let* s := get_sched in
      let* moved :=
        (if negb (sched_gfreeStack s =? 0) then
           (* Prefer Gs with stacks. *)
           let gp := sched_gfreeStack s in
           let* gv := readg gp in
           mod_sched (fun s => sched_set_gfree (g_schedlink gv) (sched_gfreeNoStack s)
                                 (sched_ngfree s) s) ;;;
           ret (Some gp)
         else if negb (sched_gfreeNoStack s =? 0) then
           let gp := sched_gfreeNoStack s in
           let* gv := readg gp in
           mod_sched (fun s => sched_set_gfree (sched_gfreeStack s) (g_schedlink gv)
                                 (sched_ngfree s) s) ;;;
           ret (Some gp)
         else ret None) in
      match moved with
      | None => ret tt (* break *)
      | Some gp =>
          modp _p_ (fun pp => p_set_gfree (p_gfree pp) (int32 (p_gfreecnt pp + 1)) pp) ;;;
          mod_sched (fun s => sched_set_gfree (sched_gfreeStack s) (sched_gfreeNoStack s)
                                (int32 (sched_ngfree s - 1)) s) ;;;
          let* head := p_load _p_ p_gfree in
          modg gp (g_set_schedlink head) ;;;
          modp _p_ (fun pp => p_set_gfree gp (p_gfreecnt pp) pp) ;;;
          gfget_fill n' _p_
      end
  end.

Section Platform.
Variable pl : platform.

(** Get from gfree list.  If local list is empty, grab a batch from global
    list.  (The hooks of the race detector and of msan are not
    modelled.) *)
Definition gfget (_p_ : nat) : M guintptr :=
  loop (let* gp := p_load _p_ p_gfree in
        let* s := get_sched in
        if (gp =? 0)
           && (negb (sched_gfreeStack s =? 0) || negb (sched_gfreeNoStack s =? 0))
        then
          lock_gflock ;;;
          let* cnt := p_load _p_ p_gfreecnt in
          gfget_fill (Z.to_nat (32 - cnt)) _p_ ;;;
          unlock_gflock ;;;
          ret None (* goto retry *)
        else
          (if negb (gp =? 0) then
             let* gv := readg gp in
             modp _p_ (fun pp => p_set_gfree (g_schedlink gv)
                                   (int32 (p_gfreecnt pp - 1)) pp) ;;;
             if g_stack_lo gv =? 0 then
               (* Stack was deallocated in gfput.  Allocate a new one. *)
               let* st := gets (stackalloc pl (_FixedStack pl)) in
               modg gp (g_set_stack (fst st) (snd st)) ;;;
               modg gp (fun x => g_set_stackguard0
                                   (uint64 (g_stack_lo x + _StackGuard pl)) x)
             else ret tt
           else ret tt) ;;;
          ret (Some gp)).

(** Allocate a new g, with a stack big enough for stacksize bytes.
    ([stackguard1] is not modelled.) *)
Definition malg (stacksize : Z) : M guintptr :=
  let* newg := new_g in
  (if stacksize >=? 0 then
     let stacksize := round2 pl (int32 (_StackSystem pl + stacksize)) in
     let* st := gets (stackalloc pl (uint32 stacksize)) in
     modg newg (g_set_stack (fst st) (snd st)) ;;;
     modg newg (fun x => g_set_stackguard0 (uint64 (g_stack_lo x + _StackGuard pl)) x)
   else ret tt) ;;;
  ret newg.

(** Create a new g running fn with narg bytes of arguments starting at
    argp.  callerpc is the address of the go statement that created this.
    The new g is put on the queue of g's waiting to run.

    [fn] is a pointer to a funcval: [None] is nil, [Some pc] points to a
    funcval whose [fn] field is [pc].  The memory of the stacks is not
    part of the state: the copy of the arguments is recorded, and the
    writes to [newg.sched] and to the frame, the ancestors (a debug
    setting), the profiler labels and the hooks of the race detector and
    of the tracer are not modelled. *)
Definition newproc1 (fn : option Z) (argp : Z) (narg : Z) (callergp : guintptr)
    (callerpc : Z) : M unit :=
  match fn with
  | None =>
      mod_m (m_set_throwing (-1)) ;;; (* do not dump full stacks *)
      throw "go of nil func value"
  | Some fn_fn =>
      (* disable preemption because it can be holding p in a local var *)
      mod_m (fun x => m_set_locks (int32 (m_locks x + 1)) x) ;;;
      let siz := narg in
      let siz := int32 (andnot (int32 (siz + 7)) 7) in
      (* We could allocate a larger initial stack if necessary.
         Not worth it: this is almost always an error.
         4*sizeof(uintreg): extra space added below
         sizeof(uintreg): caller's LR (arm) or return address (x86, in gostartcall). *)
      if siz >=? _StackMin pl - 4 * RegSize pl - RegSize pl then
        throw "newproc: function arguments too large for new goroutine"
      else
      let* _p_ := curp in
      let* newg := gfget _p_ in
      let* newg :=
        (if newg =? 0 then
           let* newg := malg (_StackMin pl) in
           casgstatus newg _Gidle _Gdead ;;;
           (* publishes with a g->status of Gdead so GC scanner doesn't
              look at uninitialized stack. *)
           allgadd newg ;;;
           ret newg
         else ret newg) in
      let* gv := readg newg in
      if g_stack_hi gv =? 0 then throw "newproc1: newg missing stack" else
      let* st := readgstatus newg in
      if negb (st =? _Gdead) then throw "newproc1: new g is not Gdead" else
      (* extra space in case of reads slightly beyond frame *)
      let totalSize := uint64 (4 * RegSize pl + uint64 siz + MinFrameSize pl) in
      (* align to spAlign *)
      let totalSize :=
        uint64 (totalSize + Z.land (uint64 (- totalSize)) (SpAlign pl - 1)) in
      let sp := uint64 (g_stack_hi gv - totalSize) in
      let spArg := if usesLR pl then uint64 (sp + MinFrameSize pl) else sp in
      when (narg >? 0) (emit (EvMemmove spArg argp (uint64 narg))) ;;;
      modg newg (g_set_gopc callerpc) ;;;
      modg newg (g_set_startpc fn_fn) ;;;
      let* gv := readg newg in
      let* sys := gets (fun w => isSystemGoroutine pl w gv) in
      when sys (mod_sched (fun s => sched_set_ngsys (uint32 (sched_ngsys s + 1)) s)) ;;;
      modg newg (g_set_gcscanvalid false) ;;;
      casgstatus newg _Gdead _Grunnable ;;;
      let* pp := getp _p_ in
      when (p_goidcache pp =? p_goidcacheend pp)
        ((* Sched.goidgen is the last allocated id,
            this batch must be [sched.goidgen+1, sched.goidgen+GoidCacheBatch].
            At startup sched.goidgen=0, so main goroutine receives goid=1. *)
         mod_sched (fun s => sched_set_goidgen
                               (uint64 (sched_goidgen s + _GoidCacheBatch)) s) ;;;
         let* s := get_sched in
         let cache := uint64 (sched_goidgen s - (_GoidCacheBatch - 1)) in
         modp _p_ (p_set_goidcache cache (uint64 (cache + _GoidCacheBatch)))) ;;;
      let* pp := getp _p_ in
      modg newg (g_set_goid (int64 (p_goidcache pp))) ;;;
      modp _p_ (fun pp => p_set_goidcache (uint64 (p_goidcache pp + 1))
                            (p_goidcacheend pp) pp) ;;;
      runqput _p_ newg true ;;;
      let* s := get_sched in
      let* ms := gets mainStarted in
      when (negb (sched_npidle s =? 0) && (sched_nmspinning s =? 0) && ms) wakep ;;;
      unlock_m
  end.

(** Create a new g running fn with siz bytes of arguments.  Put it on the
    queue of g's waiting to run.  The compiler turns a go statement into a
    call to this.  [argp] (the address after [&fn] in the caller's frame)
    and [pc] (the caller's pc) are read from the caller's frame. *)
Definition newproc (siz : Z) (fn : option Z) (argp pc : Z) : M unit :=
  let* gp := gets getg in
  newproc1 fn argp siz gp pc.
End Platform.

(** * Abstractions of the state *)

(** The definitions below are used to state the properties: views of the
    queues as sequences, the states after an operation, and the concrete
    states on which the properties are run. *)

(** ** The P's, the g's and the local run queue *)

(** [allp[i]] is the P [pp], and the state in which it has been replaced. *)
Definition has_p (w : world) (i : nat) (pp : p) : Prop :=
  allp w !! i = Some (Some pp).

Definition upd_p (i : nat) (pp : p) (w : world) : world :=
  w_set_allp (<[i := Some pp]> (allp w)) w.

(** The number of entries of the ring of a P, and the entries from the head
    on. *)
Definition runq_count (pp : p) : Z := uint32 (p_runqtail pp - p_runqhead pp).
Definition runq_list (pp : p) : list guintptr :=
  map (fun k => runq_at (p_runq pp) (uint32 (p_runqhead pp + Z.of_nat k)))
      (seq 0 (Z.to_nat (runq_count pp))).

(** A P as the code keeps it: 32-bit head and tail and a 256-entry array. *)
Definition p_wf (pp : p) : Prop :=
  is_uint32 (p_runqhead pp) /\ is_uint32 (p_runqtail pp) /\
  length (p_runq pp) = 256%nat.

(** The effect of the fast paths on the P. *)
Definition p_push (gp : guintptr) (pp : p) : p :=
  p_set_runqtail (uint32 (p_runqtail pp + 1))
    (p_set_runq (<[Z.to_nat (p_runqtail pp mod runqlen) := gp]> (p_runq pp)) pp).
Definition p_pop (pp : p) : p :=
  p_set_runqhead (uint32 (p_runqhead pp + 1)) pp.

(** The ring buffer after the copy loop of runqgrab: entries [lo .. lo+n) of
    the victim, counted from [h], written from [bh] on. *)
Fixpoint ring_copy (src : list guintptr) (h bh lo : Z) (n : nat)
    (dst : list guintptr) : list guintptr :=
  match n with
  | O => dst
  | S n' =>
      ring_copy src h bh (lo + 1) n'
        (<[Z.to_nat (uint32 (bh + lo) mod runqlen) := runq_at src (uint32 (h + lo))]> dst)
  end.

(** ** States to run the code on *)

Definition tick_zero : sysmontick := mkTick 0 0 0 0.

(** A running P whose ring holds [gs] from slot 0 on and whose runnext slot
    holds [next]. *)
Definition p_with (gs : list guintptr) (next : guintptr) : p :=
  mkP _Prunning 0 0 tick_zero 0 (Z.of_nat (length gs))
      (gs ++ replicate (256 - length gs) 0) next 0 0 0 0.

(** A scheduler with empty queues, free locks and counters at 0. *)
Definition sched_zero : schedt := mkSched false false 0 0 0 0 0 0 0 0 0 0 0.

(** A g with a stack, in the given status and with the given [schedlink]. *)
Definition g_with (status : Z) (link : guintptr) : g :=
  mkG link status false false 0 0 4096 0 0 0.

(** An M that holds [allp[pp]] and no locks. *)
Definition m_on (pp : nat) : m := mkM 0 false 0 (Some pp) 0.

(** A state with the given g's and P's, an empty global queue and the M on
    [allp[0]]. *)
Definition world_with (gs : list (Z * g)) (ps : list p) (race : bool) : world :=
  mkWorld (list_to_map gs) (map fst gs) (map Some ps) sched_zero
          (Z.of_nat (length ps)) (mkOrd 0 []) (m_on 0) 0
          race false true (fun _ => 0) 0 [] 0 false false.

(** Half of the size of a snapshot [h], [t], rounded down. *)
Definition halved_count (h t : Z) : Z := uint32 (t - h) / 2.

(** ** The global run queue as a sequence *)

(** [lseg hp hd l tl]: following [schedlink] from [hd] visits exactly the
    g's of [l], in order, and arrives at [tl]. *)
Fixpoint lseg (hp : gmap Z g) (hd : guintptr) (l : list guintptr) (tl : guintptr) : Prop :=
  match l with
  | [] => hd = tl
  | x :: l' =>
      hd = x /\ x <> 0 /\
      exists gx, hp !! x = Some gx /\ lseg hp (g_schedlink gx) l' tl
  end.

(** The representation invariant of the global run queue: the chain from
    [sched.runqhead] is [l] and ends in nil, [sched.runqsize] is its length
    and [sched.runqtail] its last element (nil when there is none). *)
Definition globrunq (w : world) (l : list guintptr) : Prop :=
  lseg (heap w) (sched_runqhead (sched w)) l 0 /\
  sched_runqsize (sched w) = Z.of_nat (length l) /\
  sched_runqtail (sched w) = default 0 (last l).

(** The g's of a list are allocated and not nil. *)
Definition valid_gs (hp : gmap Z g) (l : list guintptr) : Prop :=
  Forall (fun x => x <> 0 /\ is_Some (hp !! x)) l.

(** The parts of the state that the queue operations leave alone. *)
Definition same_rest (w w' : world) : Prop :=
  getg w' = getg w /\ mainStarted w' = mainStarted w /\ allgs w' = allgs w /\
  stealOrder w' = stealOrder w /\ windows w' = windows w /\ rng w' = rng w /\
  allpLock w' = allpLock w /\ allglock w' = allglock w /\
  sched_npidle (sched w') = sched_npidle (sched w) /\
  sched_nmspinning (sched w') = sched_nmspinning (sched w) /\
  sched_gcwaiting (sched w') = sched_gcwaiting (sched w) /\
  sched_goidgen (sched w') = sched_goidgen (sched w) /\
  sched_ngsys (sched w') = sched_ngsys (sched w) /\
  sched_gflock (sched w') = sched_gflock (sched w) /\
  sched_gfreeStack (sched w') = sched_gfreeStack (sched w) /\
  sched_gfreeNoStack (sched w') = sched_gfreeNoStack (sched w) /\
  sched_ngfree (sched w') = sched_ngfree (sched w).

(** Two g's that differ at most in [schedlink], and heaps whose g's do. *)
Definition same_but_link (a b : g) : Prop :=
  g_set_schedlink 0 a = g_set_schedlink 0 b.
Definition heap_links (hp hp' : gmap Z g) : Prop :=
  forall y gy, hp !! y = Some gy ->
    exists gy', hp' !! y = Some gy' /\ same_but_link gy gy'.

(** The state in which the g at [gp] has been replaced. *)
Definition upd_g (gp : guintptr) (x : g) (w : world) : world :=
  w_set_heap (<[gp := x]> (heap w)) w.

(** The P after the g's of a list have been put at the tail of its ring. *)
Definition p_push_list (gs : list guintptr) (pp : p) : p :=
  foldl (fun acc gp => p_push gp acc) pp gs.

(** The share as the specification words it: [size / GOMAXPROCS + 1], capped
    at [size], at [max] if positive, and at half of the local capacity. *)
Definition fair_share (size procs max : Z) : Z :=
  let n := size / procs + 1 in
  let n := Z.min n size in
  let n := if 0 <? max then Z.min n max else n in
  Z.min n (runqlen / 2).

(** A decision procedure for [lseg], for closed states. *)
Fixpoint lsegb (hp : gmap Z g) (hd : guintptr) (l : list guintptr) (tl : guintptr) : bool :=
  match l with
  | [] => hd =? tl
  | x :: l' =>
      (hd =? x) && negb (x =? 0) &&
      match hp !! x with
      | Some gx => lsegb hp (g_schedlink gx) l' tl
      | None => false
      end
  end.

Definition globrunqb (w : world) (l : list guintptr) : bool :=
  lsegb (heap w) (sched_runqhead (sched w)) l 0 &&
  (sched_runqsize (sched w) =? Z.of_nat (length l)) &&
  (sched_runqtail (sched w) =? default 0 (last l)).

(** A state whose global queue is the chain [gs]. *)
Fixpoint chain_heap (st : Z) (gs : list guintptr) : list (Z * g) :=
  match gs with
  | [] => []
  | x :: rest => (x, g_with st (default 0 (head rest))) :: chain_heap st rest
  end.

Definition with_globrunq (gs : list guintptr) (w : world) : world :=
  w_set_sched
    (sched_set_runqsize (Z.of_nat (length gs))
       (sched_set_runqtail (default 0 (last gs))
          (sched_set_runqhead (default 0 (head gs)) (sched w))))
    (w_set_heap (list_to_map (chain_heap _Grunnable gs) ∪ heap w) w).

(** The batch array after the first loop of runqputslow. *)
Fixpoint gather (q : list guintptr) (h lo : Z) (n : nat) (b : list guintptr) : list guintptr :=
  match n with
  | O => b
  | S n' => gather q h (lo + 1) n' (<[Z.to_nat lo := runq_at q (uint32 (h + lo))]> b)
  end.

(** The heap after [batch[i].schedlink.set(batch[i+1])] for the g's of a
    list, in order. *)
Fixpoint link_all (hp : gmap Z g) (bl : list guintptr) : gmap Z g :=
  match bl with
  | x :: ((y :: _) as rest) =>
      match hp !! x with
      | Some gx => link_all (<[x := g_set_schedlink y gx]> hp) rest
      | None => hp
      end
  | _ => hp
  end.

(** The state a run ends in, if it ends. *)
Definition final {A} (o : outcome A) : option world :=
  match o with Done _ w => Some w | Fail _ => None end.

(** A state whose P 0 has a full ring of the goroutines 1 .. 256, with the
    goroutines 1 .. 257 allocated and the global queue empty. *)
Definition full_world (race : bool) : world :=
  world_with (map (fun k => (Z.of_nat k, g_with _Grunnable 0)) (seq 1 257))
             [p_with (map Z.of_nat (seq 1 256)) 0] race.

(** ** Stealing, retaking, readying *)

(** The positions one enumeration visits, in order. *)
Fixpoint enum_positions (n : nat) (enum : randomEnum) : list Z :=
  if enum_done enum then [] else
  match n with
  | O => []
  | S n' => enum_position enum :: enum_positions n' (enum_next enum)
  end.

(** Trying the victims of a list in order: what one pass does with the
    positions it enumerates. *)
Fixpoint try_victims (_p_ : nat) (stealRunNextG : bool) (vs : list Z) : M (option steal_exit) :=
  match vs with
  | [] => ret None
  | v :: vs' =>
      let* s := get_sched in
      if negb (sched_gcwaiting s =? 0) then ret (Some StealTop) else
      let* gp := runqsteal _p_ (Z.to_nat v) stealRunNextG in
      if negb (gp =? 0) then ret (Some (StealReturn gp)) else
      try_victims _p_ stealRunNextG vs'
  end.



(** The flag [next] after the coin of the randomized scheduler, and the
    state after the coin has been drawn. *)
Definition runqput_next (w : world) (next : bool) : bool :=
  if raceenabled w && next
  then negb (uint32 (rng w (rng_pos w)) mod 2 =? 0)
  else next.
Definition runqput_drawn (w : world) (next : bool) : world :=
  if raceenabled w && next then w_set_rng_pos (S (rng_pos w)) w else w.

(** The P after runqput when the ring has room. *)
Definition p_put (gp : guintptr) (next : bool) (pp : p) : p :=
  if next then
    if p_runnext pp =? 0 then p_set_runnext gp pp
    else p_push (p_runnext pp) (p_set_runnext gp pp)
  else p_push gp pp.

(** Heaps whose g's differ at most in [stackguard0]; in particular they keep
    their [schedlink], the one field that the queues read. *)
Definition same_but_guard (a b : g) : Prop :=
  g_set_stackguard0 0 a = g_set_stackguard0 0 b.
Definition heap_keeps_links (hp hp' : gmap Z g) : Prop :=
  forall y gy, hp !! y = Some gy ->
    exists gy', hp' !! y = Some gy' /\ g_schedlink gy' = g_schedlink gy /\
                g_atomicstatus gy' = g_atomicstatus gy /\ same_but_guard gy gy'.

(** The state after wakep has been called, when [wake] holds. *)
Definition woken (wake : bool) (w : world) : world :=
  if wake
  then w_set_trace (trace w ++ [EvStartm None true])
         (w_set_sched (sched_set_nmspinning 1 (sched w)) w)
  else w.


(** A state with one idle P and no spinning M, in which g 1 runs on the M
    and g 2 waits; the ring of P 0 is empty. *)
Definition ready_idle_world : world :=
  w_set_sched (mkSched false false 0 0 1 0 0 0 0 0 0 0 0)
    (w_set_getg 1
       (world_with [(1, g_with _Grunning 0); (2, g_with _Gwaiting 0)] [p_with [] 0] false)).

(** ** Goroutine creation *)

(** The size of the argument frame rounded up to 8 bytes, as an [int32],
    and the bound it is compared with. *)
Definition newproc_siz (narg : Z) : Z := int32 (andnot (int32 (narg + 7)) 7).
Definition newproc_limit (pl : platform) : Z :=
  _StackMin pl - 4 * RegSize pl - RegSize pl.

(** newproc1 from the check of the new g's stack on: what follows the
    choice of the g. *)
Definition newproc1_tail (pl : platform) (pc argp narg callerpc : Z) (_p_ : nat)
    (newg : guintptr) : M unit :=
  let siz := newproc_siz narg in
  let* gv := readg newg in
  if g_stack_hi gv =? 0 then throw "newproc1: newg missing stack" else
  let* st := readgstatus newg in
  if negb (st =? _Gdead) then throw "newproc1: new g is not Gdead" else
  let totalSize := uint64 (4 * RegSize pl + uint64 siz + MinFrameSize pl) in
  let totalSize :=
    uint64 (totalSize + Z.land (uint64 (- totalSize)) (SpAlign pl - 1)) in
  let sp := uint64 (g_stack_hi gv - totalSize) in
  let spArg := if usesLR pl then uint64 (sp + MinFrameSize pl) else sp in
  when (narg >? 0) (emit (EvMemmove spArg argp (uint64 narg))) ;;;
  modg newg (g_set_gopc callerpc) ;;;
  modg newg (g_set_startpc pc) ;;;
  let* gv := readg newg in
  let* sys := gets (fun w => isSystemGoroutine pl w gv) in
  when sys (mod_sched (fun s => sched_set_ngsys (uint32 (sched_ngsys s + 1)) s)) ;;;
  modg newg (g_set_gcscanvalid false) ;;;
  casgstatus newg _Gdead _Grunnable ;;;
  let* pp := getp _p_ in
  when (p_goidcache pp =? p_goidcacheend pp)
    (mod_sched (fun s => sched_set_goidgen
                          (uint64 (sched_goidgen s + _GoidCacheBatch)) s) ;;;
     let* s := get_sched in
     let cache := uint64 (sched_goidgen s - (_GoidCacheBatch - 1)) in
     modp _p_ (p_set_goidcache cache (uint64 (cache + _GoidCacheBatch)))) ;;;
  let* pp := getp _p_ in
  modg newg (g_set_goid (int64 (p_goidcache pp))) ;;;
  modp _p_ (fun pp => p_set_goidcache (uint64 (p_goidcache pp + 1))
                        (p_goidcacheend pp) pp) ;;;
  runqput _p_ newg true ;;;
  let* s := get_sched in
  let* ms := gets mainStarted in
  when (negb (sched_npidle s =? 0) && (sched_nmspinning s =? 0) && ms) wakep ;;;
  unlock_m.

(** The copy of the argument frame to the stack of the new g, as recorded. *)
Definition newproc1_copy (pl : platform) (argp narg : Z) (gv : g) : list event :=
  let siz := newproc_siz narg in
  let totalSize := uint64 (4 * RegSize pl + uint64 siz + MinFrameSize pl) in
  let totalSize :=
    uint64 (totalSize + Z.land (uint64 (- totalSize)) (SpAlign pl - 1)) in
  let sp := uint64 (g_stack_hi gv - totalSize) in
  let spArg := if usesLR pl then uint64 (sp + MinFrameSize pl) else sp in
  if narg >? 0 then [EvMemmove spArg argp (uint64 narg)] else [].

(** The stack allocator never returns a stack that ends at address 0. *)
Definition stack_ok (pl : platform) : Prop :=
  forall n w, snd (stackalloc pl n w) <> 0.

(** What the steps of newproc1 before the run queue leave alone: of the
    scheduler, all but the lists of free g's. *)
Definition same_sched_state (w w' : world) : Prop :=
  (exists a b c, sched w' = sched_set_gfree a b c (sched w)) /\
  curm w' = curm w /\ trace w' = trace w /\
  getg w' = getg w /\ mainStarted w' = mainStarted w /\
  raceenabled w' = raceenabled w /\ rng w' = rng w /\ rng_pos w' = rng_pos w.

(** The address of the g that [new(g)] allocates. *)
Definition new_g_addr (w : world) : guintptr := fresh ({[0]} ∪ dom (heap w) : gset Z).

(** A free g as gfput leaves it: dead, and with a stack unless the stack
    was released ([stack.lo] and [stack.hi] both 0). *)
Definition free_g_ok (gv : g) : Prop :=
  g_atomicstatus gv = _Gdead /\ (g_stack_lo gv <> 0 -> g_stack_hi gv <> 0).

(** The global lists of free g's are the chains [gs] (from
    [sched.gfreeStack]) and [gn] (from [sched.gfreeNoStack]). *)
Definition gfree_lists (w : world) (gs gn : list guintptr) : Prop :=
  lseg (heap w) (sched_gfreeStack (sched w)) gs 0 /\
  lseg (heap w) (sched_gfreeNoStack (sched w)) gn 0 /\
  NoDup (gs ++ gn) /\
  Forall (fun y => exists gy, heap w !! y = Some gy /\ free_g_ok gy) (gs ++ gn).

(** The free g's are in order, and [newg] is the g that newproc1 takes:
    - with no free g at all, the g that malg allocates (the lock of allgs
      is free for allgadd);
    - with a free g on the list of the P, the first of them;
    - with none on the P but some on the global lists, the last of the g's
      that gfget moves to the P: up to [32 - gfreecnt] from the front of
      [gs ++ gn] (the lock of the lists is free, and the jump back to [retry]
      has its unit of fuel). *)
Definition free_g_ready (w : world) (pp : p) (newg : guintptr) : Prop :=
  (p_gfree pp = 0 /\ sched_gfreeStack (sched w) = 0 /\ sched_gfreeNoStack (sched w) = 0 /\
   allglock w = false /\ newg = new_g_addr w) \/
  (p_gfree pp <> 0 /\ newg = p_gfree pp /\
   exists gv, heap w !! newg = Some gv /\ free_g_ok gv) \/
  (p_gfree pp = 0 /\ -2147483648 <= p_gfreecnt pp < 32 /\
   sched_gflock (sched w) = false /\ (1 <= fuel w)%nat /\
   exists gs gn, gfree_lists w gs gn /\
               last (take (Z.to_nat (32 - p_gfreecnt pp)) (gs ++ gn)) = Some newg).

(** The P after newproc1 took a free g and an id from it: the run queue is
    as it was. *)
Definition p_used (a b c d : Z) (pp : p) : p :=
  p_set_goidcache a b (p_set_gfree c d pp).

(** The constants of linux/amd64, with a stack allocator that hands out the
    block at one address, enough to run newproc1 once. *)
Definition platform_amd64 : platform :=
  mkPlatform 2048 0 2048 880 8 0 1 false
             (fun x => 2 ^ Z.log2_up x)
             (fun n _ => (65536, 65536 + uint32 n))
             (fun _ _ => false).

(** The state [ready_idle_world] with one unit of fuel and the dead g 5,
    whose stack has been released, on the global list of free g's without
    a stack. *)
Definition newproc_refill_world : world :=
  w_set_fuel 1
    (w_set_sched (sched_set_gfree 0 5 1 (sched ready_idle_world))
       (upd_g 5 (mkG 0 _Gdead false false 0 0 0 0 0 0) ready_idle_world)).

(** * More of proc.go *)

(** ** The scan bit of the G status *)

(** [dumpgstatus] prints the status of [gp] and of the running g; the
    output is recorded as one event. *)
Definition dumpgstatus (gp : guintptr) : M unit :=
  let* _g_ := gets getg in
  let* _ := readg gp in
  let* _ := readgstatus gp in
  let* _ := readg _g_ in
  let* _ := readgstatus _g_ in
  emit (EvDumpgstatus gp).

Definition isscanstatus (status : Z) : M bool :=
  if status =? _Gscan then throw "isscanstatus: Bad status Gscan"
  else ret (Z.land status _Gscan =? _Gscan).

(** The Gscanstatuses are acting like locks and this releases them.
    If it proves to be a performance hit we should be able to make these
    simple atomic stores but for now we are going to throw if
    we see an inconsistent state. *)
Definition casfrom_Gscanstatus (gp : guintptr) (oldval newval : Z) : M unit :=
  let* success :=
    (* Check that transition is valid. *)
    (if (oldval =? _Gscanrunnable) || (oldval =? _Gscanwaiting)
        || (oldval =? _Gscanrunning) || (oldval =? _Gscansyscall)
     then
       if newval =? andnot oldval _Gscan
       then cas_gstatus gp oldval newval
       else ret false
     else
       dumpgstatus gp ;;;
       throw "casfrom_Gscanstatus:top gp->status is not in scan state") in
  if negb success then
    dumpgstatus gp ;;;
    throw "casfrom_Gscanstatus: gp->status is not in scan state"
  else ret tt.

(** This will return false if the gp is not in the expected status and the
    cas fails.  This acts like a lock acquire while the casfromgstatus acts
    like a lock release. *)
Definition castogscanstatus (gp : guintptr) (oldval newval : Z) : M bool :=
  if (oldval =? _Grunnable) || (oldval =? _Grunning)
     || (oldval =? _Gwaiting) || (oldval =? _Gsyscall)
  then
    if newval =? Z.lor oldval _Gscan
    then cas_gstatus gp oldval newval
    else throw "castogscanstatus"
  else throw "castogscanstatus".

(** casgstatus(gp, oldstatus, Gcopystack), assuming oldstatus is Gwaiting or
    Grunnable.  Returns old status. *)
Definition casgcopystack (gp : guintptr) : M Z :=
  loop (let* st := readgstatus gp in
        let oldstatus := andnot st _Gscan in
        if negb (oldstatus =? _Gwaiting) && negb (oldstatus =? _Grunnable)
        then throw "copystack: bad status, not Gwaiting or Grunnable"
        else
          let* ok := cas_gstatus gp oldstatus _Gcopystack in
          ret (if ok then Some oldstatus else None)).

(** ** The lists of free g's *)

(** The body of the loops of gfput and of gfpurge, which is the same in
    both: the first g of the list of the P goes to the head of the global
    list of its kind. *)
Definition gfree_to_global (_p_ : nat) : M unit :=
  modp _p_ (fun pp => p_set_gfree (p_gfree pp) (int32 (p_gfreecnt pp - 1)) pp) ;;;
  let* gp := p_load _p_ p_gfree in
  let* gv := readg gp in
  modp _p_ (fun pp => p_set_gfree (g_schedlink gv) (p_gfreecnt pp) pp) ;;;
  let* gv := readg gp in
  (if g_stack_lo gv =? 0 then
     let* s := get_sched in
     modg gp (g_set_schedlink (sched_gfreeNoStack s)) ;;;
     mod_sched (fun s => sched_set_gfree (sched_gfreeStack s) gp (sched_ngfree s) s)
   else
     let* s := get_sched in
     modg gp (g_set_schedlink (sched_gfreeStack s)) ;;;
     mod_sched (fun s => sched_set_gfree gp (sched_gfreeNoStack s) (sched_ngfree s) s)) ;;;
  mod_sched (fun s => sched_set_gfree (sched_gfreeStack s) (sched_gfreeNoStack s)
                        (int32 (sched_ngfree s + 1)) s).

(** The loops [for _p_.gfreecnt >= 32] of gfput and [for _p_.gfreecnt != 0]
    of gfpurge: the same body under two conditions [cond] on [gfreecnt].
    [gfreecnt] is a 32-bit counter that falls by one at every turn; [n]
    bounds the number of turns. *)
Fixpoint gfree_loop (cond : Z -> bool) (n : nat) (_p_ : nat) : M unit :=
  let* cnt := p_load _p_ p_gfreecnt in
  if negb (cond cnt) then ret tt else
  match n with
  | O => fun _ => Fail OutOfFuel
  | S n' => gfree_to_global _p_ ;;; gfree_loop cond n' _p_
  end.

Section PlatformFree.
Variable pl : platform.

(** Put on gfree list.
    If local list is too long, transfer a batch to the global list.
    (The memory of the stacks is not part of the state: of the release of
    a stack of non-standard size, the call of [stackfree] is not modelled,
    the clearing of the fields of the g is.) *)
Definition gfput (_p_ : nat) (gp : guintptr) : M unit :=
  let* st := readgstatus gp in
  if negb (st =? _Gdead) then throw "gfput: bad status (not Gdead)" else
  let* gv := readg gp in
  let stksize := uint64 (g_stack_hi gv - g_stack_lo gv) in
  when (negb (stksize =? _FixedStack pl))
    ((* non-standard stack size - free it. *)
     modg gp (g_set_stack 0 0) ;;;
     modg gp (g_set_stackguard0 0)) ;;;
  let* head := p_load _p_ p_gfree in
  modg gp (g_set_schedlink head) ;;;
  modp _p_ (fun pp => p_set_gfree gp (p_gfreecnt pp) pp) ;;;
  modp _p_ (fun pp => p_set_gfree (p_gfree pp) (int32 (p_gfreecnt pp + 1)) pp) ;;;
  let* cnt := p_load _p_ p_gfreecnt in
  if cnt >=? 64 then
    lock_gflock ;;;
    let* cnt := p_load _p_ p_gfreecnt in
    (* [gfreecnt - 31] turns bring the counter below 32 *)
    gfree_loop (fun cnt => cnt >=? 32) (Z.to_nat (cnt - 31)) _p_ ;;;
    unlock_gflock
  else ret tt.
End PlatformFree.

(** Purge all cached G's from gfree list to the global list. *)
Definition gfpurge (_p_ : nat) : M unit :=
  lock_gflock ;;;
  let* cnt := p_load _p_ p_gfreecnt in
  (* [uint32(gfreecnt)] turns bring the counter to 0 *)
  gfree_loop (fun cnt => negb (cnt =? 0)) (Z.to_nat (uint32 cnt)) _p_ ;;;
  unlock_gflock.

(** [gcount]: the number of goroutines.  [allglen] is the length of
    [allgs]. *)
Definition gcount : M Z :=
  let* allglen := gets (fun w => Z.of_nat (length (allgs w))) in
  let* s := get_sched in
  let n := int32 (int32 (int32 allglen - sched_ngfree s) - int32 (sched_ngsys s)) in
  let* len := gets (fun w => length (allp w)) in
  let* n := for_acc 0 len
              (fun i n => let* c := p_load (Z.to_nat i) p_gfreecnt in
                          ret (int32 (n - c))) n in
  (* All these variables can be changed concurrently, so the result can be
     inconsistent.  But at least the current goroutine is running. *)
  ret (if n <? 1 then 1 else n).

(** *** The lists of free g's as sequences *)

(** Whether the g at [y] has a stack ([stack.lo] is not 0). *)
Definition has_stack (hp : gmap Z g) (y : guintptr) : bool :=
  match hp !! y with
  | Some gy => negb (g_stack_lo gy =? 0)
  | None => false
  end.

(** The global lists after the g's of [moved] have been pushed, one after
    the other, on the list of their kind: [gs] is the list of the g's with a
    stack, [gn] the list of those without. *)
Fixpoint free_split (hp : gmap Z g) (moved gs gn : list guintptr)
    : list guintptr * list guintptr :=
  match moved with
  | [] => (gs, gn)
  | y :: rest =>
      if has_stack hp y then free_split hp rest (y :: gs) gn
      else free_split hp rest gs (y :: gn)
  end.

(** The representation invariant of the lists of free g's, for the P
    [allp[i]]: the chain from [_p_.gfree] is [l] and [_p_.gfreecnt] its
    length; the chains from [sched.gfreeStack] and [sched.gfreeNoStack] are
    [gs] and [gn] and [sched.ngfree] is the sum of their lengths; no g is on
    two lists. *)
Definition gfree_inv (w : world) (i : nat) (l gs gn : list guintptr) : Prop :=
  exists pp, has_p w i pp /\
    lseg (heap w) (p_gfree pp) l 0 /\ p_gfreecnt pp = Z.of_nat (length l) /\
    lseg (heap w) (sched_gfreeStack (sched w)) gs 0 /\
    lseg (heap w) (sched_gfreeNoStack (sched w)) gn 0 /\
    sched_ngfree (sched w) = Z.of_nat (length gs + length gn) /\
    NoDup (l ++ gs ++ gn).

(** What the operations on the lists of free g's leave alone: all but the
    heap, the list fields of the P [allp[i]] and the list fields of the
    scheduler. *)
Definition gfree_frame (i : nat) (w w' : world) : Prop :=
  exists hp' a c sa sb sc,
    forall pp, has_p w i pp ->
      w' = w_set_sched (sched_set_gfree sa sb sc (sched w))
             (w_set_heap hp' (upd_p i (p_set_gfree a c pp) w)).

(** The state after one turn of the loops of gfput and gfpurge, for the P
    [pp] at [allp[i]] whose first free g is [gy]. *)
Definition gfree_moved (i : nat) (pp : p) (gy : g) (w : world) : world :=
  let y := p_gfree pp in
  let nostack := g_stack_lo gy =? 0 in
  let s := sched w in
  w_set_sched
    (sched_set_gfree (if nostack then sched_gfreeStack s else y)
                     (if nostack then y else sched_gfreeNoStack s)
                     (int32 (sched_ngfree s + 1)) s)
    (upd_g y (g_set_schedlink (if nostack then sched_gfreeNoStack s
                               else sched_gfreeStack s) gy)
       (upd_p i (p_set_gfree (g_schedlink gy) (int32 (p_gfreecnt pp - 1)) pp) w)).

(** The sum of the [gfreecnt] of the P's. *)
Definition gfreecnt_sum (ps : list (option p)) : Z :=
  foldr (fun o acc => match o with Some pp => p_gfreecnt pp + acc | None => acc end) 0 ps.

(** The g after gfput has released a stack of non-standard size, and the
    state after gfput has pushed the g on the list of the P. *)
Definition g_released (pl : platform) (gv : g) : g :=
  if negb (uint64 (g_stack_hi gv - g_stack_lo gv) =? _FixedStack pl)
  then g_set_stackguard0 0 (g_set_stack 0 0 gv)
  else gv.
Definition gfput_pushed (pl : platform) (i : nat) (pp : p) (gp : guintptr) (gv : g)
    (w : world) : world :=
  upd_p i (p_set_gfree gp (int32 (p_gfreecnt pp + 1)) pp)
    (upd_g gp (g_set_schedlink (p_gfree pp) (g_released pl gv)) w).


(** A dead g on a list of free g's, with a stack of the standard size of
    [platform_amd64] or without a stack. *)
Definition g_free (link : guintptr) (stack : bool) : g :=
  mkG link _Gdead false false 0 (if stack then 65536 else 0)
      (if stack then 65536 + 2048 else 0) 0 0 0.

(** A state with the free g's 5 (with a stack) and 6 (without) on the list
    of P 0 and 7 (with a stack) on the global list, and with the dead g 8
    on no list. *)
Definition free_world : world :=
  w_set_allgs [1; 2; 5; 6; 7; 8]
    (w_set_sched (sched_set_gfree 7 0 1 (sched ready_idle_world))
       (upd_p 0 (p_set_gfree 5 2 (p_with [] 0))
          (upd_g 5 (g_free 6 true)
             (upd_g 6 (g_free 0 false)
                (upd_g 7 (g_free 0 true)
                   (upd_g 8 (g_free 0 true) ready_idle_world)))))).

(** A state in which the list of P 0 holds the 63 free g's 1 .. 63, none of
    them with a stack, and the dead g 64 is on no list. *)
Definition free_world_63 : world :=
  upd_p 0 (p_set_gfree 1 63 (p_with [] 0))
    (world_with (chain_heap _Gdead (map Z.of_nat (seq 1 63)) ++ [(64, g_free 0 true)])
                [p_with [] 0] false).

(** ** Spinning M's *)


(** ** Sequences of operations on the local run queue *)

(** [runqput(_p_, gp, false)] for the g's of a list, in order, and [n]
    calls of [runqget(_p_)] with their results in order. *)
Fixpoint runqput_all (_p_ : nat) (gs : list guintptr) : M unit :=
  match gs with
  | [] => ret tt
  | gp :: rest => runqput _p_ gp false ;;; runqput_all _p_ rest
  end.
Fixpoint runqget_n (_p_ : nat) (n : nat) : M (list (guintptr * bool)) :=
  match n with
  | O => ret []
  | S n' =>
      let* r := runqget _p_ in
      let* rs := runqget_n _p_ n' in
      ret (r :: rs)
  end.

(** ** What a pass of retake does *)

Definition p_status_at (w : world) (j : nat) : option Z :=
  match allp w !! j with
  | Some (Some pp) => Some (p_status pp)
  | _ => None
  end.


(** ** The P of an M and the list of idle P's *)

(** The fields that tie P's and M's together and chain the idle P's are
    kept beside the state: for the P at [allp[i]], [_p_.m] (the address of
    an M, 0 for none), [_p_.mcache] and [_p_.link]; for the M that runs the
    code, its address and [m.mcache]; and [sched.pidle].  A pointer to a P
    is the index of the P, [None] for nil. *)
Record links := mkLinks {
  p_m : gmap nat Z;
  p_mcache : gmap nat Z;
  p_link : gmap nat (option nat);
  m_self : Z;
  m_mcache : Z;
  sched_pidle : option nat
}.

Definition links_set_p_m (v : gmap nat Z) (l : links) : links :=
  mkLinks v (p_mcache l) (p_link l) (m_self l) (m_mcache l) (sched_pidle l).
Definition links_set_p_link (v : gmap nat (option nat)) (l : links) : links :=
  mkLinks (p_m l) (p_mcache l) v (m_self l) (m_mcache l) (sched_pidle l).
Definition links_set_m_mcache (v : Z) (l : links) : links :=
  mkLinks (p_m l) (p_mcache l) (p_link l) (m_self l) v (sched_pidle l).
Definition links_set_pidle (v : option nat) (l : links) : links :=
  mkLinks (p_m l) (p_mcache l) (p_link l) (m_self l) (m_mcache l) v.

Definition m_set_p (v : option nat) (x : m) : m :=
  mkM (m_locks x) (m_spinning x) (m_throwing x) v (m_curg x).
Definition sched_set_npidle (v : Z) (s : schedt) : schedt :=
  mkSched (sched_lock s) (sched_gflock s) (sched_goidgen s) (sched_ngsys s) v
          (sched_nmspinning s) (sched_runqhead s) (sched_runqtail s)
          (sched_runqsize s) (sched_gfreeStack s) (sched_gfreeNoStack s)
          (sched_ngfree s) (sched_gcwaiting s).

(** [_p_.m], [_p_.mcache] and [_p_.link] of the P at [allp[i]]. *)
Definition p_m_at (l : links) (i : nat) : Z := default 0 (p_m l !! i).
Definition p_mcache_at (l : links) (i : nat) : Z := default 0 (p_mcache l !! i).
Definition p_link_at (l : links) (i : nat) : option nat := default None (p_link l !! i).

(** Code that uses fields kept beside the state runs on the state and on a
    record [S] of these fields. *)
Definition X (S A : Type) : Type := S -> M (A * S).
Definition xret {S A} (a : A) : X S A := fun l => ret (a, l).
Definition xbind {S A B} (c : X S A) (k : A -> X S B) : X S B :=
  fun l => let* r := c l in k (fst r) (snd r).
Definition lift {S A} (c : M A) : X S A := fun l => let* a := c in ret (a, l).
Definition getl {S A} (f : S -> A) : X S A := fun l => ret (f l, l).
Definition modl {S} (f : S -> S) : X S unit := fun l => ret (tt, f l).
Definition xthrow {S A} (msg : string) : X S A := fun _ => throw msg.
Definition xpanic {S A} (msg : string) : X S A := fun _ => panic msg.

Notation "'let+' x ':=' c 'in' k" := (xbind c (fun x => k))
  (at level 10, x name, c at level 100, k at level 200, only parsing) : go_scope.
Notation "c ;;+ k" := (xbind c (fun _ => k))
  (at level 100, k at level 200, right associativity, only parsing) : go_scope.

(** acquirep1 is the first step of acquirep, which actually acquires _p_.
    (The message printed before the second throw is not modelled.) *)
Definition acquirep1 (_p_ : nat) : X links unit :=
  let+ mp := lift (gets (fun w => m_p (curm w))) in
  let+ mc := getl m_mcache in
  if negb (bool_decide (mp = None)) || negb (mc =? 0)
  then xthrow "acquirep: already in go" else
  let+ pp := lift (getp _p_) in
  let+ pm := getl (fun l => p_m_at l _p_) in
  if negb (pm =? 0) || negb (p_status pp =? _Pidle)
  then xthrow "acquirep: invalid p state" else
  lift (mod_m (m_set_p (Some _p_))) ;;+
  modl (fun l => links_set_p_m (<[_p_ := m_self l]> (p_m l)) l) ;;+
  lift (modp _p_ (p_set_status _Prunning)).

(** Associate p and the current m.  (Tracing is not modelled.) *)
Definition acquirep (_p_ : nat) : X links unit :=
  (* Do the part that isn't allowed to have write barriers. *)
  acquirep1 _p_ ;;+
  (* have p; write barriers now allowed *)
  lift (getp _p_) ;;+
  modl (fun l => links_set_m_mcache (p_mcache_at l _p_) l).

(** Disassociate p and the current m.  (Tracing and the message printed
    before the second throw are not modelled.) *)
Definition releasep : X links nat :=
  let+ mp := lift (gets (fun w => m_p (curm w))) in
  let+ mc := getl m_mcache in
  match mp with
  | None => xthrow "releasep: invalid arg"
  | Some _p_ =>
      if mc =? 0 then xthrow "releasep: invalid arg" else
      let+ pp := lift (getp _p_) in
      let+ l := getl id in
      if negb (p_m_at l _p_ =? m_self l) || negb (p_mcache_at l _p_ =? m_mcache l)
         || negb (p_status pp =? _Prunning)
      then xthrow "releasep: invalid p state" else
      lift (mod_m (m_set_p None)) ;;+
      modl (links_set_m_mcache 0) ;;+
      modl (fun l => links_set_p_m (<[_p_ := 0]> (p_m l)) l) ;;+
      lift (modp _p_ (p_set_status _Pidle)) ;;+
      xret _p_
  end.

(** Put p to on _Pidle list.  Sched must be locked. *)
Definition pidleput (_p_ : nat) : X links unit :=
  let+ empty := lift (runqempty _p_) in
  if negb empty then xthrow "pidleput: P has non-empty run queue" else
  modl (fun l => links_set_p_link (<[_p_ := sched_pidle l]> (p_link l)) l) ;;+
  modl (links_set_pidle (Some _p_)) ;;+
  lift (mod_sched (fun s => sched_set_npidle (uint32 (sched_npidle s + 1)) s)).

(** Try get a p from _Pidle list.  Sched must be locked. *)
Definition pidleget : X links (option nat) :=
  let+ _p_ := getl sched_pidle in
  match _p_ with
  | Some i =>
      modl (fun l => links_set_pidle (p_link_at l i) l) ;;+
      lift (mod_sched (fun s => sched_set_npidle (uint32 (sched_npidle s - 1)) s)) ;;+
      xret _p_
  | None => xret _p_
  end.

(** *** The list of idle P's as a sequence *)

(** Following [link] from [hd] visits exactly the P's of [l], in order, and
    ends in nil. *)
Fixpoint pseg (lk : gmap nat (option nat)) (hd : option nat) (l : list nat) : Prop :=
  match l with
  | [] => hd = None
  | x :: rest => hd = Some x /\ pseg lk (default None (lk !! x)) rest
  end.

(** The representation invariant of the list of idle P's: the chain from
    [sched.pidle] is [l], without repetition, and [sched.npidle] is its
    length. *)
Definition pidle_inv (w : world) (lk : links) (l : list nat) : Prop :=
  pseg (p_link lk) (sched_pidle lk) l /\ NoDup l /\
  sched_npidle (sched w) = Z.of_nat (length l).

(** The M holds the P at [allp[i]]: each points to the other, the P is
    running and they share the mcache. *)
Definition holds_p (w : world) (lk : links) (i : nat) : Prop :=
  m_p (curm w) = Some i /\ p_m_at lk i = m_self lk /\
  p_status_at w i = Some _Prunning /\ m_mcache lk = p_mcache_at lk i.

(** An M parks its P on the list of idle P's and takes the first idle P
    back: [_p_ := releasep(); pidleput(_p_)] followed by
    [_p_ = pidleget(); acquirep(_p_)] when there is one. *)
Definition park_and_retake : X links (option nat) :=
  let+ _p_ := releasep in
  pidleput _p_ ;;+
  let+ q := pidleget in
  match q with
  | Some j => acquirep j ;;+ xret q
  | None => xret q
  end.

(** ** Wiring a goroutine to its thread *)

(** The fields of the M that runs the code and of the g's that the calls
    below use, kept beside the state (the M is reached through the calling
    g, [getg().m], which must not be nil): [m.lockedExt], [m.lockedInt],
    [m.lockedg], the field [lockedm] of the g's (the address of an M, 0 for
    none), [newmHandoff.haveTemplateThread], and the number of calls of
    [newm(templateThread, nil)], which starts a thread. *)
Record threadlock := mkThreadlock {
  lockedExt : Z;
  lockedInt : Z;
  m_lockedg : guintptr;
  g_lockedm : gmap Z Z;
  haveTemplateThread : Z;
  templateThreads : Z
}.

Definition tl_set_lockedExt (v : Z) (t : threadlock) : threadlock :=
  mkThreadlock v (lockedInt t) (m_lockedg t) (g_lockedm t) (haveTemplateThread t)
               (templateThreads t).
Definition tl_set_lockedInt (v : Z) (t : threadlock) : threadlock :=
  mkThreadlock (lockedExt t) v (m_lockedg t) (g_lockedm t) (haveTemplateThread t)
               (templateThreads t).
Definition tl_set_lockedg (v : guintptr) (t : threadlock) : threadlock :=
  mkThreadlock (lockedExt t) (lockedInt t) v (g_lockedm t) (haveTemplateThread t)
               (templateThreads t).
Definition tl_set_lockedm (v : gmap Z Z) (t : threadlock) : threadlock :=
  mkThreadlock (lockedExt t) (lockedInt t) (m_lockedg t) v (haveTemplateThread t)
               (templateThreads t).
Definition tl_set_template (h n : Z) (t : threadlock) : threadlock :=
  mkThreadlock (lockedExt t) (lockedInt t) (m_lockedg t) (g_lockedm t) h n.

(** [gp.lockedm] *)
Definition g_lockedm_at (t : threadlock) (gp : guintptr) : Z :=
  default 0 (g_lockedm t !! gp).

(** The constants of the target ([GOARCH], [GOOS], package sys) and the
    address of the M that runs the code. *)
Record target := mkTarget {
  GOARCH : string;
  GOOS : string;
  this_m : Z
}.

Section Target.
Variable tg : target.

Definition startTemplateThread : X threadlock unit :=
  if String.eqb (GOARCH tg) "wasm" then xret tt (* no threads on wasm yet *) else
  let+ have := getl haveTemplateThread in
  if negb (have =? 0) then xret tt else
  modl (fun t => tl_set_template 1 (templateThreads t) t) ;;+
  modl (fun t => tl_set_template (haveTemplateThread t) (templateThreads t + 1) t).

(** dolockOSThread is called by LockOSThread and lockOSThread below
    after they modify m.locked. *)
Definition dolockOSThread : X threadlock unit :=
  if String.eqb (GOARCH tg) "wasm" then xret tt (* no threads on wasm yet *) else
  let+ _g_ := lift (gets getg) in
  lift (readg _g_) ;;+
  modl (tl_set_lockedg _g_) ;;+
  modl (fun t => tl_set_lockedm (<[_g_ := this_m tg]> (g_lockedm t)) t).

(** LockOSThread wires the calling goroutine to its current operating
    system thread. *)
Definition LockOSThread : X threadlock unit :=
  let+ have := getl haveTemplateThread in
  (if (have =? 0) && negb (String.eqb (GOOS tg) "plan9") then
     (* If we need to start a new thread from the locked thread, we need
        the template thread.  Start it now while we're in a known-good
        state. *)
     startTemplateThread
   else xret tt) ;;+
  let+ _g_ := lift (gets getg) in
  lift (readg _g_) ;;+
  modl (fun t => tl_set_lockedExt (uint32 (lockedExt t + 1)) t) ;;+
  let+ ext := getl lockedExt in
  if ext =? 0 then
    modl (fun t => tl_set_lockedExt (uint32 (lockedExt t - 1)) t) ;;+
    xpanic "LockOSThread nesting overflow"
  else dolockOSThread.

Definition lockOSThread : X threadlock unit :=
  let+ _g_ := lift (gets getg) in
  lift (readg _g_) ;;+
  modl (fun t => tl_set_lockedInt (uint32 (lockedInt t + 1)) t) ;;+
  dolockOSThread.

(** dounlockOSThread is called by UnlockOSThread and unlockOSThread below
    after they update m->locked. *)
Definition dounlockOSThread : X threadlock unit :=
  if String.eqb (GOARCH tg) "wasm" then xret tt (* no threads on wasm yet *) else
  let+ _g_ := lift (gets getg) in
  lift (readg _g_) ;;+
  let+ t := getl id in
  if negb (lockedInt t =? 0) || negb (lockedExt t =? 0) then xret tt else
  modl (tl_set_lockedg 0) ;;+
  modl (fun t => tl_set_lockedm (<[_g_ := 0]> (g_lockedm t)) t).

(** UnlockOSThread undoes an earlier call to LockOSThread.  If there are no
    active LockOSThread calls, this is a no-op. *)
Definition UnlockOSThread : X threadlock unit :=
  let+ _g_ := lift (gets getg) in
  lift (readg _g_) ;;+
  let+ ext := getl lockedExt in
  if ext =? 0 then xret tt else
  modl (fun t => tl_set_lockedExt (uint32 (lockedExt t - 1)) t) ;;+
  dounlockOSThread.

Definition badunlockosthread : X threadlock unit :=
  xthrow "runtime: internal error: misuse of lockOSThread/unlockOSThread".

Definition unlockOSThread : X threadlock unit :=
  let+ _g_ := lift (gets getg) in
  lift (readg _g_) ;;+
  let+ int := getl lockedInt in
  (if int =? 0 then badunlockosthread else xret tt) ;;+
  modl (fun t => tl_set_lockedInt (uint32 (lockedInt t - 1)) t) ;;+
  dounlockOSThread.

(** [n] calls in a row. *)
Fixpoint xtimes (n : nat) (c : X threadlock unit) : X threadlock unit :=
  match n with
  | O => xret tt
  | S n' => c ;;+ xtimes n' c
  end.
End Target.

(** The calling g is wired to the M: each points to the other. *)
Definition wired (tg : target) (w : world) (t : threadlock) : Prop :=
  m_lockedg t = getg w /\ g_lockedm_at t (getg w) = this_m tg.
(** Neither points to the other. *)
Definition unwired (w : world) (t : threadlock) : Prop :=
  m_lockedg t = 0 /\ g_lockedm_at t (getg w) = 0.

(** * Properties *)

(** ** Stepping through the monad *)

Lemma has_p_upd w i pp pp' : has_p w i pp -> has_p (upd_p i pp' w) i pp'.
Proof.
  unfold has_p, upd_p. simpl. intros H.
  apply list_lookup_insert_eq. apply lookup_lt_Some in H. exact H.
Qed.

Lemma has_p_upd_ne w i j pp pp' :
  i <> j -> has_p w j pp -> has_p (upd_p i pp' w) j pp.
Proof.
  unfold has_p, upd_p. simpl. intros Hne H.
  rewrite list_lookup_insert_ne; auto.
Qed.

Lemma upd_p_upd w i a b : upd_p i b (upd_p i a w) = upd_p i b w.
Proof.
  unfold upd_p. simpl. unfold w_set_allp. simpl.
  rewrite list_insert_insert_eq. reflexivity.
Qed.

Lemma upd_p_same w i pp : has_p w i pp -> upd_p i pp w = w.
Proof.
  unfold has_p, upd_p. intros H. rewrite list_insert_id by exact H.
  destruct w; reflexivity.
Qed.

Lemma getp_has w i pp : has_p w i pp -> getp i w = Done pp w.
Proof. unfold has_p, getp. intros ->. reflexivity. Qed.

Lemma p_load_has {A} (f : p -> A) w i pp :
  has_p w i pp -> p_load i f w = Done (f pp) w.
Proof. intros H. unfold p_load, bind. rewrite (getp_has _ _ _ H). reflexivity. Qed.

Lemma modp_has f w i pp :
  has_p w i pp -> modp i f w = Done tt (upd_p i (f pp) w).
Proof. intros H. unfold modp, bind. rewrite (getp_has _ _ _ H). reflexivity. Qed.

Lemma runq_set_has w i pp k gp :
  has_p w i pp ->
  runq_set i k gp w
  = Done tt (upd_p i (p_set_runq (<[Z.to_nat (k mod runqlen) := gp]> (p_runq pp)) pp) w).
Proof. intros H. unfold runq_set. rewrite (modp_has _ _ _ _ H). reflexivity. Qed.

Lemma cas_runqhead_has w i pp old new :
  has_p w i pp ->
  cas_runqhead i old new w
  = if p_runqhead pp =? old then Done true (upd_p i (p_set_runqhead new pp) w)
    else Done false w.
Proof.
  intros H. unfold cas_runqhead, bind. rewrite (getp_has _ _ _ H).
  destruct (p_runqhead pp =? old); reflexivity.
Qed.

Lemma cas_runnext_has w i pp old new :
  has_p w i pp ->
  cas_runnext i old new w
  = if p_runnext pp =? old then Done true (upd_p i (p_set_runnext new pp) w)
    else Done false w.
Proof.
  intros H. unfold cas_runnext, bind. rewrite (getp_has _ _ _ H).
  destruct (p_runnext pp =? old); reflexivity.
Qed.

Lemma loop_first {A} (body : M (option A)) w a w' :
  body w = Done (Some a) w' -> loop body w = Done a w'.
Proof. intros H. unfold loop. destruct (fuel w); simpl; rewrite H; reflexivity. Qed.

Lemma bind_done {A B} (c : M A) (k : A -> M B) w a w' :
  c w = Done a w' -> bind c k w = k a w'.
Proof. intros H. unfold bind. rewrite H. reflexivity. Qed.

Lemma bind_fail {A B} (c : M A) (k : A -> M B) w e :
  c w = Fail e -> bind c k w = Fail e.
Proof. intros H. unfold bind. rewrite H. reflexivity. Qed.

(** ** Machine arithmetic *)

Lemma uint32_id x : is_uint32 x -> uint32 x = x.
Proof. unfold is_uint32, uint32. intros H. apply Z.mod_small. lia. Qed.

Lemma uint32_range x : is_uint32 (uint32 x).
Proof. unfold is_uint32, uint32. apply Z.mod_pos_bound. lia. Qed.

Lemma uint32_succ_ne x : is_uint32 x -> uint32 (x + 1) <> x.
Proof.
  unfold is_uint32, uint32. intros H.
  destruct (Z.eq_dec x 4294967295) as [->|Hne]; [discriminate|].
  rewrite Z.mod_small by lia. lia.
Qed.

Lemma runq_index_lt (k : Z) (q : list guintptr) :
  length q = 256%nat -> (Z.to_nat (k mod runqlen) < length q)%nat.
Proof.
  intros ->. unfold runqlen.
  assert (0 <= k mod 256 < 256) by (apply Z.mod_pos_bound; lia). lia.
Qed.

Lemma runq_at_set_eq q k gp :
  length q = 256%nat -> runq_at (<[Z.to_nat (k mod runqlen) := gp]> q) k = gp.
Proof.
  intros Hl. unfold runq_at.
  rewrite list_lookup_insert_eq by (apply runq_index_lt; exact Hl). reflexivity.
Qed.

Create HintDb hasp.
#[local] Hint Resolve has_p_upd has_p_upd_ne : hasp.

(** [step] runs the first action of a sequence whose effect is known. *)
Ltac step_with lem :=
  erewrite bind_done by (first [ eapply lem; eauto with hasp | exact lem ]).

Lemma bind_eq {A B} (c : M A) (k : A -> M B) w :
  bind c k w = match c w with Done a w' => k a w' | Fail e => Fail e end.
Proof. reflexivity. Qed.

Ltac step_cas lem :=
  rewrite bind_eq; erewrite lem by eauto with hasp.

Ltac step :=
  cbv beta iota;
  lazymatch goal with
  | |- bind (p_load _ _) _ _ = _ => step_with @p_load_has
  | |- bind (modp _ _) _ _ = _ => step_with modp_has
  | |- bind (runq_set _ _ _) _ _ = _ => step_with runq_set_has
  | |- bind (cas_runqhead _ _ _) _ _ = _ => step_cas cas_runqhead_has
  | |- bind (cas_runnext _ _ _) _ _ = _ => step_cas cas_runnext_has
  | |- bind (gets _) _ _ = _ => erewrite bind_done by reflexivity
  | |- bind (ret _) _ _ = _ => erewrite bind_done by reflexivity
  | |- bind randomizeScheduler _ _ = _ => erewrite bind_done by reflexivity
  | |- bind get_sched _ _ = _ => erewrite bind_done by reflexivity
  | |- bind (mod_sched _) _ _ = _ => erewrite bind_done by reflexivity
  | |- bind (modify _) _ _ = _ => erewrite bind_done by reflexivity
  end.

(** ** The local run queue as a sequence *)

Lemma runqput_fast w i pp gp :
  has_p w i pp -> runq_count pp < runqlen ->
  runqput i gp false w = Done tt (upd_p i (p_push gp pp) w).
Proof.
  intros Hp Hc. unfold runqput. step. rewrite andb_false_r. do 2 step.
  apply loop_first. do 2 step.
  unfold runq_count in Hc. apply Z.ltb_lt in Hc. rewrite Hc.
  do 2 step. rewrite upd_p_upd. reflexivity.
Qed.

Lemma runqget_ring w i pp :
  has_p w i pp -> p_runnext pp = 0 -> p_runqtail pp <> p_runqhead pp ->
  runqget i w
  = Done (runq_at (p_runq pp) (p_runqhead pp), false) (upd_p i (p_pop pp) w).
Proof.
  intros Hp Hn Hne. unfold runqget.
  erewrite bind_done; cycle 1.
  { apply loop_first. step. rewrite Hn. reflexivity. }
  apply loop_first. do 2 step.
  apply Z.eqb_neq in Hne. rewrite Hne.
  do 2 step. rewrite Z.eqb_refl. reflexivity.
Qed.

Lemma runqget_runnext w i pp :
  has_p w i pp -> p_runnext pp <> 0 ->
  runqget i w = Done (p_runnext pp, true) (upd_p i (p_set_runnext 0 pp) w).
Proof.
  intros Hp Hn. unfold runqget.
  erewrite bind_done; cycle 1.
  { apply loop_first. step. apply Z.eqb_neq in Hn. rewrite Hn.
    step. rewrite Z.eqb_refl. reflexivity. }
  reflexivity.
Qed.

Lemma runqget_none w i pp :
  has_p w i pp -> p_runnext pp = 0 -> p_runqtail pp = p_runqhead pp ->
  runqget i w = Done (0, false) w.
Proof.
  intros Hp Hn He. unfold runqget.
  erewrite bind_done; cycle 1.
  { apply loop_first. step. rewrite Hn. reflexivity. }
  apply loop_first. do 2 step. rewrite He, Z.eqb_refl. reflexivity.
Qed.

Lemma runqempty_has w i pp :
  has_p w i pp ->
  runqempty i w
  = Done ((p_runqhead pp =? p_runqtail pp) && (p_runnext pp =? 0)) w.
Proof.
  intros Hp. unfold runqempty. apply loop_first. do 4 step.
  rewrite Z.eqb_refl. reflexivity.
Qed.

(** ** R1: put then get on an empty local queue *)

(** C9. On a P whose ring and runnext slot are both empty,
    [runqput(p, g, false)] followed by [runqget(p)] returns [g] with
    [inheritTime] false, and the queue is empty again afterwards: the head and
    the tail have both moved one past the old tail and [runqempty] answers
    true. *)
Theorem runqput_runqget_roundtrip (w : world) (i : nat) (pp : p) (gp : guintptr) :
  has_p w i pp -> p_wf pp ->
  p_runqhead pp = p_runqtail pp -> p_runnext pp = 0 ->
  let w' := upd_p i (p_pop (p_push gp pp)) w in
  (runqput i gp false ;;; runqget i) w = Done (gp, false) w' /\
  runqempty i w' = Done true w' /\
  runq_list (p_pop (p_push gp pp)) = [] /\
  p_runnext (p_pop (p_push gp pp)) = 0.
Proof.
  intros Hp (Hh & Ht & Hl) He Hn w'.
  assert (Hc : runq_count pp < runqlen).
  { unfold runq_count. rewrite He, Z.sub_diag. reflexivity. }
  assert (Hp1 : has_p (upd_p i (p_push gp pp) w) i (p_push gp pp)) by eauto with hasp.
  repeat split.
  - erewrite bind_done by (apply runqput_fast; eassumption).
    rewrite (runqget_ring _ _ _ Hp1).
    + rewrite upd_p_upd. simpl. rewrite He.
      rewrite runq_at_set_eq by exact Hl. reflexivity.
    + exact Hn.
    + simpl. rewrite He. apply uint32_succ_ne. exact Ht.
  - subst w'. erewrite runqempty_has by (eapply has_p_upd; exact Hp).
    simpl. rewrite He, Z.eqb_refl, Hn. reflexivity.
  - unfold runq_list, runq_count. simpl. rewrite He, Z.sub_diag. reflexivity.
  - simpl. exact Hn.
Qed.

Lemma runqput_runqget_roundtrip_witness :
  (runqput 0 2 false ;;; runqget 0) ready_idle_world
  = Done (2, false) (upd_p 0 (p_pop (p_push 2 (p_with [] 0))) ready_idle_world) /\
  runq_list (p_pop (p_push 2 (p_with [] 0))) = [].
Proof.
  assert (Hp : has_p ready_idle_world 0 (p_with [] 0)) by reflexivity.
  assert (Hwf : p_wf (p_with [] 0)) by (repeat split; vm_compute; congruence).
  assert (He : p_runqhead (p_with [] 0) = p_runqtail (p_with [] 0)) by reflexivity.
  assert (Hn : p_runnext (p_with [] 0) = 0) by reflexivity.
  destruct (runqput_runqget_roundtrip ready_idle_world 0 (p_with [] 0) 2 Hp Hwf He Hn)
    as (H1 & _ & H3 & _).
  split; [exact H1 | exact H3].
Defined.

(** ** Stealing from a ring *)

Lemma p_set_runq_id pp : p_set_runq (p_runq pp) pp = pp.
Proof. destruct pp; reflexivity. Qed.

Lemma copy_loop w src dst ps pd h bh lo n :
  src <> dst -> has_p w src ps -> has_p w dst pd ->
  for_range lo n
    (fun i => let* gv := p_load src (fun pp => runq_at (p_runq pp) (uint32 (h + i))) in
              runq_set dst (uint32 (bh + i)) gv) w
  = Done tt (upd_p dst (p_set_runq (ring_copy (p_runq ps) h bh lo n (p_runq pd)) pd) w).
Proof.
  intros Hne. revert w pd lo. induction n as [|n IH]; intros w pd lo Hs Hd.
  - simpl. rewrite p_set_runq_id, upd_p_same by exact Hd. reflexivity.
  - simpl. rewrite bind_eq.
    erewrite bind_done by (apply p_load_has; exact Hs).
    erewrite runq_set_has by exact Hd.
    erewrite IH; [| eauto with hasp | eauto with hasp].
    rewrite upd_p_upd. reflexivity.
Qed.

Lemma ring_copy_length src h bh lo n dst :
  length (ring_copy src h bh lo n dst) = length dst.
Proof.
  revert lo dst. induction n as [|n IH]; intros lo dst; simpl; [reflexivity|].
  rewrite IH, length_insert. reflexivity.
Qed.

Lemma uint32_mod_runqlen x : uint32 x mod runqlen = x mod runqlen.
Proof.
  unfold uint32, runqlen. apply Z.mod_mod_divide.
  exists 16777216. reflexivity.
Qed.

Lemma mod_runqlen_inj a b :
  a mod runqlen = b mod runqlen -> 0 <= b - a < runqlen -> a = b.
Proof.
  unfold runqlen. intros E Hr.
  assert (H : (b - a) mod 256 = 0).
  { rewrite Zminus_mod, E, Z.sub_diag. reflexivity. }
  rewrite Z.mod_small in H by lia. lia.
Qed.

(** Slots outside the written range keep their contents. *)
Lemma ring_copy_other src h bh lo n dst (k : Z) :
  (forall j, lo <= j < lo + Z.of_nat n -> (bh + j) mod runqlen <> k mod runqlen) ->
  runq_at (ring_copy src h bh lo n dst) k = runq_at dst k.
Proof.
  revert lo dst. induction n as [|n IH]; intros lo dst Hk; simpl; [reflexivity|].
  rewrite IH by (intros j Hj; apply Hk; lia).
  unfold runq_at. rewrite list_lookup_insert_ne; [reflexivity|].
  rewrite uint32_mod_runqlen. intros E.
  apply (Hk lo); [lia|].
  apply Z2Nat.inj in E; [exact E| |]; apply Z.mod_pos_bound; reflexivity.
Qed.

(** Slot [bh + k] receives entry [h + k] of the victim. *)
Lemma ring_copy_at src h bh lo n dst (k : Z) :
  length dst = 256%nat -> (n <= 256)%nat ->
  lo <= k < lo + Z.of_nat n ->
  runq_at (ring_copy src h bh lo n dst) (uint32 (bh + k)) = runq_at src (uint32 (h + k)).
Proof.
  revert lo dst. induction n as [|n IH]; intros lo dst Hl Hn Hk; [lia|].
  simpl. destruct (Z.eq_dec k lo) as [->|Hne].
  - rewrite ring_copy_other.
    + apply runq_at_set_eq. exact Hl.
    + intros j Hj E. rewrite uint32_mod_runqlen in E.
      assert (bh + lo = bh + j); [|lia].
      apply mod_runqlen_inj; [symmetry; exact E|]. unfold runqlen. lia.
  - apply IH; [rewrite length_insert; exact Hl | lia | lia].
Qed.

Lemma uint32_add_l a b : uint32 (uint32 a + b) = uint32 (a + b).
Proof. unfold uint32. apply Zplus_mod_idemp_l. Qed.

Lemma uint32_add_r a b : uint32 (a + uint32 b) = uint32 (a + b).
Proof. unfold uint32. apply Zplus_mod_idemp_r. Qed.

Lemma uint32_sub_r a b : uint32 (a - uint32 b) = uint32 (a - b).
Proof. unfold uint32. apply Zminus_mod_idemp_r. Qed.

Lemma uint32_sub_l a b : uint32 (uint32 a - b) = uint32 (a - b).
Proof. unfold uint32. apply Zminus_mod_idemp_l. Qed.

Lemma mod_runqlen_uint32_add a b :
  (uint32 a + b) mod runqlen = (a + b) mod runqlen.
Proof. rewrite <- uint32_mod_runqlen, uint32_add_l. apply uint32_mod_runqlen. Qed.

Lemma runq_count_range pp : 0 <= runq_count pp < 4294967296.
Proof. apply uint32_range. Qed.

Lemma runq_tail_head pp :
  is_uint32 (p_runqtail pp) ->
  p_runqtail pp = uint32 (p_runqhead pp + runq_count pp).
Proof.
  intros Ht. unfold runq_count. rewrite uint32_add_r.
  replace (p_runqhead pp + (p_runqtail pp - p_runqhead pp)) with (p_runqtail pp) by lia.
  symmetry. apply uint32_id. exact Ht.
Qed.

Lemma runq_list_length pp : length (runq_list pp) = Z.to_nat (runq_count pp).
Proof. unfold runq_list. rewrite length_map, length_seq. reflexivity. Qed.

Lemma runq_list_lookup pp (k : nat) :
  (k < Z.to_nat (runq_count pp))%nat ->
  runq_list pp !! k = Some (runq_at (p_runq pp) (uint32 (p_runqhead pp + Z.of_nat k))).
Proof.
  intros Hk. unfold runq_list. rewrite list_lookup_fmap.
  rewrite lookup_seq_lt by exact Hk. reflexivity.
Qed.

(** Advancing the head by [n] drops the first [n] entries. *)
Lemma runq_list_advance pp n :
  0 <= n <= runq_count pp ->
  runq_list (p_set_runqhead (uint32 (p_runqhead pp + n)) pp)
  = drop (Z.to_nat n) (runq_list pp).
Proof.
  intros Hn. pose proof (runq_count_range pp) as Hc.
  assert (Hcount : runq_count (p_set_runqhead (uint32 (p_runqhead pp + n)) pp)
                   = runq_count pp - n).
  { unfold runq_count in *. simpl. rewrite uint32_sub_r.
    replace (p_runqtail pp - (p_runqhead pp + n))
      with ((p_runqtail pp - p_runqhead pp) + (- n)) by lia.
    rewrite <- uint32_add_l. apply uint32_id. unfold is_uint32. lia. }
  apply list_eq. intros k.
  rewrite lookup_drop.
  destruct (decide (k < Z.to_nat (runq_count pp - n))%nat) as [Hk|Hk].
  - rewrite runq_list_lookup by (rewrite Hcount; exact Hk).
    rewrite runq_list_lookup by lia.
    simpl. rewrite uint32_add_l. do 3 f_equal. lia.
  - rewrite !lookup_ge_None_2; [reflexivity| |];
      rewrite runq_list_length; [|rewrite Hcount]; lia.
Qed.

(** Entries written past the tail and the tail moved over [m] of them. *)
Lemma runq_list_extend pd src h n m :
  p_wf pd -> (n <= 256)%nat -> 0 <= m <= Z.of_nat n ->
  runq_count pd + Z.of_nat n <= runqlen ->
  runq_list (p_set_runqtail (uint32 (p_runqtail pd + m))
               (p_set_runq (ring_copy src h (p_runqtail pd) 0 n (p_runq pd)) pd))
  = runq_list pd
    ++ map (fun k => runq_at src (uint32 (h + Z.of_nat k))) (seq 0 (Z.to_nat m)).
Proof.
  intros (Hh & Ht & Hl) Hn Hm Hroom. pose proof (runq_count_range pd) as Hc.
  unfold runqlen in Hroom.
  set (pd' := p_set_runqtail _ _).
  assert (Hcount : runq_count pd' = runq_count pd + m).
  { unfold runq_count in *. simpl. rewrite uint32_sub_l.
    replace (p_runqtail pd + m - p_runqhead pd)
      with ((p_runqtail pd - p_runqhead pd) + m) by lia.
    rewrite <- uint32_add_l. apply uint32_id. unfold is_uint32. lia. }
  apply list_eq. intros k.
  destruct (decide (k < Z.to_nat (runq_count pd))%nat) as [Hk|Hk].
  - rewrite lookup_app_l by (rewrite runq_list_length; exact Hk).
    rewrite !runq_list_lookup by (rewrite ?Hcount; lia).
    f_equal. simpl. apply ring_copy_other.
    intros j Hj E. rewrite uint32_mod_runqlen in E.
    rewrite (runq_tail_head pd Ht), mod_runqlen_uint32_add in E.
    assert (p_runqhead pd + Z.of_nat k = p_runqhead pd + runq_count pd + j); [|lia].
    apply mod_runqlen_inj; [symmetry; exact E|]. unfold runqlen. lia.
  - rewrite lookup_app_r by (rewrite runq_list_length; lia).
    rewrite runq_list_length.
    destruct (decide (k < Z.to_nat (runq_count pd + m))%nat) as [Hk'|Hk'].
    + rewrite runq_list_lookup by (rewrite Hcount; exact Hk').
      rewrite list_lookup_fmap, lookup_seq_lt by lia. simpl.
      f_equal.
      replace (uint32 (p_runqhead pd + Z.of_nat k))
        with (uint32 (p_runqtail pd + Z.of_nat (k - Z.to_nat (runq_count pd)))).
      * apply ring_copy_at; [exact Hl | exact Hn | lia].
      * rewrite (runq_tail_head pd Ht) at 1. rewrite uint32_add_l. f_equal. lia.
    + rewrite !lookup_ge_None_2; [reflexivity| |].
      * rewrite length_map, length_seq. lia.
      * rewrite runq_list_length, Hcount. lia.
Qed.

(** The first [n] entries of the victim, as the copy loop reads them. *)
Lemma take_runq_list pp n :
  0 <= n <= runq_count pp ->
  take (Z.to_nat n) (runq_list pp)
  = map (fun k => runq_at (p_runq pp) (uint32 (p_runqhead pp + Z.of_nat k)))
        (seq 0 (Z.to_nat n)).
Proof.
  intros Hn. unfold runq_list. rewrite <- fmap_take. f_equal.
  rewrite take_seq. f_equal. lia.
Qed.

Lemma half_up_range d :
  0 <= d < 4294967296 -> 0 <= d - d / 2 <= d /\ (0 < d -> 0 < d - d / 2).
Proof.
  intros Hd. Z.div_mod_to_equations. lia.
Qed.

Lemma upd_p_shadow w i j a b c :
  j <> i -> upd_p i b (upd_p j c (upd_p i a w)) = upd_p i b (upd_p j c w).
Proof.
  intros Hne. unfold upd_p, w_set_allp. simpl. f_equal.
  rewrite (list_insert_insert_ne _ j i) by exact Hne.
  rewrite list_insert_insert_eq. reflexivity.
Qed.

Section Steal.
Variables (w : world) (dst src : nat) (pd ps : p) (steal : bool).
Hypothesis Hd : has_p w dst pd.
Hypothesis Hs : has_p w src ps.
Hypothesis Hne : src <> dst.
Hypothesis Hwd : p_wf pd.
Hypothesis Hws : p_wf ps.

Lemma runqgrab_body_ring h t bh :
  let d := uint32 (t - h) in
  let n := d - d / 2 in
  0 < n ->
  let q := ring_copy (p_runq ps) h bh 0 (Z.to_nat n) (p_runq pd) in
  let w1 := upd_p dst (p_set_runq q pd) w in
  runqgrab_body src dst bh steal h t w
  = if n >? runqlen / 2 then Done None w
    else if p_runqhead ps =? h
         then Done (Some n) (upd_p src (p_set_runqhead (uint32 (h + n)) ps) w1)
         else Done None w1.
Proof.
  intros d n Hn q w1. unfold runqgrab_body. fold d.
  pose proof (uint32_range (t - h)) as Hr. fold d in Hr. unfold is_uint32 in Hr.
  destruct (half_up_range d Hr) as [Hh _].
  rewrite (uint32_id (d - d / 2)) by (unfold is_uint32; lia). fold n.
  destruct (Z.eqb_spec n 0) as [E|_]; [lia|].
  destruct (n >? runqlen / 2); [reflexivity|].
  rewrite bind_eq. erewrite copy_loop by eassumption. fold q w1.
  rewrite bind_eq. erewrite cas_runqhead_has by (apply has_p_upd_ne; eauto).
  destruct (p_runqhead ps =? h); reflexivity.
Qed.

Lemma runqsteal_ring :
  let d := runq_count ps in
  let n := d - d / 2 in
  0 < d <= runqlen -> runq_count pd + (n - 1) < runqlen ->
  let ps' := p_set_runqhead (uint32 (p_runqhead ps + n)) ps in
  let pd' := p_set_runqtail (uint32 (p_runqtail pd + (n - 1)))
               (p_set_runq (ring_copy (p_runq ps) (p_runqhead ps) (p_runqtail pd) 0
                              (Z.to_nat n) (p_runq pd)) pd) in
  runqsteal dst src steal w
  = Done (runq_at (p_runq ps) (uint32 (p_runqhead ps + (n - 1))))
         (upd_p dst pd' (upd_p src ps' w)).
Proof.
  intros d n Hd' Hroom ps' pd'. unfold runqlen in *.
  pose proof (runq_count_range ps) as Hr. fold d in Hr.
  destruct (half_up_range d Hr) as [Hh Hpos]. fold n in Hh, Hpos.
  specialize (Hpos ltac:(lia)).
  assert (Hn128 : n <= 128).
  { subst n. Z.div_mod_to_equations. lia. }
  destruct Hwd as (Hdh & Hdt & Hdl). destruct Hws as (Hsh & Hst & Hsl).
  set (q := ring_copy (p_runq ps) (p_runqhead ps) (p_runqtail pd) 0 (Z.to_nat n) (p_runq pd)).
  set (w1 := upd_p dst (p_set_runq q pd) w).
  set (w2 := upd_p src ps' w1).
  assert (Hgrab : runqgrab src dst (p_runqtail pd) steal w = Done n w2).
  { unfold runqgrab. apply loop_first. do 2 step.
    rewrite runqgrab_body_ring; fold (runq_count ps); fold d; fold n; [|lia].
    change (runqlen / 2) with 128.
    destruct (Z.gtb_spec n 128) as [?|_]; [lia|].
    rewrite Z.eqb_refl. reflexivity. }
  assert (H2d : has_p w2 dst (p_set_runq q pd)).
  { apply has_p_upd_ne; [exact Hne|]. eapply has_p_upd; exact Hd. }
  unfold runqsteal. step. rewrite (bind_done _ _ _ _ _ Hgrab).
  destruct (Z.eqb_spec n 0) as [?|_]; [lia|].
  rewrite (uint32_id (n - 1)) by (unfold is_uint32; lia).
  step. change (p_runq (p_set_runq q pd)) with q.
  assert (Hgp : runq_at q (uint32 (p_runqtail pd + (n - 1)))
                = runq_at (p_runq ps) (uint32 (p_runqhead ps + (n - 1)))).
  { apply ring_copy_at; [exact Hdl | lia | lia]. }
  rewrite Hgp.
  destruct (Z.eqb_spec (n - 1) 0) as [E|E].
  - unfold ret. f_equal. unfold w2, w1, pd'. rewrite E, Z.add_0_r.
    rewrite (uint32_id (p_runqtail pd)) by exact Hdt.
    rewrite <- (upd_p_shadow w dst src (p_set_runq q pd)) by exact Hne.
    symmetry. apply upd_p_same.
    replace (p_set_runqtail (p_runqtail pd) (p_set_runq q pd)) with (p_set_runq q pd)
      by (destruct pd; reflexivity).
    exact H2d.
  - step. change (p_runqhead (p_set_runq q pd)) with (p_runqhead pd).
    change (uint32 (p_runqtail pd - p_runqhead pd)) with (runq_count pd).
    rewrite (uint32_id (runq_count pd + (n - 1)))
      by (pose proof (runq_count_range pd); unfold is_uint32; lia).
    destruct (Z.geb_spec (runq_count pd + (n - 1)) runqlen) as [?|_];
      [unfold runqlen in *; lia|].
    step. unfold ret. f_equal. unfold w2, w1.
    rewrite upd_p_shadow by exact Hne. reflexivity.
Qed.
End Steal.

(** ** C1: what runqsteal takes *)

(** C1, as stated, fails: with a single goroutine in the victim's ring
    (head 0, tail 1) runqgrab takes it, one goroutine, where [(t - h) / 2]
    is 0; runqsteal returns that goroutine. *)
Lemma runqsteal_halved_count_counterexample :
  let w := world_with [] [p_with [] 0; p_with [7] 0] false in
  (exists w', runqgrab 1 0 0 false w = Done 1 w') /\
  (exists w', runqsteal 0 1 false w = Done 7 w') /\
  halved_count 0 1 = 0.
Proof.
  repeat split; eexists; vm_compute; reflexivity.
Qed.

(** C1 (amended). One turn of the loop of runqgrab on a snapshot [h], [t] of
    the victim's head and tail computes [n = d - d/2] for [d = t - h]
    (32-bit), half of the snapshot size rounded up.  With [n > 0] (the ring
    is used, not the runnext slot): a snapshot with [n] above half the
    capacity changes nothing and the loop goes round again; otherwise the
    [n] entries from [h] on are copied to the thief's ring from [batchHead]
    on, and the turn returns [n] exactly when the compare-and-swap of the
    victim's head from [h] to [h+n] succeeds, going round again when it
    fails.  For a whole call of runqsteal with no other writer, the victim
    loses its first [n] entries, and the thief's ring followed by the
    returned goroutine is the thief's old ring followed by these [n]
    entries. *)
Theorem runqsteal_takes_half_rounded_up
    (w : world) (dst src : nat) (pd ps : p) (steal : bool) :
  has_p w dst pd -> has_p w src ps -> src <> dst -> p_wf pd -> p_wf ps ->
  (forall h t bh,
     let d := uint32 (t - h) in
     let n := d - d / 2 in
     0 < n ->
     let q := ring_copy (p_runq ps) h bh 0 (Z.to_nat n) (p_runq pd) in
     let w1 := upd_p dst (p_set_runq q pd) w in
     runqgrab_body src dst bh steal h t w
     = (if n >? runqlen / 2 then Done None w
        else if p_runqhead ps =? h
             then Done (Some n) (upd_p src (p_set_runqhead (uint32 (h + n)) ps) w1)
             else Done None w1) /\
     (n <= runqlen / 2 ->
      forall k, 0 <= k < n ->
        runq_at q (uint32 (bh + k)) = runq_at (p_runq ps) (uint32 (h + k)))) /\
  (let d := runq_count ps in
   let n := d - d / 2 in
   0 < d <= runqlen -> runq_count pd + (n - 1) < runqlen ->
   exists gp pd',
     let ps' := p_set_runqhead (uint32 (p_runqhead ps + n)) ps in
     runqsteal dst src steal w = Done gp (upd_p dst pd' (upd_p src ps' w)) /\
     runq_list ps' = drop (Z.to_nat n) (runq_list ps) /\
     runq_list pd' ++ [gp] = runq_list pd ++ take (Z.to_nat n) (runq_list ps) /\
     p_runqhead pd' = p_runqhead pd /\ p_runnext pd' = p_runnext pd /\
     p_runnext ps' = p_runnext ps).
Proof.
  intros Hd Hs Hne Hwd Hws. split.
  - intros h t bh d n Hn q w1. split.
    + apply runqgrab_body_ring; assumption.
    + change (runqlen / 2) with 128. intros Hle k Hk.
      destruct Hwd as (_ & _ & Hl).
      apply ring_copy_at; [exact Hl | lia | lia].
  - intros d n Hd0 Hroom0. pose proof Hd0 as Hd'. pose proof Hroom0 as Hroom.
    unfold runqlen in Hd', Hroom.
    pose proof (runq_count_range ps) as Hr. fold d in Hr.
    assert (Hn : 0 < n <= 128 /\ n <= d) by (subst n; Z.div_mod_to_equations; lia).
    eexists _, _. cbv zeta. split; [|split; [|split; [|split; [|split]]]].
    + exact (runqsteal_ring w dst src pd ps steal Hd Hs Hne Hwd Hws Hd0 Hroom0).
    + apply runq_list_advance. lia.
    + subst n d. set (n := runq_count ps - runq_count ps / 2) in *.
      rewrite (runq_list_extend pd (p_runq ps) (p_runqhead ps) (Z.to_nat n) (n - 1));
        [|exact Hwd|lia|lia|unfold runqlen; lia].
      rewrite take_runq_list by lia.
      rewrite <- app_assoc. f_equal.
      replace (seq 0 (Z.to_nat n)) with (seq 0 (Z.to_nat (n - 1)) ++ [Z.to_nat (n - 1)])
        by (rewrite <- seq_S; f_equal; lia).
      rewrite map_app. simpl. do 4 f_equal. lia.
    + reflexivity.
    + reflexivity.
    + reflexivity.
Qed.

Lemma runqsteal_takes_half_rounded_up_witness :
  let w := world_with [] [p_with [] 0; p_with [5; 6; 7] 0] false in
  exists gp pd',
    runqsteal 0 1 false w
    = Done gp (upd_p 0 pd' (upd_p 1 (p_set_runqhead (uint32 (0 + 2)) (p_with [5; 6; 7] 0)) w)) /\
    runq_list pd' ++ [gp] = [5; 6].
Proof.
  intros w.
  destruct (runqsteal_takes_half_rounded_up w 0 1 (p_with [] 0) (p_with [5; 6; 7] 0) false)
    as [_ H]; [reflexivity | reflexivity | lia | | | ].
  - repeat split; vm_compute; congruence.
  - repeat split; vm_compute; congruence.
  - destruct H as (gp & pd' & H1 & _ & H3 & _); [vm_compute; split; congruence | vm_compute; reflexivity |].
    exists gp, pd'. split; [exact H1 | exact H3].
Defined.

(** ** The global run queue as a sequence *)

Lemma same_rest_refl w : same_rest w w.
Proof. repeat split. Qed.

Lemma same_rest_trans w1 w2 w3 : same_rest w1 w2 -> same_rest w2 w3 -> same_rest w1 w3.
Proof.
  unfold same_rest.
  intros (A1 & A2 & A3 & A4 & A5 & A6 & A7 & A8 & A9 & A10 & A11 & A12 & A13 & A14 & A15 & A16 & A17)
         (B1 & B2 & B3 & B4 & B5 & B6 & B7 & B8 & B9 & B10 & B11 & B12 & B13 & B14 & B15 & B16 & B17).
  repeat split; congruence.
Qed.

Lemma heap_links_refl hp : heap_links hp hp.
Proof. intros y gy H. exists gy. split; [exact H | reflexivity]. Qed.

Lemma heap_links_trans hp1 hp2 hp3 :
  heap_links hp1 hp2 -> heap_links hp2 hp3 -> heap_links hp1 hp3.
Proof.
  intros H12 H23 y gy H. destruct (H12 y gy H) as (gy2 & H2 & E2).
  destruct (H23 y gy2 H2) as (gy3 & H3 & E3).
  exists gy3. split; [exact H3|]. unfold same_but_link in *. congruence.
Qed.

Lemma heap_links_insert hp x gx lnk :
  hp !! x = Some gx -> heap_links hp (<[x := g_set_schedlink lnk gx]> hp).
Proof.
  intros Hx y gy Hy. destruct (decide (x = y)) as [->|Hne].
  - rewrite lookup_insert_eq. eexists. split; [reflexivity|].
    rewrite Hx in Hy. injection Hy as <-. reflexivity.
  - rewrite lookup_insert_ne by exact Hne. exists gy. split; [exact Hy | reflexivity].
Qed.

Lemma heap_links_is_Some hp hp' x :
  heap_links hp hp' -> is_Some (hp !! x) -> is_Some (hp' !! x).
Proof. intros H [gx Hx]. destruct (H x gx Hx) as (gx' & Hx' & _). eauto. Qed.

Lemma readg_has w gp x :
  heap w !! gp = Some x -> gp <> 0 -> readg gp w = Done x w.
Proof.
  intros H Hnz. unfold readg. rewrite H.
  apply Z.eqb_neq in Hnz. rewrite Hnz. reflexivity.
Qed.

Lemma modg_has f w gp x :
  heap w !! gp = Some x -> gp <> 0 ->
  modg gp f w = Done tt (upd_g gp (f x) w).
Proof.
  intros H Hnz. unfold modg. rewrite bind_eq, (readg_has _ _ _ H Hnz). reflexivity.
Qed.

Lemma lseg_frame hp hd l tl x v :
  x ∉ l -> lseg hp hd l tl -> lseg (<[x := v]> hp) hd l tl.
Proof.
  revert hd. induction l as [|y l IH]; intros hd Hx H; simpl in *; [exact H|].
  destruct H as (-> & Hnz & gx & Hg & Hrest).
  apply not_elem_of_cons in Hx as [Hxy Hxl].
  split; [reflexivity|]. split; [exact Hnz|].
  exists gx. split; [rewrite lookup_insert_ne by exact Hxy; exact Hg|].
  apply IH; assumption.
Qed.

Lemma lseg_app hp hd l1 mid l2 tl :
  lseg hp hd l1 mid -> lseg hp mid l2 tl -> lseg hp hd (l1 ++ l2) tl.
Proof.
  revert hd. induction l1 as [|x l1 IH]; intros hd H1 H2; simpl in *.
  - subst. exact H2.
  - destruct H1 as (-> & Hnz & gx & Hg & Hrest).
    split; [reflexivity|]. split; [exact Hnz|]. exists gx. split; [exact Hg|].
    apply IH; assumption.
Qed.

Lemma lseg_split hp hd l1 l2 tl :
  lseg hp hd (l1 ++ l2) tl -> exists mid, lseg hp hd l1 mid /\ lseg hp mid l2 tl.
Proof.
  revert hd. induction l1 as [|x l1 IH]; intros hd H; simpl in *.
  - exists hd. split; [reflexivity | exact H].
  - destruct H as (-> & Hnz & gx & Hg & Hrest).
    destruct (IH _ Hrest) as (mid & H1 & H2).
    exists mid. split; [|exact H2].
    split; [reflexivity|]. split; [exact Hnz|]. exists gx. split; assumption.
Qed.

Lemma lseg_valid hp hd l tl : lseg hp hd l tl -> valid_gs hp l.
Proof.
  revert hd. induction l as [|x l IH]; intros hd H; simpl in *.
  - constructor.
  - destruct H as (-> & Hnz & gx & Hg & Hrest). constructor; [|eapply IH; exact Hrest].
    split; [exact Hnz | exists gx; exact Hg].
Qed.

(** A chain that ends in nil is determined by its first g. *)
Lemma lseg_nil_unique hp hd l1 l2 :
  lseg hp hd l1 0 -> lseg hp hd l2 0 -> l1 = l2.
Proof.
  revert hd l2. induction l1 as [|x l1 IH]; intros hd l2 H1 H2; simpl in *.
  - subst hd. destruct l2 as [|y l2]; [reflexivity|].
    simpl in H2. destruct H2 as (<- & Hnz & _). congruence.
  - destruct H1 as (-> & Hnz & gx & Hg & Hrest).
    destruct l2 as [|y l2]; simpl in H2; [congruence|].
    destruct H2 as (<- & _ & gy & Hg' & Hrest').
    rewrite Hg in Hg'. injection Hg' as <-.
    f_equal. eapply IH; eassumption.
Qed.

Lemma lseg_nil_NoDup hp hd l : lseg hp hd l 0 -> NoDup l.
Proof.
  revert hd. induction l as [|x l IH]; intros hd H; [constructor|].
  pose proof H as H0. simpl in H. destruct H as (-> & Hnz & gx & Hg & Hrest).
  constructor; [|eapply IH; exact Hrest].
  intros Hin. apply list_elem_of_split in Hin as (l1 & l2 & ->).
  destruct (lseg_split _ _ _ _ _ Hrest) as (mid & _ & H2).
  pose proof H2 as H2'. simpl in H2'. destruct H2' as (-> & _).
  pose proof (lseg_nil_unique _ _ _ _ H0 H2) as E.
  apply (f_equal length) in E. rewrite !length_cons, length_app, length_cons in E. lia.
Qed.

Lemma last_nonzero (l : list guintptr) :
  Forall (fun x => x <> 0) l -> (default 0 (last l) = 0 <-> l = []).
Proof.
  intros H. split; [|intros ->; reflexivity].
  destruct l as [|x l] using rev_ind; [reflexivity|].
  rewrite last_snoc. simpl. intros ->.
  apply Forall_app in H as [_ H]. inversion H; subst. congruence.
Qed.

Lemma globrunq_tail_nil w l :
  globrunq w l -> (sched_runqtail (sched w) = 0 <-> l = []).
Proof.
  intros (Hs & _ & Ht). rewrite Ht. apply last_nonzero.
  apply lseg_valid in Hs. eapply Forall_impl; [exact Hs|]. simpl. tauto.
Qed.

Lemma int32_id x : is_int32 x -> int32 x = x.
Proof.
  unfold is_int32, int32. intros H. rewrite Z.mod_small by lia. lia.
Qed.

Lemma globrunqput_is_batch gp : globrunqput gp = globrunqputbatch gp gp 1.
Proof. reflexivity. Qed.

(** Appending a chain to the global queue. *)
Lemma globrunqputbatch_spec w l b' ghead gtail gt n :
  globrunq w l ->
  lseg (heap w) ghead b' gtail ->
  gtail <> 0 -> heap w !! gtail = Some gt ->
  NoDup (l ++ b' ++ [gtail]) ->
  n = Z.of_nat (length (b' ++ [gtail])) ->
  Z.of_nat (length l) + n < 2147483648 ->
  exists w',
    globrunqputbatch ghead gtail n w = Done tt w' /\
    globrunq w' (l ++ b' ++ [gtail]) /\
    sched_runqsize (sched w') = sched_runqsize (sched w) + n /\
    allp w' = allp w /\ sched_lock (sched w') = sched_lock (sched w) /\
    (forall x, x ∉ (gtail :: l) -> heap w' !! x = heap w !! x) /\
    heap_links (heap w) (heap w') /\
    rng_pos w' = rng_pos w /\ trace w' = trace w /\ curm w' = curm w /\
    raceenabled w' = raceenabled w /\ gomaxprocs w' = gomaxprocs w /\
    same_rest w w'.
Proof.
  intros (Hseg & Hsize & Htail) Hb Hnz Hgt Hnd Hn Hlt.
  apply NoDup_app in Hnd as (Hndl & Hdisj & Hndb).
  apply NoDup_app in Hndb as (Hndb' & Hdisjb & _).
  assert (Hgl : gtail ∉ l).
  { intros Hin. apply (Hdisj _ Hin). apply elem_of_app. right. apply list_elem_of_singleton. reflexivity. }
  assert (Hgb : gtail ∉ b').
  { intros Hin. apply (Hdisjb _ Hin). apply list_elem_of_singleton. reflexivity. }
  set (gt0 := g_set_schedlink 0 gt).
  set (w1 := upd_g gtail gt0 w).
  assert (Hb1 : lseg (heap w1) ghead (b' ++ [gtail]) 0).
  { eapply lseg_app; [apply lseg_frame; eassumption|].
    simpl. split; [reflexivity|]. split; [exact Hnz|].
    exists gt0. split; [apply lookup_insert_eq | reflexivity]. }
  assert (Hl1 : lseg (heap w1) (sched_runqhead (sched w)) l 0).
  { apply lseg_frame; assumption. }
  unfold globrunqputbatch.
  rewrite bind_eq, (modg_has _ _ _ _ Hgt Hnz). fold gt0 w1.
  rewrite bind_eq. change (get_sched w1) with (Done (sched w) w1). cbv beta iota.
  destruct (Z.eqb_spec (sched_runqtail (sched w)) 0) as [E|E]; cbv beta iota; simpl negb; cbv iota.
  - (* the queue was empty *)
    assert (l = []) as -> by (eapply globrunq_tail_nil; [repeat split; eassumption | exact E]).
    eexists. split; [reflexivity|].
    split; [|split; [|split; [|split; [|split; [|split]]]]].
    + repeat split; simpl.
      * exact Hb1.
      * rewrite Hsize. simpl length. rewrite int32_id; [lia|]. unfold is_int32. simpl in Hlt. lia.
      * rewrite last_snoc. reflexivity.
    + simpl. rewrite int32_id; [reflexivity|]. rewrite Hsize. unfold is_int32. simpl in *. lia.
    + reflexivity.
    + reflexivity.
    + intros x Hx. simpl. apply lookup_insert_ne. intros ->. apply Hx. left.
    + simpl. apply heap_links_insert. exact Hgt.
    + repeat split.
  - (* link the old tail to the batch *)
    destruct l as [|x0 l0] using rev_ind; [simpl in Htail; congruence|]. clear IHl0.
    rewrite last_snoc in Htail. simpl in Htail.
    apply lseg_split in Hl1 as (mid & Hl0 & Hx0).
    pose proof Hx0 as Hx0'. simpl in Hx0'. destruct Hx0' as (-> & Hx0nz & gx & Hgx & Hgxl).
    assert (Hx0b : x0 ∉ b' ++ [gtail]).
    { intros Hin. apply (Hdisj x0); [apply elem_of_app; right; left | exact Hin]. }
    assert (Hx0l : x0 ∉ l0).
    { apply NoDup_app in Hndl as (_ & Hd & _). intros Hin. apply (Hd _ Hin). left. }
    rewrite Htail.
    rewrite bind_eq, (modg_has _ w1 _ _ Hgx Hx0nz).
    eexists. split; [reflexivity|].
    split; [|split; [|split; [|split; [|split; [|split]]]]].
    + repeat split; simpl.
      * rewrite <- app_assoc. eapply lseg_app; [apply lseg_frame; [exact Hx0l | exact Hl0]|].
        eapply (lseg_app _ _ [x0]).
        -- simpl. split; [reflexivity|]. split; [exact Hx0nz|].
           eexists. split; [apply lookup_insert_eq | reflexivity].
        -- apply lseg_frame; assumption.
      * rewrite Hsize. rewrite !length_app in *. simpl length in *.
        rewrite int32_id; [lia|]. unfold is_int32. lia.
      * rewrite app_assoc, last_snoc. reflexivity.
    + simpl. rewrite int32_id; [reflexivity|]. rewrite Hsize. unfold is_int32. lia.
    + reflexivity.
    + reflexivity.
    + intros x Hx. simpl. rewrite !lookup_insert_ne; [reflexivity| |].
      * intros ->. apply Hx. left.
      * intros ->. apply Hx. right. apply elem_of_app. right. left.
    + simpl. eapply heap_links_trans; [apply heap_links_insert; exact Hgt|].
      apply heap_links_insert. exact Hgx.
    + repeat split.
Qed.

Lemma globrunqputhead_spec w l gp gx :
  globrunq w l -> gp <> 0 -> heap w !! gp = Some gx -> gp ∉ l ->
  Z.of_nat (length l) + 1 < 2147483648 ->
  exists w',
    globrunqputhead gp w = Done tt w' /\
    globrunq w' (gp :: l) /\
    sched_runqsize (sched w') = sched_runqsize (sched w) + 1.
Proof.
  intros (Hseg & Hsize & Htail) Hnz Hg Hin Hlt.
  unfold globrunqputhead.
  rewrite bind_eq. change (get_sched w) with (Done (sched w) w). cbv beta iota.
  rewrite bind_eq, (modg_has _ _ _ _ Hg Hnz).
  do 3 (rewrite bind_eq; simpl).
  assert (Hsz : int32 (sched_runqsize (sched w) + 1) = sched_runqsize (sched w) + 1).
  { apply int32_id. rewrite Hsize. unfold is_int32. lia. }
  assert (Hl : lseg (<[gp := g_set_schedlink (sched_runqhead (sched w)) gx]> (heap w)) gp (gp :: l) 0).
  { simpl. split; [reflexivity|]. split; [exact Hnz|]. eexists.
    split; [apply lookup_insert_eq|]. simpl. apply lseg_frame; assumption. }
  destruct (Z.eqb_spec (sched_runqtail (sched w)) 0) as [E|E]; simpl.
  - assert (l = []) as -> by (eapply globrunq_tail_nil; [repeat split; eassumption | exact E]).
    eexists. split; [reflexivity|]. split; [|simpl; exact Hsz].
    split; [exact Hl|]. split; simpl; [rewrite Hsz, Hsize; simpl; lia | reflexivity].
  - eexists. split; [reflexivity|]. split; [|simpl; exact Hsz].
    split; [exact Hl|]. split; simpl; [rewrite Hsz, Hsize; simpl length; lia |].
    rewrite Htail. destruct l as [|y l']; [simpl in Htail; congruence|].
    rewrite last_cons_cons. reflexivity.
Qed.

(** *** Pushing on the local ring *)

Lemma p_push_wf gp pp : p_wf pp -> p_wf (p_push gp pp).
Proof.
  intros (Hh & Ht & Hl). repeat split; simpl; try apply Hh.
  - apply Z.mod_pos_bound. lia.
  - apply Z.mod_pos_bound. lia.
  - rewrite length_insert. exact Hl.
Qed.

Lemma runq_count_push gp pp :
  runq_count pp < runqlen -> runq_count (p_push gp pp) = runq_count pp + 1.
Proof.
  intros Hc. pose proof (runq_count_range pp) as Hr. unfold runqlen in Hc.
  unfold runq_count in *. simpl. rewrite uint32_sub_l.
  replace (p_runqtail pp + 1 - p_runqhead pp)
    with ((p_runqtail pp - p_runqhead pp) + 1) by lia.
  rewrite <- uint32_add_l. apply uint32_id. unfold is_uint32. lia.
Qed.

Lemma runq_list_push gp pp :
  p_wf pp -> runq_count pp < runqlen ->
  runq_list (p_push gp pp) = runq_list pp ++ [gp].
Proof.
  intros (Hh & Ht & Hl) Hc. pose proof (runq_count_range pp) as Hr.
  pose proof (runq_count_push gp pp Hc) as Hcount. unfold runqlen in Hc.
  apply list_eq. intros k.
  destruct (decide (k < Z.to_nat (runq_count pp))%nat) as [Hk|Hk].
  - rewrite lookup_app_l by (rewrite runq_list_length; exact Hk).
    rewrite !runq_list_lookup by (rewrite ?Hcount; lia).
    f_equal. simpl. unfold runq_at. rewrite list_lookup_insert_ne; [reflexivity|].
    intros E. apply Z2Nat.inj in E; try (apply Z.mod_pos_bound; reflexivity).
    rewrite uint32_mod_runqlen in E.
    rewrite (runq_tail_head pp Ht), uint32_mod_runqlen in E.
    assert (p_runqhead pp + Z.of_nat k = p_runqhead pp + runq_count pp); [|lia].
    apply mod_runqlen_inj; [symmetry; exact E|]. unfold runqlen. lia.
  - rewrite lookup_app_r by (rewrite runq_list_length; lia).
    rewrite runq_list_length.
    destruct (decide (k = Z.to_nat (runq_count pp))) as [->|Hne].
    + rewrite runq_list_lookup by (rewrite Hcount; lia).
      rewrite Nat.sub_diag. simpl. f_equal.
      rewrite Z2Nat.id by lia. rewrite <- (runq_tail_head pp Ht).
      apply runq_at_set_eq. exact Hl.
    + rewrite !lookup_ge_None_2; [reflexivity|simpl; lia|].
      rewrite runq_list_length, Hcount. lia.
Qed.

Lemma p_push_list_spec gs pp :
  p_wf pp -> runq_count pp + Z.of_nat (length gs) <= runqlen ->
  p_wf (p_push_list gs pp) /\
  runq_count (p_push_list gs pp) = runq_count pp + Z.of_nat (length gs) /\
  runq_list (p_push_list gs pp) = runq_list pp ++ gs /\
  p_runqhead (p_push_list gs pp) = p_runqhead pp /\
  p_runnext (p_push_list gs pp) = p_runnext pp.
Proof.
  revert pp. induction gs as [|x gs IH]; intros pp Hwf Hroom.
  - simpl. rewrite app_nil_r. repeat split; try apply Hwf; lia.
  - simpl in *.
    assert (Hc : runq_count pp < runqlen) by lia.
    destruct (IH (p_push x pp)) as (H1 & H2 & H3 & H4 & H5).
    + apply p_push_wf; exact Hwf.
    + rewrite runq_count_push by exact Hc. lia.
    + split; [exact H1|]. split; [rewrite H2, runq_count_push by exact Hc; lia|].
      split; [rewrite H3, runq_list_push by assumption; rewrite <- app_assoc; reflexivity|].
      split; [rewrite H4 | rewrite H5]; reflexivity.
Qed.

(** The loop of globrunqget: each turn unlinks the first g of the global
    queue and puts it on the local queue. *)
Lemma globrunqget_loop i xs : forall w pp mid lo,
  lseg (heap w) (sched_runqhead (sched w)) xs mid ->
  has_p w i pp -> p_wf pp ->
  runq_count pp + Z.of_nat (length xs) <= runqlen ->
  for_range lo (length xs)
    (fun _ => let* s := get_sched in
              let* gv1 := readg (sched_runqhead s) in
              mod_sched (sched_set_runqhead (g_schedlink gv1)) ;;;
              runqput i (sched_runqhead s) false) w
  = Done tt (upd_p i (p_push_list xs pp)
               (w_set_sched (sched_set_runqhead mid (sched w)) w)).
Proof.
  induction xs as [|x xs IH]; intros w pp mid lo Hseg Hp Hwf Hroom.
  - simpl in *. subst mid. unfold ret. f_equal.
    rewrite <- (upd_p_same w i pp Hp) at 1. destruct w as [? ? ? []]; reflexivity.
  - simpl in Hseg. destruct Hseg as (Hhd & Hnz & gx & Hgx & Hrest).
    simpl length in *. simpl for_range.
    rewrite bind_eq, bind_eq. change (get_sched w) with (Done (sched w) w). cbv beta iota zeta.
    rewrite Hhd. rewrite bind_eq, (readg_has _ _ _ Hgx Hnz).
    rewrite bind_eq. simpl mod_sched.
    unfold mod_sched, modify.
    set (w1 := w_set_sched _ w).
    assert (Hp1 : has_p w1 i pp) by exact Hp.
    rewrite (runqput_fast w1 i pp x Hp1) by lia.
    erewrite IH.
    + unfold ret. f_equal. unfold upd_p, w_set_allp, w_set_sched, w1. simpl.
      rewrite list_insert_insert_eq. reflexivity.
    + exact Hrest.
    + eapply has_p_upd. exact Hp1.
    + apply p_push_wf. exact Hwf.
    + rewrite runq_count_push by lia. lia.
Qed.

Lemma last_drop_lt {A} (l : list A) (n : nat) :
  (n < length l)%nat -> last (drop n l) = last l.
Proof.
  intros Hn. rewrite !last_lookup, lookup_drop, length_drop. f_equal. lia.
Qed.

(** ** C3: the share globrunqget takes *)

Lemma cap_min a b : (if a >? b then b else a) = Z.min a b.
Proof. destruct (Z.gtb_spec a b); lia. Qed.

Lemma fair_share_code size procs max :
  0 < size < 2147483647 -> 0 < procs ->
  let n := int32 (int32 (Z.quot size procs) + 1) in
  let n := if n >? size then size else n in
  let n := if (max >? 0) && (n >? max) then max else n in
  let n := if n >? runqlen / 2 then runqlen / 2 else n in
  n = fair_share size procs max /\ 1 <= n <= size /\ n <= runqlen / 2.
Proof.
  intros Hs Hp. change (runqlen / 2) with 128. unfold fair_share.
  change (runqlen / 2) with 128.
  rewrite Z.quot_div_nonneg by lia.
  assert (Hq : 0 <= size / procs <= size).
  { split; [apply Z.div_pos; lia|]. apply Z.div_le_upper_bound; nia. }
  rewrite (int32_id (size / procs)) by (unfold is_int32; lia).
  rewrite (int32_id (size / procs + 1)) by (unfold is_int32; lia).
  cbv zeta. rewrite !cap_min.
  assert (E : (if (max >? 0) && (Z.min (size / procs + 1) size >? max) then max
               else Z.min (size / procs + 1) size)
              = if 0 <? max then Z.min (Z.min (size / procs + 1) size) max
                else Z.min (size / procs + 1) size).
  { destruct (Z.gtb_spec max 0); destruct (Z.ltb_spec 0 max); try lia; simpl andb.
    - apply cap_min.
    - reflexivity. }
  rewrite E. split; [reflexivity|].
  destruct (Z.ltb_spec 0 max); lia.
Qed.

Lemma globrunqget_empty w i max :
  sched_runqsize (sched w) = 0 -> globrunqget i max w = Done 0 w.
Proof.
  intros H. unfold globrunqget. rewrite bind_eq.
  change (get_sched w) with (Done (sched w) w). cbv beta iota. rewrite H. reflexivity.
Qed.

Lemma globrunqget_spec w i pp l max :
  globrunq w l -> has_p w i pp -> p_wf pp ->
  0 < gomaxprocs w -> l <> [] -> Z.of_nat (length l) < 2147483647 ->
  let n := fair_share (sched_runqsize (sched w)) (gomaxprocs w) max in
  runq_count pp + (n - 1) <= runqlen ->
  1 <= n <= Z.of_nat (length l) /\
  exists w',
    let pp' := p_push_list (take (Z.to_nat (n - 1)) (drop 1 l)) pp in
    globrunqget i max w = Done (default 0 (head l)) w' /\
    globrunq w' (drop (Z.to_nat n) l) /\
    sched_runqsize (sched w') = sched_runqsize (sched w) - n /\
    has_p w' i pp' /\ heap w' = heap w /\
    (forall j, j <> i -> allp w' !! j = allp w !! j).
Proof.
  intros (Hseg & Hsize & Htail) Hp Hwf Hprocs Hne Hlen n Hroom.
  destruct l as [|x l']; [congruence|]. clear Hne.
  simpl length in *.
  destruct (fair_share_code (sched_runqsize (sched w)) (gomaxprocs w) max)
    as (Hn & Hn1 & Hn2); [rewrite Hsize; lia | exact Hprocs |].
  cbv zeta in Hn, Hn1, Hn2. rewrite Hn in Hn1, Hn2. fold n in Hn, Hn1, Hn2.
  change (runqlen / 2) with 128 in Hn2. rewrite Hsize in Hn1.
  split; [lia|].
  simpl in Hseg. destruct Hseg as (Hhd & Hnz & gx & Hgx & Hrest).
  set (xs := take (Z.to_nat (n - 1)) l').
  assert (Hxs : length xs = Z.to_nat (n - 1)) by (unfold xs; rewrite length_take; lia).
  rewrite <- (take_drop (Z.to_nat (n - 1)) l') in Hrest. fold xs in Hrest.
  apply lseg_split in Hrest as (mid & Hxsseg & Hdrop).
  unfold globrunqget.
  rewrite bind_eq. change (get_sched w) with (Done (sched w) w). cbv beta iota.
  destruct (Z.eqb_spec (sched_runqsize (sched w)) 0) as [E|_]; [lia|].
  rewrite bind_eq. change (gets gomaxprocs w) with (Done (gomaxprocs w) w). cbv beta iota.
  destruct (Z.eqb_spec (gomaxprocs w) 0) as [E|_]; [lia|].
  cbv zeta. rewrite Hn.
  assert (Hsz : int32 (sched_runqsize (sched w) - n) = sched_runqsize (sched w) - n).
  { apply int32_id. unfold is_int32. lia. }
  rewrite Hsz. rewrite (int32_id (n - 1)) by (unfold is_int32; lia).
  rewrite <- Hxs.
  rewrite bind_eq. simpl mod_sched. unfold mod_sched at 1, modify. cbv beta iota.
  set (w1 := w_set_sched _ w).
  rewrite bind_eq. change (get_sched w1) with (Done (sched w1) w1). cbv beta iota.
  change (sched_runqsize (sched w1)) with (sched_runqsize (sched w) - n).
  destruct (Z.eqb_spec (sched_runqsize (sched w) - n) 0) as [E|E].
  - (* the queue is drained *)
    unfold when. rewrite bind_eq. unfold mod_sched at 1, modify. cbv beta iota.
    set (w2 := w_set_sched _ w1).
    rewrite bind_eq. change (get_sched w2) with (Done (sched w2) w2). cbv beta iota zeta.
    change (sched_runqhead (sched w2)) with (sched_runqhead (sched w)). rewrite Hhd.
    rewrite bind_eq, (readg_has w2 x gx Hgx Hnz).
    rewrite bind_eq. unfold mod_sched at 1, modify. cbv beta iota.
    set (w3 := w_set_sched _ w2).
    rewrite bind_eq.
    rewrite (globrunqget_loop i xs w3 pp mid 0 Hxsseg Hp Hwf) by (rewrite Hxs; unfold runqlen in *; lia).
    eexists. cbv zeta. split; [reflexivity|].
    assert (Hd : drop (Z.to_nat n) (x :: l') = []).
    { apply drop_ge. simpl. lia. }
    assert (Hd' : drop (Z.to_nat (n - 1)) l' = []) by (apply drop_ge; lia).
    rewrite Hd. rewrite Hd' in Hdrop. simpl in Hdrop.
    split; [|split; [|split; [|split]]].
    + split; [simpl; exact Hdrop|]. split; simpl; [exact E | reflexivity].
    + reflexivity.
    + rewrite Hxs. eapply has_p_upd. exact Hp.
    + reflexivity.
    + intros j Hj. simpl. apply list_lookup_insert_ne. auto.
  - unfold when. rewrite bind_eq. change (ret tt w1) with (Done tt w1). cbv beta iota.
    rewrite bind_eq. change (get_sched w1) with (Done (sched w1) w1). cbv beta iota zeta.
    change (sched_runqhead (sched w1)) with (sched_runqhead (sched w)). rewrite Hhd.
    rewrite bind_eq, (readg_has w1 x gx Hgx Hnz).
    rewrite bind_eq. unfold mod_sched at 1, modify. cbv beta iota.
    set (w3 := w_set_sched _ w1).
    rewrite bind_eq.
    rewrite (globrunqget_loop i xs w3 pp mid 0 Hxsseg Hp Hwf) by (rewrite Hxs; unfold runqlen in *; lia).
    eexists. cbv zeta. split; [reflexivity|].
    assert (Hd : drop (Z.to_nat n) (x :: l') = drop (Z.to_nat (n - 1)) l').
    { replace (Z.to_nat n) with (S (Z.to_nat (n - 1))) by lia. reflexivity. }
    split; [|split; [|split; [|split]]].
    + rewrite Hd. split; [simpl; exact Hdrop|]. split; simpl.
      * rewrite length_drop, Hsize. lia.
      * rewrite Htail. rewrite <- Hd. rewrite last_drop_lt; [reflexivity|]. simpl. lia.
    + reflexivity.
    + rewrite Hxs. eapply has_p_upd. exact Hp.
    + reflexivity.
    + intros j Hj. simpl. apply list_lookup_insert_ne. auto.
Qed.

Lemma lsegb_lseg hp hd l tl : lsegb hp hd l tl = true -> lseg hp hd l tl.
Proof.
  revert hd. induction l as [|x l IH]; intros hd H; simpl in *.
  - apply Z.eqb_eq. exact H.
  - apply andb_prop in H as [H H3]. apply andb_prop in H as [H1 H2].
    apply Z.eqb_eq in H1. apply negb_true_iff, Z.eqb_neq in H2.
    destruct (hp !! x) as [gx|] eqn:E; [|discriminate].
    split; [exact H1|]. split; [exact H2|]. exists gx. split; [reflexivity|].
    apply IH. exact H3.
Defined.

Lemma globrunqb_globrunq w l : globrunqb w l = true -> globrunq w l.
Proof.
  unfold globrunqb, globrunq. intros H.
  apply andb_prop in H as [H H3]. apply andb_prop in H as [H1 H2].
  split; [apply lsegb_lseg; exact H1|].
  split; apply Z.eqb_eq; assumption.
Defined.

(** C3. With the global queue [l] not empty, [globrunqget(p, max)] takes
    [n] goroutines off its front, [n] being [runqsize/gomaxprocs + 1]
    capped at [runqsize], at [max] when [max > 0] and at half of the local
    capacity; it returns the first of them and puts the other [n-1] on the
    tail of p's local ring, in order; the global queue keeps the rest and
    [runqsize] goes down by [n].  With the global queue empty it returns nil
    and leaves the state as it is.  (The local ring has room for the [n-1]
    goroutines, which is the case at every call site.) *)
Theorem globrunqget_takes_fair_share
    (w : world) (i : nat) (pp : p) (l : list guintptr) (max : Z) :
  globrunq w l -> has_p w i pp -> p_wf pp ->
  0 < gomaxprocs w -> Z.of_nat (length l) < 2147483647 ->
  let n := fair_share (sched_runqsize (sched w)) (gomaxprocs w) max in
  runq_count pp + (n - 1) <= runqlen ->
  (l = [] -> globrunqget i max w = Done 0 w) /\
  (l <> [] ->
   1 <= n <= Z.of_nat (length l) /\
   exists w' pp',
     globrunqget i max w = Done (default 0 (head l)) w' /\
     globrunq w' (drop (Z.to_nat n) l) /\
     sched_runqsize (sched w') = sched_runqsize (sched w) - n /\
     has_p w' i pp' /\
     runq_list pp' = runq_list pp ++ take (Z.to_nat (n - 1)) (drop 1 l) /\
     p_runqhead pp' = p_runqhead pp /\ p_runnext pp' = p_runnext pp /\
     heap w' = heap w /\
     (forall j, j <> i -> allp w' !! j = allp w !! j)).
Proof.
  intros Hq Hp Hwf Hprocs Hlen n Hroom. split.
  - intros ->. apply globrunqget_empty. destruct Hq as (_ & Hs & _). exact Hs.
  - intros Hne.
    destruct (globrunqget_spec w i pp l max Hq Hp Hwf Hprocs Hne Hlen Hroom)
      as (Hn & w' & Hrun & Hq' & Hsz & Hp' & Hheap & Hother).
    split; [exact Hn|].
    destruct (p_push_list_spec (take (Z.to_nat (n - 1)) (drop 1 l)) pp Hwf)
      as (_ & _ & Hlist & Hhead & Hnext).
    { rewrite length_take, length_drop. unfold runqlen in *. lia. }
    exists w', (p_push_list (take (Z.to_nat (n - 1)) (drop 1 l)) pp).
    split; [exact Hrun|]. split; [exact Hq'|]. split; [exact Hsz|]. split; [exact Hp'|].
    split; [exact Hlist|]. split; [exact Hhead|]. split; [exact Hnext|].
    split; [exact Hheap | exact Hother].
Qed.

Lemma globrunqget_takes_fair_share_witness :
  let w := with_globrunq [1; 2; 3] (world_with [] [p_with [] 0; p_with [] 0] false) in
  exists w' pp',
    globrunqget 0 0 w = Done 1 w' /\ globrunq w' [3] /\
    has_p w' 0 pp' /\ runq_list pp' = [2].
Proof.
  intros w.
  destruct (globrunqget_takes_fair_share w 0 (p_with [] 0) [1; 2; 3] 0) as [_ H].
  - apply globrunqb_globrunq. vm_compute. reflexivity.
  - reflexivity.
  - repeat split; vm_compute; congruence.
  - vm_compute. reflexivity.
  - vm_compute. reflexivity.
  - vm_compute. congruence.
  - destruct H as (_ & w' & pp' & H1 & H2 & _ & H4 & H5 & _); [congruence|].
    exists w', pp'. split; [exact H1 | split; [exact H2 | split; [exact H4 | exact H5]]].
Defined.

(** ** C10: the representation of the global run queue *)

(** C10. If [sched.runqhead], [sched.runqtail] and [sched.runqsize]
    represent the sequence [l] (the chain from the head is [l] and ends in
    nil, the size is its length, the tail is its last element), then the
    tail is nil exactly when [l] is empty, and each of the four operations
    yields a state that represents the expected sequence, with [runqsize]
    changed by the number of goroutines added or removed: globrunqput
    appends [gp], globrunqputhead prepends it, globrunqputbatch appends the
    [n] goroutines of the chain from [ghead] to [gtail], and globrunqget
    removes the first [n] goroutines, [n] being its fair share.  The
    goroutines added are allocated, not nil and not yet on the queue; the
    size stays within 31 bits. *)
Theorem globrunq_invariant (w : world) (l : list guintptr) :
  globrunq w l ->
  (sched_runqsize (sched w) = Z.of_nat (length l) /\
   (sched_runqtail (sched w) = 0 <-> l = []) /\
   sched_runqtail (sched w) = default 0 (last l)) /\
  (forall gp gx,
     gp <> 0 -> heap w !! gp = Some gx -> gp ∉ l ->
     Z.of_nat (length l) + 1 < 2147483648 ->
     exists w', globrunqput gp w = Done tt w' /\ globrunq w' (l ++ [gp]) /\
                sched_runqsize (sched w') = sched_runqsize (sched w) + 1) /\
  (forall gp gx,
     gp <> 0 -> heap w !! gp = Some gx -> gp ∉ l ->
     Z.of_nat (length l) + 1 < 2147483648 ->
     exists w', globrunqputhead gp w = Done tt w' /\ globrunq w' (gp :: l) /\
                sched_runqsize (sched w') = sched_runqsize (sched w) + 1) /\
  (forall ghead gtail gt b' n,
     lseg (heap w) ghead b' gtail -> gtail <> 0 -> heap w !! gtail = Some gt ->
     NoDup (l ++ b' ++ [gtail]) -> n = Z.of_nat (length (b' ++ [gtail])) ->
     Z.of_nat (length l) + n < 2147483648 ->
     exists w', globrunqputbatch ghead gtail n w = Done tt w' /\
                globrunq w' (l ++ b' ++ [gtail]) /\
                sched_runqsize (sched w') = sched_runqsize (sched w) + n) /\
  (forall i pp max,
     has_p w i pp -> p_wf pp -> 0 < gomaxprocs w ->
     Z.of_nat (length l) < 2147483647 -> l <> [] ->
     let n := fair_share (sched_runqsize (sched w)) (gomaxprocs w) max in
     runq_count pp + (n - 1) <= runqlen ->
     exists w' gp, globrunqget i max w = Done gp w' /\
                   globrunq w' (drop (Z.to_nat n) l) /\
                   1 <= n <= Z.of_nat (length l) /\
                   sched_runqsize (sched w') = sched_runqsize (sched w) - n).
Proof.
  intros Hq. split; [|split; [|split; [|split]]].
  - destruct Hq as (Hs & Hsz & Ht). split; [exact Hsz|]. split; [|exact Ht].
    apply globrunq_tail_nil. repeat split; assumption.
  - intros gp gx Hnz Hg Hin Hlt. rewrite globrunqput_is_batch.
    destruct (globrunqputbatch_spec w l [] gp gp gx 1 Hq) as (w' & H1 & H2 & H3 & _);
      try assumption; try reflexivity.
    + apply NoDup_app. split; [eapply lseg_nil_NoDup; apply Hq|].
      split; [|apply NoDup_singleton].
      intros x Hx Hx'. apply list_elem_of_singleton in Hx'. subst. contradiction.
    + exists w'. split; [exact H1 | split; [exact H2 | exact H3]].
  - intros gp gx Hnz Hg Hin Hlt.
    destruct (globrunqputhead_spec w l gp gx Hq Hnz Hg Hin Hlt) as (w' & H).
    exists w'. exact H.
  - intros ghead gtail gt b' n Hb Hnz Hg Hnd Hn Hlt.
    destruct (globrunqputbatch_spec w l b' ghead gtail gt n Hq Hb Hnz Hg Hnd Hn Hlt)
      as (w' & H1 & H2 & H3 & _).
    exists w'. split; [exact H1 | split; [exact H2 | exact H3]].
  - intros i pp max Hp Hwf Hprocs Hlen Hne n Hroom.
    destruct (globrunqget_spec w i pp l max Hq Hp Hwf Hprocs Hne Hlen Hroom)
      as (Hn & w' & Hrun & Hq' & Hsz & _).
    exists w', (default 0 (head l)).
    split; [exact Hrun | split; [exact Hq' | split; [exact Hn | exact Hsz]]].
Qed.

Lemma globrunq_invariant_witness :
  let w := with_globrunq [1; 2; 3]
             (world_with [(9, g_with _Grunnable 0)] [p_with [] 0] false) in
  (exists w', globrunqput 9 w = Done tt w' /\ globrunq w' [1; 2; 3; 9]) /\
  (exists w', globrunqputhead 9 w = Done tt w' /\ globrunq w' [9; 1; 2; 3]) /\
  (exists w' gp, globrunqget 0 0 w = Done gp w' /\ globrunq w' []).
Proof.
  intros w.
  assert (Hq : globrunq w [1; 2; 3]) by (apply globrunqb_globrunq; vm_compute; reflexivity).
  destruct (globrunq_invariant w [1; 2; 3] Hq) as (_ & Hput & Hhead & _ & Hget).
  assert (Hin : 9 ∉ [1; 2; 3]).
  { intros H. apply list_elem_of_In in H. simpl in H. lia. }
  split; [|split].
  - destruct (Hput 9 (g_with _Grunnable 0)) as (w' & H1 & H2 & _);
      [lia | vm_compute; reflexivity | exact Hin | simpl; lia |].
    exists w'. split; assumption.
  - destruct (Hhead 9 (g_with _Grunnable 0)) as (w' & H1 & H2 & _);
      [lia | vm_compute; reflexivity | exact Hin | simpl; lia |].
    exists w'. split; assumption.
  - destruct (Hget 0%nat (p_with [] 0) 0) as (w' & gp & H1 & H2 & _).
    + reflexivity.
    + repeat split; vm_compute; congruence.
    + vm_compute. reflexivity.
    + vm_compute. reflexivity.
    + congruence.
    + vm_compute. congruence.
    + exists w', gp. split; [exact H1 | exact H2].
Defined.

(** ** The slow path of runqput *)

Lemma gather_loop w i pp h lo n b :
  has_p w i pp ->
  for_acc lo n
    (fun i' b => let* q := p_load i p_runq in
                 ret (<[Z.to_nat i' := runq_at q (uint32 (h + i'))]> b)) b w
  = Done (gather (p_runq pp) h lo n b) w.
Proof.
  intros Hp. revert lo b. induction n as [|n IH]; intros lo b; simpl; [reflexivity|].
  rewrite bind_eq, bind_eq, (p_load_has _ _ _ _ Hp). simpl. apply IH.
Qed.

Lemma gather_length q h lo n b : length (gather q h lo n b) = length b.
Proof.
  revert lo b. induction n as [|n IH]; intros lo b; simpl; [reflexivity|].
  rewrite IH, length_insert. reflexivity.
Qed.

Lemma gather_lookup q h lo n b (k : nat) :
  0 <= lo -> (Z.to_nat lo + n <= length b)%nat ->
  gather q h lo n b !! k
  = if decide (lo <= Z.of_nat k < lo + Z.of_nat n)
    then Some (runq_at q (uint32 (h + Z.of_nat k))) else b !! k.
Proof.
  revert lo b. induction n as [|n IH]; intros lo b Hlo Hlen; simpl.
  - destruct (decide _); [lia | reflexivity].
  - rewrite IH by (rewrite ?length_insert; lia).
    destruct (decide (lo + 1 <= Z.of_nat k < lo + 1 + Z.of_nat n)) as [H|H];
      destruct (decide (lo <= Z.of_nat k < lo + Z.of_nat (S n))) as [H'|H']; try lia.
    + reflexivity.
    + assert (k = Z.to_nat lo) as -> by lia.
      rewrite list_lookup_insert_eq by lia. do 3 f_equal. lia.
    + apply list_lookup_insert_ne. lia.
Qed.

(** The batch of a full queue: its first half, then the incoming g. *)
Lemma batch_of_full pp gp :
  runq_count pp = runqlen ->
  <[Z.to_nat 128 := gp]>
    (gather (p_runq pp) (p_runqhead pp) 0 (Z.to_nat 128)
       (replicate (Z.to_nat (runqlen / 2 + 1)) 0))
  = take (Z.to_nat 128) (runq_list pp) ++ [gp].
Proof.
  intros Hc. unfold runqlen in Hc.
  rewrite take_runq_list by lia.
  change (Z.to_nat (runqlen / 2 + 1)) with 129%nat. change (Z.to_nat 128) with 128%nat.
  apply list_eq. intros k.
  destruct (decide (k = 128%nat)) as [->|Hne].
  - rewrite list_lookup_insert_eq by (rewrite gather_length, length_replicate; lia).
    rewrite lookup_app_r by (rewrite length_map, length_seq; lia).
    rewrite length_map, length_seq. reflexivity.
  - rewrite list_lookup_insert_ne by lia.
    rewrite gather_lookup by (rewrite ?length_replicate; lia).
    destruct (decide (0 <= Z.of_nat k < 0 + Z.of_nat 128)) as [H|H].
    + rewrite lookup_app_l by (rewrite length_map, length_seq; lia).
      rewrite list_lookup_fmap, lookup_seq_lt by lia. reflexivity.
    + rewrite !lookup_ge_None_2; [reflexivity| |].
      * rewrite length_app, length_map, length_seq. simpl. lia.
      * rewrite length_replicate. lia.
Qed.

(** *** Linking the batch *)

Lemma link_all_cons2 hp x y r :
  link_all hp (x :: y :: r)
  = match hp !! x with
    | Some gx => link_all (<[x := g_set_schedlink y gx]> hp) (y :: r)
    | None => hp
    end.
Proof. reflexivity. Qed.

Lemma link_all_is_Some hp bl x :
  is_Some (hp !! x) -> is_Some (link_all hp bl !! x).
Proof.
  revert hp. induction bl as [|a bl IH]; intros hp H; [exact H|].
  destruct bl as [|b bl]; [exact H|].
  rewrite link_all_cons2. destruct (hp !! a) as [ga|] eqn:E; [|exact H].
  apply IH. destruct (decide (a = x)) as [->|Hne].
  - rewrite lookup_insert_eq. eauto.
  - rewrite lookup_insert_ne by exact Hne. exact H.
Qed.

Lemma link_all_links hp bl : heap_links hp (link_all hp bl).
Proof.
  revert hp. induction bl as [|a bl IH]; intros hp; [apply heap_links_refl|].
  destruct bl as [|b bl]; [apply heap_links_refl|].
  rewrite link_all_cons2. destruct (hp !! a) as [ga|] eqn:E; [|apply heap_links_refl].
  eapply heap_links_trans; [apply heap_links_insert; exact E | apply IH].
Qed.

Lemma link_all_other hp bl x :
  x ∉ bl -> link_all hp bl !! x = hp !! x.
Proof.
  revert hp. induction bl as [|a bl IH]; intros hp H; [reflexivity|].
  destruct bl as [|b bl]; [reflexivity|].
  apply not_elem_of_cons in H as [Hxa Hx].
  rewrite link_all_cons2. destruct (hp !! a) as [ga|] eqn:E; [|reflexivity].
  rewrite IH by exact Hx. apply lookup_insert_ne. auto.
Qed.

Lemma link_all_frame hp bl hd l tl :
  (forall x, x ∈ l -> x ∉ bl) -> lseg hp hd l tl -> lseg (link_all hp bl) hd l tl.
Proof.
  revert hp. induction bl as [|a bl IH]; intros hp Hd H; [exact H|].
  destruct bl as [|b bl]; [exact H|].
  rewrite link_all_cons2. destruct (hp !! a) as [ga|] eqn:E; [|exact H].
  apply IH.
  - intros x Hx Hin. apply (Hd x Hx). right. exact Hin.
  - apply lseg_frame; [|exact H]. intros Hin. apply (Hd a Hin). left.
Qed.

Lemma valid_gs_insert hp l x v :
  valid_gs hp l -> valid_gs (<[x := v]> hp) l.
Proof.
  intros H. eapply Forall_impl; [exact H|]. simpl. intros y [Hnz Hy].
  split; [exact Hnz|]. destruct (decide (x = y)) as [->|Hne].
  - rewrite lookup_insert_eq. eauto.
  - rewrite lookup_insert_ne by exact Hne. exact Hy.
Qed.

(** Linking distinct g's makes them a chain. *)
Lemma link_all_lseg hp b' gtail :
  NoDup (b' ++ [gtail]) -> valid_gs hp (b' ++ [gtail]) ->
  lseg (link_all hp (b' ++ [gtail])) (default gtail (head b')) b' gtail.
Proof.
  revert hp. induction b' as [|x b' IH]; intros hp Hnd Hv; [reflexivity|].
  simpl app in *. apply NoDup_cons in Hnd as [Hx Hnd].
  apply Forall_cons in Hv as [[Hnz [gx Hgx]] Hv].
  assert (Hstep : link_all hp (x :: b' ++ [gtail])
                  = link_all (<[x := g_set_schedlink (default gtail (head b')) gx]> hp)
                             (b' ++ [gtail])).
  { destruct b' as [|y b']; simpl app; rewrite link_all_cons2, Hgx; reflexivity. }
  rewrite Hstep. simpl. split; [reflexivity|]. split; [exact Hnz|].
  exists (g_set_schedlink (default gtail (head b')) gx). split.
  - rewrite link_all_other by exact Hx. apply lookup_insert_eq.
  - simpl. apply IH; [exact Hnd|]. apply valid_gs_insert. exact Hv.
Qed.

Lemma link_loop (B : list guintptr) n : forall w lo,
  0 <= lo ->
  valid_gs (heap w) (take (S n) (drop (Z.to_nat lo) B)) ->
  (Z.to_nat lo + n < length B)%nat ->
  for_range lo n
    (fun i => modg (batch_at B i) (g_set_schedlink (batch_at B (i + 1)))) w
  = Done tt (w_set_heap (link_all (heap w) (take (S n) (drop (Z.to_nat lo) B))) w).
Proof.
  induction n as [|n IH]; intros w lo Hlo Hv Hlen.
  - simpl for_range. unfold ret. f_equal.
    destruct (drop (Z.to_nat lo) B) as [|x r]; simpl; destruct w; reflexivity.
  - destruct (drop (Z.to_nat lo) B) as [|x r] eqn:Ed.
    { apply (f_equal length) in Ed. rewrite length_drop in Ed. simpl in Ed. lia. }
    destruct r as [|y r].
    { apply (f_equal length) in Ed. rewrite length_drop in Ed. simpl in Ed. lia. }
    assert (Hx : batch_at B lo = x).
    { unfold batch_at. rewrite <- (Nat.add_0_r (Z.to_nat lo)), <- lookup_drop, Ed. reflexivity. }
    assert (Hy : batch_at B (lo + 1) = y).
    { unfold batch_at. replace (Z.to_nat (lo + 1)) with (Z.to_nat lo + 1)%nat by lia.
      rewrite <- lookup_drop, Ed. reflexivity. }
    assert (Ed' : drop (Z.to_nat (lo + 1)) B = y :: r).
    { replace (Z.to_nat (lo + 1)) with (Z.to_nat lo + 1)%nat by lia.
      rewrite <- drop_drop, Ed. reflexivity. }
    change (take (S (S n)) (x :: y :: r)) with (x :: take (S n) (y :: r)) in *.
    apply Forall_cons in Hv as [[Hnz [gx Hgx]] Hv].
    simpl for_range. rewrite bind_eq, Hx, Hy, (modg_has _ _ _ _ Hgx Hnz).
    rewrite IH; [|lia| |lia].
    + rewrite Ed'. unfold ret. f_equal.
      change (take (S n) (y :: r)) with (y :: take n r).
      rewrite link_all_cons2, Hgx. reflexivity.
    + rewrite Ed'. apply valid_gs_insert. exact Hv.
Qed.

(** *** Shuffling the batch *)

Lemma fastrandn_spec w k :
  0 < k < 4294967296 ->
  exists j, fastrandn k w = Done j (w_set_rng_pos (S (rng_pos w)) w) /\ 0 <= j < k.
Proof.
  intros Hk. unfold fastrandn, fastrand, bind, ret.
  set (r := uint32 (rng w (rng_pos w))).
  assert (Hr : 0 <= r < 4294967296) by apply uint32_range.
  eexists. split; [reflexivity|].
  assert (H64 : uint64 (r * k) = r * k).
  { unfold uint64. apply Z.mod_small. nia. }
  rewrite H64, Z.shiftr_div_pow2 by lia. change (2 ^ 32) with 4294967296.
  assert (Hq : 0 <= r * k / 4294967296 < k).
  { split; [apply Z.div_pos; nia|]. apply Z.div_lt_upper_bound; nia. }
  rewrite uint32_id by (unfold is_uint32; lia). exact Hq.
Qed.

Lemma batch_at_lookup (b : list guintptr) (i : Z) :
  (Z.to_nat i < length b)%nat -> b !! Z.to_nat i = Some (batch_at b i).
Proof.
  intros H. unfold batch_at. destruct (lookup_lt_is_Some_2 b _ H) as [x ->]. reflexivity.
Qed.

Lemma shuffle_loop n : forall lo B w,
  0 < lo -> (Z.to_nat lo + n <= length B)%nat -> lo + Z.of_nat n < 4294967296 ->
  exists B',
    for_acc lo n
      (fun i b => let* j := fastrandn (uint32 (i + 1)) in
                  ret (<[Z.to_nat j := batch_at b i]>
                         (<[Z.to_nat i := batch_at b j]> b))) B w
    = Done B' (w_set_rng_pos (rng_pos w + n) w) /\
    B' ≡ₚ B.
Proof.
  induction n as [|n IH]; intros lo B w Hlo Hlen Hlt.
  - exists B. split; [|reflexivity]. simpl. unfold ret. f_equal.
    rewrite Nat.add_0_r. destruct w; reflexivity.
  - simpl for_acc.
    rewrite (uint32_id (lo + 1)) by (unfold is_uint32; lia).
    destruct (fastrandn_spec w (lo + 1)) as (j & Hj & Hjr); [lia|].
    set (B1 := <[Z.to_nat j := batch_at B lo]> (<[Z.to_nat lo := batch_at B j]> B)).
    assert (HB1 : B1 ≡ₚ B).
    { apply Permutation_insert_swap; apply batch_at_lookup; lia. }
    destruct (IH (lo + 1) B1 (w_set_rng_pos (S (rng_pos w)) w)) as (B' & Hrun & HB');
      [lia | rewrite (Permutation_length HB1); lia | lia |].
    exists B'. split; [|rewrite HB'; exact HB1].
    rewrite bind_eq, bind_eq, Hj. cbv beta iota. fold B1.
    change (ret B1 (w_set_rng_pos (S (rng_pos w)) w)) with (Done B1 (w_set_rng_pos (S (rng_pos w)) w)).
    cbv beta iota. rewrite Hrun. f_equal.
    unfold w_set_rng_pos. simpl. f_equal. lia.
Qed.

Lemma split_last_129 (B : list guintptr) :
  length B = 129%nat ->
  B = take 128 B ++ [batch_at B 128] /\ batch_at B 0 = default (batch_at B 128) (head (take 128 B)).
Proof.
  intros Hl. split.
  - rewrite <- (take_drop 128 B) at 1. f_equal.
    apply list_eq. intros k. rewrite lookup_drop.
    destruct k as [|k].
    + rewrite Nat.add_0_r. simpl. change 128%nat with (Z.to_nat 128).
      apply batch_at_lookup. rewrite Hl. lia.
    + simpl. apply lookup_ge_None_2. lia.
  - destruct B as [|x B]; [discriminate|]. reflexivity.
Qed.

Section SlowPath.
Variables (w : world) (i : nat) (pp : p) (gp : guintptr) (l : list guintptr).
Hypothesis Hp : has_p w i pp.
Hypothesis Hfull : runq_count pp = runqlen.
Hypothesis Hq : globrunq w l.
Hypothesis Hlock : sched_lock (sched w) = false.
Hypothesis Hnd : NoDup (l ++ take 128 (runq_list pp) ++ [gp]).
Hypothesis Hvalid : valid_gs (heap w) (take 128 (runq_list pp) ++ [gp]).
Hypothesis Hsize : Z.of_nat (length l) + 129 < 2147483648.

Lemma runqputslow_spec :
  exists w' batch,
    runqputslow i gp (p_runqhead pp) (p_runqtail pp) w = Done true w' /\
    batch ≡ₚ take 128 (runq_list pp) ++ [gp] /\
    (raceenabled w = false -> batch = take 128 (runq_list pp) ++ [gp]) /\
    globrunq w' (l ++ batch) /\
    has_p w' i (p_set_runqhead (uint32 (p_runqhead pp + 128)) pp) /\
    (forall j, j <> i -> allp w' !! j = allp w !! j) /\
    sched_lock (sched w') = false /\
    heap_links (heap w) (heap w') /\
    (forall x, x ∉ l ++ take 128 (runq_list pp) ++ [gp] -> heap w' !! x = heap w !! x) /\
    trace w' = trace w /\ curm w' = curm w /\
    raceenabled w' = raceenabled w /\ gomaxprocs w' = gomaxprocs w /\
    same_rest w w'.
Proof.
  set (bl0 := take 128 (runq_list pp) ++ [gp]) in *.
  assert (Hbl0 : length bl0 = 129%nat).
  { unfold bl0. rewrite length_app, length_take, runq_list_length, Hfull. reflexivity. }
  set (pp1 := p_set_runqhead (uint32 (p_runqhead pp + 128)) pp).
  set (w1 := upd_p i pp1 w).
  (* the batch after the optional shuffle *)
  assert (Hsh : exists B w2,
             (if raceenabled w
              then for_acc 1 128
                     (fun i b => let* j := fastrandn (uint32 (i + 1)) in
                                 ret (<[Z.to_nat j := batch_at b i]>
                                        (<[Z.to_nat i := batch_at b j]> b))) bl0
              else ret bl0) w1 = Done B w2 /\
             B ≡ₚ bl0 /\ (raceenabled w = false -> B = bl0) /\
             heap w2 = heap w /\ allp w2 = allp w1 /\ sched w2 = sched w /\
             trace w2 = trace w /\ curm w2 = curm w /\
             raceenabled w2 = raceenabled w /\ gomaxprocs w2 = gomaxprocs w /\
             same_rest w w2).
  { destruct (raceenabled w) eqn:Er.
    - destruct (shuffle_loop 128 1 bl0 w1) as (B & Hrun & HBp); [lia | rewrite Hbl0; lia | lia |].
      exists B, (w_set_rng_pos (rng_pos w1 + 128) w1). split; [exact Hrun|].
      split; [exact HBp|]. split; [discriminate|]. repeat split; assumption.
    - exists bl0, w1. split; [reflexivity|]. split; [reflexivity|]. repeat split; assumption. }
  destruct Hsh as (B & w2 & Hrun & HBp & HBeq & Hheap2 & Hallp2 & Hsched2 & Htr2 & Hm2 & Hr2 & Hg2 & Hrest2).
  assert (HBl : length B = 129%nat) by (rewrite (Permutation_length HBp); exact Hbl0).
  destruct (split_last_129 B HBl) as (HBsplit & HBhead).
  set (b' := take 128 B) in *. set (gtail := batch_at B 128) in *.
  assert (HvB : valid_gs (heap w) B) by (unfold valid_gs; rewrite HBp; exact Hvalid).
  assert (HndB : NoDup (l ++ B)) by (rewrite HBp; exact Hnd).
  set (w3 := w_set_heap (link_all (heap w2) B) w2).
  set (w4 := w_set_sched (sched_set_lock true (sched w3)) w3).
  assert (Hq4 : globrunq w4 l).
  { destruct Hq as (Hs & Hsz & Ht). split; [|split].
    - simpl. rewrite Hheap2, Hsched2. apply link_all_frame; [|exact Hs].
      intros x Hx. apply NoDup_app in HndB as (_ & Hd & _). exact (Hd x Hx).
    - simpl. rewrite Hsched2. exact Hsz.
    - simpl. rewrite Hsched2. exact Ht. }
  assert (Hseg4 : lseg (heap w4) (batch_at B 0) b' gtail).
  { simpl. rewrite Hheap2, HBhead. rewrite HBsplit at 1.
    apply link_all_lseg; rewrite <- HBsplit; [|exact HvB].
    apply NoDup_app in HndB as (_ & _ & H). exact H. }
  assert (Hgt : gtail <> 0 /\ is_Some (heap w4 !! gtail)).
  { assert (Hin : gtail ∈ B) by (rewrite HBsplit; apply elem_of_app; right; left).
    unfold valid_gs in HvB. rewrite Forall_forall in HvB.
    destruct (HvB gtail Hin) as [Hnz Hs]. split; [exact Hnz|].
    simpl. rewrite Hheap2. apply link_all_is_Some. exact Hs. }
  destruct Hgt as [Hgnz [gt Hgt]].
  destruct (globrunqputbatch_spec w4 l b' (batch_at B 0) gtail gt (int32 (uint32 (128 + 1))) Hq4 Hseg4 Hgnz Hgt)
    as (w5 & Hput & Hq5 & _ & Hallp5 & Hlock5 & Hheap5 & Hkeys5 & _ & Htr5 & Hm5 & Hr5 & Hg5 & Hrest5).
  { rewrite <- HBsplit. exact HndB. }
  { rewrite <- HBsplit, HBl. reflexivity. }
  { change (int32 (uint32 (128 + 1))) with 129. lia. }
  set (w6 := w_set_sched (sched_set_lock false (sched w5)) w5).
  assert (Hslow : runqputslow i gp (p_runqhead pp) (p_runqtail pp) w = Done true w6).
  { unfold runqputslow. fold (runq_count pp). rewrite Hfull.
    change (runqlen / 2) with 128. change (negb (128 =? 128)) with false. cbv beta iota zeta.
    rewrite bind_eq, (gather_loop w i pp _ _ _ _ Hp).
    rewrite bind_eq, (cas_runqhead_has w i pp _ _ Hp), Z.eqb_refl. cbv beta iota.
    change (negb true) with false. cbv beta iota. fold pp1 w1.
    pose proof (batch_of_full pp gp Hfull) as HB. change (Z.to_nat 128) with 128%nat in HB.
    change (Z.to_nat (runqlen / 2 + 1)) with 129%nat in HB.
    change (Z.to_nat 128) with 128%nat. change (Z.to_nat (128 + 1)) with 129%nat.
    rewrite HB. fold bl0.
    rewrite bind_eq. change (randomizeScheduler w1) with (Done (raceenabled w) w1). cbv beta iota.
    rewrite bind_eq, Hrun. cbv beta iota.
    rewrite bind_eq, (link_loop B 128 w2 0); [|lia| |rewrite HBl; lia].
    2:{ change (drop (Z.to_nat 0) B) with B. rewrite take_ge by lia. rewrite Hheap2. exact HvB. }
    change (drop (Z.to_nat 0) B) with B. rewrite take_ge by lia. fold w3.
    rewrite bind_eq. unfold lock_sched at 1. rewrite bind_eq.
    change (get_sched w3) with (Done (sched w3) w3). cbv beta iota.
    replace (sched_lock (sched w3)) with false by (simpl; rewrite Hsched2, Hlock; reflexivity).
    change (mod_sched (sched_set_lock true) w3) with (Done tt w4). cbv beta iota.
    rewrite bind_eq. fold gtail. rewrite Hput. cbv beta iota.
    rewrite bind_eq. unfold unlock_sched at 1. rewrite bind_eq.
    change (get_sched w5) with (Done (sched w5) w5). cbv beta iota.
    rewrite Hlock5. change (sched_lock (sched w4)) with true. cbv beta iota.
    reflexivity. }
  exists w6, B. split; [exact Hslow|]. split; [exact HBp|]. split; [exact HBeq|].
  split; [|split; [|split; [|split; [|split; [|split]]]]].
  - rewrite HBsplit. destruct Hq5 as (H1 & H2 & H3). split; [exact H1|]. split; assumption.
  - unfold has_p. simpl. rewrite Hallp5. simpl. rewrite Hallp2. eapply has_p_upd. exact Hp.
  - intros j Hj. simpl. rewrite Hallp5. simpl. rewrite Hallp2. simpl.
    apply list_lookup_insert_ne. auto.
  - reflexivity.
  - simpl. eapply heap_links_trans; [|exact Hkeys5].
    simpl. rewrite Hheap2. apply link_all_links.
  - intros x Hx. simpl. rewrite Hheap5.
    + simpl. rewrite Hheap2. apply link_all_other.
      intros Hin. apply Hx. apply elem_of_app. right. fold bl0. rewrite <- HBp. exact Hin.
    + intros Hin. apply Hx. apply elem_of_cons in Hin as [->|Hin].
      * apply elem_of_app. right. fold bl0. rewrite <- HBp, HBsplit.
        apply elem_of_app. right. left.
      * apply elem_of_app. left. exact Hin.
  - simpl. rewrite Htr5, Hm5, Hr5, Hg5. simpl.
    split; [assumption|]. split; [assumption|]. split; [assumption|]. split; [assumption|].
    eapply same_rest_trans; [exact Hrest2|].
    eapply same_rest_trans; [|exact Hrest5]. repeat split.
Qed.
End SlowPath.

(** ** C2: runqput on a full local queue *)

(** C2, as stated, fails in a build with the race detector, where
    [randomizeScheduler] is true and runqputslow shuffles the batch: with a
    random source that yields 0 the incoming goroutine 257 ends up first in
    the batch, and the last goroutine of the global queue is 128. *)
Lemma runqput_full_g_last_counterexample :
  let o := final (runqput 0 257 false (full_world true)) in
  (fun w' => sched_runqhead (sched w')) <$> o = Some 257 /\
  (fun w' => sched_runqtail (sched w')) <$> o = Some 128 /\
  (fun w' => sched_runqsize (sched w')) <$> o = Some 129.
Proof. vm_compute. repeat split. Qed.

(** C2 (amended). If p's local ring is full, [runqput(p, g, false)] moves
    exactly capacity/2 + 1 goroutines, the first half of the ring and the
    incoming [g], to the tail of the global queue as one batch, and leaves
    the other capacity/2 goroutines in the ring.  When the scheduler is not
    randomized (the build has no race detector) the batch is the first half
    in ring order followed by [g]; when it is, the batch is a permutation of
    these goroutines.  (The goroutines moved are allocated, not nil,
    distinct and not on the global queue, whose lock is free.) *)
Theorem runqput_full_spills_half
    (w : world) (i : nat) (pp : p) (gp : guintptr) (l : list guintptr) :
  has_p w i pp -> p_wf pp -> runq_count pp = runqlen ->
  globrunq w l -> sched_lock (sched w) = false ->
  NoDup (l ++ take 128 (runq_list pp) ++ [gp]) ->
  valid_gs (heap w) (take 128 (runq_list pp) ++ [gp]) ->
  Z.of_nat (length l) + 129 < 2147483648 ->
  exists w' batch pp',
    runqput i gp false w = Done tt w' /\
    batch ≡ₚ take 128 (runq_list pp) ++ [gp] /\
    (raceenabled w = false -> batch = take 128 (runq_list pp) ++ [gp]) /\
    length batch = 129%nat /\
    globrunq w' (l ++ batch) /\
    sched_runqsize (sched w') = sched_runqsize (sched w) + 129 /\
    has_p w' i pp' /\
    runq_list pp' = drop 128 (runq_list pp) /\ runq_count pp' = 128 /\
    p_runnext pp' = p_runnext pp /\
    sched_lock (sched w') = false.
Proof.
  intros Hp Hwf Hfull Hq Hlock Hnd Hvalid Hsize.
  destruct (runqputslow_spec w i pp gp l Hp Hfull Hq Hlock Hnd Hvalid Hsize)
    as (w' & batch & Hslow & Hperm & Heq & Hq' & Hp' & _ & Hlock' & _).
  assert (Hlen : length batch = 129%nat).
  { rewrite (Permutation_length Hperm), length_app, length_take, runq_list_length, Hfull.
    reflexivity. }
  exists w', batch, (p_set_runqhead (uint32 (p_runqhead pp + 128)) pp).
  split.
  { unfold runqput. step. rewrite andb_false_r. do 2 step.
    apply loop_first. do 2 step.
    fold (runq_count pp). rewrite Hfull. change (runqlen <? runqlen) with false. cbv iota.
    rewrite bind_eq, Hslow. reflexivity. }
  split; [exact Hperm|]. split; [exact Heq|]. split; [exact Hlen|].
  split; [exact Hq'|]. split.
  { destruct Hq' as (_ & -> & _). destruct Hq as (_ & -> & _).
    rewrite length_app, Hlen. lia. }
  split; [exact Hp'|]. split.
  { apply (runq_list_advance pp 128). rewrite Hfull. unfold runqlen. lia. }
  split.
  { unfold runq_count in *. simpl. rewrite uint32_sub_r.
    replace (p_runqtail pp - (p_runqhead pp + 128))
      with ((p_runqtail pp - p_runqhead pp) + (-128)) by lia.
    rewrite <- uint32_add_l, Hfull. reflexivity. }
  split; [reflexivity | exact Hlock'].
Qed.

Lemma runqput_full_spills_half_witness :
  exists w' pp',
    runqput 0 257 false (full_world false) = Done tt w' /\
    globrunq w' (map Z.of_nat (seq 1 128) ++ [257]) /\
    has_p w' 0 pp' /\ runq_list pp' = map Z.of_nat (seq 129 128).
Proof.
  destruct (runqput_full_spills_half (full_world false) 0
              (p_with (map Z.of_nat (seq 1 256)) 0) 257 [])
    as (w' & batch & pp' & H1 & _ & H3 & _ & H5 & _ & H7 & H8 & _).
  - reflexivity.
  - repeat split; vm_compute; congruence.
  - vm_compute. reflexivity.
  - apply globrunqb_globrunq. vm_compute. reflexivity.
  - reflexivity.
  - apply (bool_decide_unpack _). vm_compute. exact I.
  - apply (bool_decide_unpack _). vm_compute. exact I.
  - simpl. lia.
  - exists w', pp'. split; [exact H1|]. split; [rewrite H3 in H5 by reflexivity; exact H5|].
    split; [exact H7 | exact H8].
Defined.

(** ** C5: the order of the stealing passes *)

Lemma gcd_loop_gcd n a b :
  0 <= a -> 0 <= b -> (Z.to_nat b < n)%nat -> gcd_loop n a b = Z.gcd a b.
Proof.
  revert a b. induction n as [|n IH]; intros a b Ha Hb Hn; [lia|].
  simpl. destruct (Z.eqb_spec b 0) as [->|Hne]; simpl.
  - rewrite Z.gcd_0_r, Z.abs_eq by lia. reflexivity.
  - pose proof (Z.mod_pos_bound a b ltac:(lia)) as Hm.
    rewrite IH by lia.
    rewrite (Z.gcd_comm b), Z.gcd_mod by lia. apply Z.gcd_comm.
Qed.

Lemma gcd_gcd a b : 0 <= a -> 0 <= b -> gcd a b = Z.gcd a b.
Proof. intros Ha Hb. unfold gcd. apply gcd_loop_gcd; lia. Qed.

(** The coprimes of [reset]: every member is in [1, count] and coprime to
    [count]. *)
Lemma reset_loop_spec n : forall i count acc,
  1 <= i -> 0 <= count ->
  reset_loop i n count acc
  = acc ++ filter (fun c => Z.gcd c count = 1) (seqZ i (Z.of_nat n)).
Proof.
  induction n as [|n IH]; intros i count acc Hi Hc.
  - simpl. rewrite app_nil_r. reflexivity.
  - simpl reset_loop. rewrite IH by lia.
    replace (Z.of_nat (S n)) with (Z.succ (Z.of_nat n)) by lia.
    rewrite (seqZ_cons i) by lia. rewrite Z.pred_succ, filter_cons.
    rewrite gcd_gcd by lia.
    destruct (Z.eqb_spec (Z.gcd i count) 1) as [E|E]; destruct (decide (Z.gcd i count = 1)); try lia.
    + rewrite <- app_assoc. reflexivity.
    + reflexivity.
Qed.

Lemma reset_coprimes count c :
  0 <= count ->
  c ∈ ord_coprimes (randomOrder_reset count) <-> 1 <= c <= count /\ Z.gcd c count = 1.
Proof.
  intros Hc. unfold randomOrder_reset. simpl.
  rewrite reset_loop_spec by lia. simpl.
  rewrite list_elem_of_filter, elem_of_seqZ. rewrite Z2Nat.id by lia. intuition lia.
Qed.

Lemma reset_coprimes_nonempty count :
  1 <= count -> ord_coprimes (randomOrder_reset count) <> [].
Proof.
  intros Hc E. assert (H : 1 ∈ ord_coprimes (randomOrder_reset count)).
  { apply reset_coprimes; [lia|]. split; [lia|]. apply Z.gcd_1_l. }
  rewrite E in H. inversion H.
Qed.

Lemma enum_positions_spec n : forall i count pos inc,
  1 <= count < 2147483648 -> 0 <= pos < count -> 1 <= inc <= count ->
  0 <= i -> i + Z.of_nat n = count ->
  enum_positions n (mkEnum i count pos inc)
  = map (fun k => (pos + Z.of_nat k * inc) mod count) (seq 0 n).
Proof.
  induction n as [|n IH]; intros i count pos inc Hc Hp Hi Hi0 Hn.
  - simpl. destruct (enum_done _); reflexivity.
  - simpl enum_positions. unfold enum_done. simpl enum_i. simpl enum_count.
    destruct (Z.eqb_spec i count) as [E|_]; [lia|].
    unfold enum_next, enum_position. simpl.
    rewrite (uint32_id (i + 1)) by (unfold is_uint32; lia).
    rewrite (uint32_id (pos + inc)) by (unfold is_uint32; lia).
    pose proof (Z.mod_pos_bound (pos + inc) count ltac:(lia)) as Hm.
    rewrite IH by lia.
    f_equal.
    + rewrite Z.add_0_r. symmetry. apply Z.mod_small. lia.
    + rewrite <- seq_shift, map_map. apply map_ext. intros k.
      rewrite Zplus_mod_idemp_l. f_equal. lia.
Qed.

Lemma positions_inj count pos inc (k k' : nat) :
  1 <= count -> Z.gcd inc count = 1 ->
  (Z.of_nat k < count) -> (Z.of_nat k' < count) ->
  (pos + Z.of_nat k * inc) mod count = (pos + Z.of_nat k' * inc) mod count ->
  k = k'.
Proof.
  intros Hc Hg Hk Hk' E.
  assert (Hd : (count | (Z.of_nat k - Z.of_nat k') * inc)).
  { apply Z.mod_divide; [lia|].
    replace ((Z.of_nat k - Z.of_nat k') * inc)
      with ((pos + Z.of_nat k * inc) - (pos + Z.of_nat k' * inc)) by lia.
    rewrite Zminus_mod, E, Z.sub_diag. apply Z.mod_0_l. lia. }
  rewrite Z.mul_comm in Hd. apply Z.gauss in Hd; [|rewrite Z.gcd_comm; exact Hg].
  destruct Hd as [q Hq].
  assert (q = 0) by nia. lia.
Qed.

Lemma positions_permutation count pos inc :
  1 <= count < 2147483648 -> 0 <= pos < count -> 1 <= inc <= count ->
  Z.gcd inc count = 1 ->
  enum_positions (Z.to_nat count) (mkEnum 0 count pos inc) ≡ₚ seqZ 0 count.
Proof.
  intros Hc Hp Hi Hg.
  rewrite (enum_positions_spec (Z.to_nat count) 0 count pos inc) by lia.
  apply submseteq_length_Permutation.
  - apply NoDup_submseteq.
    + apply NoDup_fmap_2_strong; [|apply NoDup_seq].
      intros k k' Hk Hk' E. apply elem_of_seq in Hk, Hk'.
      eapply positions_inj; [| exact Hg | | | exact E]; lia.
    + intros x Hx. apply list_elem_of_fmap in Hx as (k & -> & _).
      apply elem_of_seqZ. pose proof (Z.mod_pos_bound (pos + Z.of_nat k * inc) count). lia.
  - rewrite length_seqZ, length_map, length_seq. lia.
Qed.

Lemma start_reset w count seed :
  1 <= count -> 0 <= seed ->
  exists inc,
    randomOrder_start (randomOrder_reset count) seed w
    = Done (mkEnum 0 count (seed mod count) inc) w /\
    1 <= inc <= count /\ Z.gcd inc count = 1.
Proof.
  intros Hc Hs. unfold randomOrder_start.
  change (ord_count (randomOrder_reset count)) with count.
  destruct (Z.eqb_spec count 0) as [?|_]; [lia|].
  set (cs := ord_coprimes (randomOrder_reset count)).
  pose proof (reset_coprimes_nonempty count Hc) as Hne. fold cs in Hne.
  assert (Hlen : 0 < Z.of_nat (length cs)) by (destruct cs; [congruence | simpl; lia]).
  destruct (Z.eqb_spec (Z.of_nat (length cs)) 0) as [?|_]; [lia|].
  pose proof (Z.mod_pos_bound seed (Z.of_nat (length cs)) Hlen) as Hm.
  destruct (lookup_lt_is_Some_2 cs (Z.to_nat (seed mod Z.of_nat (length cs)))) as [inc Hinc]; [lia|].
  rewrite Hinc. exists inc. split; [reflexivity|].
  apply reset_coprimes; [lia|]. eapply list_elem_of_lookup_2. exact Hinc.
Qed.

Lemma enum_for_try_victims _p_ flag n : forall enum w,
  0 <= enum_i enum -> enum_count enum < 4294967296 ->
  enum_i enum + Z.of_nat n = enum_count enum ->
  enum_for n enum
    (fun enum =>
       let* s := get_sched in
       if negb (sched_gcwaiting s =? 0) then ret (Some StealTop) else
       let* gp := runqsteal _p_ (Z.to_nat (enum_position enum)) flag in
       if negb (gp =? 0) then ret (Some (StealReturn gp)) else ret None) w
  = try_victims _p_ flag (enum_positions n enum) w.
Proof.
  induction n as [|n IH]; intros enum w Hi Hc Hn.
  - simpl. unfold enum_done. rewrite Z.add_0_r in Hn. rewrite Hn, Z.eqb_refl. reflexivity.
  - simpl enum_for. simpl enum_positions. unfold enum_done.
    destruct (Z.eqb_spec (enum_i enum) (enum_count enum)) as [E|E]; [lia|].
    simpl try_victims. rewrite !bind_eq.
    change (get_sched w) with (Done (sched w) w). cbv beta iota.
    destruct (negb (sched_gcwaiting (sched w) =? 0)); [reflexivity|].
    rewrite !bind_eq. destruct (runqsteal _ _ _ w) as [gp w'|e]; [|reflexivity].
    destruct (negb (gp =? 0)); [reflexivity|].
    change (ret None w') with (Done (@None steal_exit) w'). cbv beta iota.
    apply IH; unfold enum_next; simpl; [apply uint32_range | exact Hc |].
    rewrite uint32_id by (unfold is_uint32; lia). lia.
Qed.



(** ** C4: when findrunnable spins *)

(** C4, as stated, fails: with GOMAXPROCS = 1, no idle P and no spinning M,
    [2 * nmspinning >= gomaxprocs - npidle] is false, yet the M (not
    spinning) goes to [stop] without setting the spinning flag, because
    [npidle == procs - 1]. *)
Lemma findrunnable_spins_otherwise_counterexample :
  let w := world_with [] [p_with [] 0] false in
  m_spinning (curm w) = false /\
  (2 * sched_nmspinning (sched w) >=? gomaxprocs w - sched_npidle (sched w)) = false /\
  findrunnable_steal w = Done StealStop w.
Proof. repeat split. Qed.

(** C4 (amended). A non-spinning M that reaches the stealing phase goes to
    the give-up path, leaving the spinning flag and [nmspinning] as they
    are, whenever [npidle = gomaxprocs - 1] (every other P is idle) or
    [2 * nmspinning >= gomaxprocs - npidle]; otherwise it sets the spinning
    flag and increments [nmspinning] and then makes the stealing passes. *)
Theorem findrunnable_spinning_gate (w : world) (_p_ : nat) :
  m_p (curm w) = Some _p_ -> m_spinning (curm w) = false ->
  0 < gomaxprocs w < 2147483648 ->
  0 <= sched_npidle (sched w) <= gomaxprocs w ->
  0 <= sched_nmspinning (sched w) < 2147483648 ->
  let busy := gomaxprocs w - sched_npidle (sched w) in
  (sched_npidle (sched w) = gomaxprocs w - 1 \/ 2 * sched_nmspinning (sched w) >= busy ->
   findrunnable_steal w = Done StealStop w) /\
  (sched_npidle (sched w) <> gomaxprocs w - 1 -> 2 * sched_nmspinning (sched w) < busy ->
   findrunnable_steal w
   = (let* r := for_until 0 4 (steal_pass _p_) in
      match r with Some e => ret e | None => ret StealStop end)
       (w_set_sched (sched_set_nmspinning (sched_nmspinning (sched w) + 1) (sched w))
          (w_set_curm (m_set_spinning true (curm w)) w))).
Proof.
  intros Hp Hsp Hprocs Hidle Hspin busy.
  assert (Hcur : curp w = Done _p_ w) by (unfold curp; rewrite Hp; reflexivity).
  assert (E1 : uint32 (gomaxprocs w) = gomaxprocs w) by (apply uint32_id; unfold is_uint32; lia).
  assert (E2 : uint32 (gomaxprocs w - 1) = gomaxprocs w - 1) by (apply uint32_id; unfold is_uint32; lia).
  assert (E3 : uint32 (2 * sched_nmspinning (sched w)) = 2 * sched_nmspinning (sched w))
    by (apply uint32_id; unfold is_uint32; lia).
  assert (E4 : uint32 (gomaxprocs w - sched_npidle (sched w)) = busy)
    by (apply uint32_id; unfold is_uint32, busy; lia).
  assert (Hrun : findrunnable_steal w
                 = if sched_npidle (sched w) =? gomaxprocs w - 1 then Done StealStop w
                   else if 2 * sched_nmspinning (sched w) >=? busy then Done StealStop w
                   else (let* r := for_until 0 4 (steal_pass _p_) in
                         match r with Some e => ret e | None => ret StealStop end)
                          (w_set_sched (sched_set_nmspinning (sched_nmspinning (sched w) + 1) (sched w))
                             (w_set_curm (m_set_spinning true (curm w)) w))).
  { unfold findrunnable_steal. rewrite bind_eq, Hcur. cbv beta iota.
    rewrite bind_eq. change (gets _ w) with (Done (uint32 (gomaxprocs w)) w). cbv beta iota.
    rewrite bind_eq. change (get_sched w) with (Done (sched w) w). cbv beta iota.
    rewrite E1, E2.
    destruct (sched_npidle (sched w) =? gomaxprocs w - 1); [reflexivity|].
    rewrite bind_eq. change (gets _ w) with (Done (m_spinning (curm w)) w). cbv beta iota.
    rewrite bind_eq. change (get_sched w) with (Done (sched w) w). cbv beta iota.
    rewrite Hsp, E3, E4. change (negb false) with true. rewrite andb_true_l.
    destruct (2 * sched_nmspinning (sched w) >=? busy); [reflexivity|].
    rewrite bind_eq. change (gets _ w) with (Done (m_spinning (curm w)) w). cbv beta iota.
    rewrite Hsp. change (negb false) with true. unfold when. rewrite bind_eq, bind_eq.
    unfold mod_m, mod_sched, modify. cbv beta iota. simpl sched.
    rewrite (uint32_id (sched_nmspinning (sched w) + 1)) by (unfold is_uint32; lia).
    reflexivity. }
  split.
  - intros H. rewrite Hrun.
    destruct (Z.eqb_spec (sched_npidle (sched w)) (gomaxprocs w - 1)); [reflexivity|].
    destruct (Z.geb_spec (2 * sched_nmspinning (sched w)) busy); [reflexivity|lia].
  - intros H1 H2. rewrite Hrun.
    destruct (Z.eqb_spec (sched_npidle (sched w)) (gomaxprocs w - 1)); [lia|].
    destruct (Z.geb_spec (2 * sched_nmspinning (sched w)) busy); [lia|reflexivity].
Qed.

Lemma findrunnable_spinning_gate_witness :
  let w := world_with [] [p_with [] 0; p_with [] 0; p_with [] 0; p_with [] 0] false in
  findrunnable_steal w
  = (let* r := for_until 0 4 (steal_pass 0) in
     match r with Some e => ret e | None => ret StealStop end)
      (w_set_sched (sched_set_nmspinning 1 (sched w))
         (w_set_curm (m_set_spinning true (curm w)) w)).
Proof.
  intros w.
  destruct (findrunnable_spinning_gate w 0) as [_ H];
    [reflexivity | reflexivity | vm_compute; split; congruence
    | vm_compute; split; congruence | vm_compute; split; congruence |].
  apply H; vm_compute; congruence.
Defined.

(** ** C7: which P's the monitor retakes *)




(** ** runqput in general *)

Lemma runqput_head w i gp next :
  runqput i gp next w
  = (let* kicked :=
       (if runqput_next w next then
          let* oldnext :=
            loop (let* oldnext := p_load i p_runnext in
                  let* ok := cas_runnext i oldnext gp in
                  ret (if ok then Some oldnext else None)) in
          ret (if oldnext =? 0 then None else Some oldnext)
        else ret (Some gp)) in
     match kicked with
     | None => ret tt
     | Some gp =>
         loop (let* h := p_load i p_runqhead in
               let* t := p_load i p_runqtail in
               if uint32 (t - h) <? runqlen then
                 runq_set i t gp ;;;
                 modp i (p_set_runqtail (uint32 (t + 1))) ;;;
                 ret (Some tt)
               else
                 let* ok := runqputslow i gp h t in
                 ret (if ok then Some tt else None))
     end) (runqput_drawn w next).
Proof.
  unfold runqput, runqput_next, runqput_drawn. rewrite bind_eq.
  change (randomizeScheduler w) with (Done (raceenabled w) w). cbv beta iota.
  destruct (raceenabled w && next) eqn:E.
  - rewrite bind_eq, bind_eq. unfold fastrand at 1. cbv beta iota.
    apply andb_prop in E as [_ ->].
    destruct (uint32 (rng w (rng_pos w)) mod 2 =? 0); reflexivity.
  - rewrite bind_eq. reflexivity.
Qed.

Lemma runqput_room w i pp gp next :
  has_p w i pp ->
  runq_count pp < runqlen \/ (runqput_next w next = true /\ p_runnext pp = 0) ->
  runqput i gp next w
  = Done tt (upd_p i (p_put gp (runqput_next w next) pp) (runqput_drawn w next)).
Proof.
  intros Hp Hc. rewrite runqput_head.
  set (w0 := runqput_drawn w next).
  assert (Hp0 : has_p w0 i pp).
  { unfold w0, runqput_drawn. destruct (raceenabled w && next); exact Hp. }
  unfold p_put. destruct (runqput_next w next).
  - rewrite bind_eq, bind_eq.
    erewrite loop_first; cycle 1.
    { step. step. rewrite Z.eqb_refl. reflexivity. }
    cbv beta iota. unfold ret at 1. cbv beta iota.
    destruct (Z.eqb_spec (p_runnext pp) 0) as [E0|E0]; [reflexivity|].
    assert (Hc' : runq_count pp < runqlen) by (destruct Hc as [?|[_ ?]]; [assumption|contradiction]).
    clear Hc. rename Hc' into Hc.
    apply loop_first.
    assert (Hp1 : has_p (upd_p i (p_set_runnext gp pp) w0) i (p_set_runnext gp pp))
      by (eapply has_p_upd; exact Hp0).
    do 2 step. change (uint32 (p_runqtail (p_set_runnext gp pp) - p_runqhead (p_set_runnext gp pp)))
      with (runq_count pp).
    apply Z.ltb_lt in Hc. rewrite Hc.
    do 2 step. rewrite !upd_p_upd. reflexivity.
  - assert (Hc' : runq_count pp < runqlen) by (destruct Hc as [?|[? _]]; [assumption|discriminate]).
    clear Hc. rename Hc' into Hc.
    rewrite bind_eq. unfold ret at 1. cbv beta iota.
    apply loop_first. do 2 step.
    fold (runq_count pp). apply Z.ltb_lt in Hc. rewrite Hc.
    do 2 step. rewrite upd_p_upd. reflexivity.
Qed.

(** With a full ring, the goroutine bound for the tail goes to the global
    queue with the first half of the ring. *)
Lemma runqput_full w i pp gp next l :
  has_p w i pp -> runq_count pp = runqlen ->
  let next' := runqput_next w next in
  let x := if next' then p_runnext pp else gp in
  x <> 0 ->
  globrunq w l -> sched_lock (sched w) = false ->
  NoDup (l ++ take 128 (runq_list pp) ++ [x]) ->
  valid_gs (heap w) (take 128 (runq_list pp) ++ [x]) ->
  Z.of_nat (length l) + 129 < 2147483648 ->
  exists w' batch,
    runqput i gp next w = Done tt w' /\
    batch ≡ₚ take 128 (runq_list pp) ++ [x] /\
    globrunq w' (l ++ batch) /\
    has_p w' i (p_set_runqhead (uint32 (p_runqhead pp + 128))
                  (if next' then p_set_runnext gp pp else pp)) /\
    (forall j, j <> i -> allp w' !! j = allp w !! j) /\
    sched_lock (sched w') = false /\
    heap_links (heap w) (heap w') /\
    (forall y, y ∉ l ++ take 128 (runq_list pp) ++ [x] -> heap w' !! y = heap w !! y) /\
    trace w' = trace w /\ curm w' = curm w /\ gomaxprocs w' = gomaxprocs w /\
    same_rest w w' /\
    (raceenabled w = false -> batch = take 128 (runq_list pp) ++ [x]).
Proof.
  intros Hp Hfull next' x Hx Hq Hlock Hnd Hvalid Hsize.
  rewrite runqput_head. fold next'.
  set (w0 := runqput_drawn w next).
  assert (Hw0 : heap w0 = heap w /\ allp w0 = allp w /\ sched w0 = sched w /\
                trace w0 = trace w /\ curm w0 = curm w /\ gomaxprocs w0 = gomaxprocs w).
  { unfold w0, runqput_drawn. destruct (raceenabled w && next); repeat split. }
  destruct Hw0 as (Hh0 & Ha0 & Hs0 & Ht0 & Hm0 & Hg0).
  assert (Hp0 : has_p w0 i pp) by (unfold has_p; rewrite Ha0; exact Hp).
  set (pp1 := if next' then p_set_runnext gp pp else pp).
  set (w1 := if next' then upd_p i pp1 w0 else w0).
  assert (Hp1 : has_p w1 i pp1).
  { unfold w1, pp1. destruct next'; [eapply has_p_upd; exact Hp0 | exact Hp0]. }
  assert (Hl1 : runq_list pp1 = runq_list pp) by (unfold pp1; destruct next'; reflexivity).
  assert (Hc1 : runq_count pp1 = runqlen) by (unfold pp1; destruct next'; exact Hfull).
  assert (Hw1 : heap w1 = heap w /\ sched w1 = sched w /\ trace w1 = trace w /\
                curm w1 = curm w /\ gomaxprocs w1 = gomaxprocs w /\
                (forall j, j <> i -> allp w1 !! j = allp w !! j)).
  { unfold w1. destruct next'; simpl; rewrite ?Hh0, ?Hs0, ?Ht0, ?Hm0, ?Hg0, ?Ha0;
      repeat split; intros j Hj; try (rewrite Ha0; reflexivity).
    apply list_lookup_insert_ne. auto. }
  destruct Hw1 as (Hh1 & Hs1 & Ht1 & Hm1 & Hg1 & Ha1).
  destruct (runqputslow_spec w1 i pp1 x l Hp1 Hc1) as
    (w' & batch & Hslow & Hperm & Heq & Hq' & Hp' & Hother & Hlock' & Hkeys & Hframe & Htr & Hm & _ & Hg & Hrest).
  { destruct Hq as (H1 & H2 & H3). split; [rewrite Hh1, Hs1; exact H1|].
    rewrite Hs1. split; assumption. }
  { rewrite Hs1. exact Hlock. }
  { rewrite Hl1. exact Hnd. }
  { rewrite Hl1, Hh1. exact Hvalid. }
  { exact Hsize. }
  rewrite Hl1 in Hperm, Hframe, Heq. rewrite Hh1 in Hkeys, Hframe.
  assert (Hr1 : raceenabled w1 = raceenabled w).
  { unfold w1, w0, runqput_drawn. destruct next'; destruct (raceenabled w && next); reflexivity. }
  rewrite Hr1 in Heq.
  exists w', batch.
  assert (Hrun : forall w2, has_p w2 i pp1 ->
             runqputslow i x (p_runqhead pp1) (p_runqtail pp1) w2 = Done true w' ->
             loop (let* h := p_load i p_runqhead in
                   let* t := p_load i p_runqtail in
                   if uint32 (t - h) <? runqlen then
                     runq_set i t x ;;;
                     modp i (p_set_runqtail (uint32 (t + 1))) ;;;
                     ret (Some tt)
                   else
                     let* ok := runqputslow i x h t in
                     ret (if ok then Some tt else None)) w2 = Done tt w').
  { intros w2 Hp2 Hs2. apply loop_first. do 2 step.
    fold (runq_count pp1). rewrite Hc1. change (runqlen <? runqlen) with false. cbv iota.
    rewrite bind_eq, Hs2. reflexivity. }
  split.
  { destruct next' eqn:En.
    - rewrite bind_eq, bind_eq.
      erewrite loop_first; cycle 1.
      { step. step. rewrite Z.eqb_refl. reflexivity. }
      cbv beta iota. unfold ret at 1. cbv beta iota.
      apply Z.eqb_neq in Hx. subst x. rewrite Hx.
      apply Hrun; [exact Hp1 | exact Hslow].
    - rewrite bind_eq. unfold ret at 1. cbv beta iota.
      apply Hrun; [exact Hp1 | exact Hslow]. }
  split; [exact Hperm|]. split; [exact Hq'|].
  split; [clear -Hp'; unfold pp1 in Hp'; destruct next'; exact Hp'|]. split.
  { intros j Hj. rewrite Hother by exact Hj. apply Ha1. exact Hj. }
  split; [exact Hlock'|]. split; [exact Hkeys|]. split; [exact Hframe|].
  rewrite Htr, Hm, Hg. split; [assumption|]. split; [assumption|]. split; [assumption|].
  split; [|exact Heq].
  eapply same_rest_trans; [|exact Hrest].
  unfold w1, w0, runqput_drawn. destruct next'; destruct (raceenabled w && next); repeat split.
Qed.

(** ** Status changes, waking *)

Lemma heap_keeps_links_refl hp : heap_keeps_links hp hp.
Proof. intros y gy H. exists gy. repeat split; assumption. Qed.

Lemma lseg_keeps hp hp' hd l tl :
  (forall y gy, hp !! y = Some gy ->
     exists gy', hp' !! y = Some gy' /\ g_schedlink gy' = g_schedlink gy) ->
  lseg hp hd l tl -> lseg hp' hd l tl.
Proof.
  intros Hk. revert hd. induction l as [|x l IH]; intros hd H; simpl in *; [exact H|].
  destruct H as (-> & Hnz & gx & Hgx & Hrest).
  destruct (Hk x gx Hgx) as (gx' & Hgx' & Hl).
  split; [reflexivity|]. split; [exact Hnz|]. exists gx'. split; [exact Hgx'|].
  rewrite Hl. apply IH. exact Hrest.
Qed.

Lemma valid_gs_keeps hp hp' l :
  (forall y, is_Some (hp !! y) -> is_Some (hp' !! y)) ->
  valid_gs hp l -> valid_gs hp' l.
Proof.
  intros Hk H. eapply Forall_impl; [exact H|]. simpl. intros y [Hnz Hy].
  split; [exact Hnz | apply Hk; exact Hy].
Qed.

Lemma cas_gstatus_has w gp gv old new :
  heap w !! gp = Some gv -> gp <> 0 ->
  cas_gstatus gp old new w
  = if g_atomicstatus gv =? old
    then Done true (upd_g gp (g_set_atomicstatus new gv) w)
    else Done false w.
Proof.
  intros Hg Hnz. unfold cas_gstatus.
  rewrite bind_eq, (readg_has _ _ _ Hg Hnz).
  destruct (g_atomicstatus gv =? old); [|reflexivity].
  rewrite bind_eq, (modg_has _ _ _ _ Hg Hnz). reflexivity.
Qed.

Lemma casgstatus_done w gp gv old new :
  heap w !! gp = Some gv -> gp <> 0 -> g_atomicstatus gv = old ->
  Z.land old _Gscan = 0 -> Z.land new _Gscan = 0 -> old <> new ->
  old <> _Grunning -> new <> _Grunning ->
  casgstatus gp old new w = Done tt (upd_g gp (g_set_atomicstatus new gv) w).
Proof.
  intros Hg Hnz Hst Ho Hn Hne Hor Hnr. unfold casgstatus.
  rewrite Ho, Hn. apply Z.eqb_neq in Hne, Hor, Hnr. rewrite Hne, Hor, Hnr.
  cbn [negb orb Z.eqb]. rewrite bind_eq. unfold ret at 1. cbv beta iota.
  rewrite bind_eq. erewrite loop_first; cycle 1.
  { rewrite bind_eq, (cas_gstatus_has _ _ _ _ _ Hg Hnz), Hst, Z.eqb_refl. reflexivity. }
  reflexivity.
Qed.


Lemma wakep_has w :
  wakep w = Done tt (woken (sched_nmspinning (sched w) =? 0) w).
Proof.
  unfold wakep, woken. rewrite bind_eq.
  change (get_sched w) with (Done (sched w) w). cbv beta iota.
  destruct (sched_nmspinning (sched w) =? 0); reflexivity.
Qed.

Lemma unlock_m_has w gg :
  heap w !! getg w = Some gg -> getg w <> 0 ->
  exists w',
    unlock_m w = Done tt w' /\
    allp w' = allp w /\ sched w' = sched w /\ trace w' = trace w /\
    heap_keeps_links (heap w) (heap w') /\
    m_locks (curm w') = int32 (m_locks (curm w) - 1) /\
    m_p (curm w') = m_p (curm w) /\ m_spinning (curm w') = m_spinning (curm w) /\
    gomaxprocs w' = gomaxprocs w.
Proof.
  intros Hg Hnz. unfold unlock_m.
  rewrite bind_eq. unfold mod_m at 1, modify. cbv beta iota.
  set (w1 := w_set_curm _ w).
  rewrite bind_eq. change (gets getg w1) with (Done (getg w) w1). cbv beta iota.
  rewrite bind_eq. change (gets _ w1) with (Done (int32 (m_locks (curm w) - 1)) w1). cbv beta iota.
  destruct (int32 (m_locks (curm w) - 1) =? 0).
  - rewrite bind_eq, (readg_has w1 _ _ Hg Hnz). unfold when.
    destruct (g_preempt gg).
    + rewrite (modg_has _ w1 _ _ Hg Hnz). eexists. split; [reflexivity|].
      repeat split. simpl. intros y gy Hy.
      destruct (decide (getg w = y)) as [E|E].
      * subst y. rewrite lookup_insert_eq. eexists. split; [reflexivity|].
        rewrite Hg in Hy. injection Hy as <-. repeat split.
      * rewrite lookup_insert_ne by exact E. exists gy. repeat split; assumption.
    + eexists. split; [reflexivity|]. repeat split. apply heap_keeps_links_refl.
  - eexists. split; [reflexivity|]. repeat split. apply heap_keeps_links_refl.
Qed.


(** ** C6: ready *)


Lemma same_but_link_status a b :
  same_but_link a b -> g_atomicstatus a = g_atomicstatus b.
Proof.
  unfold same_but_link. intros H.
  apply (f_equal g_atomicstatus) in H. exact H.
Qed.

Lemma runqput_drawn_frame w next :
  heap (runqput_drawn w next) = heap w /\ allp (runqput_drawn w next) = allp w /\
  sched (runqput_drawn w next) = sched w /\ trace (runqput_drawn w next) = trace w /\
  curm (runqput_drawn w next) = curm w /\ getg (runqput_drawn w next) = getg w /\
  gomaxprocs (runqput_drawn w next) = gomaxprocs w.
Proof. unfold runqput_drawn. destruct (raceenabled w && next); repeat split. Qed.

Section Ready.
Variables (w : world) (gp : guintptr) (gv gg : g) (traceskip : Z) (next : bool)
          (i : nat) (pp : p).
Hypothesis Hg : heap w !! gp = Some gv.
Hypothesis Hnz : gp <> 0.
Hypothesis Hmp : m_p (curm w) = Some i.
Hypothesis Hp : has_p w i pp.
Hypothesis Hgg : heap w !! getg w = Some gg.
Hypothesis Hggnz : getg w <> 0.

Let gv' := g_set_atomicstatus _Grunnable gv.
Let w2 := upd_g gp gv' (w_set_curm (m_set_locks (int32 (m_locks (curm w) + 1)) (curm w)) w).
Let wake := negb (sched_npidle (sched w) =? 0) && (sched_nmspinning (sched w) =? 0).





End Ready.



(** ** C8: goroutine creation *)

Lemma newproc1_nil pl argp narg callergp callerpc w :
  newproc1 pl None argp narg callergp callerpc w = Fail (Throw "go of nil func value").
Proof. reflexivity. Qed.

Lemma newproc1_too_large pl pc argp narg callergp callerpc w :
  newproc_limit pl <= newproc_siz narg ->
  newproc1 pl (Some pc) argp narg callergp callerpc w
  = Fail (Throw "newproc: function arguments too large for new goroutine").
Proof.
  intros H. unfold newproc1. rewrite bind_eq. unfold mod_m at 1, modify. cbv beta iota zeta.
  fold (newproc_siz narg). fold (newproc_limit pl).
  apply Z.ge_le_iff, Z.geb_ge in H. rewrite H. reflexivity.
Qed.

Lemma newproc1_eq pl pc argp narg callergp callerpc w :
  newproc_siz narg < newproc_limit pl ->
  newproc1 pl (Some pc) argp narg callergp callerpc w
  = (let* _p_ := curp in
     let* newg := gfget pl _p_ in
     let* newg :=
       (if newg =? 0 then
          let* newg := malg pl (_StackMin pl) in
          casgstatus newg _Gidle _Gdead ;;;
          allgadd newg ;;;
          ret newg
        else ret newg) in
     newproc1_tail pl pc argp narg callerpc _p_ newg)
      (w_set_curm (m_set_locks (int32 (m_locks (curm w) + 1)) (curm w)) w).
Proof.
  intros H. unfold newproc1. rewrite bind_eq. unfold mod_m at 1, modify. cbv beta iota zeta.
  fold (newproc_siz narg). fold (newproc_limit pl).
  assert (E : (newproc_siz narg >=? newproc_limit pl) = false).
  { rewrite Z.geb_leb. apply Z.leb_gt. exact H. }
  rewrite E. reflexivity.
Qed.

Lemma w_set_trace_id w : w_set_trace (trace w ++ []) w = w.
Proof. rewrite app_nil_r. destruct w; reflexivity. Qed.

Lemma w_set_sched_id w : w_set_sched (sched w) w = w.
Proof. destruct w; reflexivity. Qed.

Lemma upd_g_lookup gp x w : heap (upd_g gp x w) !! gp = Some x.
Proof. apply lookup_insert_eq. Qed.

Lemma upd_g_twice gp x y w : upd_g gp y (upd_g gp x w) = upd_g gp y w.
Proof. unfold upd_g. simpl. rewrite insert_insert_eq. reflexivity. Qed.

(** What newproc1 does between obtaining the g and putting it on the run
    queue: the g gets its pcs, its id and the status runnable. *)
Lemma newproc1_prepare pl pc argp narg callerpc i newg w2 gv2 pp2 :
  heap w2 !! newg = Some gv2 -> newg <> 0 ->
  g_stack_hi gv2 <> 0 -> g_atomicstatus gv2 = _Gdead ->
  has_p w2 i pp2 ->
  exists w5 gv5 a b n1 n2,
    newproc1_tail pl pc argp narg callerpc i newg w2
    = (runqput i newg true ;;;
       let* s := get_sched in
       let* ms := gets mainStarted in
       when (negb (sched_npidle s =? 0) && (sched_nmspinning s =? 0) && ms) wakep ;;;
       unlock_m) w5 /\
    heap w5 = <[newg := gv5]> (heap w2) /\
    g_atomicstatus gv5 = _Grunnable /\ g_startpc gv5 = pc /\ g_gopc gv5 = callerpc /\
    g_schedlink gv5 = g_schedlink gv2 /\
    allp w5 = <[i := Some (p_set_goidcache a b pp2)]> (allp w2) /\
    sched w5 = sched_set_goidgen n1 (sched_set_ngsys n2 (sched w2)) /\
    trace w5 = trace w2 ++ newproc1_copy pl argp narg gv2 /\
    curm w5 = curm w2 /\ getg w5 = getg w2 /\ mainStarted w5 = mainStarted w2 /\
    raceenabled w5 = raceenabled w2 /\ rng w5 = rng w2 /\ rng_pos w5 = rng_pos w2 /\
    allgs w5 = allgs w2.
Proof.
  intros Hg Hnz Hhi Hst Hp.
  unfold newproc1_tail. cbv zeta.
  rewrite bind_eq, (readg_has _ _ _ Hg Hnz). cbv beta iota.
  apply Z.eqb_neq in Hhi. rewrite Hhi.
  unfold readgstatus. rewrite bind_eq, bind_eq, (readg_has _ _ _ Hg Hnz).
  unfold ret at 1. cbv beta iota. rewrite Hst.
  change (negb (_Gdead =? _Gdead)) with false. cbv iota.
  (* the copy of the arguments *)
  rewrite bind_eq.
  match goal with |- context [when _ (emit ?e) w2] =>
    assert (H1 : when (narg >? 0) (emit e) w2
                 = Done tt (w_set_trace (trace w2 ++ newproc1_copy pl argp narg gv2) w2))
  end.
  { unfold newproc1_copy. cbv zeta. destruct (narg >? 0); [reflexivity|].
    simpl. rewrite w_set_trace_id. reflexivity. }
  rewrite H1. clear H1. cbv beta iota.
  set (wa := w_set_trace _ w2).
  assert (Hga : heap wa !! newg = Some gv2) by exact Hg.
  rewrite bind_eq, (modg_has _ _ _ _ Hga Hnz). cbv beta iota.
  set (g1 := g_set_gopc callerpc gv2).
  rewrite bind_eq, (modg_has _ _ _ _ (upd_g_lookup _ _ _) Hnz), upd_g_twice. cbv beta iota.
  set (g2 := g_set_startpc pc g1).
  rewrite bind_eq, (readg_has _ _ _ (upd_g_lookup _ _ _) Hnz). cbv beta iota.
  rewrite bind_eq. unfold gets at 1. cbv beta iota.
  set (sys := isSystemGoroutine pl _ g2).
  set (wc := upd_g newg g2 wa).
  rewrite bind_eq.
  assert (H2 : forall f, when sys (mod_sched f) wc
               = Done tt (w_set_sched (if sys then f (sched wc) else sched wc) wc)).
  { intros f. destruct sys; [reflexivity|]. rewrite w_set_sched_id. reflexivity. }
  rewrite H2. clear H2. cbv beta iota.
  set (wd := w_set_sched _ wc).
  assert (Hgd : heap wd !! newg = Some g2) by apply lookup_insert_eq.
  rewrite bind_eq, (modg_has _ _ _ _ Hgd Hnz). cbv beta iota.
  set (g3 := g_set_gcscanvalid false g2).
  rewrite bind_eq.
  erewrite (casgstatus_done _ newg g3 _Gdead _Grunnable);
    [| apply upd_g_lookup | exact Hnz | exact Hst | reflexivity | reflexivity
     | discriminate | discriminate | discriminate].
  rewrite upd_g_twice. cbv beta iota.
  set (g4 := g_set_atomicstatus _Grunnable g3).
  set (we := upd_g newg g4 wd).
  assert (Hpe : has_p we i pp2) by exact Hp.
  rewrite bind_eq, (getp_has _ _ _ Hpe). cbv beta iota.
  (* the cache of goroutine ids *)
  rewrite bind_eq.
  set (refill := p_goidcache pp2 =? p_goidcacheend pp2).
  set (gen := uint64 (sched_goidgen (sched we) + _GoidCacheBatch)).
  set (cache := uint64 (gen - (_GoidCacheBatch - 1))).
  set (pp3 := if refill then p_set_goidcache cache (uint64 (cache + _GoidCacheBatch)) pp2
              else pp2).
  set (wf := if refill
             then upd_p i pp3 (w_set_sched (sched_set_goidgen gen (sched we)) we)
             else we).
  match goal with |- context [when refill ?c we] =>
    assert (H3 : when refill c we = Done tt wf)
  end.
  { unfold wf, pp3. destruct refill; [|reflexivity]. unfold when.
    rewrite bind_eq. unfold mod_sched at 1, modify. cbv beta iota.
    rewrite bind_eq. unfold get_sched, gets. cbv beta iota.
    erewrite modp_has; [reflexivity | exact Hpe]. }
  rewrite H3. clear H3. cbv beta iota.
  assert (Hpf : has_p wf i pp3).
  { unfold wf, pp3. destruct refill; [eapply has_p_upd; exact Hpe | exact Hpe]. }
  assert (Hgf : heap wf !! newg = Some g4).
  { unfold wf. destruct refill; apply lookup_insert_eq. }
  rewrite bind_eq, (getp_has _ _ _ Hpf). cbv beta iota.
  rewrite bind_eq, (modg_has _ _ _ _ Hgf Hnz). cbv beta iota.
  set (g5 := g_set_goid _ g4).
  assert (Hpg : has_p (upd_g newg g5 wf) i pp3) by exact Hpf.
  rewrite bind_eq, (modp_has _ _ _ _ Hpg). cbv beta iota.
  set (w5 := upd_p i _ _).
  exists w5, g5, (uint64 (p_goidcache pp3 + 1)), (p_goidcacheend pp3),
    (if refill then gen else sched_goidgen (sched w2)),
    (if sys then uint32 (sched_ngsys (sched w2) + 1) else sched_ngsys (sched w2)).
  split; [reflexivity|].
  split.
  { unfold w5, wf. destruct refill; simpl; rewrite !insert_insert_eq; reflexivity. }
  split; [reflexivity|]. split; [reflexivity|]. split; [reflexivity|].
  split; [reflexivity|].
  split.
  { unfold w5, wf, pp3. destruct refill; simpl; rewrite ?list_insert_insert_eq; reflexivity. }
  split.
  { unfold w5, wf. destruct refill, sys; simpl; try reflexivity;
      destruct (sched w2); reflexivity. }
  unfold w5, wf. destruct refill; repeat split.
Qed.

(** *** Obtaining a g *)

Lemma p_set_gfree_id pp : p_set_gfree (p_gfree pp) (p_gfreecnt pp) pp = pp.
Proof. destruct pp; reflexivity. Qed.

Lemma sched_set_gfree_id s :
  sched_set_gfree (sched_gfreeStack s) (sched_gfreeNoStack s) (sched_ngfree s) s = s.
Proof. destruct s; reflexivity. Qed.

Lemma same_sched_state_refl w : same_sched_state w w.
Proof.
  split; [|repeat split].
  eexists _, _, _. symmetry. apply sched_set_gfree_id.
Qed.

Lemma same_sched_state_trans w1 w2 w3 :
  same_sched_state w1 w2 -> same_sched_state w2 w3 -> same_sched_state w1 w3.
Proof.
  unfold same_sched_state.
  intros ((a1 & b1 & c1 & A1) & A2 & A3 & A4 & A5 & A6 & A7 & A8)
         ((a2 & b2 & c2 & B1) & B2 & B3 & B4 & B5 & B6 & B7 & B8).
  split; [exists a2, b2, c2; rewrite B1, A1; reflexivity | repeat split; congruence].
Qed.

Lemma same_but_link_stack a b :
  same_but_link a b ->
  g_stack_lo a = g_stack_lo b /\ g_stack_hi a = g_stack_hi b.
Proof.
  unfold same_but_link. intros H.
  split; [apply (f_equal g_stack_lo) in H | apply (f_equal g_stack_hi) in H]; exact H.
Qed.

Lemma free_g_ok_link a b : same_but_link a b -> free_g_ok a -> free_g_ok b.
Proof.
  intros H (Hst & Hhi). destruct (same_but_link_stack _ _ H) as (Hlo & Hhi').
  split.
  - rewrite <- (same_but_link_status _ _ H). exact Hst.
  - rewrite <- Hlo, <- Hhi'. exact Hhi.
Qed.

(** With no free g, neither on the P nor on the global lists, gfget
    returns nil. *)
Lemma gfget_none pl w i pp :
  has_p w i pp -> p_gfree pp = 0 ->
  sched_gfreeStack (sched w) = 0 -> sched_gfreeNoStack (sched w) = 0 ->
  gfget pl i w = Done 0 w.
Proof.
  intros Hp Hf Hs Hn. unfold gfget. apply loop_first.
  step. rewrite Hf. step. rewrite Hs, Hn. reflexivity.
Qed.

(** With a free g on the list of the P, gfget takes the first one, and
    gives it a stack if it has none. *)
Lemma gfget_local pl w i pp gv :
  stack_ok pl ->
  has_p w i pp -> p_gfree pp <> 0 -> heap w !! p_gfree pp = Some gv ->
  (g_stack_lo gv <> 0 -> g_stack_hi gv <> 0) ->
  exists w2 gv2,
    gfget pl i w = Done (p_gfree pp) w2 /\
    heap w2 = <[p_gfree pp := gv2]> (heap w) /\
    g_atomicstatus gv2 = g_atomicstatus gv /\ g_schedlink gv2 = g_schedlink gv /\
    g_stack_hi gv2 <> 0 /\
    allp w2 = <[i := Some (p_set_gfree (g_schedlink gv) (int32 (p_gfreecnt pp - 1)) pp)]>
                (allp w) /\
    allgs w2 = allgs w /\ allglock w2 = allglock w /\
    same_sched_state w w2.
Proof.
  intros Hok Hp Hf Hg Hhi. unfold gfget.
  pose proof Hf as Hf'. apply Z.eqb_neq in Hf'.
  set (pp' := p_set_gfree (g_schedlink gv) (int32 (p_gfreecnt pp - 1)) pp).
  set (w1 := upd_p i pp' w).
  assert (Hg1 : heap w1 !! p_gfree pp = Some gv) by exact Hg.
  destruct (g_stack_lo gv =? 0) eqn:Elo.
  - set (st := stackalloc pl (_FixedStack pl) w1).
    set (gv1 := g_set_stack (fst st) (snd st) gv).
    set (gv2 := g_set_stackguard0 (uint64 (g_stack_lo gv1 + _StackGuard pl)) gv1).
    exists (upd_g (p_gfree pp) gv2 w1), gv2.
    split.
    { apply loop_first. step. rewrite Hf'. step. cbn [andb negb]. cbv iota.
      erewrite bind_done; cycle 1.
      { rewrite bind_eq, (readg_has _ _ _ Hg Hf). cbv beta iota.
        step. fold pp' w1. rewrite Elo.
        rewrite bind_eq. unfold gets at 1. cbv beta iota. fold st.
        rewrite bind_eq, (modg_has _ _ _ _ Hg1 Hf). cbv beta iota. fold gv1.
        rewrite (modg_has _ _ _ _ (upd_g_lookup _ _ _) Hf), upd_g_twice. reflexivity. }
      reflexivity. }
    split; [reflexivity|]. split; [reflexivity|]. split; [reflexivity|].
    split; [apply Hok|]. split; [reflexivity|]. split; [reflexivity|].
    split; [reflexivity|]. exact (same_sched_state_refl w).
  - exists w1, gv.
    split.
    { apply loop_first. step. rewrite Hf'. step. cbn [andb negb]. cbv iota.
      erewrite bind_done; cycle 1.
      { rewrite bind_eq, (readg_has _ _ _ Hg Hf). cbv beta iota.
        step. fold pp' w1. rewrite Elo. reflexivity. }
      reflexivity. }
    split; [simpl; rewrite insert_id by exact Hg; reflexivity|].
    split; [reflexivity|]. split; [reflexivity|].
    split; [apply Hhi; apply Z.eqb_neq; exact Elo|].
    split; [reflexivity|]. split; [reflexivity|].
    split; [reflexivity|]. exact (same_sched_state_refl w).
Qed.

Lemma new_g_addr_fresh w : new_g_addr w <> 0 /\ heap w !! new_g_addr w = None.
Proof.
  unfold new_g_addr.
  pose proof (is_fresh ({[0]} ∪ dom (heap w) : gset Z)) as H.
  split.
  - intros E. apply H. rewrite E. set_solver.
  - apply not_elem_of_dom. set_solver.
Qed.

(** malg allocates a g with a stack. *)
Lemma malg_has pl w stacksize :
  stack_ok pl -> 0 <= stacksize ->
  exists w2 gv2,
    malg pl stacksize w = Done (new_g_addr w) w2 /\
    heap w2 = <[new_g_addr w := gv2]> (heap w) /\
    g_atomicstatus gv2 = _Gidle /\ g_schedlink gv2 = 0 /\ g_stack_hi gv2 <> 0 /\
    allp w2 = allp w /\ allgs w2 = allgs w /\ allglock w2 = allglock w /\
    same_sched_state w w2.
Proof.
  intros Hok Hsz. unfold malg.
  destruct (new_g_addr_fresh w) as (Hnz & Hfresh).
  rewrite bind_eq. unfold new_g at 1. fold (new_g_addr w). cbv beta iota zeta.
  set (w1 := w_set_heap _ w).
  assert (Hg1 : heap w1 !! new_g_addr w = Some g_zero) by apply lookup_insert_eq.
  apply Z.geb_le in Hsz. rewrite Hsz.
  set (st := stackalloc pl (uint32 (round2 pl (int32 (_StackSystem pl + stacksize)))) w1).
  set (gv1 := g_set_stack (fst st) (snd st) g_zero).
  set (gv2 := g_set_stackguard0 (uint64 (g_stack_lo gv1 + _StackGuard pl)) gv1).
  exists (upd_g (new_g_addr w) gv2 w), gv2.
  split.
  { erewrite bind_done; cycle 1.
    { rewrite bind_eq. unfold gets at 1. cbv beta iota. fold st.
      rewrite bind_eq, (modg_has _ _ _ _ Hg1 Hnz). cbv beta iota. fold gv1.
      rewrite (modg_has _ _ _ _ (upd_g_lookup _ _ _) Hnz), upd_g_twice.
      unfold w1. fold (upd_g (new_g_addr w) g_zero w). rewrite upd_g_twice. reflexivity. }
    reflexivity. }
  split; [reflexivity|]. split; [reflexivity|]. split; [reflexivity|].
  split; [apply Hok|]. split; [reflexivity|]. split; [reflexivity|].
  split; [reflexivity|]. exact (same_sched_state_refl w).
Qed.

(** *** Refilling the list of the P *)

Lemma last_take_cons {A} (d y : A) (k : nat) (t : list A) :
  default d (last (take (S k) (y :: t))) = default y (last (take k t)).
Proof.
  simpl. rewrite last_cons. destruct (last (take k t)); reflexivity.
Qed.

(** The loop stops when the P has 32 free g's. *)
Lemma gfget_fill_stop i n w pp (l : list guintptr) :
  has_p w i pp -> 32 <= p_gfreecnt pp ->
  exists w' c,
    gfget_fill n i w = Done tt w' /\
    allp w' = <[i := Some (p_set_gfree
                  (default (p_gfree pp) (last (take (Z.to_nat (32 - p_gfreecnt pp)) l)))
                  c pp)]> (allp w) /\
    heap_links (heap w) (heap w') /\
    (forall y, y ∉ l -> heap w' !! y = heap w !! y) /\
    same_sched_state w w' /\ fuel w' = fuel w /\ allgs w' = allgs w /\
    allglock w' = allglock w.
Proof.
  intros Hp Hc. exists w, (p_gfreecnt pp).
  split.
  { destruct n; simpl; rewrite bind_eq, (getp_has _ _ _ Hp); cbv beta iota;
      apply Z.ltb_ge in Hc; rewrite Hc; reflexivity. }
  replace (Z.to_nat (32 - p_gfreecnt pp)) with 0%nat by lia.
  split; [simpl; rewrite p_set_gfree_id; symmetry; apply list_insert_id; exact Hp|].
  split; [apply heap_links_refl|]. split; [reflexivity|].
  split; [apply same_sched_state_refl|]. repeat split.
Qed.

(** One g moved from a global list to the list of the P. *)
Lemma gfget_fill_move i n w pp y gy (fa fb : schedt -> guintptr) :
  has_p w i pp -> heap w !! y = Some gy -> y <> 0 ->
  match
    (mod_sched (fun s => sched_set_gfree (fa s) (fb s) (sched_ngfree s) s) ;;;
     ret (Some y)) w
  with
  | Done moved w1 =>
      match moved with
      | Some gp =>
          modp i (fun pp => p_set_gfree (p_gfree pp) (int32 (p_gfreecnt pp + 1)) pp) ;;;
          mod_sched (fun s => sched_set_gfree (sched_gfreeStack s) (sched_gfreeNoStack s)
                                (int32 (sched_ngfree s - 1)) s) ;;;
          let* head := p_load i p_gfree in
          modg gp (g_set_schedlink head) ;;;
          modp i (fun pp => p_set_gfree gp (p_gfreecnt pp) pp) ;;;
          gfget_fill n i
      | None => ret tt
      end w1
  | Fail e => Fail e
  end
  = gfget_fill n i
      (upd_p i (p_set_gfree y (int32 (p_gfreecnt pp + 1)) pp)
         (upd_g y (g_set_schedlink (p_gfree pp) gy)
            (w_set_sched
               (sched_set_gfree (fa (sched w)) (fb (sched w))
                  (int32 (sched_ngfree (sched w) - 1)) (sched w))
               w))).
Proof.
  intros Hp Hg Hnz.
  rewrite bind_eq. unfold mod_sched at 1, modify. cbv beta iota.
  unfold ret at 1. cbv beta iota.
  set (w1 := w_set_sched _ w).
  assert (Hp1 : has_p w1 i pp) by exact Hp.
  rewrite bind_eq, (modp_has _ _ _ _ Hp1). cbv beta iota.
  set (pp1 := p_set_gfree _ _ pp).
  rewrite bind_eq. unfold mod_sched at 1, modify. cbv beta iota.
  set (w2 := w_set_sched _ _).
  assert (Hp2 : has_p w2 i pp1) by (eapply has_p_upd; exact Hp1).
  rewrite bind_eq, (p_load_has _ _ _ _ Hp2). cbv beta iota.
  assert (Hg2 : heap w2 !! y = Some gy) by exact Hg.
  rewrite bind_eq, (modg_has _ _ _ _ Hg2 Hnz). cbv beta iota.
  assert (Hp3 : has_p (upd_g y (g_set_schedlink (p_gfree pp1) gy) w2) i pp1) by exact Hp2.
  rewrite bind_eq, (modp_has _ _ _ _ Hp3). cbv beta iota.
  f_equal. unfold upd_p, upd_g, w2, w1, pp1. simpl.
  rewrite list_insert_insert_eq. reflexivity.
Qed.

(** The loop of gfget moves the first [32 - gfreecnt] g's of the global
    lists, those with a stack first, to the front of the list of the P, one
    by one. *)
Lemma gfget_fill_spec i n : forall w pp gs gn,
  has_p w i pp ->
  lseg (heap w) (sched_gfreeStack (sched w)) gs 0 ->
  lseg (heap w) (sched_gfreeNoStack (sched w)) gn 0 ->
  NoDup (gs ++ gn) ->
  -2147483648 <= p_gfreecnt pp ->
  32 - p_gfreecnt pp <= Z.of_nat n ->
  exists w' c,
    gfget_fill n i w = Done tt w' /\
    allp w' = <[i := Some (p_set_gfree
                  (default (p_gfree pp) (last (take (Z.to_nat (32 - p_gfreecnt pp)) (gs ++ gn))))
                  c pp)]> (allp w) /\
    heap_links (heap w) (heap w') /\
    (forall y, y ∉ gs ++ gn -> heap w' !! y = heap w !! y) /\
    same_sched_state w w' /\ fuel w' = fuel w /\ allgs w' = allgs w /\
    allglock w' = allglock w.
Proof.
  induction n as [|n IH]; intros w pp gs gn Hp Hgs Hgn Hnd Hlo Hn.
  { apply gfget_fill_stop; [exact Hp | lia]. }
  destruct (Z.ltb_spec (p_gfreecnt pp) 32) as [Hlt|Hge];
    [|apply gfget_fill_stop; [exact Hp | exact Hge]].
  (* the state after a g [y] has been moved, and what the rest of the loop
     does from there *)
  assert (Hstep : forall y gy gs' gn' sa sb,
            heap w !! y = Some gy -> y <> 0 -> y ∉ gs' ++ gn' ->
            gs ++ gn = y :: gs' ++ gn' -> NoDup (gs' ++ gn') ->
            lseg (heap w) sa gs' 0 -> lseg (heap w) sb gn' 0 ->
            exists w' c,
              gfget_fill n i
                (upd_p i (p_set_gfree y (int32 (p_gfreecnt pp + 1)) pp)
                   (upd_g y (g_set_schedlink (p_gfree pp) gy)
                      (w_set_sched
                         (sched_set_gfree sa sb (int32 (sched_ngfree (sched w) - 1)) (sched w))
                         w))) = Done tt w' /\
              allp w' = <[i := Some (p_set_gfree
                  (default (p_gfree pp)
                     (last (take (Z.to_nat (32 - p_gfreecnt pp)) (gs ++ gn))))
                  c pp)]> (allp w) /\
              heap_links (heap w) (heap w') /\
              (forall z, z ∉ gs ++ gn -> heap w' !! z = heap w !! z) /\
              same_sched_state w w' /\ fuel w' = fuel w /\ allgs w' = allgs w /\
              allglock w' = allglock w).
  { intros y gy gs' gn' sa sb Hgy Hynz Hy Heq Hnd' Hgs' Hgn'.
    set (pp1 := p_set_gfree y (int32 (p_gfreecnt pp + 1)) pp).
    set (w1 := upd_p i pp1 _).
    assert (Hc1 : p_gfreecnt pp1 = p_gfreecnt pp + 1).
    { simpl. apply int32_id. unfold is_int32. lia. }
    destruct (IH w1 pp1 gs' gn') as (w' & c & Hrun & Ha & Hh & Hfr & Hsame & Hfu & Hag & Hlk).
    { eapply has_p_upd. exact Hp. }
    { simpl. apply lseg_frame; [|exact Hgs'].
      intros Hin. apply Hy. apply elem_of_app. left. exact Hin. }
    { simpl. apply lseg_frame; [|exact Hgn'].
      intros Hin. apply Hy. apply elem_of_app. right. exact Hin. }
    { exact Hnd'. }
    { rewrite Hc1. lia. }
    { rewrite Hc1. lia. }
    exists w', c. split; [exact Hrun|].
    split.
    { rewrite Ha. simpl allp. rewrite list_insert_insert_eq. rewrite Hc1, Heq.
      replace (Z.to_nat (32 - p_gfreecnt pp)) with (S (Z.to_nat (32 - (p_gfreecnt pp + 1))))
        by lia.
      rewrite last_take_cons. reflexivity. }
    split.
    { eapply heap_links_trans; [|exact Hh]. simpl. apply heap_links_insert. exact Hgy. }
    split.
    { intros z Hz. rewrite Heq in Hz. apply not_elem_of_cons in Hz as [Hzy Hz].
      rewrite (Hfr z Hz). simpl. apply lookup_insert_ne. congruence. }
    split.
    { eapply same_sched_state_trans; [|exact Hsame].
      split; [|repeat split]. eexists _, _, _. reflexivity. }
    rewrite Hfu, Hag, Hlk. repeat split. }
  cbn [gfget_fill]. rewrite bind_eq, (getp_has _ _ _ Hp). cbv beta iota.
  apply Z.ltb_lt in Hlt. rewrite Hlt. cbn [negb]. cbv iota.
  rewrite bind_eq. change (get_sched w) with (Done (sched w) w). cbv beta iota.
  rewrite bind_eq.
  destruct gs as [|y gs'].
  - simpl in Hgs. rewrite Hgs. change (negb (0 =? 0)) with false. cbv iota.
    destruct gn as [|y gn'].
    + (* both lists are empty: break *)
      simpl in Hgn. rewrite Hgn. change (negb (0 =? 0)) with false. cbv iota.
      unfold ret at 1. cbv beta iota. unfold ret.
      exists w, (p_gfreecnt pp). split; [reflexivity|].
      cbn [app]. rewrite take_nil. simpl last. simpl default.
      split; [rewrite p_set_gfree_id; symmetry; apply list_insert_id; exact Hp|].
      split; [apply heap_links_refl|]. split; [reflexivity|].
      split; [apply same_sched_state_refl|]. repeat split.
    + simpl in Hgn. destruct Hgn as (Hhd & Hynz & gy & Hgy & Hgn').
      rewrite Hhd. pose proof Hynz as Hynz'. apply Z.eqb_neq in Hynz'. rewrite Hynz'.
      cbn [negb]. cbv iota.
      rewrite bind_eq, (readg_has _ _ _ Hgy Hynz). cbv beta iota.
      simpl in Hnd. apply NoDup_cons in Hnd as [Hy Hnd'].
      destruct (Hstep y gy [] gn' (sched_gfreeStack (sched w)) (g_schedlink gy))
        as (w' & c & Hrun & Hrest); try assumption; try reflexivity.
      exists w', c. split; [|exact Hrest].
      rewrite (gfget_fill_move i n w pp y gy _ _ Hp Hgy Hynz). exact Hrun.
  - simpl in Hgs. destruct Hgs as (Hhd & Hynz & gy & Hgy & Hgs').
    rewrite Hhd. pose proof Hynz as Hynz'. apply Z.eqb_neq in Hynz'. rewrite Hynz'.
    cbn [negb]. cbv iota.
    rewrite bind_eq, (readg_has _ _ _ Hgy Hynz). cbv beta iota.
    simpl in Hnd. apply NoDup_cons in Hnd as [Hy Hnd'].
    destruct (Hstep y gy gs' gn (g_schedlink gy) (sched_gfreeNoStack (sched w)))
      as (w' & c & Hrun & Hrest); try assumption; try reflexivity.
    exists w', c. split; [|exact Hrest].
    rewrite (gfget_fill_move i n w pp y gy _ _ Hp Hgy Hynz). exact Hrun.
Qed.

(** With no free g on the P and some on the global lists, gfget moves g's
    to the list of the P and starts again. *)
Lemma gfget_refill pl w i pp gs gn n' :
  has_p w i pp -> p_gfree pp = 0 ->
  -2147483648 <= p_gfreecnt pp < 32 ->
  sched_gflock (sched w) = false -> fuel w = S n' ->
  lseg (heap w) (sched_gfreeStack (sched w)) gs 0 ->
  lseg (heap w) (sched_gfreeNoStack (sched w)) gn 0 ->
  NoDup (gs ++ gn) -> gs ++ gn <> [] ->
  exists w1 c,
    gfget pl i w = gfget pl i w1 /\
    allp w1 = <[i := Some (p_set_gfree
                  (default 0 (last (take (Z.to_nat (32 - p_gfreecnt pp)) (gs ++ gn))))
                  c pp)]> (allp w) /\
    heap_links (heap w) (heap w1) /\
    (forall y, y ∉ gs ++ gn -> heap w1 !! y = heap w !! y) /\
    same_sched_state w w1 /\ allgs w1 = allgs w /\ allglock w1 = allglock w.
Proof.
  intros Hp Hf Hc Hlock Hfuel Hgs Hgn Hnd Hne.
  set (wa := w_set_sched (sched_set_gflock true (sched w)) w).
  destruct (gfget_fill_spec i (Z.to_nat (32 - p_gfreecnt pp)) wa pp gs gn)
    as (w' & c & Hrun & Ha & Hh & Hfr & Hsame & Hfu & Hag & Hlk);
    [exact Hp | exact Hgs | exact Hgn | exact Hnd | lia | lia |].
  rewrite Hf in Ha.
  destruct Hsame as ((sa & sb & sc & Hs') & Hm' & Ht' & Hg' & Hms' & Hr' & Hrng' & Hpos').
  set (w1 := w_set_fuel n' (w_set_sched (sched_set_gflock false (sched w')) w')).
  exists w1, c.
  assert (Hcond : negb (sched_gfreeStack (sched w) =? 0)
                  || negb (sched_gfreeNoStack (sched w) =? 0) = true).
  { destruct gs as [|y gs'].
    - destruct gn as [|y gn']; [exfalso; apply Hne; reflexivity|].
      simpl in Hgn. destruct Hgn as (-> & Hnz & _).
      apply Z.eqb_neq in Hnz. rewrite Hnz. apply orb_true_r.
    - simpl in Hgs. destruct Hgs as (-> & Hnz & _).
      apply Z.eqb_neq in Hnz. rewrite Hnz. reflexivity. }
  split.
  { unfold gfget.
    match goal with |- loop ?b w = _ => set (body := b) end.
    assert (Hbody : body w = Done None (w_set_sched (sched_set_gflock false (sched w')) w')).
    { unfold body. step. rewrite Hf. step. rewrite Hcond.
      change ((0 =? 0) && true) with true. cbv iota.
      rewrite bind_eq. unfold lock_gflock.
      rewrite bind_eq. change (get_sched w) with (Done (sched w) w). cbv beta iota.
      rewrite Hlock. unfold mod_sched, modify. cbv beta iota. fold wa.
      assert (Hpa : has_p wa i pp) by exact Hp.
      rewrite bind_eq, (p_load_has _ _ _ _ Hpa). cbv beta iota.
      rewrite bind_eq, Hrun. cbv beta iota.
      rewrite bind_eq. unfold unlock_gflock.
      rewrite bind_eq. change (get_sched w') with (Done (sched w') w'). cbv beta iota.
      assert (Hlk' : sched_gflock (sched w') = true) by (rewrite Hs'; reflexivity).
      rewrite Hlk'. reflexivity. }
    unfold loop at 1. rewrite Hfuel. cbn [loop_n]. rewrite Hbody. reflexivity. }
  split; [exact Ha|]. split; [exact Hh|]. split; [exact Hfr|].
  split.
  { split.
    - exists sa, sb, sc. simpl. rewrite Hs'. simpl.
      destruct (sched w). simpl in Hlock. subst. reflexivity.
    - simpl. rewrite Hm', Ht', Hg', Hms', Hr', Hrng', Hpos'. repeat split. }
  simpl. rewrite Hag, Hlk. split; reflexivity.
Qed.

(** The g that newproc1 obtains, from gfget or from malg: it is dead and has
    a stack; the g's of the state are kept, and those that are not dead
    keep their [schedlink]. *)
Lemma newproc1_obtain pl w i pp newg (K : guintptr -> M unit) :
  stack_ok pl -> 0 <= _StackMin pl ->
  has_p w i pp -> free_g_ready w pp newg ->
  exists w2 gv2 a c,
    (let* newg := gfget pl i in
     let* newg :=
       (if newg =? 0 then
          let* newg := malg pl (_StackMin pl) in
          casgstatus newg _Gidle _Gdead ;;;
          allgadd newg ;;;
          ret newg
        else ret newg) in
     K newg) w = K newg w2 /\
    newg <> 0 /\
    heap w2 !! newg = Some gv2 /\
    g_atomicstatus gv2 = _Gdead /\ g_stack_hi gv2 <> 0 /\
    (forall y gy, heap w !! y = Some gy ->
       exists gy', heap w2 !! y = Some gy' /\
                   (g_atomicstatus gy <> _Gdead -> g_schedlink gy' = g_schedlink gy)) /\
    allp w2 = <[i := Some (p_set_gfree a c pp)]> (allp w) /\
    same_sched_state w w2.
Proof.
  intros Hok Hmin Hp
    [(Hf & Hs & Hn & Hl & ->)
    | [(Hf & -> & gv & Hg & Hst & Hhi)
      | (Hf & Hc & Hlock & Hfuel & gs & gn & (Hgs & Hgn & Hnd & Hall) & Hlast)]].
  - (* no free g: a new one *)
    destruct (new_g_addr_fresh w) as (Hnz & Hfresh).
    destruct (malg_has pl w (_StackMin pl) Hok Hmin)
      as (w1 & gv1 & Hmalg & Hh1 & Hst1 & Hl1 & Hhi1 & Ha1 & Hgs1 & Hlk1 & Hsame1).
    set (newg := new_g_addr w) in *.
    assert (Hg1 : heap w1 !! newg = Some gv1) by (rewrite Hh1; apply lookup_insert_eq).
    set (gv2 := g_set_atomicstatus _Gdead gv1).
    set (w2 := upd_g newg gv2 w1).
    exists (w_set_allglock false (w_set_allgs (allgs w2 ++ [newg]) (w_set_allglock true w2))),
      gv2, (p_gfree pp), (p_gfreecnt pp).
    split.
    { rewrite bind_eq, (gfget_none pl w i pp Hp Hf Hs Hn). cbv beta iota.
      change (0 =? 0) with true. cbv iota.
      erewrite bind_done; cycle 1.
      { rewrite bind_eq, Hmalg. cbv beta iota.
        rewrite bind_eq.
        erewrite (casgstatus_done w1 newg gv1 _Gidle _Gdead);
          [| exact Hg1 | exact Hnz | exact Hst1 | reflexivity | reflexivity
           | discriminate | discriminate | discriminate].
        cbv beta iota. fold gv2 w2.
        erewrite bind_done; cycle 1.
        { unfold allgadd, readgstatus.
          rewrite bind_eq, bind_eq, (readg_has w2 newg gv2 (upd_g_lookup _ _ _) Hnz).
          unfold ret at 1. cbv beta iota.
          change (g_atomicstatus gv2 =? _Gidle) with false. cbv iota.
          rewrite bind_eq. unfold lock_allg at 1.
          assert (Hl2 : allglock w2 = false) by (simpl; rewrite Hlk1; exact Hl).
          rewrite Hl2. cbv beta iota.
          rewrite bind_eq. unfold modify at 1. cbv beta iota.
          unfold unlock_allg. simpl allglock. cbv iota. reflexivity. }
        reflexivity. }
      reflexivity. }
    split; [exact Hnz|].
    split; [apply lookup_insert_eq|].
    split; [reflexivity|]. split; [exact Hhi1|].
    split.
    { intros y gy Hy. exists gy. split; [|reflexivity].
      simpl. rewrite Hh1, insert_insert_eq. rewrite lookup_insert_ne; [exact Hy|].
      intros E. rewrite <- E in Hy. congruence. }
    split.
    { simpl. rewrite Ha1, p_set_gfree_id. symmetry. apply list_insert_id. exact Hp. }
    eapply same_sched_state_trans; [exact Hsame1|].
    exact (same_sched_state_refl w1).
  - (* the first free g of the P *)
    pose proof Hf as Hf'. apply Z.eqb_neq in Hf'.
    destruct (gfget_local pl w i pp gv Hok Hp Hf Hg Hhi)
      as (w2 & gv2 & Hget & Hh2 & Hst2 & Hl2 & Hhi2 & Ha2 & _ & _ & Hsame2).
    exists w2, gv2, (g_schedlink gv), (int32 (p_gfreecnt pp - 1)).
    split.
    { rewrite bind_eq, Hget. cbv beta iota. rewrite Hf'. reflexivity. }
    split; [exact Hf|]. split; [rewrite Hh2; apply lookup_insert_eq|].
    split; [rewrite Hst2; exact Hst|]. split; [exact Hhi2|].
    split.
    { intros y gy Hy. rewrite Hh2. destruct (decide (p_gfree pp = y)) as [<-|Hne].
      - rewrite lookup_insert_eq. exists gv2. split; [reflexivity|].
        intros _. rewrite Hl2. congruence.
      - rewrite lookup_insert_ne by exact Hne. exists gy. split; [exact Hy | reflexivity]. }
    split; [exact Ha2 | exact Hsame2].
  - (* a free g from the global lists *)
    destruct (fuel w) as [|n'] eqn:Efuel; [lia|].
    assert (Hne : gs ++ gn <> []).
    { intros E. rewrite E, take_nil in Hlast. discriminate. }
    destruct (gfget_refill pl w i pp gs gn n' Hp Hf Hc Hlock Efuel Hgs Hgn Hnd Hne)
      as (w1 & c & Hre & Ha1 & Hh1 & Hfr1 & Hsame1 & _ & _).
    rewrite Hlast in Ha1. simpl default in Ha1.
    assert (Hin : newg ∈ gs ++ gn).
    { apply last_Some_elem_of in Hlast.
      rewrite <- (take_drop (Z.to_nat (32 - p_gfreecnt pp)) (gs ++ gn)).
      apply elem_of_app. left. exact Hlast. }
    assert (Hvalid : valid_gs (heap w) (gs ++ gn)).
    { apply Forall_app. split; eapply lseg_valid; eassumption. }
    assert (Hnz : newg <> 0).
    { eapply Forall_forall in Hvalid; [|exact Hin]. apply Hvalid. }
    destruct (proj1 (Forall_forall _ _) Hall newg Hin) as (gv & Hg & Hfree).
    destruct (Hh1 newg gv Hg) as (gv1 & Hg1 & Hsl).
    destruct (free_g_ok_link _ _ Hsl Hfree) as (Hst1 & Hhi1).
    set (pp1 := p_set_gfree newg c pp) in *.
    assert (Hp1 : has_p w1 i pp1).
    { unfold has_p. rewrite Ha1. apply list_lookup_insert_eq. eapply lookup_lt_Some. exact Hp. }
    destruct (gfget_local pl w1 i pp1 gv1 Hok Hp1 Hnz Hg1 Hhi1)
      as (w2 & gv2 & Hget & Hh2 & Hst2 & Hl2 & Hhi2 & Ha2 & _ & _ & Hsame2).
    change (p_gfree pp1) with newg in *.
    exists w2, gv2, (g_schedlink gv1), (int32 (p_gfreecnt pp1 - 1)).
    split.
    { rewrite bind_eq, Hre, Hget. cbv beta iota.
      apply Z.eqb_neq in Hnz. rewrite Hnz. reflexivity. }
    split; [exact Hnz|]. split; [rewrite Hh2; apply lookup_insert_eq|].
    split; [rewrite Hst2; exact Hst1|]. split; [exact Hhi2|].
    split.
    { intros y gy Hy. rewrite Hh2. destruct (decide (newg = y)) as [<-|Hne'].
      - rewrite lookup_insert_eq. exists gv2. split; [reflexivity|].
        intros Hdead. exfalso. apply Hdead.
        rewrite Hg in Hy. injection Hy as <-. apply Hfree.
      - rewrite lookup_insert_ne by exact Hne'.
        destruct (Hh1 y gy Hy) as (gy1 & Hy1 & Hsl1).
        exists gy1. split; [exact Hy1|].
        intros Hdead.
        assert (Hout : y ∉ gs ++ gn).
        { intros Hiny. destruct (proj1 (Forall_forall _ _) Hall y Hiny) as (gy0 & Hy0 & Hd0 & _).
          apply Hdead. congruence. }
        rewrite (Hfr1 y Hout) in Hy1. congruence. }
    split.
    { rewrite Ha2, Ha1, list_insert_insert_eq. reflexivity. }
    eapply same_sched_state_trans; [exact Hsame1 | exact Hsame2].
Qed.

(** *** Waking and leaving *)

Lemma wake_unlock_has w gg (wake : bool) :
  heap w !! getg w = Some gg -> getg w <> 0 ->
  (wake = true -> sched_nmspinning (sched w) = 0) ->
  exists w',
    (when wake wakep ;;; unlock_m) w = Done tt w' /\
    allp w' = allp w /\
    heap_keeps_links (heap w) (heap w') /\
    trace w' = trace w ++ (if wake then [EvStartm None true] else []) /\
    sched w' = (if wake then sched_set_nmspinning 1 (sched w) else sched w).
Proof.
  intros Hg Hnz Hnm. unfold when.
  assert (Hw : (if wake then wakep else ret tt) w = Done tt (woken wake w)).
  { destruct wake; [|reflexivity]. rewrite wakep_has, (Hnm eq_refl). reflexivity. }
  rewrite bind_eq, Hw. cbv beta iota.
  destruct (unlock_m_has (woken wake w) gg) as (w' & Hun & Ha & Hs & Ht & Hh & _).
  { unfold woken. destruct wake; exact Hg. }
  { unfold woken. destruct wake; exact Hnz. }
  exists w'. split; [exact Hun|].
  rewrite Ha, Hs, Ht.
  unfold woken in *. destruct wake; simpl; rewrite ?app_nil_r;
    (split; [reflexivity|]); (split; [exact Hh|]); repeat split.
Qed.

Section Newproc1.
Variables (pl : platform) (pc argp narg : Z) (callergp : guintptr) (callerpc : Z).
Variables (w : world) (i : nat) (pp : p) (gg : g) (newg : guintptr).
Hypothesis Hsiz : newproc_siz narg < newproc_limit pl.
Hypothesis Hok : stack_ok pl.
Hypothesis Hmin : 0 <= _StackMin pl.
Hypothesis Hmp : m_p (curm w) = Some i.
Hypothesis Hp : has_p w i pp.
Hypothesis Hgg : heap w !! getg w = Some gg.
Hypothesis Hggnz : getg w <> 0.
Hypothesis Hfree : free_g_ready w pp newg.

Let next' := runqput_next w true.
Let wake := negb (sched_npidle (sched w) =? 0) && (sched_nmspinning (sched w) =? 0)
            && mainStarted w.

(** newproc1 up to the call of runqput. *)
Lemma newproc1_upto_runqput :
  exists w5 gv5 a b c d sp,
    newproc1 pl (Some pc) argp narg callergp callerpc w
    = (runqput i newg true ;;;
       let* s := get_sched in
       let* ms := gets mainStarted in
       when (negb (sched_npidle s =? 0) && (sched_nmspinning s =? 0) && ms) wakep ;;;
       unlock_m) w5 /\
    newg <> 0 /\
    heap w5 !! newg = Some gv5 /\
    g_atomicstatus gv5 = _Grunnable /\ g_startpc gv5 = pc /\ g_gopc gv5 = callerpc /\
    (forall y gy, heap w !! y = Some gy ->
       exists gy', heap w5 !! y = Some gy' /\
                   (g_atomicstatus gy <> _Gdead -> g_schedlink gy' = g_schedlink gy)) /\
    allp w5 = <[i := Some (p_used a b c d pp)]> (allp w) /\
    trace w5 = trace w ++ (if narg >? 0 then [EvMemmove sp argp (uint64 narg)] else []) /\
    sched_lock (sched w5) = sched_lock (sched w) /\
    sched_npidle (sched w5) = sched_npidle (sched w) /\
    sched_nmspinning (sched w5) = sched_nmspinning (sched w) /\
    sched_runqhead (sched w5) = sched_runqhead (sched w) /\
    sched_runqtail (sched w5) = sched_runqtail (sched w) /\
    sched_runqsize (sched w5) = sched_runqsize (sched w) /\
    getg w5 = getg w /\ mainStarted w5 = mainStarted w /\
    raceenabled w5 = raceenabled w /\ rng w5 = rng w /\ rng_pos w5 = rng_pos w.
Proof.
  rewrite (newproc1_eq _ _ _ _ _ _ _ Hsiz).
  set (w0 := w_set_curm _ w).
  assert (Hcur : curp w0 = Done i w0) by (unfold curp; simpl; rewrite Hmp; reflexivity).
  rewrite bind_eq, Hcur. cbv beta iota.
  destruct (newproc1_obtain pl w0 i pp newg (newproc1_tail pl pc argp narg callerpc i)
              Hok Hmin Hp Hfree)
    as (w2 & gv2 & c & d & Hrun & Hnz & Hh2 & Hst2 & Hhi2 & Hl2 & Ha2 & Hsame2).
  rewrite Hrun.
  destruct (newproc1_prepare pl pc argp narg callerpc i newg w2 gv2 (p_set_gfree c d pp))
    as (w5 & gv5 & a & b & n1 & n2 & Hrun5 & Hh5 & Hst5 & Hpc5 & Hgo5 & Hl5 & Ha5 & Hs5
        & Ht5 & Hm5 & Hg5 & Hms5 & Hr5 & Hrng5 & Hpos5 & _).
  { exact Hh2. }
  { exact Hnz. }
  { exact Hhi2. }
  { exact Hst2. }
  { unfold has_p. rewrite Ha2. apply list_lookup_insert_eq. eapply lookup_lt_Some. exact Hp. }
  destruct Hsame2 as ((sa & sb & sc & Hs2) & Hm2 & Ht2 & Hg2 & Hms2 & Hr2 & Hrng2 & Hpos2).
  exists w5, gv5, a, b, c, d.
  eexists.
  split; [exact Hrun5|]. split; [exact Hnz|].
  split; [rewrite Hh5; apply lookup_insert_eq|].
  split; [exact Hst5|]. split; [exact Hpc5|]. split; [exact Hgo5|].
  split.
  { intros y gy Hy. destruct (Hl2 y gy Hy) as (gy2 & Hy2 & Hlk2).
    rewrite Hh5. destruct (decide (newg = y)) as [<-|Hne].
    - rewrite lookup_insert_eq. exists gv5. split; [reflexivity|].
      intros Hlive. rewrite Hl5. rewrite Hh2 in Hy2. injection Hy2 as <-.
      apply Hlk2. exact Hlive.
    - rewrite lookup_insert_ne by exact Hne. exists gy2. split; assumption. }
  split; [rewrite Ha5, Ha2, list_insert_insert_eq; reflexivity|].
  split; [rewrite Ht5, Ht2; unfold newproc1_copy; cbv zeta; reflexivity|].
  rewrite Hs5, Hs2, Hg5, Hg2, Hms5, Hms2, Hr5, Hr2, Hrng5, Hrng2, Hpos5, Hpos2.
  repeat split.
Qed.
End Newproc1.

Lemma same_but_link_pcs a b :
  same_but_link a b -> g_startpc a = g_startpc b /\ g_gopc a = g_gopc b.
Proof.
  unfold same_but_link. intros H.
  split; [apply (f_equal g_startpc) in H | apply (f_equal g_gopc) in H]; exact H.
Qed.

Lemma same_but_guard_pcs a b :
  same_but_guard a b -> g_startpc a = g_startpc b /\ g_gopc a = g_gopc b.
Proof.
  unfold same_but_guard. intros H.
  split; [apply (f_equal g_startpc) in H | apply (f_equal g_gopc) in H]; exact H.
Qed.

Lemma lseg_keeps_on hp hp' hd l tl :
  (forall y gy, y ∈ l -> hp !! y = Some gy ->
     exists gy', hp' !! y = Some gy' /\ g_schedlink gy' = g_schedlink gy) ->
  lseg hp hd l tl -> lseg hp' hd l tl.
Proof.
  revert hd. induction l as [|x l IH]; intros hd Hk H; simpl in *; [exact H|].
  destruct H as (-> & Hnz & gx & Hgx & Hrest).
  destruct (Hk x gx (list_elem_of_here _ _) Hgx) as (gx' & Hgx' & Hl).
  split; [reflexivity|]. split; [exact Hnz|]. exists gx'. split; [exact Hgx'|].
  rewrite Hl. apply IH; [|exact Hrest].
  intros y gy Hin. apply Hk. apply list_elem_of_further. exact Hin.
Qed.

Lemma runqput_next_same w w' next :
  raceenabled w' = raceenabled w -> rng w' = rng w -> rng_pos w' = rng_pos w ->
  runqput_next w' next = runqput_next w next.
Proof. unfold runqput_next. intros -> -> ->. reflexivity. Qed.

Section Newproc1Queue.
Variables (pl : platform) (pc argp narg : Z) (callergp : guintptr) (callerpc : Z).
Variables (w : world) (i : nat) (pp : p) (gg : g) (newg : guintptr).
Hypothesis Hsiz : newproc_siz narg < newproc_limit pl.
Hypothesis Hok : stack_ok pl.
Hypothesis Hmin : 0 <= _StackMin pl.
Hypothesis Hmp : m_p (curm w) = Some i.
Hypothesis Hp : has_p w i pp.
Hypothesis Hgg : heap w !! getg w = Some gg.
Hypothesis Hggnz : getg w <> 0.
Hypothesis Hfree : free_g_ready w pp newg.

Let next' := runqput_next w true.
Let wake := negb (sched_npidle (sched w) =? 0) && (sched_nmspinning (sched w) =? 0)
            && mainStarted w.

(** The new g goes to the P when the ring has room. *)
Lemma newproc1_room :
  runq_count pp < runqlen \/ (next' = true /\ p_runnext pp = 0) ->
  exists w' gv' a b c d sp,
    newproc1 pl (Some pc) argp narg callergp callerpc w = Done tt w' /\
    heap w' !! newg = Some gv' /\
    g_atomicstatus gv' = _Grunnable /\ g_startpc gv' = pc /\ g_gopc gv' = callerpc /\
    has_p w' i (p_put newg next' (p_used a b c d pp)) /\
    trace w' = trace w ++ (if narg >? 0 then [EvMemmove sp argp (uint64 narg)] else [])
                       ++ (if wake then [EvStartm None true] else []).
Proof.
  intros Hroom.
  destruct (newproc1_upto_runqput pl pc argp narg callergp callerpc w i pp newg
              Hsiz Hok Hmin Hmp Hp Hfree)
    as (w5 & gv5 & a & b & c & d & sp & Hrun & Hnz & Hh5 & Hst5 & Hpc5 & Hgo5 & Hl5 & Ha5
        & Ht5 & Hlk5 & Hni5 & Hnm5 & _ & _ & _ & Hg5 & Hms5 & Hr5 & Hrng5 & Hpos5).
  set (pp5 := p_used a b c d pp) in *.
  assert (Hp5 : has_p w5 i pp5).
  { unfold has_p. rewrite Ha5. apply list_lookup_insert_eq. eapply lookup_lt_Some. exact Hp. }
  assert (Hnext : runqput_next w5 true = next') by (apply runqput_next_same; assumption).
  rewrite Hrun, bind_eq, (runqput_room w5 i pp5 newg true Hp5).
  2:{ rewrite Hnext. exact Hroom. }
  rewrite Hnext. cbv beta iota.
  set (w6 := upd_p i _ _).
  destruct (runqput_drawn_frame w5 true) as (Hh6 & Ha6 & Hs6 & Ht6 & Hm6 & Hg6 & _).
  rewrite bind_eq. change (get_sched w6) with (Done (sched w6) w6). cbv beta iota.
  rewrite bind_eq. change (gets mainStarted w6) with (Done (mainStarted w6) w6).
  cbv beta iota.
  assert (Hwake : negb (sched_npidle (sched w6) =? 0) && (sched_nmspinning (sched w6) =? 0)
                  && mainStarted w6 = wake).
  { unfold wake. simpl. rewrite Hs6, Hni5, Hnm5.
    unfold runqput_drawn. destruct (raceenabled w5 && true); simpl; rewrite Hms5; reflexivity. }
  rewrite Hwake.
  assert (Hgg6 : exists gg6, heap w6 !! getg w6 = Some gg6).
  { simpl. rewrite Hh6, Hg6, Hg5.
    destruct (Hl5 _ _ Hgg) as (gg5 & Hgg5 & _). eauto. }
  destruct Hgg6 as (gg6 & Hgg6).
  destruct (wake_unlock_has w6 gg6 wake Hgg6) as (w' & Hrun' & Ha' & Hk' & Ht' & _).
  { simpl. rewrite Hg6, Hg5. exact Hggnz. }
  { intros E. simpl. rewrite Hs6, Hnm5. unfold wake in E.
    apply andb_prop in E as [E _]. apply andb_prop in E as [_ E]. apply Z.eqb_eq. exact E. }
  destruct (Hk' newg gv5) as (gv' & Hgv' & _ & Hst' & Hsame).
  { simpl. rewrite Hh6. exact Hh5. }
  destruct (same_but_guard_pcs _ _ Hsame) as (Hpc' & Hgo').
  exists w', gv', a, b, c, d, sp.
  split; [exact Hrun'|]. split; [exact Hgv'|].
  split; [rewrite Hst'; exact Hst5|].
  split; [rewrite <- Hpc'; exact Hpc5|]. split; [rewrite <- Hgo'; exact Hgo5|].
  split.
  { unfold has_p. rewrite Ha'. eapply has_p_upd. unfold has_p. rewrite Ha6. exact Hp5. }
  rewrite Ht'. simpl trace. rewrite Ht6, Ht5, <- app_assoc. reflexivity.
Qed.

(** With a full ring, the goroutine bound for the tail goes to the global
    queue with the first half of the ring. *)
Lemma newproc1_full l :
  runq_count pp = runqlen ->
  let x := if next' then p_runnext pp else newg in
  x <> 0 -> globrunq w l -> sched_lock (sched w) = false ->
  Forall (fun y => forall gy, heap w !! y = Some gy -> g_atomicstatus gy <> _Gdead) l ->
  NoDup (l ++ take 128 (runq_list pp) ++ [x]) ->
  valid_gs (heap w) (take 128 (runq_list pp) ++ (if next' then [p_runnext pp] else [])) ->
  Z.of_nat (length l) + 129 < 2147483648 ->
  exists w' gv' batch a b c d sp,
    newproc1 pl (Some pc) argp narg callergp callerpc w = Done tt w' /\
    heap w' !! newg = Some gv' /\
    g_atomicstatus gv' = _Grunnable /\ g_startpc gv' = pc /\ g_gopc gv' = callerpc /\
    batch ≡ₚ take 128 (runq_list pp) ++ [x] /\
    (raceenabled w = false -> batch = take 128 (runq_list pp) ++ [x]) /\
    globrunq w' (l ++ batch) /\
    has_p w' i (p_set_runqhead (uint32 (p_runqhead pp + 128))
                  (if next' then p_set_runnext newg (p_used a b c d pp)
                   else p_used a b c d pp)) /\
    trace w' = trace w ++ (if narg >? 0 then [EvMemmove sp argp (uint64 narg)] else [])
                       ++ (if wake then [EvStartm None true] else []).
Proof.
  intros Hfull x Hx Hq Hlock Hlive Hnd Hvalid Hsize.
  destruct (newproc1_upto_runqput pl pc argp narg callergp callerpc w i pp newg
              Hsiz Hok Hmin Hmp Hp Hfree)
    as (w5 & gv5 & a & b & c & d & sp & Hrun & Hnz & Hh5 & Hst5 & Hpc5 & Hgo5 & Hl5 & Ha5
        & Ht5 & Hlk5 & Hni5 & Hnm5 & Hqh5 & Hqt5 & Hqs5 & Hg5 & Hms5 & Hr5 & Hrng5 & Hpos5).
  set (pp5 := p_used a b c d pp) in *.
  assert (Hp5 : has_p w5 i pp5).
  { unfold has_p. rewrite Ha5. apply list_lookup_insert_eq. eapply lookup_lt_Some. exact Hp. }
  assert (Hnext : runqput_next w5 true = next') by (apply runqput_next_same; assumption).
  pose proof Hl5 as Hkeep.
  assert (Hq5 : globrunq w5 l).
  { destruct Hq as (H1 & H2 & H3). split; [|split].
    - rewrite Hqh5. eapply lseg_keeps_on; [|exact H1].
      intros y gy Hin Hy. destruct (Hkeep y gy Hy) as (gy' & Hy' & Hlk).
      exists gy'. split; [exact Hy'|]. apply Hlk.
      eapply Forall_forall in Hlive; [|exact Hin]. apply Hlive. exact Hy.
    - rewrite Hqs5. exact H2.
    - rewrite Hqt5. exact H3. }
  assert (Hvalid5 : valid_gs (heap w5) (take 128 (runq_list pp) ++ [x])).
  { apply Forall_app. split.
    - apply Forall_app in Hvalid as [Hv _].
      eapply valid_gs_keeps; [|exact Hv]. intros y [gy Hy].
      destruct (Hkeep y gy Hy) as (gy' & Hy' & _). eauto.
    - apply Forall_singleton. split; [exact Hx|]. unfold x in *.
      destruct next'.
      + apply Forall_app in Hvalid as [_ Hv]. apply Forall_singleton in Hv as [_ [gy Hy]].
        destruct (Hkeep _ gy Hy) as (gy' & Hy' & _). eauto.
      + rewrite Hh5. eauto. }
  destruct (runqput_full w5 i pp5 newg true l Hp5 Hfull) as
    (w6 & batch & Hput & Hperm & Hq6 & Hp6 & _ & _ & Hlinks & _ & Ht6 & Hm6 & _ & Hrest6 & Heq6).
  { rewrite Hnext. exact Hx. }
  { exact Hq5. }
  { rewrite Hlk5. exact Hlock. }
  { rewrite Hnext. exact Hnd. }
  { rewrite Hnext. exact Hvalid5. }
  { exact Hsize. }
  rewrite Hnext in Hperm, Hp6, Heq6. rewrite Hr5 in Heq6.
  change (runq_list pp5) with (runq_list pp) in Hperm, Heq6.
  change (p_runnext pp5) with (p_runnext pp) in Hperm, Heq6.
  change (p_runqhead pp5) with (p_runqhead pp) in Hp6.
  rewrite Hrun, bind_eq, Hput. cbv beta iota.
  assert (Hrest6' : getg w6 = getg w5 /\ mainStarted w6 = mainStarted w5 /\
                    sched_npidle (sched w6) = sched_npidle (sched w5) /\
                    sched_nmspinning (sched w6) = sched_nmspinning (sched w5)).
  { unfold same_rest in Hrest6. repeat split; apply Hrest6. }
  destruct Hrest6' as (Hg6 & Hms6 & Hni6 & Hnm6).
  rewrite bind_eq. change (get_sched w6) with (Done (sched w6) w6). cbv beta iota.
  rewrite bind_eq. change (gets mainStarted w6) with (Done (mainStarted w6) w6).
  cbv beta iota.
  rewrite Hni6, Hnm6, Hms6, Hni5, Hnm5, Hms5. fold wake.
  destruct (Hlinks newg gv5) as (gv6 & Hgv6 & Hsame6).
  { exact Hh5. }
  assert (Hgg6 : exists gg6, heap w6 !! getg w6 = Some gg6).
  { rewrite Hg6, Hg5. destruct (Hkeep _ _ Hgg) as (gg5 & Hgg5 & _).
    destruct (Hlinks _ _ Hgg5) as (gg6 & Hgg6 & _). eauto. }
  destruct Hgg6 as (gg6 & Hgg6).
  destruct (wake_unlock_has w6 gg6 wake Hgg6) as (w' & Hrun' & Ha' & Hk' & Ht' & Hs').
  { rewrite Hg6, Hg5. exact Hggnz. }
  { intros E. rewrite Hnm6, Hnm5. unfold wake in E.
    apply andb_prop in E as [E _]. apply andb_prop in E as [_ E]. apply Z.eqb_eq. exact E. }
  destruct (Hk' newg gv6 Hgv6) as (gv' & Hgv' & _ & Hst' & Hsame').
  destruct (same_but_guard_pcs _ _ Hsame') as (Hpc' & Hgo').
  destruct (same_but_link_pcs _ _ Hsame6) as (Hpc6 & Hgo6).
  exists w', gv', batch, a, b, c, d, sp.
  split; [exact Hrun'|]. split; [exact Hgv'|].
  split; [rewrite Hst', <- (same_but_link_status _ _ Hsame6); exact Hst5|].
  split; [rewrite <- Hpc', <- Hpc6; exact Hpc5|].
  split; [rewrite <- Hgo', <- Hgo6; exact Hgo5|].
  split; [exact Hperm|]. split; [exact Heq6|].
  split.
  { destruct Hq6 as (H1 & H2 & H3).
    assert (Hhd : sched_runqhead (sched w') = sched_runqhead (sched w6))
      by (rewrite Hs'; destruct wake; reflexivity).
    split; [|split].
    - rewrite Hhd. eapply lseg_keeps; [|exact H1]. intros y gy Hy.
      destruct (Hk' y gy Hy) as (gy' & Hy' & Hl & _). eauto.
    - rewrite Hs'. destruct wake; exact H2.
    - rewrite Hs'. destruct wake; exact H3. }
  split; [unfold has_p; rewrite Ha'; exact Hp6|].
  rewrite Ht', Ht6, Ht5, <- app_assoc. reflexivity.
Qed.
End Newproc1Queue.

Lemma platform_amd64_stack_ok : stack_ok platform_amd64.
Proof.
  intros n w. simpl. pose proof (uint32_range n) as H. unfold is_uint32 in H. lia.
Qed.

(** C8. Goroutine creation ends in a throw in exactly two cases: with a nil
    function value ([go of nil func value]), and with an argument frame
    whose size rounded up to 8 bytes (as an [int32]) is at least
    [_StackMin - 4*RegSize - RegSize]; a throw leaves no state behind, so
    no G is created.  For every other input, in a state that is in order
    (the M has a P, its own g is allocated, a stack can be allocated, and
    the free g's are as gfput leaves them), newproc1 returns, and a g
    [newg] (the first free g of the P, or the last of the g's that gfget
    moves over from the global free lists, or a newly allocated one) has
    the status runnable, the function as its start pc and the caller's pc
    as its go pc, and has been handed to runqput for the P of the M with
    [next] set: when the ring has room it sits in the runnext slot (at the
    tail of the ring if the coin of the randomized scheduler fell that
    way), a goroutine kicked out of runnext going to the tail of the ring;
    when the ring is full, the goroutine bound for the tail moves to the
    global queue (whose g's are not dead) with the first half of the ring.
    newproc is newproc1 for the running g. *)
Theorem newproc_fails_or_creates
    (pl : platform) (fn : option Z) (argp narg : Z) (callergp : guintptr)
    (callerpc : Z) (w : world) :
  let siz := newproc_siz narg in
  newproc pl narg fn argp callerpc w = newproc1 pl fn argp narg (getg w) callerpc w /\
  (fn = None ->
   newproc1 pl fn argp narg callergp callerpc w = Fail (Throw "go of nil func value")) /\
  (fn <> None -> newproc_limit pl <= siz ->
   newproc1 pl fn argp narg callergp callerpc w
   = Fail (Throw "newproc: function arguments too large for new goroutine")) /\
  (forall pc i pp gg newg,
     fn = Some pc -> siz < newproc_limit pl ->
     stack_ok pl -> 0 <= _StackMin pl ->
     m_p (curm w) = Some i -> has_p w i pp ->
     heap w !! getg w = Some gg -> getg w <> 0 ->
     free_g_ready w pp newg ->
     let next' := runqput_next w true in
     let wake := negb (sched_npidle (sched w) =? 0) && (sched_nmspinning (sched w) =? 0)
                 && mainStarted w in
     let x := if next' then p_runnext pp else newg in
     (runq_count pp < runqlen \/ (next' = true /\ p_runnext pp = 0) ->
      exists w' gv' a b c d sp,
        newproc1 pl fn argp narg callergp callerpc w = Done tt w' /\
        heap w' !! newg = Some gv' /\
        g_atomicstatus gv' = _Grunnable /\ g_startpc gv' = pc /\ g_gopc gv' = callerpc /\
        has_p w' i (p_put newg next' (p_used a b c d pp)) /\
        trace w' = trace w ++ (if narg >? 0 then [EvMemmove sp argp (uint64 narg)] else [])
                           ++ (if wake then [EvStartm None true] else [])) /\
     (runq_count pp = runqlen -> x <> 0 ->
      forall l,
        globrunq w l -> sched_lock (sched w) = false ->
        Forall (fun y => forall gy, heap w !! y = Some gy -> g_atomicstatus gy <> _Gdead) l ->
        NoDup (l ++ take 128 (runq_list pp) ++ [x]) ->
        valid_gs (heap w)
                 (take 128 (runq_list pp) ++ (if next' then [p_runnext pp] else [])) ->
        Z.of_nat (length l) + 129 < 2147483648 ->
        exists w' gv' batch a b c d sp,
          newproc1 pl fn argp narg callergp callerpc w = Done tt w' /\
          heap w' !! newg = Some gv' /\
          g_atomicstatus gv' = _Grunnable /\ g_startpc gv' = pc /\ g_gopc gv' = callerpc /\
          batch ≡ₚ take 128 (runq_list pp) ++ [x] /\
          (raceenabled w = false -> batch = take 128 (runq_list pp) ++ [x]) /\
          globrunq w' (l ++ batch) /\
          has_p w' i (p_set_runqhead (uint32 (p_runqhead pp + 128))
                        (if next' then p_set_runnext newg (p_used a b c d pp)
                         else p_used a b c d pp)) /\
          trace w' = trace w ++ (if narg >? 0 then [EvMemmove sp argp (uint64 narg)] else [])
                             ++ (if wake then [EvStartm None true] else []))).
Proof.
  intros siz. split; [reflexivity|]. split; [|split].
  - intros ->. apply newproc1_nil.
  - intros Hfn Hlim. destruct fn as [pc|]; [|congruence].
    apply newproc1_too_large. exact Hlim.
  - intros pc i pp gg newg -> Hsiz Hok Hmin Hmp Hp Hgg Hggnz Hfree next' wake x. split.
    + intros Hroom.
      exact (newproc1_room pl pc argp narg callergp callerpc w i pp gg newg
               Hsiz Hok Hmin Hmp Hp Hgg Hggnz Hfree Hroom).
    + intros Hfull Hx l Hq Hlock Hlive Hnd Hvalid Hsize.
      exact (newproc1_full pl pc argp narg callergp callerpc w i pp gg newg
               Hsiz Hok Hmin Hmp Hp Hgg Hggnz Hfree l Hfull Hx Hq Hlock Hlive Hnd Hvalid
               Hsize).
Qed.

Lemma newproc_fails_or_creates_witness :
  newproc platform_amd64 16 None 0 100 ready_idle_world
  = Fail (Throw "go of nil func value") /\
  newproc platform_amd64 2008 (Some 4096) 0 100 ready_idle_world
  = Fail (Throw "newproc: function arguments too large for new goroutine") /\
  (exists w' gv' pp',
    newproc platform_amd64 16 (Some 4096) 0 100 ready_idle_world = Done tt w' /\
    heap w' !! 3 = Some gv' /\ g_atomicstatus gv' = _Grunnable /\ g_startpc gv' = 4096 /\
    has_p w' 0 pp' /\ p_runnext pp' = 3 /\
    exists sp, trace w' = [EvMemmove sp 0 16; EvStartm None true]) /\
  (exists w' gv' pp',
    newproc platform_amd64 0 (Some 4096) 0 100 newproc_refill_world = Done tt w' /\
    heap w' !! 5 = Some gv' /\ g_atomicstatus gv' = _Grunnable /\ g_startpc gv' = 4096 /\
    has_p w' 0 pp' /\ p_runnext pp' = 5).
Proof.
  split; [|split; [|split]].
  - destruct (newproc_fails_or_creates platform_amd64 None 0 16 1 100 ready_idle_world)
      as (H0 & H1 & _).
    rewrite H0. apply H1. reflexivity.
  - destruct (newproc_fails_or_creates platform_amd64 (Some 4096) 0 2008 1 100
                ready_idle_world) as (H0 & _ & H2 & _).
    rewrite H0. apply H2; [discriminate | vm_compute; congruence].
  - destruct (newproc_fails_or_creates platform_amd64 (Some 4096) 0 16 1 100
                ready_idle_world) as (H0 & _ & _ & H3).
    assert (Hsiz : newproc_siz 16 < newproc_limit platform_amd64) by (vm_compute; reflexivity).
    assert (Hmin : 0 <= _StackMin platform_amd64) by (vm_compute; congruence).
    assert (Hm : m_p (curm ready_idle_world) = Some 0%nat) by reflexivity.
    assert (Hp : has_p ready_idle_world 0 (p_with [] 0)) by reflexivity.
    assert (Hgg : heap ready_idle_world !! getg ready_idle_world = Some (g_with _Grunning 0))
      by (vm_compute; reflexivity).
    assert (Hggnz : getg ready_idle_world <> 0) by (vm_compute; congruence).
    assert (Hfree : free_g_ready ready_idle_world (p_with [] 0) 3)
      by (left; repeat split).
    destruct (proj1 (H3 4096 0%nat (p_with [] 0) (g_with _Grunning 0) 3 eq_refl Hsiz
                        platform_amd64_stack_ok Hmin Hm Hp Hgg Hggnz Hfree))
      as (w' & gv' & a & b & c & d & sp & R1 & R2 & R3 & R4 & _ & R6 & R7).
    { left. vm_compute. reflexivity. }
    exists w', gv', (p_put 3 true (p_used a b c d (p_with [] 0))).
    rewrite H0. split; [exact R1|]. split; [exact R2|]. split; [exact R3|].
    split; [exact R4|]. split; [exact R6|]. split; [reflexivity|].
    exists sp. rewrite R7. reflexivity.
  - destruct (newproc_fails_or_creates platform_amd64 (Some 4096) 0 0 1 100
                newproc_refill_world) as (H0 & _ & _ & H3).
    assert (Hsiz : newproc_siz 0 < newproc_limit platform_amd64) by (vm_compute; reflexivity).
    assert (Hmin : 0 <= _StackMin platform_amd64) by (vm_compute; congruence).
    assert (Hm : m_p (curm newproc_refill_world) = Some 0%nat) by reflexivity.
    assert (Hp : has_p newproc_refill_world 0 (p_with [] 0)) by reflexivity.
    assert (Hgg : heap newproc_refill_world !! getg newproc_refill_world
                  = Some (g_with _Grunning 0)) by (vm_compute; reflexivity).
    assert (Hggnz : getg newproc_refill_world <> 0) by (vm_compute; congruence).
    assert (Hfree : free_g_ready newproc_refill_world (p_with [] 0) 5).
    { right. right. split; [reflexivity|]. split; [vm_compute; split; congruence|].
      split; [reflexivity|]. split; [vm_compute; lia|].
      exists [], [5]. split; [|reflexivity].
      split; [reflexivity|]. split; [apply lsegb_lseg; vm_compute; reflexivity|].
      split; [apply (bool_decide_unpack _); vm_compute; exact I|].
      apply Forall_singleton. eexists. split; [vm_compute; reflexivity|].
      split; [reflexivity | intros H; exfalso; apply H; reflexivity]. }
    destruct (proj1 (H3 4096 0%nat (p_with [] 0) (g_with _Grunning 0) 5 eq_refl Hsiz
                        platform_amd64_stack_ok Hmin Hm Hp Hgg Hggnz Hfree))
      as (w' & gv' & a & b & c & d & sp & R1 & R2 & R3 & R4 & _ & R6 & _).
    { left. vm_compute. reflexivity. }
    exists w', gv', (p_put 5 true (p_used a b c d (p_with [] 0))).
    rewrite H0. split; [exact R1|]. split; [exact R2|]. split; [exact R3|].
    split; [exact R4|]. split; [exact R6 | reflexivity].
Defined.

(** ** The scan bit of the G status as a lock *)

Lemma upd_g_same w gp gv : heap w !! gp = Some gv -> upd_g gp gv w = w.
Proof.
  intros H. unfold upd_g. rewrite insert_id by exact H. destruct w; reflexivity.
Qed.

Lemma g_set_atomicstatus_twice a b gv :
  g_set_atomicstatus a (g_set_atomicstatus b gv) = g_set_atomicstatus a gv.
Proof. reflexivity. Qed.

Lemma g_set_atomicstatus_id gv : g_set_atomicstatus (g_atomicstatus gv) gv = gv.
Proof. destruct gv; reflexivity. Qed.

Lemma readgstatus_has w gp gv :
  heap w !! gp = Some gv -> gp <> 0 -> readgstatus gp w = Done (g_atomicstatus gv) w.
Proof.
  intros H Hnz. unfold readgstatus. rewrite bind_eq, (readg_has _ _ _ H Hnz). reflexivity.
Qed.

Lemma plain_status_cases s :
  s ∈ [_Grunnable; _Grunning; _Gwaiting; _Gsyscall] ->
  s = _Grunnable \/ s = _Grunning \/ s = _Gwaiting \/ s = _Gsyscall.
Proof.
  intros H. repeat (apply elem_of_cons in H as [H|H]; [tauto|]).
  apply elem_of_nil in H. destruct H.
Qed.

(** X1. The scan bit is taken and released as a lock: on a g whose status [s]
    is runnable, running, waiting or in a syscall,
    [castogscanstatus(gp, s, s|_Gscan)] succeeds and sets the bit, and
    [casfrom_Gscanstatus(gp, s|_Gscan, s)] on the resulting state returns and
    gives back the state before the acquisition. *)
Theorem scan_bit_acquire_release (w : world) (gp : guintptr) (gv : g) (s : Z) :
  heap w !! gp = Some gv -> gp <> 0 -> g_atomicstatus gv = s ->
  s ∈ [_Grunnable; _Grunning; _Gwaiting; _Gsyscall] ->
  let held := upd_g gp (g_set_atomicstatus (Z.lor s _Gscan) gv) w in
  castogscanstatus gp s (Z.lor s _Gscan) w = Done true held /\
  casfrom_Gscanstatus gp (Z.lor s _Gscan) s held = Done tt w.
Proof.
  intros Hg Hnz Hst Hs held.
  assert (Hrel : upd_g gp (g_set_atomicstatus s (g_set_atomicstatus (Z.lor s _Gscan) gv)) held = w).
  { unfold held. rewrite upd_g_twice, g_set_atomicstatus_twice, <- Hst,
      g_set_atomicstatus_id. apply upd_g_same. exact Hg. }
  assert (Hacq : castogscanstatus gp s (Z.lor s _Gscan) w
                 = cas_gstatus gp s (Z.lor s _Gscan) w).
  { clear Hrel held. unfold castogscanstatus. rewrite Z.eqb_refl.
    apply plain_status_cases in Hs as [-> | [-> | [-> | ->]]]; reflexivity. }
  assert (Hrls : forall w0, casfrom_Gscanstatus gp (Z.lor s _Gscan) s w0
                 = (let* success := cas_gstatus gp (Z.lor s _Gscan) s in
                    if negb success then
                      dumpgstatus gp ;;;
                      throw "casfrom_Gscanstatus: gp->status is not in scan state"
                    else ret tt) w0).
  { clear Hrel held. intros w0. unfold casfrom_Gscanstatus.
    apply plain_status_cases in Hs as [-> | [-> | [-> | ->]]]; reflexivity. }
  split.
  - rewrite Hacq, (cas_gstatus_has _ _ _ _ _ Hg Hnz), Hst, Z.eqb_refl. reflexivity.
  - rewrite Hrls, bind_eq.
    rewrite (cas_gstatus_has held gp _ _ _ (upd_g_lookup _ _ _) Hnz).
    cbn [g_atomicstatus g_set_atomicstatus]. rewrite Z.eqb_refl, Hrel. reflexivity.
Qed.

Lemma scan_bit_acquire_release_witness :
  castogscanstatus 2 _Gwaiting _Gscanwaiting ready_idle_world
  = Done true (upd_g 2 (g_with _Gscanwaiting 0) ready_idle_world) /\
  casfrom_Gscanstatus 2 _Gscanwaiting _Gwaiting
    (upd_g 2 (g_with _Gscanwaiting 0) ready_idle_world)
  = Done tt ready_idle_world.
Proof.
  assert (Hg : heap ready_idle_world !! 2 = Some (g_with _Gwaiting 0)) by reflexivity.
  assert (Hnz : (2 : Z) <> 0) by lia.
  assert (Hst : g_atomicstatus (g_with _Gwaiting 0) = _Gwaiting) by reflexivity.
  assert (Hs : _Gwaiting ∈ [_Grunnable; _Grunning; _Gwaiting; _Gsyscall]).
  { apply (bool_decide_unpack _). vm_compute. exact I. }
  exact (scan_bit_acquire_release ready_idle_world 2 (g_with _Gwaiting 0) _Gwaiting
           Hg Hnz Hst Hs).
Defined.

(** The retry loop of casgstatus on a g whose status carries the scan bit:
    every turn fails to swap and goes round again. *)
Lemma casgstatus_loop_spins gp gv oldval newval :
  gp <> 0 -> Z.land oldval _Gscan = 0 -> Z.land (g_atomicstatus gv) _Gscan <> 0 ->
  forall n w0, heap w0 !! gp = Some gv ->
  loop_n n
    (let* ok := cas_gstatus gp oldval newval in
     if ok then ret (Some tt) else
     let* gv := readg gp in
     if (oldval =? _Gwaiting) && (g_atomicstatus gv =? _Grunnable)
     then throw "casgstatus: waiting for Gwaiting but is Grunnable"
     else emit EvProcyield ;;; ret None) w0 = Fail OutOfFuel.
Proof.
  intros Hnz Ho Hs.
  assert (Hne : (g_atomicstatus gv =? oldval) = false).
  { apply Z.eqb_neq. intros E. rewrite E in Hs. contradiction. }
  assert (Hnr : (g_atomicstatus gv =? _Grunnable) = false).
  { apply Z.eqb_neq. intros E. rewrite E in Hs. apply Hs. reflexivity. }
  induction n as [|n IH]; intros w0 H0; simpl loop_n;
    rewrite bind_eq, (cas_gstatus_has _ _ _ _ _ H0 Hnz), Hne; cbv beta iota;
    rewrite bind_eq, (readg_has _ _ _ H0 Hnz), Hnr, andb_false_r;
    cbv beta iota; unfold emit, modify, bind, ret; cbv beta iota.
  - reflexivity.
  - apply IH. exact H0.
Qed.

(** X2. While the status of a g carries the scan bit, [casgstatus] with
    well-formed arguments (no scan bit in either status, two different
    statuses, and no stale [gcscanvalid] when leaving running) does not
    return: whatever the fuel of the state, every attempt to swap fails and
    the loop goes round until the fuel is used up. *)
Theorem casgstatus_waits_for_scan_bit (w : world) (gp : guintptr) (gv : g)
    (oldval newval : Z) :
  heap w !! gp = Some gv -> gp <> 0 ->
  Z.land (g_atomicstatus gv) _Gscan <> 0 ->
  Z.land oldval _Gscan = 0 -> Z.land newval _Gscan = 0 -> oldval <> newval ->
  (oldval = _Grunning -> g_gcscanvalid gv = false) ->
  casgstatus gp oldval newval w = Fail OutOfFuel.
Proof.
  intros Hg Hnz Hs Ho Hn Hne Hv. unfold casgstatus.
  rewrite Ho, Hn. apply Z.eqb_neq in Hne. rewrite Hne. cbn [negb orb Z.eqb].
  rewrite bind_eq.
  assert (Hbad : (if oldval =? _Grunning
                  then let* gv := readg gp in ret (g_gcscanvalid gv)
                  else ret false) w = Done false w).
  { destruct (oldval =? _Grunning) eqn:E; [|reflexivity].
    apply Z.eqb_eq in E. rewrite bind_eq, (readg_has _ _ _ Hg Hnz).
    unfold ret. rewrite (Hv E). reflexivity. }
  rewrite Hbad. cbv beta iota. rewrite bind_eq. unfold loop.
  rewrite (casgstatus_loop_spins gp gv oldval newval Hnz Ho Hs _ _ Hg).
  reflexivity.
Qed.

Lemma casgstatus_waits_for_scan_bit_witness :
  casgstatus 2 _Gwaiting _Grunnable
    (w_set_fuel 1000 (upd_g 2 (g_with _Gscanwaiting 0) ready_idle_world))
  = Fail OutOfFuel.
Proof.
  apply (casgstatus_waits_for_scan_bit _ 2 (g_with _Gscanwaiting 0));
    [reflexivity | lia | discriminate | reflexivity | reflexivity
     | discriminate | discriminate].
Defined.

(** X3. [castogscanstatus] changes nothing but the scan bit: when it returns
    true, the status of the g was [oldval], one of runnable, running,
    waiting and syscall, and is now [oldval|_Gscan]; when it returns false,
    the state is the one it was called in. *)
Theorem castogscanstatus_sets_only_scan_bit (w w' : world) (gp : guintptr)
    (oldval newval : Z) (b : bool) :
  castogscanstatus gp oldval newval w = Done b w' ->
  if b then
    exists gv, heap w !! gp = Some gv /\ g_atomicstatus gv = oldval /\
      oldval ∈ [_Grunnable; _Grunning; _Gwaiting; _Gsyscall] /\
      newval = oldval + _Gscan /\
      w' = upd_g gp (g_set_atomicstatus newval gv) w
  else w' = w.
Proof.
  unfold castogscanstatus. intros H.
  destruct ((oldval =? _Grunnable) || (oldval =? _Grunning)
            || (oldval =? _Gwaiting) || (oldval =? _Gsyscall)) eqn:Hv;
    [|discriminate].
  destruct (newval =? Z.lor oldval _Gscan) eqn:Hn; [|discriminate].
  apply Z.eqb_eq in Hn.
  unfold cas_gstatus in H. rewrite bind_eq in H.
  unfold readg in H at 1.
  destruct (heap w !! gp) as [gv|] eqn:Hg; [|discriminate].
  destruct (gp =? 0) eqn:Hz; [discriminate|]. apply Z.eqb_neq in Hz.
  destruct (g_atomicstatus gv =? oldval) eqn:Hs.
  - rewrite bind_eq, (modg_has _ _ _ _ Hg Hz) in H. injection H as <- <-.
    apply Z.eqb_eq in Hs. exists gv.
    assert (Hin : oldval ∈ [_Grunnable; _Grunning; _Gwaiting; _Gsyscall]).
    { rewrite !orb_true_iff, !Z.eqb_eq in Hv.
      destruct Hv as [[[->| ->]| ->]| ->];
        apply (bool_decide_unpack _); vm_compute; exact I. }
    repeat split; try assumption.
    rewrite Hn. apply plain_status_cases in Hin as [-> | [-> | [-> | ->]]]; reflexivity.
  - injection H as <- <-. reflexivity.
Qed.

Lemma castogscanstatus_sets_only_scan_bit_witness :
  exists gv, heap ready_idle_world !! 2 = Some gv /\ g_atomicstatus gv = _Gwaiting.
Proof.
  assert (H : castogscanstatus 2 _Gwaiting _Gscanwaiting ready_idle_world
              = Done true (upd_g 2 (g_with _Gscanwaiting 0) ready_idle_world))
    by reflexivity.
  destruct (castogscanstatus_sets_only_scan_bit _ _ _ _ _ _ H)
    as (gv & Hg & Hs & _).
  exists gv. split; assumption.
Defined.

(** X4. [casfrom_Gscanstatus] returns only after it has cleared the scan
    bit: when it returns, the status of the g was [oldval], one of the four
    scan statuses, and is now [oldval] without the bit; in every other case
    (a status that is not a scan status, a target that is not [oldval]
    without the bit, a g in another status) it does not return. *)
Theorem casfrom_Gscanstatus_clears_scan_bit (w w' : world) (gp : guintptr)
    (oldval newval : Z) :
  casfrom_Gscanstatus gp oldval newval w = Done tt w' ->
  exists gv, heap w !! gp = Some gv /\ g_atomicstatus gv = oldval /\
    oldval ∈ [_Gscanrunnable; _Gscanwaiting; _Gscanrunning; _Gscansyscall] /\
    newval = oldval - _Gscan /\
    w' = upd_g gp (g_set_atomicstatus newval gv) w.
Proof.
  unfold casfrom_Gscanstatus. intros H. rewrite bind_eq in H.
  destruct ((oldval =? _Gscanrunnable) || (oldval =? _Gscanwaiting)
            || (oldval =? _Gscanrunning) || (oldval =? _Gscansyscall)) eqn:Hv.
  - destruct (newval =? andnot oldval _Gscan) eqn:Hn.
    + apply Z.eqb_eq in Hn.
      unfold cas_gstatus in H. rewrite bind_eq in H.
      unfold readg in H at 1.
      destruct (heap w !! gp) as [gv|] eqn:Hg; [|discriminate].
      destruct (gp =? 0) eqn:Hz; [discriminate|]. apply Z.eqb_neq in Hz.
      destruct (g_atomicstatus gv =? oldval) eqn:Hs.
      * rewrite bind_eq, (modg_has _ _ _ _ Hg Hz) in H.
        cbn [negb ret] in H. injection H as <-.
        apply Z.eqb_eq in Hs. exists gv.
        assert (Hin : oldval ∈ [_Gscanrunnable; _Gscanwaiting; _Gscanrunning;
                                 _Gscansyscall]).
        { rewrite !orb_true_iff, !Z.eqb_eq in Hv.
          destruct Hv as [[[->| ->]| ->]| ->];
            apply (bool_decide_unpack _); vm_compute; exact I. }
        repeat split; try assumption.
        rewrite Hn. rewrite !orb_true_iff, !Z.eqb_eq in Hv.
        destruct Hv as [[[->| ->]| ->]| ->]; reflexivity.
      * cbn [negb ret] in H. rewrite bind_eq in H.
        destruct (dumpgstatus gp w); discriminate.
    + cbn [negb ret] in H. rewrite bind_eq in H.
      destruct (dumpgstatus gp w); discriminate.
  - rewrite bind_eq in H. destruct (dumpgstatus gp w); discriminate.
Qed.

Lemma casfrom_Gscanstatus_clears_scan_bit_witness :
  exists gv, heap (upd_g 2 (g_with _Gscanwaiting 0) ready_idle_world) !! 2 = Some gv /\
             g_atomicstatus gv = _Gscanwaiting.
Proof.
  assert (H : casfrom_Gscanstatus 2 _Gscanwaiting _Gwaiting
                (upd_g 2 (g_with _Gscanwaiting 0) ready_idle_world)
              = Done tt (upd_g 2 (g_with _Gwaiting 0)
                           (upd_g 2 (g_with _Gscanwaiting 0) ready_idle_world)))
    by reflexivity.
  destruct (casfrom_Gscanstatus_clears_scan_bit _ _ _ _ _ H) as (gv & Hg & Hs & _).
  exists gv. split; assumption.
Defined.

(** X5. [casgcopystack] on a g that is waiting or runnable returns that
    status and leaves the g in [_Gcopystack]; on a g whose status without
    the scan bit is neither, it throws; and while such a g carries the scan
    bit, it does not return: every swap fails and the loop goes round until
    the fuel is used up. *)
Theorem casgcopystack_behaviour (w : world) (gp : guintptr) (gv : g) :
  heap w !! gp = Some gv -> gp <> 0 ->
  let s := g_atomicstatus gv in
  (s = _Gwaiting \/ s = _Grunnable ->
   casgcopystack gp w = Done s (upd_g gp (g_set_atomicstatus _Gcopystack gv) w)) /\
  (s = _Gscanwaiting \/ s = _Gscanrunnable ->
   casgcopystack gp w = Fail OutOfFuel) /\
  (andnot s _Gscan <> _Gwaiting -> andnot s _Gscan <> _Grunnable ->
   casgcopystack gp w
   = Fail (Throw "copystack: bad status, not Gwaiting or Grunnable")).
Proof.
  intros Hg Hnz s. subst s. split; [|split].
  - intros Hs. unfold casgcopystack. apply loop_first.
    rewrite bind_eq, (readgstatus_has _ _ _ Hg Hnz). cbv beta iota zeta.
    destruct Hs as [Hs|Hs]; rewrite Hs;
      match goal with |- context [andnot ?a ?b] =>
        let v := eval vm_compute in (andnot a b) in change (andnot a b) with v end;
      cbn [negb andb Z.eqb Pos.eqb _Gwaiting _Grunnable];
      rewrite bind_eq, (cas_gstatus_has _ _ _ _ _ Hg Hnz), Hs; reflexivity.
  - intros Hs. unfold casgcopystack, loop.
    generalize (fuel w). intros n.
    assert (Hloop : forall n w0, heap w0 !! gp = Some gv ->
      loop_n n
        (let* st := readgstatus gp in
         let oldstatus := andnot st _Gscan in
         if negb (oldstatus =? _Gwaiting) && negb (oldstatus =? _Grunnable)
         then throw "copystack: bad status, not Gwaiting or Grunnable"
         else
           let* ok := cas_gstatus gp oldstatus _Gcopystack in
           ret (if ok then Some oldstatus else None)) w0 = Fail OutOfFuel).
    { clear n. induction n as [|n IH]; intros w0 H0; simpl loop_n;
        rewrite bind_eq, (readgstatus_has _ _ _ H0 Hnz); cbv beta iota zeta;
        destruct Hs as [Hs|Hs]; rewrite Hs;
        match goal with |- context [andnot ?a ?b] =>
          let v := eval vm_compute in (andnot a b) in change (andnot a b) with v end;
        cbn [negb andb Z.eqb Pos.eqb _Gwaiting _Grunnable];
        rewrite bind_eq, (cas_gstatus_has _ _ _ _ _ H0 Hnz), Hs; cbv beta iota;
        first [reflexivity | apply IH; exact H0]. }
    apply Hloop. exact Hg.
  - intros H1 H2. unfold casgcopystack, loop.
    apply Z.eqb_neq in H1, H2.
    destruct (fuel w); simpl loop_n;
      rewrite bind_eq, (readgstatus_has _ _ _ Hg Hnz); cbv beta iota zeta;
      rewrite H1, H2; reflexivity.
Qed.

Lemma casgcopystack_behaviour_witness :
  casgcopystack 2 ready_idle_world
  = Done _Gwaiting (upd_g 2 (g_with _Gcopystack 0) ready_idle_world).
Proof.
  assert (Hg : heap ready_idle_world !! 2 = Some (g_with _Gwaiting 0)) by reflexivity.
  assert (Hnz : (2 : Z) <> 0) by lia.
  destruct (casgcopystack_behaviour ready_idle_world 2 (g_with _Gwaiting 0) Hg Hnz)
    as (H & _).
  apply H. left. reflexivity.
Defined.

(** ** The lists of free g's *)

Lemma has_stack_insert_link hp y gy lnk z :
  hp !! y = Some gy ->
  has_stack (<[y := g_set_schedlink lnk gy]> hp) z = has_stack hp z.
Proof.
  intros Hy. unfold has_stack. destruct (decide (z = y)) as [->|Hne].
  - rewrite lookup_insert_eq, Hy. reflexivity.
  - rewrite lookup_insert_ne by congruence. reflexivity.
Qed.

Lemma has_stack_insert_link' hp y gy lnk z :
  has_stack (<[y := g_set_schedlink lnk gy]> hp) z = has_stack (<[y := gy]> hp) z.
Proof.
  unfold has_stack. destruct (decide (z = y)) as [->|Hne].
  - rewrite !lookup_insert_eq. reflexivity.
  - rewrite !lookup_insert_ne by congruence. reflexivity.
Qed.

Lemma free_split_ext hp hp' moved :
  (forall z, has_stack hp' z = has_stack hp z) ->
  forall gs gn, free_split hp' moved gs gn = free_split hp moved gs gn.
Proof.
  intros H. induction moved as [|y rest IH]; intros gs gn; simpl; [reflexivity|].
  rewrite H. destruct (has_stack hp y); apply IH.
Qed.

Lemma free_split_perm hp moved : forall gs gn,
  Permutation (fst (free_split hp moved gs gn) ++ snd (free_split hp moved gs gn))
              (moved ++ gs ++ gn).
Proof.
  induction moved as [|y rest IH]; intros gs gn; simpl; [reflexivity|].
  destruct (has_stack hp y); rewrite IH.
  - simpl. symmetry. apply Permutation_middle.
  - rewrite !app_assoc. symmetry. apply (Permutation_middle (rest ++ gs) gn y).
Qed.

Lemma free_split_length hp moved gs gn :
  (length (fst (free_split hp moved gs gn)) + length (snd (free_split hp moved gs gn))
   = length moved + (length gs + length gn))%nat.
Proof.
  rewrite <- !length_app. apply Permutation_length, free_split_perm.
Qed.

Lemma gfree_to_global_has w i pp gy :
  has_p w i pp -> heap w !! p_gfree pp = Some gy -> p_gfree pp <> 0 ->
  gfree_to_global i w = Done tt (gfree_moved i pp gy w).
Proof.
  intros Hp Hg Hnz. unfold gfree_to_global.
  step. step.
  assert (Hg1 : forall pp', heap (upd_p i pp' w) !! p_gfree pp = Some gy) by (intros; exact Hg).
  cbn [p_gfree p_set_gfree].
  rewrite bind_eq, (readg_has _ _ _ (Hg1 _) Hnz). cbv beta iota.
  step. rewrite upd_p_upd. cbn [p_gfreecnt p_set_gfree].
  rewrite bind_eq, (readg_has _ _ _ (Hg1 _) Hnz). cbv beta iota.
  unfold gfree_moved. cbv zeta.
  destruct (g_stack_lo gy =? 0).
  - rewrite bind_eq. rewrite bind_eq. unfold get_sched, gets. cbv beta iota.
    rewrite bind_eq, (modg_has _ _ _ _ (Hg1 _) Hnz). cbv beta iota.
    reflexivity.
  - rewrite bind_eq. rewrite bind_eq. unfold get_sched, gets. cbv beta iota.
    rewrite bind_eq, (modg_has _ _ _ _ (Hg1 _) Hnz). cbv beta iota.
    reflexivity.
Qed.

Lemma gfree_frame_refl w i pp : has_p w i pp -> gfree_frame i w w.
Proof.
  intros Hp.
  exists (heap w), (p_gfree pp), (p_gfreecnt pp), (sched_gfreeStack (sched w)),
    (sched_gfreeNoStack (sched w)), (sched_ngfree (sched w)).
  intros pp0 Hp0. unfold has_p in Hp, Hp0. rewrite Hp in Hp0.
  injection Hp0 as <-.
  rewrite p_set_gfree_id, sched_set_gfree_id, (upd_p_same _ _ _ Hp).
  destruct w; reflexivity.
Qed.

Lemma world_frame_twice w s1 h1 ps1 s2 h2 ps2 :
  w_set_sched s2 (w_set_heap h2 (w_set_allp ps2
    (w_set_sched s1 (w_set_heap h1 (w_set_allp ps1 w)))))
  = w_set_sched s2 (w_set_heap h2 (w_set_allp ps2 w)).
Proof. reflexivity. Qed.

Lemma world_frame_sched w s h ps :
  sched (w_set_sched s (w_set_heap h (w_set_allp ps w))) = s.
Proof. reflexivity. Qed.

Lemma world_frame_allp w s h ps :
  allp (w_set_sched s (w_set_heap h (w_set_allp ps w))) = ps.
Proof. reflexivity. Qed.

Lemma world_frame_heap w s h ps :
  heap (w_set_sched s (w_set_heap h (w_set_allp ps w))) = h.
Proof. reflexivity. Qed.

Lemma sched_set_gfree_twice a b c a' b' c' s :
  sched_set_gfree a b c (sched_set_gfree a' b' c' s) = sched_set_gfree a b c s.
Proof. reflexivity. Qed.

Lemma p_set_gfree_twice a c a' c' pp :
  p_set_gfree a c (p_set_gfree a' c' pp) = p_set_gfree a c pp.
Proof. reflexivity. Qed.

Lemma gfree_frame_trans w w' w'' i pp :
  has_p w i pp -> gfree_frame i w w' -> gfree_frame i w' w'' -> gfree_frame i w w''.
Proof.
  intros Hp (h1 & a1 & c1 & sa1 & sb1 & sc1 & H1) (h2 & a2 & c2 & sa2 & sb2 & sc2 & H2).
  specialize (H1 pp Hp).
  assert (Hp1 : has_p w' i (p_set_gfree a1 c1 pp)).
  { rewrite H1. apply (has_p_upd w i pp _ Hp). }
  specialize (H2 _ Hp1).
  exists h2, a2, c2, sa2, sb2, sc2. intros pp0 Hp0.
  unfold has_p in Hp, Hp0. rewrite Hp in Hp0. injection Hp0 as <-.
  rewrite H2. unfold upd_p. rewrite H1. unfold upd_p.
  rewrite world_frame_twice, world_frame_sched, world_frame_allp,
    sched_set_gfree_twice, p_set_gfree_twice, list_insert_insert_eq.
  reflexivity.
Qed.

Lemma Permutation_NoDup' {A} (l l' : list A) : l ≡ₚ l' -> NoDup l -> NoDup l'.
Proof. intros H. rewrite H. auto. Qed.

(** One turn of the loops keeps the invariant. *)
Lemma gfree_step_inv w i y l gs gn :
  gfree_inv w i (y :: l) gs gn ->
  Z.of_nat (length (y :: l) + length gs + length gn) < 2147483648 ->
  exists w', gfree_to_global i w = Done tt w' /\
    gfree_inv w' i l (fst (free_split (heap w) [y] gs gn))
                     (snd (free_split (heap w) [y] gs gn)) /\
    (forall z, has_stack (heap w') z = has_stack (heap w) z) /\
    heap_links (heap w) (heap w') /\
    gfree_frame i w w'.
Proof.
  intros (pp & Hp & Hl & Hc & Hgs & Hgn & Hn & Hnd) Hb.
  destruct Hl as (Hy & Hnz & gy & Hg & Hl).
  assert (Hg' : heap w !! p_gfree pp = Some gy) by (rewrite Hy; exact Hg).
  assert (Hnz' : p_gfree pp <> 0) by (rewrite Hy; exact Hnz).
  exists (gfree_moved i pp gy w).
  split; [apply gfree_to_global_has; assumption|].
  assert (Hyl : y ∉ l).
  { apply NoDup_cons_1_1 with (l := l ++ gs ++ gn) in Hnd as Hnd'.
    intros Hin. apply Hnd'. apply elem_of_app. left. exact Hin. }
  assert (Hygs : y ∉ gs).
  { apply NoDup_cons_1_1 with (l := l ++ gs ++ gn) in Hnd as Hnd'.
    intros Hin. apply Hnd'. rewrite !elem_of_app. right. left. exact Hin. }
  assert (Hygn : y ∉ gn).
  { apply NoDup_cons_1_1 with (l := l ++ gs ++ gn) in Hnd as Hnd'.
    intros Hin. apply Hnd'. rewrite !elem_of_app. right. right. exact Hin. }
  assert (Hhs : has_stack (heap w) y = negb (g_stack_lo gy =? 0)).
  { unfold has_stack. rewrite Hg. reflexivity. }
  split; [|split; [|split]].
  - exists (p_set_gfree (g_schedlink gy) (int32 (p_gfreecnt pp - 1)) pp).
    split; [apply (has_p_upd w i pp _ Hp)|].
    unfold gfree_moved. cbv zeta. rewrite Hy. simpl free_split. rewrite Hhs.
    cbn [heap w_set_sched upd_g w_set_heap upd_p w_set_allp sched p_gfree p_gfreecnt
         p_set_gfree sched_gfreeStack sched_gfreeNoStack sched_ngfree sched_set_gfree].
    split; [apply lseg_frame; assumption|].
    split.
    { rewrite Hc. rewrite int32_id; [simpl length; lia|].
      unfold is_int32. simpl length in *. lia. }
    assert (Hngf : int32 (sched_ngfree (sched w) + 1)
                   = Z.of_nat (S (length gs + length gn))).
    { rewrite Hn. rewrite int32_id; [lia|]. unfold is_int32. simpl length in Hb. lia. }
    destruct (g_stack_lo gy =? 0); cbn [negb fst snd].
    + split; [apply lseg_frame; assumption|].
      split.
      { split; [reflexivity|]. split; [exact Hnz|].
        eexists. split; [apply lookup_insert_eq|].
        cbn [g_schedlink g_set_schedlink]. apply lseg_frame; assumption. }
      split; [rewrite Hngf; simpl length; lia|].
      eapply Permutation_NoDup'; [|exact Hnd].
      simpl. rewrite !app_assoc. apply Permutation_middle.
    + split.
      { split; [reflexivity|]. split; [exact Hnz|].
        eexists. split; [apply lookup_insert_eq|].
        cbn [g_schedlink g_set_schedlink]. apply lseg_frame; assumption. }
      split; [apply lseg_frame; assumption|].
      split; [rewrite Hngf; simpl length; lia|].
      eapply Permutation_NoDup'; [|exact Hnd].
      simpl. apply Permutation_middle.
  - intros z. unfold gfree_moved. cbv zeta. rewrite Hy.
    apply has_stack_insert_link. exact Hg.
  - unfold gfree_moved. cbv zeta. rewrite Hy.
    apply heap_links_insert. exact Hg.
  - eexists _, _, _, _, _, _. intros pp0 Hp0.
    unfold has_p in Hp, Hp0. rewrite Hp in Hp0. injection Hp0 as <-.
    unfold gfree_moved. cbv zeta. reflexivity.
Qed.

(** The loops move the first [k] g's of the list of the P, where [k] is the
    number of turns that the condition lets through. *)
Lemma gfree_loop_spec cond i : forall k n w l gs gn,
  gfree_inv w i l gs gn ->
  Z.of_nat (length l + length gs + length gn) < 2147483648 ->
  (k <= length l)%nat -> (k <= n)%nat ->
  (forall j, (j < k)%nat -> cond (Z.of_nat (length l - j)) = true) ->
  cond (Z.of_nat (length l - k)) = false ->
  exists w', gfree_loop cond n i w = Done tt w' /\
    gfree_inv w' i (drop k l) (fst (free_split (heap w) (take k l) gs gn))
                              (snd (free_split (heap w) (take k l) gs gn)) /\
    (forall z, has_stack (heap w') z = has_stack (heap w) z) /\
    heap_links (heap w) (heap w') /\
    gfree_frame i w w'.
Proof.
  induction k as [|k IH]; intros n w l gs gn Hinv Hb Hkl Hkn Hc Hstop.
  - exists w. rewrite Nat.sub_0_r in Hstop.
    destruct Hinv as (pp & Hp & Hl & Hcnt & Hrest).
    split.
    { destruct n; simpl; step; rewrite Hcnt, Hstop; reflexivity. }
    split; [exists pp; rewrite drop_0; auto|].
    split; [reflexivity|]. split; [apply heap_links_refl|].
    eapply gfree_frame_refl; exact Hp.
  - destruct l as [|y l]; [simpl in Hkl; lia|].
    destruct n as [|n]; [lia|].
    pose proof Hinv as (pp & Hp & _ & Hcnt & _).
    destruct (gfree_step_inv w i y l gs gn Hinv) as (w1 & Hr1 & Hinv1 & Hhs1 & Hl1 & Hf1).
    { rewrite <- Nat.add_assoc. rewrite <- Nat.add_assoc in Hb. exact Hb. }
    destruct (IH n w1 l _ _ Hinv1) as (w2 & Hr2 & Hinv2 & Hhs2 & Hl2 & Hf2).
    { pose proof (free_split_length (heap w) [y] gs gn) as Hfl.
      simpl length in *. lia. }
    { simpl in Hkl. lia. }
    { lia. }
    { intros j Hj. specialize (Hc (S j)). simpl length in Hc.
      replace (length l - j)%nat with (S (length l) - S j)%nat by lia.
      apply Hc. lia. }
    { simpl length in Hstop.
      replace (length l - k)%nat with (S (length l) - S k)%nat by lia. exact Hstop. }
    exists w2. split.
    { simpl gfree_loop. step. rewrite Hcnt.
      specialize (Hc 0%nat). rewrite Nat.sub_0_r in Hc. rewrite Hc by lia.
      cbn [negb]. rewrite bind_eq, Hr1. exact Hr2. }
    split.
    { cbn [drop take]. simpl free_split.
      rewrite (free_split_ext _ _ _ Hhs1) in Hinv2.
      simpl free_split in Hinv2.
      destruct (has_stack (heap w) y); exact Hinv2. }
    split; [intros z; rewrite Hhs2; apply Hhs1|].
    split; [eapply heap_links_trans; eassumption|].
    eapply gfree_frame_trans; eassumption.
Qed.

Lemma gfree_inv_gflock b w i l gs gn :
  gfree_inv w i l gs gn ->
  gfree_inv (w_set_sched (sched_set_gflock b (sched w)) w) i l gs gn.
Proof. intros H. exact H. Qed.

Lemma sched_gflock_restore sa sb sc s :
  sched_gflock s = false ->
  sched_set_gflock false (sched_set_gfree sa sb sc (sched_set_gflock true s))
  = sched_set_gfree sa sb sc s.
Proof. destruct s. simpl. intros ->. reflexivity. Qed.

Lemma bind_assoc {A B C} (c : M A) (k : A -> M B) (k' : B -> M C) w :
  bind (bind c k) k' w = bind c (fun x => bind (k x) k') w.
Proof. unfold bind. destruct (c w); reflexivity. Qed.

(** Running a body that keeps to the frame between [lock(&sched.gflock)]
    and [unlock(&sched.gflock)]. *)
Lemma gflock_bracket (body : M unit) w i pp w2 :
  has_p w i pp -> sched_gflock (sched w) = false ->
  body (w_set_sched (sched_set_gflock true (sched w)) w) = Done tt w2 ->
  gfree_frame i (w_set_sched (sched_set_gflock true (sched w)) w) w2 ->
  let w3 := w_set_sched (sched_set_gflock false (sched w2)) w2 in
  (lock_gflock ;;; body ;;; unlock_gflock) w = Done tt w3 /\
  gfree_frame i w w3.
Proof.
  intros Hp Hlk Hbody (h & a & c & sa & sb & sc & Hf) w3.
  specialize (Hf pp Hp).
  split.
  - unfold lock_gflock. rewrite bind_eq, bind_eq. unfold get_sched at 1, gets.
    cbv beta iota. rewrite Hlk. unfold mod_sched at 1, modify. cbv beta iota.
    rewrite bind_eq, Hbody. cbv beta iota.
    assert (Hlk2 : sched_gflock (sched w2) = true) by (rewrite Hf; reflexivity).
    unfold unlock_gflock. rewrite bind_eq. unfold get_sched, gets. cbv beta iota.
    rewrite Hlk2. reflexivity.
  - exists h, a, c, sa, sb, sc. intros pp0 Hp0.
    unfold has_p in Hp, Hp0. rewrite Hp in Hp0. injection Hp0 as <-.
    unfold w3. rewrite Hf.
    cbn [sched w_set_sched w_set_heap upd_p w_set_allp].
    rewrite sched_gflock_restore by exact Hlk. reflexivity.
Qed.

(** What gfpurge does to the lists. *)
Lemma gfpurge_spec (w : world) (i : nat) (l gs gn : list guintptr) :
  gfree_inv w i l gs gn ->
  sched_gflock (sched w) = false ->
  Z.of_nat (length l + length gs + length gn) < 2147483648 ->
  exists w', gfpurge i w = Done tt w' /\
    gfree_inv w' i [] (fst (free_split (heap w) l gs gn))
                      (snd (free_split (heap w) l gs gn)) /\
    sched_ngfree (sched w') = sched_ngfree (sched w) + Z.of_nat (length l) /\
    heap_links (heap w) (heap w') /\
    gfree_frame i w w'.
Proof.
  intros Hinv Hlk Hb.
  pose proof Hinv as (pp & Hp & _ & Hcnt & _ & _ & Hn & _).
  set (wl := w_set_sched (sched_set_gflock true (sched w)) w).
  destruct (gfree_loop_spec (fun cnt => negb (cnt =? 0)) i (length l) (length l)
              wl l gs gn) as (w2 & Hr & Hinv2 & Hhs & Hl & Hf).
  { apply gfree_inv_gflock. exact Hinv. }
  { exact Hb. }
  { lia. }
  { lia. }
  { intros j Hj. apply negb_true_iff, Z.eqb_neq. lia. }
  { rewrite Nat.sub_diag. reflexivity. }
  rewrite firstn_all, drop_all in Hinv2.
  assert (Hbody : (let* cnt := p_load i p_gfreecnt in
                   gfree_loop (fun cnt => negb (cnt =? 0)) (Z.to_nat (uint32 cnt)) i) wl
                  = Done tt w2).
  { assert (Hpl : has_p wl i pp) by exact Hp.
    step. rewrite Hcnt, uint32_id by (unfold is_uint32; lia).
    rewrite Nat2Z.id. exact Hr. }
  destruct (gflock_bracket _ w i pp w2 Hp Hlk Hbody Hf) as (Hrun & Hfr).
  eexists. split.
  { unfold gfpurge. rewrite <- Hrun. rewrite !(bind_eq lock_gflock).
    destruct (lock_gflock w) as [[] w0|e]; [|reflexivity].
    symmetry. apply bind_assoc. }
  split; [apply gfree_inv_gflock; exact Hinv2|].
  split.
  { destruct Hinv2 as (_ & _ & _ & _ & _ & _ & Hn2 & _).
    cbn [sched w_set_sched sched_ngfree sched_set_gflock].
    change (heap wl) with (heap w) in Hn2.
    rewrite Hn2, Hn, free_split_length. lia. }
  split; [exact Hl | exact Hfr].
Qed.

(** X6. [gfpurge] empties the list of free g's of the P: every g of the
    list is moved, in order, to the head of the global list of its kind
    (with or without a stack), [gfreecnt] falls to 0 and [sched.ngfree]
    grows by the length of the list.  The invariant of the lists is kept,
    and nothing else changes but the links of the g's. *)
Theorem gfpurge_moves_all (w : world) (i : nat) (l gs gn : list guintptr) :
  gfree_inv w i l gs gn ->
  sched_gflock (sched w) = false ->
  Z.of_nat (length l + length gs + length gn) < 2147483648 ->
  exists w', gfpurge i w = Done tt w' /\
    gfree_inv w' i [] (fst (free_split (heap w) l gs gn))
                      (snd (free_split (heap w) l gs gn)) /\
    sched_ngfree (sched w') = sched_ngfree (sched w) + Z.of_nat (length l) /\
    heap_links (heap w) (heap w') /\
    gfree_frame i w w'.
Proof. apply gfpurge_spec. Qed.

Lemma upd_g_has_p w i pp gp x : has_p w i pp -> has_p (upd_g gp x w) i pp.
Proof. intros H. exact H. Qed.

Lemma upd_p_heap w i pp : heap (upd_p i pp w) = heap w.
Proof. reflexivity. Qed.

#[local] Hint Resolve upd_g_has_p : hasp.

(** gfput up to the test of the length of the list. *)
Lemma gfput_has pl w i pp gp gv :
  has_p w i pp -> heap w !! gp = Some gv -> gp <> 0 ->
  g_atomicstatus gv = _Gdead ->
  gfput pl i gp w
  = (if int32 (p_gfreecnt pp + 1) >=? 64 then
       lock_gflock ;;;
       let* cnt := p_load i p_gfreecnt in
       gfree_loop (fun cnt => cnt >=? 32) (Z.to_nat (cnt - 31)) i ;;;
       unlock_gflock
     else ret tt) (gfput_pushed pl i pp gp gv w).
Proof.
  intros Hp Hg Hnz Hst. unfold gfput.
  rewrite bind_eq, (readgstatus_has _ _ _ Hg Hnz), Hst.
  change (negb (_Gdead =? _Gdead)) with false. cbv beta iota.
  rewrite bind_eq, (readg_has _ _ _ Hg Hnz). cbv beta iota zeta.
  rewrite bind_eq.
  assert (Hrel : when (negb (uint64 (g_stack_hi gv - g_stack_lo gv) =? _FixedStack pl))
                   (modg gp (g_set_stack 0 0) ;;; modg gp (g_set_stackguard0 0)) w
                 = Done tt (upd_g gp (g_released pl gv) w)).
  { unfold g_released.
    destruct (negb (uint64 (g_stack_hi gv - g_stack_lo gv) =? _FixedStack pl)).
    - unfold when. rewrite bind_eq, (modg_has _ _ _ _ Hg Hnz).
      rewrite (modg_has _ _ _ _ (upd_g_lookup _ _ _) Hnz), upd_g_twice. reflexivity.
    - unfold when, ret. rewrite upd_g_same by exact Hg. reflexivity. }
  rewrite Hrel. cbv beta iota.
  assert (Hp1 : has_p (upd_g gp (g_released pl gv) w) i pp) by exact Hp.
  rewrite bind_eq, (p_load_has _ _ _ _ Hp1). cbv beta iota.
  rewrite bind_eq, (modg_has _ _ _ _ (upd_g_lookup _ _ _) Hnz), upd_g_twice.
  cbv beta iota.
  assert (Hp2 : has_p (upd_g gp (g_set_schedlink (p_gfree pp) (g_released pl gv)) w) i pp)
    by exact Hp.
  rewrite bind_eq, (modp_has _ _ _ _ Hp2). cbv beta iota.
  rewrite bind_eq, (modp_has _ _ _ _ (has_p_upd _ _ _ _ Hp2)), upd_p_upd.
  cbv beta iota.
  rewrite bind_eq, (p_load_has _ _ _ _ (has_p_upd _ _ _ _ Hp2)). cbv beta iota.
  reflexivity.
Qed.


(** The push of gfput keeps the invariant. *)
Lemma gfput_pushed_inv pl w i pp l gs gn gp gv :
  has_p w i pp ->
  lseg (heap w) (p_gfree pp) l 0 -> p_gfreecnt pp = Z.of_nat (length l) ->
  lseg (heap w) (sched_gfreeStack (sched w)) gs 0 ->
  lseg (heap w) (sched_gfreeNoStack (sched w)) gn 0 ->
  sched_ngfree (sched w) = Z.of_nat (length gs + length gn) ->
  NoDup (l ++ gs ++ gn) ->
  Z.of_nat (length l) + 1 < 2147483648 ->
  heap w !! gp = Some gv -> gp <> 0 -> gp ∉ l ++ gs ++ gn ->
  gfree_inv (gfput_pushed pl i pp gp gv w) i (gp :: l) gs gn.
Proof.
  intros Hp Hl Hc Hgs Hgn Hn Hnd Hb Hg Hnz Hni.
  rewrite !elem_of_app in Hni.
  exists (p_set_gfree gp (int32 (p_gfreecnt pp + 1)) pp).
  split; [apply has_p_upd with (pp := pp); exact Hp|].
  unfold gfput_pushed. rewrite upd_p_heap.
  cbn [p_gfree p_gfreecnt p_set_gfree].
  split.
  { split; [reflexivity|]. split; [exact Hnz|].
    eexists. split; [apply upd_g_lookup|].
    cbn [g_schedlink g_set_schedlink]. apply lseg_frame; tauto. }
  split.
  { rewrite Hc, int32_id by (unfold is_int32; lia). simpl length. lia. }
  split; [apply lseg_frame; tauto|].
  split; [apply lseg_frame; tauto|].
  split; [exact Hn|].
  simpl. apply NoDup_cons. split; [|exact Hnd].
  rewrite !elem_of_app. tauto.
Qed.

Lemma gfput_pushed_frame w i pp1 gp x :
  upd_p i pp1 (upd_g gp x w)
  = w_set_sched (sched_set_gfree (sched_gfreeStack (sched w)) (sched_gfreeNoStack (sched w))
                   (sched_ngfree (sched w)) (sched w))
      (w_set_heap (<[gp := x]> (heap w)) (upd_p i pp1 w)).
Proof. rewrite sched_set_gfree_id. destruct w; reflexivity. Qed.

(** What gfput does to the lists. *)
Lemma gfput_spec (pl : platform) (w : world) (i : nat)
    (l gs gn : list guintptr) (gp : guintptr) (gv : g) :
  gfree_inv w i l gs gn -> (length l < 64)%nat ->
  heap w !! gp = Some gv -> gp <> 0 -> g_atomicstatus gv = _Gdead ->
  gp ∉ l ++ gs ++ gn ->
  sched_gflock (sched w) = false ->
  Z.of_nat (length gs + length gn) + 64 < 2147483648 ->
  let k := if (length l =? 63)%nat then 33%nat else 0%nat in
  exists w',
    gfput pl i gp w = Done tt w' /\
    gfree_inv w' i (drop k (gp :: l))
      (fst (free_split (<[gp := g_released pl gv]> (heap w)) (take k (gp :: l)) gs gn))
      (snd (free_split (<[gp := g_released pl gv]> (heap w)) (take k (gp :: l)) gs gn)) /\
    (length (drop k (gp :: l)) < 64)%nat /\
    (exists gv', heap w' !! gp = Some gv' /\
       same_but_link gv' (g_released pl gv)) /\
    (forall y gy, y <> gp -> heap w !! y = Some gy ->
       exists gy', heap w' !! y = Some gy' /\ same_but_link gy gy') /\
    gfree_frame i w w'.
Proof.
  intros Hinv Hlen Hg Hnz Hst Hni Hlk Hb k.
  destruct Hinv as (pp & Hp & Hl & Hc & Hgs & Hgn & Hn & Hnd).
  set (wa := gfput_pushed pl i pp gp gv w).
  assert (Hinva : gfree_inv wa i (gp :: l) gs gn).
  { apply gfput_pushed_inv; try assumption. lia. }
  assert (Hpa : has_p wa i (p_set_gfree gp (int32 (p_gfreecnt pp + 1)) pp)).
  { apply has_p_upd with (pp := pp). exact Hp. }
  assert (Hga : heap wa !! gp = Some (g_set_schedlink (p_gfree pp) (g_released pl gv))).
  { apply upd_g_lookup. }
  assert (Hfa : gfree_frame i w wa).
  { eexists _, _, _, _, _, _. intros pp0 Hp0.
    unfold has_p in Hp, Hp0. rewrite Hp in Hp0. injection Hp0 as <-.
    unfold wa, gfput_pushed. rewrite gfput_pushed_frame.
    rewrite <- (p_set_gfree_twice gp (int32 (p_gfreecnt pp + 1))
                  (p_gfree pp) (p_gfreecnt pp) pp) at 1.
    rewrite p_set_gfree_id. reflexivity. }
  assert (Hla : forall y gy, y <> gp -> heap w !! y = Some gy -> heap wa !! y = Some gy).
  { intros y gy Hne Hy. unfold wa, gfput_pushed. rewrite upd_p_heap.
    unfold upd_g. cbn [heap w_set_heap]. rewrite lookup_insert_ne by congruence.
    exact Hy. }
  assert (Hcnt1 : int32 (p_gfreecnt pp + 1) = Z.of_nat (S (length l))).
  { rewrite Hc, int32_id by (unfold is_int32; lia). lia. }
  rewrite (gfput_has pl w i pp gp gv Hp Hg Hnz Hst). fold wa. rewrite Hcnt1.
  destruct (length l =? 63)%nat eqn:E.
  - (* the list has grown to 64 *)
    apply Nat.eqb_eq in E.
    replace (Z.of_nat (S (length l)) >=? 64) with true
      by (symmetry; apply Z.geb_le; lia).
    assert (Hlka : sched_gflock (sched wa) = false) by exact Hlk.
    set (wl := w_set_sched (sched_set_gflock true (sched wa)) wa).
    destruct (gfree_loop_spec (fun cnt => cnt >=? 32) i 33 33 wl (gp :: l) gs gn)
      as (w2 & Hr & Hinv2 & Hhs & Hl2 & Hf2).
    { apply gfree_inv_gflock. exact Hinva. }
    { simpl length. lia. }
    { simpl length. lia. }
    { lia. }
    { intros j Hj. apply Z.geb_le. simpl length. lia. }
    { rewrite Z.geb_leb. apply Z.leb_gt. simpl length. lia. }
    assert (Hbody : (let* cnt := p_load i p_gfreecnt in
                     gfree_loop (fun cnt => cnt >=? 32) (Z.to_nat (cnt - 31)) i) wl
                    = Done tt w2).
    { assert (Hpl : has_p wl i (p_set_gfree gp (int32 (p_gfreecnt pp + 1)) pp))
        by exact Hpa.
      rewrite bind_eq, (p_load_has _ _ _ _ Hpl). cbv beta iota.
      cbn [p_gfreecnt p_set_gfree]. rewrite Hcnt1, E.
      exact Hr. }
    destruct (gflock_bracket _ wa i _ w2 Hpa Hlka Hbody Hf2) as (Hrun & Hfr).
    eexists. split.
    { rewrite <- Hrun. rewrite !(bind_eq lock_gflock).
      destruct (lock_gflock wa) as [[] w0|e]; [|reflexivity].
      symmetry. apply bind_assoc. }
    assert (Hhs' : forall z, has_stack (<[gp := g_released pl gv]> (heap w)) z
                             = has_stack (heap wl) z).
    { intros z. symmetry. apply has_stack_insert_link'. }
    split.
    { apply gfree_inv_gflock.
      rewrite (free_split_ext _ _ _ Hhs'). exact Hinv2. }
    split.
    { rewrite length_drop. simpl length. lia. }
    split.
    { destruct (Hl2 gp _ Hga) as (gv' & Hgv' & Hsl).
      exists gv'. split; [exact Hgv'|].
      unfold same_but_link in *. rewrite <- Hsl. reflexivity. }
    split.
    { intros y gy Hne Hy. apply (Hl2 y gy). apply Hla; assumption. }
    eapply gfree_frame_trans; [exact Hp | exact Hfa | exact Hfr].
  - (* the list stays shorter than 64 *)
    apply Nat.eqb_neq in E.
    replace (Z.of_nat (S (length l)) >=? 64) with false
      by (symmetry; rewrite Z.geb_leb; apply Z.leb_gt; lia).
    exists wa. split; [reflexivity|].
    split; [exact Hinva|].
    split; [simpl; lia|].
    split.
    { eexists. split; [exact Hga|]. reflexivity. }
    split.
    { intros y gy Hne Hy. exists gy. split; [apply Hla; assumption | reflexivity]. }
    exact Hfa.
Qed.

(** X7. [gfput] keeps the invariant of the lists of free g's, and the list
    of a P never grows to 64: a dead g that is on no list is pushed at the
    head of the list of the P; if that makes 64, the first 33 g's of the
    list (the g just put and the 32 put before it) go to the global lists,
    each to the list of its kind, and 31 stay.  The g stays dead, and a g
    whose stack is not of the standard size has lost its stack. *)
Theorem gfput_keeps_free_lists (pl : platform) (w : world) (i : nat)
    (l gs gn : list guintptr) (gp : guintptr) (gv : g) :
  gfree_inv w i l gs gn -> (length l < 64)%nat ->
  heap w !! gp = Some gv -> gp <> 0 -> g_atomicstatus gv = _Gdead ->
  gp ∉ l ++ gs ++ gn ->
  sched_gflock (sched w) = false ->
  Z.of_nat (length gs + length gn) + 64 < 2147483648 ->
  let k := if (length l =? 63)%nat then 33%nat else 0%nat in
  exists w',
    gfput pl i gp w = Done tt w' /\
    gfree_inv w' i (drop k (gp :: l))
      (fst (free_split (<[gp := g_released pl gv]> (heap w)) (take k (gp :: l)) gs gn))
      (snd (free_split (<[gp := g_released pl gv]> (heap w)) (take k (gp :: l)) gs gn)) /\
    (length (drop k (gp :: l)) < 64)%nat /\
    (exists gv', heap w' !! gp = Some gv' /\
       same_but_link gv' (g_released pl gv)) /\
    (forall y gy, y <> gp -> heap w !! y = Some gy ->
       exists gy', heap w' !! y = Some gy' /\ same_but_link gy gy') /\
    gfree_frame i w w'.
Proof. apply gfput_spec. Qed.


Lemma upd_p_upd_g w i pp gp x : upd_p i pp (upd_g gp x w) = upd_g gp x (upd_p i pp w).
Proof. reflexivity. Qed.



Lemma free_world_inv : gfree_inv free_world 0 [5; 6] [7] [].
Proof.
  exists (p_set_gfree 5 2 (p_with [] 0)).
  split; [reflexivity|].
  split; [apply lsegb_lseg; vm_compute; reflexivity|].
  split; [reflexivity|].
  split; [apply lsegb_lseg; vm_compute; reflexivity|].
  split; [apply lsegb_lseg; vm_compute; reflexivity|].
  split; [reflexivity|].
  apply (bool_decide_unpack _). vm_compute. exact I.
Qed.

Lemma free_world_63_inv : gfree_inv free_world_63 0 (map Z.of_nat (seq 1 63)) [] [].
Proof.
  exists (p_set_gfree 1 63 (p_with [] 0)).
  split; [reflexivity|].
  split; [apply lsegb_lseg; vm_compute; reflexivity|].
  split; [reflexivity|].
  split; [apply lsegb_lseg; vm_compute; reflexivity|].
  split; [apply lsegb_lseg; vm_compute; reflexivity|].
  split; [reflexivity|].
  apply (bool_decide_unpack _). vm_compute. exact I.
Qed.

Lemma gfpurge_moves_all_witness :
  exists w', gfpurge 0 free_world = Done tt w' /\
    gfree_inv w' 0 [] [5; 7] [6] /\
    sched_ngfree (sched w') = 3.
Proof.
  assert (Hlk : sched_gflock (sched free_world) = false) by reflexivity.
  assert (Hb : Z.of_nat (length [5; 6] + length [7] + length (@nil guintptr)) < 2147483648)
    by (vm_compute; reflexivity).
  destruct (gfpurge_moves_all free_world 0 [5; 6] [7] [] free_world_inv Hlk Hb)
    as (w' & Hr & Hinv & Hn & _).
  exists w'. split; [exact Hr|]. split; [exact Hinv | exact Hn].
Defined.

Lemma gfput_keeps_free_lists_witness :
  exists w', gfput platform_amd64 0 64 free_world_63 = Done tt w' /\
    gfree_inv w' 0 (map Z.of_nat (seq 33 31)) [64] (map Z.of_nat (rev (seq 1 32))).
Proof.
  assert (Hlen : (length (map Z.of_nat (seq 1 63)) < 64)%nat) by (vm_compute; lia).
  assert (Hg : heap free_world_63 !! 64 = Some (g_free 0 true)) by (vm_compute; reflexivity).
  assert (Hnz : (64 : Z) <> 0) by lia.
  assert (Hst : g_atomicstatus (g_free 0 true) = _Gdead) by reflexivity.
  assert (Hni : 64 ∉ map Z.of_nat (seq 1 63) ++ [] ++ []).
  { apply (bool_decide_unpack _). vm_compute. exact I. }
  assert (Hlk : sched_gflock (sched free_world_63) = false) by reflexivity.
  assert (Hb : Z.of_nat (length (@nil guintptr) + length (@nil guintptr)) + 64 < 2147483648)
    by (vm_compute; reflexivity).
  destruct (gfput_keeps_free_lists platform_amd64 free_world_63 0
              (map Z.of_nat (seq 1 63)) [] [] 64 (g_free 0 true)
              free_world_63_inv Hlen Hg Hnz Hst Hni Hlk Hb)
    as (w' & Hr & Hinv & _).
  exists w'. split; [exact Hr|].
  assert (E1 : drop 33 (64 :: map Z.of_nat (seq 1 63)) = map Z.of_nat (seq 33 31))
    by (vm_compute; reflexivity).
  assert (E2 : free_split (<[64 := g_released platform_amd64 (g_free 0 true)]>
                             (heap free_world_63))
                 (take 33 (64 :: map Z.of_nat (seq 1 63))) [] []
               = ([64], map Z.of_nat (rev (seq 1 32))))
    by (vm_compute; reflexivity).
  change (if (length (map Z.of_nat (seq 1 63)) =? 63)%nat then 33%nat else 0%nat)
    with 33%nat in Hinv.
  rewrite E1, E2 in Hinv. exact Hinv.
Defined.


(** ** Counting the goroutines *)

Lemma int32_add_idem_l a b : int32 (int32 a + b) = int32 (a + b).
Proof.
  unfold int32.
  replace ((a + 2147483648) mod 4294967296 - 2147483648 + b + 2147483648)
    with ((a + 2147483648) mod 4294967296 + b) by lia.
  rewrite Zplus_mod_idemp_l. f_equal. f_equal. lia.
Qed.

Lemma int32_sub_idem_l a b : int32 (int32 a - b) = int32 (a - b).
Proof. unfold Z.sub. apply int32_add_idem_l. Qed.

Lemma int32_sub_idem_r a b : int32 (a - int32 b) = int32 (a - b).
Proof.
  unfold int32.
  replace (a - ((b + 2147483648) mod 4294967296 - 2147483648) + 2147483648)
    with ((a + 4294967296) - (b + 2147483648) mod 4294967296) by lia.
  rewrite Zminus_mod_idemp_r. f_equal.
  f_equal. lia.
Qed.

Lemma int32_is_int32 x : is_int32 (int32 x).
Proof.
  unfold is_int32, int32.
  pose proof (Z.mod_pos_bound (x + 2147483648) 4294967296). lia.
Qed.

(** The loop of gcount over the P's from index [length pre] on. *)
Lemma gcount_loop_some w suf : forall pre n,
  allp w = pre ++ suf -> Forall is_Some suf -> is_int32 n ->
  for_acc (Z.of_nat (length pre)) (length suf)
    (fun i n => let* c := p_load (Z.to_nat i) p_gfreecnt in ret (int32 (n - c))) n w
  = Done (int32 (n - gfreecnt_sum suf)) w.
Proof.
  induction suf as [|o suf IH]; intros pre n Hall Hsome Hn.
  - simpl. rewrite Z.sub_0_r, int32_id by exact Hn. reflexivity.
  - apply Forall_cons in Hsome as [[pp ->] Hsome].
    assert (Hp : has_p w (length pre) pp).
    { unfold has_p. rewrite Hall. apply list_lookup_middle. reflexivity. }
    simpl length. simpl for_acc. rewrite Nat2Z.id.
    rewrite bind_eq, bind_eq, (p_load_has _ _ _ _ Hp). unfold ret at 1. cbv beta iota.
    replace (Z.of_nat (length pre) + 1) with (Z.of_nat (length (pre ++ [Some pp])))
      by (rewrite length_app; simpl; lia).
    rewrite (IH (pre ++ [Some pp]) (int32 (n - p_gfreecnt pp))).
    + simpl gfreecnt_sum. rewrite int32_sub_idem_l. f_equal. f_equal. lia.
    + rewrite <- app_assoc. exact Hall.
    + exact Hsome.
    + apply int32_is_int32.
Qed.

(** The loop of gcount stops at the first nil entry of [allp]. *)
Lemma gcount_loop_nil w suf : forall pre n,
  allp w = pre ++ suf -> None ∈ suf ->
  for_acc (Z.of_nat (length pre)) (length suf)
    (fun i n => let* c := p_load (Z.to_nat i) p_gfreecnt in ret (int32 (n - c))) n w
  = Fail (Panic nil_deref).
Proof.
  induction suf as [|o suf IH]; intros pre n Hall Hin.
  - apply elem_of_nil in Hin. destruct Hin.
  - simpl length. simpl for_acc. rewrite Nat2Z.id.
    assert (Hlk : allp w !! length pre = Some o).
    { rewrite Hall. apply list_lookup_middle. reflexivity. }
    destruct o as [pp|].
    + rewrite bind_eq, bind_eq, (p_load_has _ _ _ _ Hlk). unfold ret at 1. cbv beta iota.
      replace (Z.of_nat (length pre) + 1) with (Z.of_nat (length (pre ++ [Some pp])))
        by (rewrite length_app; simpl; lia).
      apply IH.
      * rewrite <- app_assoc. exact Hall.
      * apply elem_of_cons in Hin as [Hin|Hin]; [discriminate | exact Hin].
    + unfold bind, p_load, bind, getp. rewrite Hlk. reflexivity.
Qed.

Lemma gcount_start w :
  gcount w
  = (let* n := for_acc 0 (length (allp w))
                 (fun i n => let* c := p_load (Z.to_nat i) p_gfreecnt in
                             ret (int32 (n - c)))
                 (int32 (Z.of_nat (length (allgs w)) - sched_ngfree (sched w)
                         - sched_ngsys (sched w))) in
     ret (if n <? 1 then 1 else n)) w.
Proof.
  unfold gcount. rewrite bind_eq. unfold gets at 1. cbv beta iota.
  rewrite bind_eq. unfold get_sched at 1, gets at 1. cbv beta iota zeta.
  rewrite bind_eq. unfold gets at 1. cbv beta iota.
  rewrite int32_sub_idem_r, int32_sub_idem_l.
  replace (int32 (Z.of_nat (length (allgs w))) - sched_ngfree (sched w)
           - sched_ngsys (sched w))
    with (int32 (Z.of_nat (length (allgs w)))
          - (sched_ngfree (sched w) + sched_ngsys (sched w))) by lia.
  rewrite int32_sub_idem_l.
  replace (Z.of_nat (length (allgs w)) - (sched_ngfree (sched w) + sched_ngsys (sched w)))
    with (Z.of_nat (length (allgs w)) - sched_ngfree (sched w) - sched_ngsys (sched w))
    by lia.
  reflexivity.
Qed.

Lemma gcount_some w :
  Forall is_Some (allp w) ->
  gcount w
  = Done (Z.max 1 (int32 (Z.of_nat (length (allgs w)) - sched_ngfree (sched w)
                          - sched_ngsys (sched w) - gfreecnt_sum (allp w)))) w.
Proof.
  intros Hall. rewrite gcount_start, bind_eq.
  rewrite (gcount_loop_some w (allp w) [] _ eq_refl Hall (int32_is_int32 _)).
  rewrite int32_sub_idem_l. unfold ret. f_equal.
  destruct (Z.ltb_spec (int32 (Z.of_nat (length (allgs w)) - sched_ngfree (sched w)
                               - sched_ngsys (sched w) - gfreecnt_sum (allp w))) 1); lia.
Qed.

(** X9. [gcount] returns the number of g's ever allocated, less the free
    g's on the global lists and on the lists of all P's and less the system
    goroutines, computed in 32 bits, and never less than 1; it leaves the
    state as it is.  It dereferences every entry of [allp]: with a nil
    entry (a P that procresize has not created yet) it panics. *)
Theorem gcount_counts (w : world) :
  (Forall is_Some (allp w) ->
   gcount w
   = Done (Z.max 1 (int32 (Z.of_nat (length (allgs w)) - sched_ngfree (sched w)
                           - sched_ngsys (sched w) - gfreecnt_sum (allp w)))) w) /\
  (None ∈ allp w -> gcount w = Fail (Panic nil_deref)).
Proof.
  split.
  - apply gcount_some.
  - intros Hin. rewrite gcount_start, bind_eq.
    rewrite (gcount_loop_nil w (allp w) [] _ eq_refl Hin). reflexivity.
Qed.

Lemma gfreecnt_sum_insert ps : forall i pp pp',
  ps !! i = Some (Some pp) ->
  gfreecnt_sum (<[i := Some pp']> ps) = gfreecnt_sum ps - p_gfreecnt pp + p_gfreecnt pp'.
Proof.
  induction ps as [|o ps IH]; intros i pp pp' H; [discriminate|].
  destruct i as [|i]; simpl in *.
  - injection H as ->. lia.
  - rewrite (IH i pp pp' H). destruct o; lia.
Qed.

Lemma Forall_is_Some_insert (ps : list (option p)) i pp :
  Forall is_Some ps -> Forall is_Some (<[i := Some pp]> ps).
Proof. intros H. apply Forall_insert; [exact H | eexists; reflexivity]. Qed.

(** gcount in a state that keeps the invariant of the lists of free g's. *)
Lemma gcount_inv w i pp l gs gn :
  has_p w i pp -> gfree_inv w i l gs gn -> Forall is_Some (allp w) ->
  gcount w
  = Done (Z.max 1 (int32 (Z.of_nat (length (allgs w)) - sched_ngsys (sched w)
                          - (gfreecnt_sum (allp w) - p_gfreecnt pp)
                          - Z.of_nat (length l + length gs + length gn)))) w.
Proof.
  intros Hp (pp0 & Hp0 & _ & Hc & _ & _ & Hn & _) Hall.
  unfold has_p in Hp, Hp0. rewrite Hp in Hp0. injection Hp0 as <-.
  rewrite (gcount_some w Hall).
  f_equal. f_equal. f_equal. rewrite Hn, Hc. lia.
Qed.

Lemma gcount_after_frame w w' i pp l' gs' gn' :
  has_p w i pp -> Forall is_Some (allp w) ->
  gfree_frame i w w' -> gfree_inv w' i l' gs' gn' ->
  gcount w'
  = Done (Z.max 1 (int32 (Z.of_nat (length (allgs w)) - sched_ngsys (sched w)
                          - (gfreecnt_sum (allp w) - p_gfreecnt pp)
                          - Z.of_nat (length l' + length gs' + length gn')))) w'.
Proof.
  intros Hp Hall (h & a & c & sa & sb & sc & Hf) Hinv.
  specialize (Hf pp Hp).
  assert (Hp' : has_p w' i (p_set_gfree a c pp)).
  { rewrite Hf. apply (has_p_upd w i pp _ Hp). }
  assert (Hall' : Forall is_Some (allp w')).
  { rewrite Hf. apply Forall_is_Some_insert. exact Hall. }
  rewrite (gcount_inv w' i _ l' gs' gn' Hp' Hinv Hall').
  f_equal. f_equal. f_equal.
  assert (Ha : allp w' = <[i := Some (p_set_gfree a c pp)]> (allp w))
    by (rewrite Hf; reflexivity).
  assert (Hg : allgs w' = allgs w) by (rewrite Hf; reflexivity).
  assert (Hs : sched_ngsys (sched w') = sched_ngsys (sched w))
    by (rewrite Hf; reflexivity).
  rewrite Ha, Hg, Hs, (gfreecnt_sum_insert _ _ _ _ Hp). lia.
Qed.

(** X10. Moving free g's between the lists does not change the count of
    goroutines, and freeing one lowers it by one: after [gfpurge], [gcount]
    returns what it returned before; after [gfput] of a dead g (whether or
    not the list of the P overflows to the global lists) it returns one
    less, as long as the count was at least 2. *)
Theorem gcount_free_list_moves (pl : platform) (w : world) (i : nat)
    (l gs gn : list guintptr) (gp : guintptr) (gv : g) :
  gfree_inv w i l gs gn -> sched_gflock (sched w) = false ->
  Forall is_Some (allp w) ->
  Z.of_nat (length l + length gs + length gn) + 64 < 2147483648 ->
  exists n, gcount w = Done n w /\
    (exists w', (gfpurge i ;;; gcount) w = Done n w') /\
    ((length l < 64)%nat -> heap w !! gp = Some gv -> gp <> 0 ->
     g_atomicstatus gv = _Gdead -> gp ∉ l ++ gs ++ gn -> 2 <= n ->
     exists w', (gfput pl i gp ;;; gcount) w = Done (n - 1) w').
Proof.
  intros Hinv Hlk Hall Hb.
  pose proof Hinv as (pp & Hp & _).
  eexists. split; [apply (gcount_inv w i pp l gs gn Hp Hinv Hall)|].
  split.
  - destruct (gfpurge_spec w i l gs gn Hinv Hlk) as (w' & Hr & Hinv' & _ & _ & Hf);
      [lia|].
    exists w'. rewrite bind_eq, Hr.
    rewrite (gcount_after_frame w w' i pp _ _ _ Hp Hall Hf Hinv').
    f_equal. f_equal. f_equal.
    pose proof (free_split_length (heap w) l gs gn). simpl length. lia.
  - intros Hlen Hg Hnz Hst Hni Hn.
    destruct (gfput_spec pl w i l gs gn gp gv Hinv Hlen Hg Hnz Hst Hni Hlk)
      as (w' & Hr & Hinv' & _ & _ & _ & Hf); [lia|].
    exists w'. rewrite bind_eq, Hr.
    rewrite (gcount_after_frame w w' i pp _ _ _ Hp Hall Hf Hinv').
    f_equal.
    set (k := if (length l =? 63)%nat then 33%nat else 0%nat) in *.
    pose proof (free_split_length (<[gp := g_released pl gv]> (heap w))
                  (take k (gp :: l)) gs gn) as Hfl.
    assert (Hk : (length (take k (gp :: l)) + length (drop k (gp :: l))
                  = S (length l))%nat).
    { rewrite <- length_app, take_drop. reflexivity. }
    set (T := Z.of_nat (length (allgs w)) - sched_ngsys (sched w)
              - (gfreecnt_sum (allp w) - p_gfreecnt pp)
              - Z.of_nat (length l + length gs + length gn)) in *.
    match goal with |- Z.max 1 (int32 ?x) = _ =>
      replace x with (T - 1) by (unfold T; lia) end.
    assert (HT : int32 T = Z.max 1 (int32 T)) by lia.
    rewrite <- HT in *.
    rewrite <- int32_sub_idem_l.
    rewrite (int32_id (int32 T - 1)).
    + lia.
    + pose proof (int32_is_int32 T). unfold is_int32 in *. lia.
Qed.

Lemma gcount_counts_witness : gcount free_world = Done 3 free_world.
Proof.
  assert (Hall : Forall is_Some (allp free_world)).
  { repeat constructor. eexists. reflexivity. }
  destruct (gcount_counts free_world) as (H & _).
  rewrite (H Hall). reflexivity.
Defined.

Lemma gcount_free_list_moves_witness :
  gcount free_world = Done 3 free_world /\
  (exists w', (gfpurge 0 ;;; gcount) free_world = Done 3 w') /\
  (exists w', (gfput platform_amd64 0 8 ;;; gcount) free_world = Done 2 w').
Proof.
  assert (Hlk : sched_gflock (sched free_world) = false) by reflexivity.
  assert (Hall : Forall is_Some (allp free_world)).
  { repeat constructor. eexists. reflexivity. }
  assert (Hb : Z.of_nat (length [5; 6] + length [7] + length (@nil guintptr)) + 64
               < 2147483648) by (vm_compute; reflexivity).
  destruct (gcount_free_list_moves platform_amd64 free_world 0 [5; 6] [7] [] 8
              (g_free 0 true) free_world_inv Hlk Hall Hb)
    as (n & Hn & Hpurge & Hput).
  assert (E : n = 3).
  { assert (H3 : gcount free_world = Done 3 free_world) by (vm_compute; reflexivity).
    rewrite H3 in Hn. injection Hn as <-. reflexivity. }
  subst n. split; [exact Hn|]. split; [exact Hpurge|].
  apply Hput.
  - vm_compute. lia.
  - reflexivity.
  - lia.
  - reflexivity.
  - apply (bool_decide_unpack _). vm_compute. exact I.
  - lia.
Defined.

(** ** Spinning M's *)




(** ** The local run queue is first in, first out, but for runnext *)

Lemma runqput_all_has i gs : forall w pp,
  has_p w i pp -> p_wf pp -> runq_count pp + Z.of_nat (length gs) <= runqlen ->
  runqput_all i gs w = Done tt (upd_p i (p_push_list gs pp) w).
Proof.
  induction gs as [|gp gs IH]; intros w pp Hp Hwf Hc.
  - simpl. rewrite upd_p_same by exact Hp. reflexivity.
  - simpl runqput_all. simpl length in Hc.
    rewrite bind_eq, (runqput_fast w i pp gp Hp) by lia. cbv beta iota.
    rewrite (IH _ (p_push gp pp)).
    + rewrite upd_p_upd. reflexivity.
    + eapply has_p_upd. exact Hp.
    + apply p_push_wf. exact Hwf.
    + rewrite runq_count_push by lia. lia.
Qed.

Lemma runq_list_pop pp :
  p_wf pp -> runq_count pp <> 0 ->
  runq_list pp = runq_at (p_runq pp) (p_runqhead pp) :: runq_list (p_pop pp) /\
  p_wf (p_pop pp) /\ runq_count (p_pop pp) = runq_count pp - 1.
Proof.
  intros (Hh & Ht & Hl) Hc. pose proof (runq_count_range pp) as Hr.
  pose proof (runq_list_advance pp 1 ltac:(lia)) as Hadv.
  change (p_set_runqhead (uint32 (p_runqhead pp + 1)) pp) with (p_pop pp) in Hadv.
  assert (Hlen : length (runq_list (p_pop pp)) = (Z.to_nat (runq_count pp) - 1)%nat).
  { rewrite Hadv, length_drop, runq_list_length. reflexivity. }
  split; [|split].
  - rewrite Hadv.
    pose proof (runq_list_lookup pp 0 ltac:(lia)) as H0.
    rewrite Z.add_0_r, (uint32_id _ Hh) in H0.
    destruct (runq_list pp) as [|x rest]; [discriminate|].
    injection H0 as ->. reflexivity.
  - split; [apply uint32_range|]. split; [exact Ht | exact Hl].
  - rewrite runq_list_length in Hlen.
    pose proof (runq_count_range (p_pop pp)). lia.
Qed.

Lemma runqget_n_all i : forall n w pp,
  has_p w i pp -> p_wf pp -> p_runnext pp = 0 -> runq_count pp = Z.of_nat n ->
  exists pp',
    runqget_n i n w = Done (map (fun gp => (gp, false)) (runq_list pp)) (upd_p i pp' w) /\
    p_wf pp' /\ runq_count pp' = 0 /\ p_runnext pp' = 0 /\
    p_runqhead pp' = p_runqtail pp /\ p_runqtail pp' = p_runqtail pp.
Proof.
  induction n as [|n IH]; intros w pp Hp Hwf Hn Hc.
  - exists pp. simpl runqget_n.
    assert (Hnil : runq_list pp = []).
    { apply length_zero_iff_nil. rewrite runq_list_length, Hc. reflexivity. }
    rewrite Hnil, upd_p_same by exact Hp.
    split; [reflexivity|]. split; [exact Hwf|]. split; [exact Hc|]. split; [exact Hn|].
    split; [|reflexivity].
    destruct Hwf as (Hh & Ht & _). unfold runq_count, uint32 in Hc.
    unfold is_uint32 in Hh, Ht.
    apply Z.mod_divide in Hc; [|lia]. destruct Hc as [q Hq]. lia.
  - destruct (runq_list_pop pp Hwf) as (Hl & Hwf' & Hc'); [lia|].
    assert (Hne : p_runqtail pp <> p_runqhead pp).
    { intros E. unfold runq_count in Hc. rewrite E, Z.sub_diag in Hc.
      change (uint32 0) with 0 in Hc. lia. }
    destruct (IH (upd_p i (p_pop pp) w) (p_pop pp)) as (pp' & Hr & Hw & Hz & Hnx & Hhd & Htl).
    + eapply has_p_upd. exact Hp.
    + exact Hwf'.
    + exact Hn.
    + lia.
    + exists pp'. simpl runqget_n.
      rewrite bind_eq, (runqget_ring w i pp Hp Hn Hne). cbv beta iota.
      rewrite bind_eq, Hr. cbv beta iota. rewrite upd_p_upd, Hl.
      split; [reflexivity|]. split; [exact Hw|]. split; [exact Hz|]. split; [exact Hnx|].
      split; [exact Hhd | exact Htl].
Qed.

(** X13. The ring of a P is first in, first out: on a P with an empty
    runnext slot whose ring has room for the g's of a list, putting them
    with [runqput(p, g, false)] one after the other and then calling
    [runqget(p)] as many times as the ring has entries returns first the g's
    that were in the ring and then those of the list, in the order they were
    put, each with [inheritTime] false; after that the queue is empty and
    [runqget] returns nil. *)
Theorem runq_first_in_first_out (w : world) (i : nat) (pp : p) (gs : list guintptr) :
  has_p w i pp -> p_wf pp -> p_runnext pp = 0 ->
  runq_count pp + Z.of_nat (length gs) <= runqlen ->
  exists w',
    (runqput_all i gs ;;; runqget_n i (length (runq_list pp ++ gs))) w
    = Done (map (fun gp => (gp, false)) (runq_list pp ++ gs)) w' /\
    runqempty i w' = Done true w' /\
    runqget i w' = Done (0, false) w'.
Proof.
  intros Hp Hwf Hn Hc.
  destruct (p_push_list_spec gs pp Hwf Hc) as (Hwf1 & Hc1 & Hl1 & Hh1 & Hn1).
  assert (Hp1 : has_p (upd_p i (p_push_list gs pp) w) i (p_push_list gs pp))
    by (eapply has_p_upd; exact Hp).
  destruct (runqget_n_all i (length (runq_list pp ++ gs)) _ _ Hp1 Hwf1)
    as (pp' & Hr & Hw & Hz & Hnx & Hhd & Htl).
  { rewrite Hn1. exact Hn. }
  { rewrite <- Hl1, runq_list_length. pose proof (runq_count_range (p_push_list gs pp)). lia. }
  assert (Hp' : has_p (upd_p i pp' w) i pp') by (eapply has_p_upd; exact Hp).
  exists (upd_p i pp' w). split; [|split].
  - rewrite bind_eq, (runqput_all_has i gs w pp Hp Hwf Hc). cbv beta iota.
    rewrite Hr, upd_p_upd, Hl1. reflexivity.
  - rewrite (runqempty_has _ _ _ Hp'), Hhd, Htl, Z.eqb_refl, Hnx. reflexivity.
  - apply (runqget_none _ _ _ Hp' Hnx). rewrite Hhd, Htl. reflexivity.
Qed.

Lemma runq_first_in_first_out_witness :
  exists w',
    (runqput_all 0 [1; 2] ;;; runqget_n 0 2) ready_idle_world
    = Done [(1, false); (2, false)] w' /\
    runqget 0 w' = Done (0, false) w'.
Proof.
  assert (Hp : has_p ready_idle_world 0 (p_with [] 0)) by reflexivity.
  assert (Hwf : p_wf (p_with [] 0)) by (repeat split; vm_compute; congruence).
  assert (Hn : p_runnext (p_with [] 0) = 0) by reflexivity.
  assert (Hc : runq_count (p_with [] 0) + Z.of_nat (length [1; 2]) <= runqlen)
    by (vm_compute; discriminate).
  destruct (runq_first_in_first_out ready_idle_world 0 (p_with [] 0) [1; 2] Hp Hwf Hn Hc)
    as (w' & Hr & _ & Hg).
  exists w'. split; [exact Hr | exact Hg].
Defined.



(** ** Stealing the runnext slot *)

Lemma runq_list_slot_at_tail pd x :
  p_wf pd -> runq_count pd < runqlen ->
  runq_list (p_set_runq (<[Z.to_nat (p_runqtail pd mod runqlen) := x]> (p_runq pd)) pd)
  = runq_list pd.
Proof.
  intros Hwf Hc. pose proof (runq_count_range pd) as Hr.
  pose proof (runq_list_push x pd Hwf Hc) as Hpush.
  pose proof (runq_count_push x pd Hc) as Hcp.
  pose proof (take_runq_list (p_push x pd) (runq_count pd) ltac:(lia)) as Htake.
  rewrite Hpush, take_app_length' in Htake by (rewrite runq_list_length; reflexivity).
  rewrite Htake. reflexivity.
Qed.

(** X15. Stealing from a P whose ring is empty.  Unless [stealRunNextG] is
    set and the victim has a g in its runnext slot, [runqsteal] returns nil
    and changes nothing.  Otherwise it takes the g of the slot: it returns
    it, the slot of the victim is empty afterwards and the queue of the
    thief is as it was; before taking it, it backs off once (a sleep of 3
    microseconds, on Windows a yield) if and only if the victim is
    running. *)
Theorem runqsteal_empty_ring (w : world) (dst src : nat) (pd ps : p) (steal : bool) :
  has_p w dst pd -> has_p w src ps -> src <> dst ->
  p_wf pd -> runq_count pd < runqlen ->
  p_runqhead ps = p_runqtail ps ->
  (steal = false \/ p_runnext ps = 0 -> runqsteal dst src steal w = Done 0 w) /\
  (steal = true -> p_runnext ps <> 0 ->
   exists pd',
     runqsteal dst src steal w
     = Done (p_runnext ps)
         (upd_p dst pd'
            (upd_p src (p_set_runnext 0 ps)
               (w_set_trace
                  (trace w ++
                   (if p_status ps =? _Prunning
                    then (if windows w then [EvOsyield] else [EvUsleep 3])
                    else [])) w))) /\
     runq_list pd' = runq_list pd /\ p_runnext pd' = p_runnext pd /\
     p_runqhead pd' = p_runqhead pd /\ p_runqtail pd' = p_runqtail pd).
Proof.
  intros Hd Hs Hne Hwf Hc He.
  assert (Hn0 : uint32 (uint32 (p_runqtail ps - p_runqhead ps)
                        - uint32 (p_runqtail ps - p_runqhead ps) / 2) = 0).
  { rewrite He, Z.sub_diag. reflexivity. }
  split.
  - intros Hcase. unfold runqsteal. step.
    erewrite bind_done; cycle 1.
    { unfold runqgrab. apply loop_first. do 2 step.
      unfold runqgrab_body. cbv zeta. rewrite Hn0. cbn [Z.eqb].
      destruct steal.
      - destruct Hcase as [?|Hz]; [discriminate|].
        step. rewrite Hz. reflexivity.
      - reflexivity. }
    reflexivity.
  - intros -> Hnz.
    set (evs := if p_status ps =? _Prunning
                then (if windows w then [EvOsyield] else [EvUsleep 3]) else []).
    set (w1 := w_set_trace (trace w ++ evs) w).
    set (q := <[Z.to_nat (p_runqtail pd mod runqlen) := p_runnext ps]> (p_runq pd)).
    exists (p_set_runq q pd).
    assert (Hs1 : has_p w1 src ps) by exact Hs.
    assert (Hd1 : has_p w1 dst pd) by exact Hd.
    assert (Hgrab : runqgrab src dst (p_runqtail pd) true w
                    = Done 1 (upd_p dst (p_set_runq q pd)
                                (upd_p src (p_set_runnext 0 ps) w1))).
    { unfold runqgrab. apply loop_first. do 2 step.
      unfold runqgrab_body. cbv zeta. rewrite Hn0. cbn [Z.eqb].
      step. apply Z.eqb_neq in Hnz. rewrite Hnz. cbn [negb].
      step.
      assert (Hback : when (p_status ps =? _Prunning)
                        (let* win := gets windows in
                         if negb win then emit (EvUsleep 3) else emit EvOsyield) w
                      = Done tt w1).
      { unfold w1, evs. destruct (p_status ps =? _Prunning).
        - unfold when. rewrite bind_eq. unfold gets. cbv beta iota.
          destruct (windows w); reflexivity.
        - unfold when, ret. rewrite w_set_trace_id. reflexivity. }
      rewrite bind_eq, Hback. cbv beta iota.
      rewrite bind_eq, (cas_runnext_has _ _ _ _ _ Hs1), Z.eqb_refl. cbv beta iota.
      cbn [negb].
      assert (Hd2 : has_p (upd_p src (p_set_runnext 0 ps) w1) dst pd).
      { apply has_p_upd_ne; [exact Hne | exact Hd1]. }
      rewrite bind_eq, (runq_set_has _ _ _ _ _ Hd2). reflexivity. }
    split.
    { unfold runqsteal. step. rewrite (bind_done _ _ _ _ _ Hgrab).
      change (1 =? 0) with false. cbv iota. change (uint32 (1 - 1)) with 0.
      cbv zeta.
      assert (Hd3 : has_p (upd_p dst (p_set_runq q pd)
                             (upd_p src (p_set_runnext 0 ps) w1)) dst (p_set_runq q pd)).
      { eapply has_p_upd. apply has_p_upd_ne; [exact Hne | exact Hd1]. }
      rewrite bind_eq, (p_load_has _ _ _ _ Hd3). cbv beta iota.
      change (0 =? 0) with true. cbv iota.
      rewrite Z.add_0_r. destruct Hwf as (_ & Ht & Hl).
      rewrite (uint32_id _ Ht). change (p_runq (p_set_runq q pd)) with q.
      unfold q. rewrite runq_at_set_eq by exact Hl. reflexivity. }
    split; [apply runq_list_slot_at_tail; assumption|].
    split; [reflexivity|]. split; reflexivity.
Qed.

Lemma runqsteal_empty_ring_witness :
  exists pd',
    runqsteal 0 1 true
      (w_set_allp [Some (p_with [] 0); Some (p_with [] 7)] ready_idle_world)
    = Done 7
        (upd_p 0 pd'
           (upd_p 1 (p_with [] 0)
              (w_set_trace [EvUsleep 3]
                 (w_set_allp [Some (p_with [] 0); Some (p_with [] 7)] ready_idle_world)))) /\
    runq_list pd' = [].
Proof.
  set (w := w_set_allp [Some (p_with [] 0); Some (p_with [] 7)] ready_idle_world).
  assert (Hd : has_p w 0 (p_with [] 0)) by reflexivity.
  assert (Hs : has_p w 1 (p_with [] 7)) by reflexivity.
  assert (Hne : 1%nat <> 0%nat) by lia.
  assert (Hwf : p_wf (p_with [] 0)) by (repeat split; vm_compute; congruence).
  assert (Hc : runq_count (p_with [] 0) < runqlen) by (vm_compute; reflexivity).
  assert (He : p_runqhead (p_with [] 7) = p_runqtail (p_with [] 7)) by reflexivity.
  destruct (runqsteal_empty_ring w 0 1 _ _ true Hd Hs Hne Hwf Hc He) as (_ & H).
  destruct (H eq_refl) as (pd' & Hr & Hl & _); [discriminate|].
  exists pd'. split; [exact Hr | exact Hl].
Defined.

(** ** Stealing when there is nothing to steal *)

Lemma runqsteal_nothing w dst src pd ps steal :
  has_p w dst pd -> has_p w src ps ->
  p_runqhead ps = p_runqtail ps -> p_runnext ps = 0 ->
  runqsteal dst src steal w = Done 0 w.
Proof.
  intros Hd Hs He Hn. unfold runqsteal. step.
  erewrite bind_done; cycle 1.
  { unfold runqgrab. apply loop_first. do 2 step.
    unfold runqgrab_body. cbv zeta. rewrite He, Z.sub_diag.
    change (uint32 (uint32 0 - uint32 0 / 2) =? 0) with true. cbv iota.
    destruct steal; [|reflexivity].
    step. rewrite Hn. reflexivity. }
  reflexivity.
Qed.

Lemma try_victims_nothing i pp flag : forall vs w,
  has_p w i pp -> sched_gcwaiting (sched w) = 0 ->
  (forall v, v ∈ vs -> exists pv, has_p w (Z.to_nat v) pv /\
                                  p_runqhead pv = p_runqtail pv /\ p_runnext pv = 0) ->
  try_victims i flag vs w = Done None w.
Proof.
  induction vs as [|v vs IH]; intros w Hp Hgc Hall; [reflexivity|].
  simpl try_victims. rewrite bind_eq.
  change (get_sched w) with (Done (sched w) w). cbv beta iota.
  rewrite Hgc. change (negb (0 =? 0)) with false. cbv iota.
  destruct (Hall v) as (pv & Hv & He & Hn); [apply list_elem_of_here|].
  rewrite bind_eq, (runqsteal_nothing w i (Z.to_nat v) pp pv flag Hp Hv He Hn).
  cbv beta iota. change (negb (0 =? 0)) with false. cbv iota.
  apply IH; [exact Hp | exact Hgc|].
  intros v' Hv'. apply Hall. apply list_elem_of_further. exact Hv'.
Qed.

(** One pass over P's that have nothing to steal draws its seed and leaves
    the loop without a result. *)
Lemma steal_pass_nothing i pp k w count :
  stealOrder w = randomOrder_reset count -> 1 <= count < 2147483648 ->
  has_p w i pp -> sched_gcwaiting (sched w) = 0 ->
  (forall v, 0 <= v < count ->
     exists pv, has_p w (Z.to_nat v) pv /\
                p_runqhead pv = p_runqtail pv /\ p_runnext pv = 0) ->
  steal_pass i k w = Done None (w_set_rng_pos (S (rng_pos w)) w).
Proof.
  intros Hord Hc Hp Hgc Hall.
  set (w1 := w_set_rng_pos (S (rng_pos w)) w).
  set (seed := uint32 (rng w (rng_pos w))).
  assert (Hseed : 0 <= seed) by apply uint32_range.
  destruct (start_reset w1 count seed ltac:(lia) Hseed) as (inc & Hstart & Hinc & Hg).
  unfold steal_pass. rewrite bind_eq.
  change (fastrand w) with (Done seed w1). cbv beta iota.
  rewrite bind_eq. change (gets stealOrder w1) with (Done (stealOrder w) w1). cbv beta iota.
  rewrite Hord, bind_eq, Hstart. cbv beta iota.
  rewrite enum_for_try_victims by (simpl; lia).
  apply (try_victims_nothing i pp); [exact Hp | exact Hgc|].
  intros v Hv.
  assert (Hperm : enum_positions (Z.to_nat count) (mkEnum 0 count (seed mod count) inc)
                  ≡ₚ seqZ 0 count).
  { apply positions_permutation; try assumption. apply Z.mod_pos_bound. lia. }
  change (enum_count (mkEnum 0 count (seed mod count) inc)) with count in Hv.
  rewrite Hperm in Hv. apply elem_of_seqZ in Hv. apply Hall. lia.
Qed.

(** X16. When no P has anything to steal (every ring and every runnext slot
    is empty) and no collection is waiting, the stealing phase of a spinning
    M, or of an M that may start to spin, makes its four passes and gives
    up: it goes to [stop] having drawn four random seeds and changed no P
    and no g; the M is spinning afterwards, and counted as such. *)
Theorem findrunnable_steal_finds_nothing (w : world) (i : nat) (pp : p) (count : Z) :
  m_p (curm w) = Some i -> has_p w i pp ->
  gomaxprocs w = count -> stealOrder w = randomOrder_reset count ->
  1 <= count < 2147483648 ->
  0 <= sched_npidle (sched w) <= count -> sched_npidle (sched w) <> count - 1 ->
  0 <= sched_nmspinning (sched w) < 2147483648 ->
  (m_spinning (curm w) = true \/
   2 * sched_nmspinning (sched w) < count - sched_npidle (sched w)) ->
  sched_gcwaiting (sched w) = 0 ->
  (forall v, 0 <= v < count ->
     exists pv, has_p w (Z.to_nat v) pv /\
                p_runqhead pv = p_runqtail pv /\ p_runnext pv = 0) ->
  let n' := if m_spinning (curm w) then sched_nmspinning (sched w)
            else sched_nmspinning (sched w) + 1 in
  findrunnable_steal w
  = Done StealStop
      (w_set_rng_pos (rng_pos w + 4)
         (w_set_sched (sched_set_nmspinning n' (sched w))
            (w_set_curm (m_set_spinning true (curm w)) w))).
Proof.
  intros Hmp Hp Hprocs Hord Hc Hidle Hne Hspin Hgate Hgc Hall n'.
  assert (Hcur : curp w = Done i w) by (unfold curp; rewrite Hmp; reflexivity).
  assert (E1 : uint32 (gomaxprocs w) = count) by (rewrite Hprocs; apply uint32_id; unfold is_uint32; lia).
  assert (E2 : uint32 (count - 1) = count - 1) by (apply uint32_id; unfold is_uint32; lia).
  assert (E3 : uint32 (2 * sched_nmspinning (sched w)) = 2 * sched_nmspinning (sched w))
    by (apply uint32_id; unfold is_uint32; lia).
  assert (E4 : uint32 (count - sched_npidle (sched w)) = count - sched_npidle (sched w))
    by (apply uint32_id; unfold is_uint32; lia).
  set (w0 := w_set_sched (sched_set_nmspinning n' (sched w))
               (w_set_curm (m_set_spinning true (curm w)) w)).
  assert (Hpass : forall k wk, stealOrder wk = stealOrder w -> allp wk = allp w ->
            sched_gcwaiting (sched wk) = 0 ->
            steal_pass i k wk = Done None (w_set_rng_pos (S (rng_pos wk)) wk)).
  { intros k wk Ho Ha Hg. apply (steal_pass_nothing i pp k wk count).
    - rewrite Ho. exact Hord.
    - exact Hc.
    - unfold has_p. rewrite Ha. exact Hp.
    - exact Hg.
    - intros v Hv. destruct (Hall v Hv) as (pv & H1 & H2). exists pv.
      split; [unfold has_p; rewrite Ha; exact H1 | exact H2]. }
  assert (Hloop : (let* r := for_until 0 4 (steal_pass i) in
                   match r with Some e => ret e | None => ret StealStop end) w0
                  = Done StealStop (w_set_rng_pos (rng_pos w + 4) w0)).
  { simpl for_until.
    rewrite bind_eq, bind_eq, (Hpass 0 w0) by (try reflexivity; exact Hgc). cbv beta iota.
    rewrite bind_eq, (Hpass (0 + 1)) by (try reflexivity; exact Hgc). cbv beta iota.
    rewrite bind_eq, (Hpass (0 + 1 + 1)) by (try reflexivity; exact Hgc). cbv beta iota.
    rewrite bind_eq, (Hpass (0 + 1 + 1 + 1)) by (try reflexivity; exact Hgc). cbv beta iota.
    unfold ret, bind.
    replace (rng_pos w + 4)%nat with (S (S (S (S (rng_pos w))))) by lia.
    reflexivity. }
  unfold findrunnable_steal. rewrite bind_eq, Hcur. cbv beta iota.
  rewrite bind_eq. change (gets _ w) with (Done (uint32 (gomaxprocs w)) w). cbv beta iota.
  rewrite bind_eq. change (get_sched w) with (Done (sched w) w). cbv beta iota.
  rewrite E1, E2.
  destruct (Z.eqb_spec (sched_npidle (sched w)) (count - 1)) as [?|_]; [contradiction|].
  rewrite bind_eq. change (gets _ w) with (Done (m_spinning (curm w)) w). cbv beta iota.
  rewrite bind_eq. change (get_sched w) with (Done (sched w) w). cbv beta iota.
  rewrite E3, E4.
  unfold w0, n' in *. clear w0 n'.
  destruct (m_spinning (curm w)) eqn:Esp.
  - cbn [negb andb]. cbv beta iota.
    rewrite bind_eq. unfold gets at 1. cbv beta iota. rewrite Esp.
    cbn [negb]. unfold when.
    rewrite bind_eq. change (ret tt w) with (Done tt w). cbv beta iota.
    assert (Hw0 : w_set_sched (sched_set_nmspinning (sched_nmspinning (sched w)) (sched w))
                    (w_set_curm (m_set_spinning true (curm w)) w) = w).
    { clear - Esp. destruct w as [? ? ? s ? ? c ? ? ? ? ? ? ? ? ? ?]. simpl in *.
      destruct s, c. simpl in *. subst. reflexivity. }
    rewrite Hw0 in Hloop |- *. exact Hloop.
  - cbn [negb andb].
    destruct Hgate as [?|Hlt]; [discriminate|].
    destruct (Z.geb_spec (2 * sched_nmspinning (sched w)) (count - sched_npidle (sched w)));
      [lia|].
    cbv beta iota.
    rewrite bind_eq. unfold gets at 1. cbv beta iota. rewrite Esp.
    cbn [negb]. unfold when. rewrite bind_eq, bind_eq.
    unfold mod_m, mod_sched, modify. cbv beta iota.
    cbn [sched w_set_curm].
    rewrite (uint32_id (sched_nmspinning (sched w) + 1)) by (unfold is_uint32; lia).
    exact Hloop.
Qed.

Lemma findrunnable_steal_finds_nothing_witness :
  let w := w_set_stealOrder (randomOrder_reset 4)
             (world_with [] [p_with [] 0; p_with [] 0; p_with [] 0; p_with [] 0] false) in
  findrunnable_steal w
  = Done StealStop
      (w_set_rng_pos 4
         (w_set_sched (sched_set_nmspinning 1 (sched w))
            (w_set_curm (m_set_spinning true (curm w)) w))).
Proof.
  intros w.
  assert (Hall : forall v, 0 <= v < 4 ->
            exists pv, has_p w (Z.to_nat v) pv /\
                       p_runqhead pv = p_runqtail pv /\ p_runnext pv = 0).
  { intros v Hv. exists (p_with [] 0).
    assert (Hcase : v = 0 \/ v = 1 \/ v = 2 \/ v = 3) by lia.
    destruct Hcase as [-> | [-> | [-> | ->]]]; repeat split. }
  apply (findrunnable_steal_finds_nothing w 0 (p_with [] 0) 4);
    [reflexivity | reflexivity | reflexivity | reflexivity | lia
    | vm_compute; split; congruence | vm_compute; congruence
    | vm_compute; split; congruence | right; vm_compute; reflexivity
    | reflexivity | exact Hall].
Defined.

(** ** A pass of retake *)














(** ** The random order of the P's *)

(** X19. [gcd] computes the greatest common divisor of two 32-bit numbers:
    its result is the one of the mathematical [Z.gcd], it fits in 32 bits,
    and [gcd(a, 0)] is [a]. *)
Theorem gcd_computes_gcd (a b : Z) :
  is_uint32 a -> is_uint32 b ->
  gcd a b = Z.gcd a b /\ is_uint32 (gcd a b) /\ gcd a 0 = a.
Proof.
  unfold is_uint32. intros Ha Hb.
  assert (H : gcd a b = Z.gcd a b) by (apply gcd_gcd; lia).
  split; [exact H|]. split; [|reflexivity].
  rewrite H. pose proof (Z.gcd_nonneg a b).
  destruct (Z.eq_dec b 0) as [->|Hb0].
  - rewrite Z.gcd_0_r, Z.abs_eq by lia. lia.
  - assert (Z.gcd a b <= b); [|lia].
    apply Z.divide_pos_le; [lia | apply Z.gcd_divide_r].
Qed.

Lemma gcd_computes_gcd_witness : gcd 12 18 = 6.
Proof.
  assert (Ha : is_uint32 12) by (unfold is_uint32; lia).
  assert (Hb : is_uint32 18) by (unfold is_uint32; lia).
  destruct (gcd_computes_gcd 12 18 Ha Hb) as (H & _).
  rewrite H. reflexivity.
Defined.

(** X20. [reset(count)] keeps, in increasing order, exactly the numbers of
    [1 .. count] that are coprime to [count]; for [count >= 1] the list
    holds 1, so that [start(i)] does not fail: it returns an enumeration at
    step 0 that starts at [i % count] and whose stride is coprime to
    [count].  After [reset(0)], [start] panics with a division by zero. *)
Theorem reset_then_start (count i : Z) (w : world) :
  0 <= count < 2147483648 -> 0 <= i ->
  ord_count (randomOrder_reset count) = count /\
  ord_coprimes (randomOrder_reset count)
  = filter (fun c => Z.gcd c count = 1) (seqZ 1 count) /\
  (1 <= count ->
   exists inc,
     randomOrder_start (randomOrder_reset count) i w
     = Done (mkEnum 0 count (i mod count) inc) w /\
     1 <= inc <= count /\ Z.gcd inc count = 1) /\
  (count = 0 ->
   randomOrder_start (randomOrder_reset count) i w
   = Fail (Panic "integer divide by zero")).
Proof.
  intros Hc Hi. split; [reflexivity|]. split; [|split].
  - unfold randomOrder_reset. cbn [ord_coprimes].
    rewrite reset_loop_spec by lia. rewrite Z2Nat.id by lia. reflexivity.
  - intros H1. apply start_reset; lia.
  - intros ->. reflexivity.
Qed.

Lemma reset_then_start_witness :
  ord_coprimes (randomOrder_reset 8) = [1; 3; 5; 7] /\
  exists inc,
    randomOrder_start (randomOrder_reset 8) 13 ready_idle_world
    = Done (mkEnum 0 8 5 inc) ready_idle_world.
Proof.
  assert (Hc : 0 <= 8 < 2147483648) by lia.
  assert (Hi : 0 <= 13) by lia.
  destruct (reset_then_start 8 13 ready_idle_world Hc Hi) as (_ & Hl & Hs & _).
  split.
  - rewrite Hl. vm_compute. reflexivity.
  - destruct (Hs ltac:(lia)) as (inc & Hr & _). exists inc. exact Hr.
Defined.

(** ** Emptiness of the local run queue *)

(** X21. [runqempty] answers for the queue as a whole and changes nothing:
    it returns true exactly when the ring holds no g and the runnext slot is
    empty.  When it returns true, [runqget] returns nil and changes nothing;
    when it returns false, [runqget] returns the g of the runnext slot if
    there is one (with [inheritTime] true) and the first g of the ring
    otherwise. *)
Theorem runqempty_exact (w : world) (i : nat) (pp : p) :
  has_p w i pp -> p_wf pp ->
  let empty := (p_runqhead pp =? p_runqtail pp) && (p_runnext pp =? 0) in
  runqempty i w = Done empty w /\
  (empty = true <-> runq_list pp = [] /\ p_runnext pp = 0) /\
  (empty = true -> runqget i w = Done (0, false) w) /\
  (empty = false ->
   exists pp',
     runqget i w
     = Done (if p_runnext pp =? 0 then (default 0 (head (runq_list pp)), false)
             else (p_runnext pp, true)) (upd_p i pp' w)).
Proof.
  intros Hp Hwf empty. pose proof Hwf as (Hh & Ht & Hl).
  assert (Hnil : runq_list pp = [] <-> p_runqhead pp = p_runqtail pp).
  { rewrite <- length_zero_iff_nil, runq_list_length.
    pose proof (runq_count_range pp) as Hr.
    unfold runq_count, uint32 in *. unfold is_uint32 in Hh, Ht. split.
    - intros Hz. assert (Hm : (p_runqtail pp - p_runqhead pp) mod 4294967296 = 0) by lia.
      apply Z.mod_divide in Hm; [|lia]. destruct Hm as [q Hq]. lia.
    - intros ->. rewrite Z.sub_diag. reflexivity. }
  split; [apply runqempty_has; exact Hp|].
  split.
  { unfold empty. rewrite andb_true_iff, !Z.eqb_eq, Hnil. reflexivity. }
  split.
  - unfold empty. rewrite andb_true_iff, !Z.eqb_eq. intros [He Hn].
    apply (runqget_none _ _ _ Hp Hn). symmetry. exact He.
  - unfold empty. intros He.
    destruct (Z.eqb_spec (p_runnext pp) 0) as [Hn|Hn].
    + rewrite andb_true_r in He. apply Z.eqb_neq in He.
      exists (p_pop pp). rewrite (runqget_ring _ _ _ Hp Hn) by congruence.
      destruct (runq_list_pop pp Hwf) as (Hlist & _).
      { intros Hc. apply He. apply Hnil. apply length_zero_iff_nil.
        rewrite runq_list_length, Hc. reflexivity. }
      rewrite Hlist. reflexivity.
    + exists (p_set_runnext 0 pp). apply (runqget_runnext _ _ _ Hp Hn).
Qed.

Lemma runqempty_exact_witness :
  runqempty 0 (upd_p 0 (p_with [5; 6] 0) ready_idle_world)
  = Done false (upd_p 0 (p_with [5; 6] 0) ready_idle_world) /\
  exists pp',
    runqget 0 (upd_p 0 (p_with [5; 6] 0) ready_idle_world)
    = Done (5, false) (upd_p 0 pp' (upd_p 0 (p_with [5; 6] 0) ready_idle_world)).
Proof.
  set (w := upd_p 0 (p_with [5; 6] 0) ready_idle_world).
  assert (Hp : has_p w 0 (p_with [5; 6] 0)) by reflexivity.
  assert (Hwf : p_wf (p_with [5; 6] 0)) by (repeat split; vm_compute; congruence).
  destruct (runqempty_exact w 0 (p_with [5; 6] 0) Hp Hwf) as (He & _ & _ & Hg).
  split; [exact He|].
  destruct (Hg eq_refl) as (pp' & Hr). exists pp'. exact Hr.
Defined.

(** ** The ways casgstatus ends *)

(** X22. The ways [casgstatus] ends.  With arguments that carry a scan bit
    or are equal it throws, and so it does when asked to leave running while
    [gcscanvalid] is set.  Otherwise, if the g has status [oldval] it
    returns with the status [newval], having cleared [gcscanvalid] if
    [newval] is running; if the g has another status it throws when it
    waits for waiting and sees runnable, and else it does not return: the
    loop goes round until the fuel is used up. *)
Theorem casgstatus_outcomes (w : world) (gp : guintptr) (gv : g) (oldval newval : Z) :
  heap w !! gp = Some gv -> gp <> 0 ->
  let valid := (Z.land oldval _Gscan =? 0) && (Z.land newval _Gscan =? 0)
               && negb (oldval =? newval) in
  let stale := (oldval =? _Grunning) && g_gcscanvalid gv in
  casgstatus gp oldval newval w
  = if negb valid then Fail (Throw "casgstatus: bad incoming values")
    else if stale then Fail (Throw "casgstatus")
    else if g_atomicstatus gv =? oldval then
      Done tt (upd_g gp
                 ((if newval =? _Grunning then g_set_gcscanvalid false else id)
                    (g_set_atomicstatus newval gv)) w)
    else if (oldval =? _Gwaiting) && (g_atomicstatus gv =? _Grunnable)
    then Fail (Throw "casgstatus: waiting for Gwaiting but is Grunnable")
    else Fail OutOfFuel.
Proof.
  intros Hg Hnz valid stale. unfold casgstatus.
  replace (negb (Z.land oldval _Gscan =? 0) || negb (Z.land newval _Gscan =? 0)
           || (oldval =? newval)) with (negb valid)
    by (unfold valid; destruct (Z.land oldval _Gscan =? 0),
          (Z.land newval _Gscan =? 0), (oldval =? newval); reflexivity).
  destruct valid; [|reflexivity]. cbn [negb]. cbv iota.
  rewrite bind_eq.
  assert (Hbad : (if oldval =? _Grunning
                  then let* gv := readg gp in ret (g_gcscanvalid gv)
                  else ret false) w = Done stale w).
  { unfold stale. destruct (oldval =? _Grunning); [|reflexivity].
    rewrite bind_eq, (readg_has _ _ _ Hg Hnz). reflexivity. }
  rewrite Hbad. cbv beta iota. destruct stale; [reflexivity|].
  rewrite bind_eq.
  destruct (g_atomicstatus gv =? oldval) eqn:Es.
  - erewrite loop_first; cycle 1.
    { rewrite bind_eq, (cas_gstatus_has _ _ _ _ _ Hg Hnz), Es. reflexivity. }
    cbv beta iota. destruct (newval =? _Grunning).
    + unfold when. rewrite (modg_has _ _ _ _ (upd_g_lookup _ _ _) Hnz), upd_g_twice.
      reflexivity.
    + reflexivity.
  - destruct ((oldval =? _Gwaiting) && (g_atomicstatus gv =? _Grunnable)) eqn:Ew.
    + unfold loop. destruct (fuel w); simpl loop_n;
        rewrite bind_eq, (cas_gstatus_has _ _ _ _ _ Hg Hnz), Es; cbv beta iota;
        rewrite bind_eq, (readg_has _ _ _ Hg Hnz); cbv beta iota; rewrite Ew;
        reflexivity.
    + assert (Hloop : forall n w0, heap w0 !! gp = Some gv ->
                loop_n n
                  (let* ok := cas_gstatus gp oldval newval in
                   if ok then ret (Some tt) else
                   let* gv := readg gp in
                   if (oldval =? _Gwaiting) && (g_atomicstatus gv =? _Grunnable)
                   then throw "casgstatus: waiting for Gwaiting but is Grunnable"
                   else emit EvProcyield ;;; ret None) w0 = Fail OutOfFuel).
      { induction n as [|n IH]; intros w0 H0; simpl loop_n;
          rewrite bind_eq, (cas_gstatus_has _ _ _ _ _ H0 Hnz), Es; cbv beta iota;
          rewrite bind_eq, (readg_has _ _ _ H0 Hnz); cbv beta iota; rewrite Ew;
          cbv beta iota; unfold emit, modify, bind, ret; cbv beta iota.
        - reflexivity.
        - apply IH. exact H0. }
      unfold loop. rewrite Hloop by exact Hg. reflexivity.
Qed.

Lemma casgstatus_outcomes_witness :
  casgstatus 2 _Gwaiting _Grunning ready_idle_world
  = Done tt (upd_g 2 (g_with _Grunning 0) ready_idle_world) /\
  casgstatus 1 _Gwaiting _Grunnable ready_idle_world = Fail OutOfFuel.
Proof.
  assert (H2 : heap ready_idle_world !! 2 = Some (g_with _Gwaiting 0)) by reflexivity.
  assert (H1 : heap ready_idle_world !! 1 = Some (g_with _Grunning 0)) by reflexivity.
  split.
  - rewrite (casgstatus_outcomes ready_idle_world 2 _ _Gwaiting _Grunning H2 ltac:(lia)).
    reflexivity.
  - rewrite (casgstatus_outcomes ready_idle_world 1 _ _Gwaiting _Grunnable H1 ltac:(lia)).
    reflexivity.
Defined.

(** ** A new g and the list of all g's *)

(** X23. A g fresh from [malg] is at an address that is neither nil nor in
    use, is in status idle and, for a stack size that is not negative, has a
    stack.  [allgadd] refuses it as it is: only after its status has left
    idle (newproc1 makes it dead) does [allgadd] append it to [allgs], at the
    end, taking and releasing the lock of the list; no other g is
    touched. *)
Theorem malg_then_allgadd (pl : platform) (w : world) (stacksize : Z) :
  stack_ok pl -> 0 <= stacksize -> allglock w = false ->
  let a := new_g_addr w in
  a <> 0 /\ heap w !! a = None /\
  (let* newg := malg pl stacksize in allgadd newg) w
  = Fail (Throw "allgadd: bad status Gidle") /\
  exists w' gv,
    (let* newg := malg pl stacksize in
     casgstatus newg _Gidle _Gdead ;;; allgadd newg ;;; ret newg) w = Done a w' /\
    allgs w' = allgs w ++ [a] /\ allglock w' = false /\
    heap w' = <[a := gv]> (heap w) /\
    g_atomicstatus gv = _Gdead /\ g_stack_hi gv <> 0.
Proof.
  intros Hok Hsz Hlk a.
  destruct (new_g_addr_fresh w) as (Hnz & Hfresh).
  destruct (malg_has pl w stacksize Hok Hsz)
    as (w1 & gv1 & Hmalg & Hh1 & Hst1 & Hl1 & Hhi1 & Ha1 & Hgs1 & Hlk1 & Hsame1).
  fold a in Hmalg, Hh1, Hnz, Hfresh.
  assert (Hg1 : heap w1 !! a = Some gv1) by (rewrite Hh1; apply lookup_insert_eq).
  split; [exact Hnz|]. split; [exact Hfresh|]. split.
  - rewrite bind_eq, Hmalg. cbv beta iota.
    unfold allgadd. rewrite bind_eq, (readgstatus_has _ _ _ Hg1 Hnz), Hst1. reflexivity.
  - set (gv2 := g_set_atomicstatus _Gdead gv1).
    set (w2 := upd_g a gv2 w1).
    exists (w_set_allglock false (w_set_allgs (allgs w2 ++ [a]) (w_set_allglock true w2))), gv2.
    split.
    { rewrite bind_eq, Hmalg. cbv beta iota.
      rewrite bind_eq.
      erewrite (casgstatus_done w1 a gv1 _Gidle _Gdead);
        [| exact Hg1 | exact Hnz | exact Hst1 | reflexivity | reflexivity
         | discriminate | discriminate | discriminate].
      cbv beta iota. fold gv2 w2.
      erewrite bind_done; cycle 1.
      { unfold allgadd.
        rewrite bind_eq, (readgstatus_has w2 a gv2 (upd_g_lookup _ _ _) Hnz).
        cbv beta iota.
        change (g_atomicstatus gv2 =? _Gidle) with false. cbv iota.
        rewrite bind_eq. unfold lock_allg at 1.
        assert (Hl2 : allglock w2 = false) by (simpl; rewrite Hlk1; exact Hlk).
        rewrite Hl2. cbv beta iota.
        rewrite bind_eq. unfold modify at 1. cbv beta iota.
        unfold unlock_allg. simpl allglock. cbv iota. reflexivity. }
      reflexivity. }
    split; [cbn [allgs w_set_allglock w_set_allgs]; unfold w2;
            change (allgs (upd_g a gv2 w1)) with (allgs w1); rewrite Hgs1; reflexivity|].
    split; [reflexivity|].
    split.
    { cbn [heap w_set_allglock w_set_allgs]. unfold w2, upd_g. cbn [heap w_set_heap].
      rewrite Hh1, insert_insert_eq. reflexivity. }
    split; [reflexivity | exact Hhi1].
Qed.

Lemma malg_then_allgadd_witness :
  exists w' gv,
    (let* newg := malg platform_amd64 2048 in
     casgstatus newg _Gidle _Gdead ;;; allgadd newg ;;; ret newg) ready_idle_world
    = Done (new_g_addr ready_idle_world) w' /\
    allgs w' = [1; 2; new_g_addr ready_idle_world] /\
    heap w' !! new_g_addr ready_idle_world = Some gv /\ g_atomicstatus gv = _Gdead.
Proof.
  assert (Hok : stack_ok platform_amd64).
  { intros n w. unfold platform_amd64. cbn [stackalloc snd].
    pose proof (uint32_range n) as Hr. unfold is_uint32 in Hr. lia. }
  destruct (malg_then_allgadd platform_amd64 ready_idle_world 2048 Hok ltac:(lia) eq_refl)
    as (_ & _ & _ & w' & gv & Hr & Ha & _ & Hh & Hst & _).
  exists w', gv. split; [exact Hr|]. split; [exact Ha|].
  split; [rewrite Hh; apply lookup_insert_eq | exact Hst].
Defined.

(** ** An M and its P *)

Lemma xbind_eq {S A B} (c : X S A) (k : A -> X S B) l w :
  xbind c k l w
  = match c l w with
    | Done r w' => k (fst r) (snd r) w'
    | Fail e => Fail e
    end.
Proof. reflexivity. Qed.

Lemma lift_eq {S A} (c : M A) (l : S) w :
  lift c l w = match c w with Done a w' => Done (a, l) w' | Fail e => Fail e end.
Proof. reflexivity. Qed.

(** Steps of code over the links. *)
Ltac xget := rewrite xbind_eq; unfold getl at 1, ret at 1; cbv beta iota; cbn [fst snd].
Ltac xmod := rewrite xbind_eq; unfold modl at 1, ret at 1; cbv beta iota; cbn [fst snd].
Tactic Notation "xlift" uconstr(lem) :=
  rewrite xbind_eq, lift_eq, lem; cbv beta iota; cbn [fst snd].

Lemma gets_eq {A} (f : world -> A) w : gets f w = Done (f w) w.
Proof. reflexivity. Qed.
Lemma mod_m_eq f w : mod_m f w = Done tt (w_set_curm (f (curm w)) w).
Proof. reflexivity. Qed.
Lemma mod_sched_eq f w : mod_sched f w = Done tt (w_set_sched (f (sched w)) w).
Proof. reflexivity. Qed.

Lemma acquirep1_has w lk i pp :
  m_p (curm w) = None -> m_mcache lk = 0 ->
  has_p w i pp -> p_status pp = _Pidle -> p_m_at lk i = 0 ->
  acquirep1 i lk w
  = Done (tt, links_set_p_m (<[i := m_self lk]> (p_m lk)) lk)
         (upd_p i (p_set_status _Prunning pp)
            (w_set_curm (m_set_p (Some i) (curm w)) w)).
Proof.
  intros Hmp Hmc Hp Hst Hpm. unfold acquirep1.
  xlift @gets_eq. rewrite Hmp. xget. rewrite Hmc.
  rewrite bool_decide_eq_true_2 by reflexivity.
  change (negb true || negb (0 =? 0)) with false. cbv iota.
  xlift (getp_has _ _ _ Hp). xget. rewrite Hpm, Hst.
  change (negb (0 =? 0) || negb (_Pidle =? _Pidle)) with false. cbv iota.
  xlift mod_m_eq. xmod.
  assert (Hp1 : has_p (w_set_curm (m_set_p (Some i) (curm w)) w) i pp) by exact Hp.
  rewrite lift_eq, (modp_has _ _ _ _ Hp1). reflexivity.
Qed.

Lemma acquirep_has w lk i pp :
  m_p (curm w) = None -> m_mcache lk = 0 ->
  has_p w i pp -> p_status pp = _Pidle -> p_m_at lk i = 0 ->
  acquirep i lk w
  = Done (tt, links_set_m_mcache (p_mcache_at lk i)
                (links_set_p_m (<[i := m_self lk]> (p_m lk)) lk))
         (upd_p i (p_set_status _Prunning pp)
            (w_set_curm (m_set_p (Some i) (curm w)) w)).
Proof.
  intros Hmp Hmc Hp Hst Hpm. unfold acquirep.
  rewrite xbind_eq, (acquirep1_has w lk i pp Hmp Hmc Hp Hst Hpm). cbv beta iota.
  cbn [fst snd].
  assert (Hp1 : has_p (w_set_curm (m_set_p (Some i) (curm w)) w) i pp) by exact Hp.
  xlift (getp_has _ i (p_set_status _Prunning pp) (has_p_upd _ _ _ _ Hp1)).
  reflexivity.
Qed.

Lemma p_m_at_insert lk i v j :
  p_m_at (links_set_p_m (<[i := v]> (p_m lk)) lk) j = if decide (i = j) then v else p_m_at lk j.
Proof.
  unfold p_m_at. cbn [p_m links_set_p_m]. destruct (decide (i = j)) as [->|Hne].
  - rewrite lookup_insert_eq. reflexivity.
  - rewrite lookup_insert_ne by exact Hne. reflexivity.
Qed.

Lemma releasep_has w lk i pp :
  m_p (curm w) = Some i -> m_mcache lk <> 0 ->
  has_p w i pp -> p_status pp = _Prunning ->
  p_m_at lk i = m_self lk -> p_mcache_at lk i = m_mcache lk ->
  releasep lk w
  = Done (i, links_set_p_m (<[i := 0]> (p_m lk)) (links_set_m_mcache 0 lk))
         (upd_p i (p_set_status _Pidle pp)
            (w_set_curm (m_set_p None (curm w)) w)).
Proof.
  intros Hmp Hmc Hp Hst Hpm Hpc. unfold releasep.
  xlift @gets_eq. rewrite Hmp. xget.
  apply Z.eqb_neq in Hmc. rewrite Hmc.
  xlift (getp_has _ _ _ Hp). xget. unfold id.
  rewrite Hpm, Hpc, Hst, !Z.eqb_refl. cbn [negb orb]. cbv iota.
  xlift mod_m_eq. xmod. xmod.
  assert (Hp1 : has_p (w_set_curm (m_set_p None (curm w)) w) i pp) by exact Hp.
  xlift (modp_has _ _ _ _ Hp1). reflexivity.
Qed.

Lemma acquire_release_world w i pp :
  has_p w i pp -> p_status pp = _Pidle -> m_p (curm w) = None ->
  upd_p i (p_set_status _Pidle (p_set_status _Prunning pp))
    (w_set_curm (m_set_p None (m_set_p (Some i) (curm w)))
       (upd_p i (p_set_status _Prunning pp)
          (w_set_curm (m_set_p (Some i) (curm w)) w)))
  = w.
Proof.
  intros Hp Hst Hmp.
  assert (E1 : p_set_status _Pidle (p_set_status _Prunning pp) = pp).
  { destruct pp. simpl in *. subst. reflexivity. }
  assert (E2 : m_set_p None (m_set_p (Some i) (curm w)) = curm w).
  { destruct (curm w). simpl in *. subst. reflexivity. }
  rewrite E1, E2.
  change (upd_p i pp (w_set_curm (curm w) (upd_p i (p_set_status _Prunning pp)
            (w_set_curm (m_set_p (Some i) (curm w)) w))))
    with (w_set_curm (curm w) (upd_p i pp (upd_p i (p_set_status _Prunning pp) w))).
  rewrite upd_p_upd, (upd_p_same _ _ _ Hp). destruct w; reflexivity.
Qed.

(** X24. An M holds at most one P, and gives back what it took.  On an M
    without a P, [acquirep] of an idle P that no M owns makes the M hold the
    P: each points to the other, the P is running and the M uses the mcache
    of the P.  While it holds the P, another [acquirep] throws.  [releasep]
    then returns the same P and restores the state in which [acquirep] was
    called (the M has no P and no mcache, the P is idle and unowned), and a
    second [releasep] throws. *)
Theorem acquirep_releasep_roundtrip (w : world) (lk : links) (i : nat) (pp : p) :
  m_p (curm w) = None -> m_mcache lk = 0 ->
  has_p w i pp -> p_status pp = _Pidle -> p_m_at lk i = 0 ->
  m_self lk <> 0 -> p_mcache_at lk i <> 0 ->
  exists w1 lk1,
    acquirep i lk w = Done (tt, lk1) w1 /\ holds_p w1 lk1 i /\
    (forall j, acquirep j lk1 w1 = Fail (Throw "acquirep: already in go")) /\
    exists lk2,
      releasep lk1 w1 = Done (i, lk2) w /\
      (forall j, p_m_at lk2 j = p_m_at lk j) /\ m_mcache lk2 = 0 /\
      p_mcache lk2 = p_mcache lk /\ p_link lk2 = p_link lk /\
      m_self lk2 = m_self lk /\ sched_pidle lk2 = sched_pidle lk /\
      releasep lk2 w = Fail (Throw "releasep: invalid arg").
Proof.
  intros Hmp Hmc Hp Hst Hpm Hself Hpc.
  set (lk1 := links_set_m_mcache (p_mcache_at lk i)
                (links_set_p_m (<[i := m_self lk]> (p_m lk)) lk)).
  set (w1 := upd_p i (p_set_status _Prunning pp)
               (w_set_curm (m_set_p (Some i) (curm w)) w)).
  assert (Hp1 : has_p w1 i (p_set_status _Prunning pp)).
  { apply has_p_upd with (pp := pp). exact Hp. }
  assert (Hpm1 : p_m_at lk1 i = m_self lk1).
  { unfold lk1, p_m_at. cbn [p_m links_set_m_mcache links_set_p_m m_self].
    rewrite lookup_insert_eq. reflexivity. }
  exists w1, lk1.
  split; [apply acquirep_has; assumption|].
  split.
  { split; [reflexivity|]. split; [exact Hpm1|]. split.
    - unfold p_status_at. rewrite Hp1. reflexivity.
    - reflexivity. }
  split.
  { intros j. unfold acquirep, acquirep1.
    rewrite xbind_eq. xlift @gets_eq. reflexivity. }
  set (lk2 := links_set_p_m (<[i := 0]> (p_m lk1)) (links_set_m_mcache 0 lk1)).
  exists lk2.
  split.
  { rewrite (releasep_has w1 lk1 i (p_set_status _Prunning pp));
      [| reflexivity | exact Hpc | exact Hp1 | reflexivity | exact Hpm1 | reflexivity].
    fold lk2. f_equal. unfold w1. apply acquire_release_world; assumption. }
  split.
  { intros j. unfold lk2, lk1, p_m_at.
    cbn [p_m links_set_m_mcache links_set_p_m].
    destruct (decide (i = j)) as [->|Hne].
    - rewrite lookup_insert_eq. unfold p_m_at in Hpm. rewrite Hpm. reflexivity.
    - rewrite !lookup_insert_ne by exact Hne. reflexivity. }
  split; [reflexivity|]. split; [reflexivity|]. split; [reflexivity|].
  split; [reflexivity|]. split; [reflexivity|].
  unfold releasep. xlift @gets_eq. rewrite Hmp. xget. reflexivity.
Qed.

Lemma acquirep_releasep_roundtrip_witness :
  let w := w_set_curm (m_set_p None (m_on 0))
             (world_with [] [p_set_status _Pidle (p_with [] 0)] false) in
  let lk := mkLinks ∅ {[0%nat := 77]} ∅ 99 0 None in
  exists w1 lk1 lk2,
    acquirep 0 lk w = Done (tt, lk1) w1 /\ holds_p w1 lk1 0 /\
    releasep lk1 w1 = Done (0%nat, lk2) w.
Proof.
  intros w lk.
  assert (Hp : has_p w 0 (p_set_status _Pidle (p_with [] 0))) by reflexivity.
  assert (Hself : m_self lk <> 0) by (cbn; lia).
  assert (Hpc : p_mcache_at lk 0 <> 0) by (vm_compute; congruence).
  destruct (acquirep_releasep_roundtrip w lk 0 _ eq_refl eq_refl Hp eq_refl eq_refl
              Hself Hpc)
    as (w1 & lk1 & Ha & Hh & _ & lk2 & Hr & _).
  exists w1, lk1, lk2. split; [exact Ha|]. split; [exact Hh | exact Hr].
Defined.

(** ** The list of idle P's *)

Lemma pseg_frame lk hd l x v :
  x ∉ l -> pseg lk hd l -> pseg (<[x := v]> lk) hd l.
Proof.
  revert hd. induction l as [|y l IH]; intros hd Hni H; [exact H|].
  destruct H as [-> H]. split; [reflexivity|].
  rewrite lookup_insert_ne by (intros ->; apply Hni; apply list_elem_of_here).
  apply IH; [|exact H]. intros Hin. apply Hni. apply list_elem_of_further. exact Hin.
Qed.

Lemma pidleput_has w lk i pp :
  has_p w i pp -> p_runqhead pp = p_runqtail pp -> p_runnext pp = 0 ->
  pidleput i lk w
  = Done (tt, links_set_pidle (Some i)
                (links_set_p_link (<[i := sched_pidle lk]> (p_link lk)) lk))
         (w_set_sched (sched_set_npidle (uint32 (sched_npidle (sched w) + 1)) (sched w)) w).
Proof.
  intros Hp He Hn. unfold pidleput.
  xlift (runqempty_has _ _ _ Hp). rewrite He, Hn, !Z.eqb_refl. cbn [andb negb]. cbv iota.
  xmod. xmod. rewrite lift_eq, mod_sched_eq. reflexivity.
Qed.

Lemma pidleget_some w lk i :
  sched_pidle lk = Some i ->
  pidleget lk w
  = Done (Some i, links_set_pidle (p_link_at lk i) lk)
         (w_set_sched (sched_set_npidle (uint32 (sched_npidle (sched w) - 1)) (sched w)) w).
Proof.
  intros Hs. unfold pidleget. xget. rewrite Hs. xmod.
  xlift mod_sched_eq. reflexivity.
Qed.

Lemma sched_set_npidle_id s : sched_set_npidle (sched_npidle s) s = s.
Proof. destruct s; reflexivity. Qed.

(** X25. The list of idle P's is a stack that keeps its invariant (the
    chain from [sched.pidle] has no repetition and [sched.npidle] is its
    length).  [pidleput] of a P with an empty run queue pushes it;
    [pidleget] right after returns that P and gives back the state before
    the push.  [pidleput] of a P with a g in its ring or in its runnext
    slot throws, and [pidleget] on an empty list returns nil and changes
    nothing. *)
Theorem pidle_last_in_first_out (w : world) (lk : links) (l : list nat)
    (i : nat) (pp : p) :
  pidle_inv w lk l -> has_p w i pp -> i ∉ l ->
  Z.of_nat (length l) + 1 < 4294967296 ->
  let empty := (p_runqhead pp =? p_runqtail pp) && (p_runnext pp =? 0) in
  (empty = false ->
   pidleput i lk w = Fail (Throw "pidleput: P has non-empty run queue")) /\
  (empty = true ->
   exists w1 lk1,
     pidleput i lk w = Done (tt, lk1) w1 /\ pidle_inv w1 lk1 (i :: l) /\
     allp w1 = allp w /\
     exists lk2,
       pidleget lk1 w1 = Done (Some i, lk2) w /\ pidle_inv w lk2 l /\
       sched_pidle lk2 = sched_pidle lk) /\
  (l = [] -> pidleget lk w = Done (None, lk) w).
Proof.
  intros (Hseg & Hnd & Hn) Hp Hni Hb empty. split; [|split].
  - intros He. unfold pidleput.
    xlift (runqempty_has _ _ _ Hp). fold empty. rewrite He. reflexivity.
  - unfold empty. rewrite andb_true_iff, !Z.eqb_eq. intros [He Hnx].
    set (lk1 := links_set_pidle (Some i)
                  (links_set_p_link (<[i := sched_pidle lk]> (p_link lk)) lk)).
    set (w1 := w_set_sched (sched_set_npidle (uint32 (sched_npidle (sched w) + 1))
                              (sched w)) w).
    exists w1, lk1.
    split; [apply (pidleput_has w lk i pp); assumption|].
    assert (Hseg1 : pseg (p_link lk1) (sched_pidle lk) l).
    { unfold lk1. cbn [p_link links_set_pidle links_set_p_link].
      apply pseg_frame; assumption. }
    split.
    { split.
      - split; [reflexivity|].
        unfold lk1 at 2. cbn [p_link links_set_pidle links_set_p_link].
        rewrite lookup_insert_eq. exact Hseg1.
      - split; [apply NoDup_cons; split; assumption|].
        unfold w1. cbn [sched w_set_sched sched_npidle sched_set_npidle].
        rewrite Hn, uint32_id by (unfold is_uint32; lia). simpl length. lia. }
    split; [reflexivity|].
    exists (links_set_pidle (p_link_at lk1 i) lk1).
    assert (Hlink : p_link_at lk1 i = sched_pidle lk).
    { unfold p_link_at, lk1. cbn [p_link links_set_pidle links_set_p_link].
      rewrite lookup_insert_eq. reflexivity. }
    split.
    { rewrite (pidleget_some w1 lk1 i eq_refl). f_equal.
      unfold w1. cbn [sched w_set_sched sched_npidle sched_set_npidle].
      rewrite Hn, (uint32_id (Z.of_nat (length l) + 1)) by (unfold is_uint32; lia).
      replace (Z.of_nat (length l) + 1 - 1) with (Z.of_nat (length l)) by lia.
      rewrite uint32_id by (unfold is_uint32; lia). rewrite <- Hn.
      change (w_set_sched ?s (w_set_sched ?s' w)) with (w_set_sched s w).
      change (sched_set_npidle ?a (sched_set_npidle ?b (sched w)))
        with (sched_set_npidle a (sched w)).
      rewrite sched_set_npidle_id, w_set_sched_id. reflexivity. }
    split.
    { split; [rewrite Hlink; exact Hseg1|]. split; [exact Hnd | exact Hn]. }
    exact Hlink.
  - intros ->. unfold pidleget. xget. simpl in Hseg. rewrite Hseg. reflexivity.
Qed.

Lemma pidle_last_in_first_out_witness :
  let lk := mkLinks ∅ ∅ ∅ 99 0 None in
  exists w1 lk1 lk2,
    pidleput 0 lk (world_with [] [p_with [] 0] false) = Done (tt, lk1) w1 /\
    pidle_inv w1 lk1 [0%nat] /\
    pidleget lk1 w1 = Done (Some 0%nat, lk2) (world_with [] [p_with [] 0] false).
Proof.
  intros lk.
  set (w := world_with [] [p_with [] 0] false).
  assert (Hinv : pidle_inv w lk []).
  { split; [reflexivity|]. split; [apply NoDup_nil_2 | reflexivity]. }
  assert (Hp : has_p w 0 (p_with [] 0)) by reflexivity.
  assert (Hni : 0%nat ∉ @nil nat) by apply not_elem_of_nil.
  assert (Hb : Z.of_nat (length (@nil nat)) + 1 < 4294967296) by (vm_compute; reflexivity).
  destruct (pidle_last_in_first_out w lk [] 0 _ Hinv Hp Hni Hb) as (_ & H & _).
  destruct (H eq_refl) as (w1 & lk1 & Hput & Hinv1 & _ & lk2 & Hget & _).
  exists w1, lk1, lk2. split; [exact Hput|]. split; [exact Hinv1 | exact Hget].
Defined.

Lemma release_acquire_world w i pp :
  has_p w i pp -> p_status pp = _Prunning -> m_p (curm w) = Some i ->
  upd_p i (p_set_status _Prunning (p_set_status _Pidle pp))
    (w_set_curm (m_set_p (Some i) (m_set_p None (curm w)))
       (upd_p i (p_set_status _Pidle pp)
          (w_set_curm (m_set_p None (curm w)) w)))
  = w.
Proof.
  intros Hp Hst Hmp.
  assert (E1 : p_set_status _Prunning (p_set_status _Pidle pp) = pp).
  { destruct pp. simpl in *. subst. reflexivity. }
  assert (E2 : m_set_p (Some i) (m_set_p None (curm w)) = curm w).
  { destruct (curm w). simpl in *. subst. reflexivity. }
  rewrite E1, E2.
  change (upd_p i pp (w_set_curm (curm w) (upd_p i (p_set_status _Pidle pp)
            (w_set_curm (m_set_p None (curm w)) w))))
    with (w_set_curm (curm w) (upd_p i pp (upd_p i (p_set_status _Pidle pp) w))).
  rewrite upd_p_upd, (upd_p_same _ _ _ Hp). destruct w; reflexivity.
Qed.

(** X26. The four operations fit together: when an M that holds a P with
    an empty run queue releases it and puts it on the list of idle P's, the
    P is in the state that [pidleput] and a later [acquirep] require, the
    next [pidleget] hands out this very P, and [acquirep] makes the M hold
    it again; the state is then the one from which the M started. *)
Theorem park_and_retake_same_p (w : world) (lk : links) (l : list nat)
    (i : nat) (pp : p) :
  holds_p w lk i -> has_p w i pp -> m_self lk <> 0 -> m_mcache lk <> 0 ->
  p_runqhead pp = p_runqtail pp -> p_runnext pp = 0 ->
  pidle_inv w lk l -> i ∉ l -> Z.of_nat (length l) + 1 < 4294967296 ->
  exists lk',
    park_and_retake lk w = Done (Some i, lk') w /\
    holds_p w lk' i /\ pidle_inv w lk' l.
Proof.
  intros (Hmp & Hpm & Hsi & Hmc) Hp Hself Hmcz He Hnx (Hseg & Hnd & Hn) Hni Hb.
  assert (Hst : p_status pp = _Prunning).
  { unfold p_status_at in Hsi. rewrite Hp in Hsi. congruence. }
  (* releasep *)
  set (lk1 := links_set_p_m (<[i := 0]> (p_m lk)) (links_set_m_mcache 0 lk)).
  set (w1 := upd_p i (p_set_status _Pidle pp) (w_set_curm (m_set_p None (curm w)) w)).
  assert (H1 : releasep lk w = Done (i, lk1) w1).
  { apply releasep_has; try assumption. symmetry. exact Hmc. }
  assert (Hp1 : has_p w1 i (p_set_status _Pidle pp)).
  { apply has_p_upd with (pp := pp). exact Hp. }
  (* pidleput *)
  set (lk2 := links_set_pidle (Some i)
                (links_set_p_link (<[i := sched_pidle lk1]> (p_link lk1)) lk1)).
  set (w2 := w_set_sched (sched_set_npidle (uint32 (sched_npidle (sched w1) + 1))
                            (sched w1)) w1).
  assert (H2 : pidleput i lk1 w1 = Done (tt, lk2) w2).
  { apply (pidleput_has w1 lk1 i (p_set_status _Pidle pp)); assumption. }
  (* pidleget *)
  set (lk3 := links_set_pidle (p_link_at lk2 i) lk2).
  assert (H3 : pidleget lk2 w2 = Done (Some i, lk3) w1).
  { rewrite (pidleget_some w2 lk2 i eq_refl). f_equal. fold lk3.
    unfold w2. cbn [sched w_set_sched sched_npidle sched_set_npidle].
    change (sched_npidle (sched w1)) with (sched_npidle (sched w)).
    rewrite Hn, (uint32_id (Z.of_nat (length l) + 1)) by (unfold is_uint32; lia).
    replace (Z.of_nat (length l) + 1 - 1) with (Z.of_nat (length l)) by lia.
    rewrite uint32_id by (unfold is_uint32; lia). rewrite <- Hn.
    change (sched_npidle (sched w)) with (sched_npidle (sched w1)).
    change (w_set_sched ?s (w_set_sched ?s' w1)) with (w_set_sched s w1).
    change (sched_set_npidle ?a (sched_set_npidle ?b (sched w1)))
      with (sched_set_npidle a (sched w1)).
    rewrite sched_set_npidle_id, w_set_sched_id. reflexivity. }
  (* acquirep *)
  assert (Hpm3 : p_m_at lk3 i = 0).
  { unfold p_m_at, lk3, lk2, lk1.
    cbn [p_m links_set_pidle links_set_p_link links_set_p_m links_set_m_mcache].
    rewrite lookup_insert_eq. reflexivity. }
  pose proof (acquirep_has w1 lk3 i (p_set_status _Pidle pp) eq_refl eq_refl Hp1
                eq_refl Hpm3) as H4.
  set (lk4 := links_set_m_mcache (p_mcache_at lk3 i)
                (links_set_p_m (<[i := m_self lk3]> (p_m lk3)) lk3)) in *.
  assert (Hw4 : upd_p i (p_set_status _Prunning (p_set_status _Pidle pp))
                  (w_set_curm (m_set_p (Some i) (curm w1)) w1) = w).
  { unfold w1. apply release_acquire_world; assumption. }
  rewrite Hw4 in H4.
  exists lk4. split; [|split].
  - unfold park_and_retake.
    rewrite xbind_eq, H1. cbv beta iota. cbn [fst snd].
    rewrite xbind_eq, H2. cbv beta iota. cbn [fst snd].
    rewrite xbind_eq, H3. cbv beta iota. cbn [fst snd].
    rewrite xbind_eq, H4. reflexivity.
  - split; [exact Hmp|]. split.
    + unfold p_m_at, lk4. cbn [p_m links_set_m_mcache links_set_p_m m_self].
      rewrite lookup_insert_eq. reflexivity.
    + split; [exact Hsi|]. reflexivity.
  - assert (Hlink : p_link_at lk2 i = sched_pidle lk).
    { unfold p_link_at, lk2. cbn [p_link links_set_pidle links_set_p_link].
      rewrite lookup_insert_eq. reflexivity. }
    split; [|split; [exact Hnd | exact Hn]].
    unfold lk4, lk3.
    cbn [p_link sched_pidle links_set_m_mcache links_set_p_m links_set_pidle].
    rewrite Hlink. unfold lk2, lk1.
    cbn [p_link sched_pidle links_set_m_mcache links_set_p_m links_set_pidle
         links_set_p_link].
    apply pseg_frame; assumption.
Qed.

Lemma park_and_retake_same_p_witness :
  let w := world_with [] [p_with [] 0] false in
  let lk := mkLinks {[0%nat := 99]} {[0%nat := 77]} ∅ 99 77 None in
  exists lk', park_and_retake lk w = Done (Some 0%nat, lk') w /\ holds_p w lk' 0.
Proof.
  intros w lk.
  assert (Hh : holds_p w lk 0) by (repeat split).
  assert (Hp : has_p w 0 (p_with [] 0)) by reflexivity.
  assert (Hself : m_self lk <> 0) by (cbn; lia).
  assert (Hmc : m_mcache lk <> 0) by (cbn; lia).
  assert (Hinv : pidle_inv w lk []).
  { split; [reflexivity|]. split; [apply NoDup_nil_2 | reflexivity]. }
  assert (Hni : 0%nat ∉ @nil nat) by apply not_elem_of_nil.
  assert (Hb : Z.of_nat (length (@nil nat)) + 1 < 4294967296) by (vm_compute; reflexivity).
  destruct (park_and_retake_same_p w lk [] 0 _ Hh Hp Hself Hmc eq_refl eq_refl
              Hinv Hni Hb) as (lk' & Hr & Hh' & _).
  exists lk'. split; [exact Hr | exact Hh'].
Defined.

(** ** Wiring a goroutine to its thread *)

Section TargetProofs.
Variable tg : target.
Variables (w : world) (gg : g).
Hypothesis Harch : String.eqb (GOARCH tg) "wasm" = false.
Hypothesis Hg : heap w !! getg w = Some gg.
Hypothesis Hgnz : getg w <> 0.

Lemma dolockOSThread_has t :
  dolockOSThread tg t w
  = Done (tt, tl_set_lockedm (<[getg w := this_m tg]> (g_lockedm t))
                (tl_set_lockedg (getg w) t)) w.
Proof.
  unfold dolockOSThread. rewrite Harch.
  xlift @gets_eq. xlift (readg_has _ _ _ Hg Hgnz). xmod. reflexivity.
Qed.

Lemma dounlockOSThread_has t :
  dounlockOSThread tg t w
  = Done (tt, if negb (lockedInt t =? 0) || negb (lockedExt t =? 0) then t
              else tl_set_lockedm (<[getg w := 0]> (g_lockedm t)) (tl_set_lockedg 0 t)) w.
Proof.
  unfold dounlockOSThread. rewrite Harch.
  xlift @gets_eq. xlift (readg_has _ _ _ Hg Hgnz). xget. unfold id.
  destruct (negb (lockedInt t =? 0) || negb (lockedExt t =? 0)); [reflexivity|].
  xmod. reflexivity.
Qed.

Lemma wired_after_lock t :
  wired tg w (tl_set_lockedm (<[getg w := this_m tg]> (g_lockedm t))
                (tl_set_lockedg (getg w) t)).
Proof.
  split; [reflexivity|]. unfold g_lockedm_at. cbn [g_lockedm tl_set_lockedm].
  rewrite lookup_insert_eq. reflexivity.
Qed.

Lemma LockOSThread_step t :
  0 <= lockedExt t < 4294967295 ->
  exists t', LockOSThread tg t w = Done (tt, t') w /\
    lockedExt t' = lockedExt t + 1 /\ lockedInt t' = lockedInt t /\
    wired tg w t'.
Proof.
  intros He. unfold LockOSThread. xget.
  set (t0 := if (haveTemplateThread t =? 0) && negb (String.eqb (GOOS tg) "plan9")
             then tl_set_template 1 (templateThreads t + 1) t else t).
  assert (Hstart : (if (haveTemplateThread t =? 0) && negb (String.eqb (GOOS tg) "plan9")
                    then startTemplateThread tg else xret tt) t w = Done (tt, t0) w).
  { unfold t0. destruct (haveTemplateThread t =? 0) eqn:Eh; [|reflexivity].
    destruct (negb (String.eqb (GOOS tg) "plan9")); [|reflexivity].
    cbn [andb]. unfold startTemplateThread. rewrite Harch. xget. rewrite Eh.
    cbn [negb]. cbv iota. xmod. reflexivity. }
  rewrite xbind_eq, Hstart. cbv beta iota. cbn [fst snd].
  assert (He0 : lockedExt t0 = lockedExt t).
  { unfold t0. destruct (_ && _); reflexivity. }
  assert (Hi0 : lockedInt t0 = lockedInt t).
  { unfold t0. destruct (_ && _); reflexivity. }
  xlift @gets_eq. xlift (readg_has _ _ _ Hg Hgnz). xmod. xget.
  cbn [lockedExt tl_set_lockedExt]. rewrite He0.
  rewrite uint32_id by (unfold is_uint32; lia).
  destruct (Z.eqb_spec (lockedExt t + 1) 0) as [?|_]; [lia|].
  rewrite dolockOSThread_has. eexists. split; [reflexivity|].
  split; [reflexivity|]. split; [exact Hi0|]. apply wired_after_lock.
Qed.

Lemma UnlockOSThread_step t :
  0 < lockedExt t < 4294967296 ->
  exists t', UnlockOSThread tg t w = Done (tt, t') w /\
    lockedExt t' = lockedExt t - 1 /\ lockedInt t' = lockedInt t /\
    (if (lockedInt t =? 0) && (lockedExt t =? 1) then unwired w t'
     else wired tg w t -> wired tg w t').
Proof.
  intros He. unfold UnlockOSThread.
  xlift @gets_eq. xlift (readg_has _ _ _ Hg Hgnz). xget.
  destruct (Z.eqb_spec (lockedExt t) 0) as [?|_]; [lia|].
  xmod. rewrite dounlockOSThread_has.
  cbn [lockedExt lockedInt tl_set_lockedExt].
  rewrite uint32_id by (unfold is_uint32; lia).
  replace (lockedExt t - 1 =? 0) with (lockedExt t =? 1)
    by (destruct (Z.eqb_spec (lockedExt t) 1), (Z.eqb_spec (lockedExt t - 1) 0); lia).
  eexists. split; [reflexivity|].
  destruct (lockedInt t =? 0), (lockedExt t =? 1); cbn [negb orb andb];
    (split; [reflexivity|]); (split; [reflexivity|]);
    try (intros H; exact H).
  split; [reflexivity|]. unfold g_lockedm_at. cbn [g_lockedm tl_set_lockedm].
  rewrite lookup_insert_eq. reflexivity.
Qed.

Lemma xtimes_S n (c : X threadlock unit) t :
  xtimes (S n) c t w
  = match c t w with Done r w' => xtimes n c (snd r) w' | Fail e => Fail e end.
Proof. reflexivity. Qed.

Lemma LockOSThread_times n : forall t,
  0 <= lockedExt t -> lockedExt t + Z.of_nat n < 4294967296 -> (0 < n)%nat ->
  exists t', xtimes n (LockOSThread tg) t w = Done (tt, t') w /\
    lockedExt t' = lockedExt t + Z.of_nat n /\ lockedInt t' = lockedInt t /\
    wired tg w t'.
Proof.
  induction n as [|n IH]; intros t H0 Hb Hn; [lia|].
  destruct (LockOSThread_step t ltac:(lia)) as (t1 & Hr1 & He1 & Hi1 & Hw1).
  rewrite xtimes_S, Hr1. cbn [snd].
  destruct n as [|n].
  - exists t1. split; [reflexivity|]. split; [lia|]. split; assumption.
  - destruct (IH t1 ltac:(lia) ltac:(lia) ltac:(lia)) as (t2 & Hr2 & He2 & Hi2 & Hw2).
    exists t2. split; [exact Hr2|]. split; [lia|]. split; [congruence | exact Hw2].
Qed.

Lemma UnlockOSThread_times n : forall t,
  Z.of_nat n <= lockedExt t < 4294967296 -> wired tg w t ->
  exists t', xtimes n (UnlockOSThread tg) t w = Done (tt, t') w /\
    lockedExt t' = lockedExt t - Z.of_nat n /\ lockedInt t' = lockedInt t /\
    (if (lockedInt t =? 0) && (lockedExt t =? Z.of_nat n) && negb (n =? 0)%nat
     then unwired w t' else wired tg w t').
Proof.
  induction n as [|n IH]; intros t Hb Hw.
  - exists t. split; [reflexivity|]. split; [simpl; lia|]. split; [reflexivity|].
    rewrite andb_false_r. exact Hw.
  - destruct (UnlockOSThread_step t ltac:(lia)) as (t1 & Hr1 & He1 & Hi1 & Hw1).
    rewrite xtimes_S, Hr1. cbn [snd].
    destruct n as [|n].
    + exists t1. split; [reflexivity|]. split; [lia|]. split; [exact Hi1|].
      change (Z.of_nat 1) with 1. cbn [Nat.eqb negb]. rewrite andb_true_r.
      destruct ((lockedInt t =? 0) && (lockedExt t =? 1)); [exact Hw1 | exact (Hw1 Hw)].
    + assert (Hne : (lockedInt t =? 0) && (lockedExt t =? 1) = false).
      { apply andb_false_iff. right. apply Z.eqb_neq. lia. }
      rewrite Hne in Hw1.
      destruct (IH t1 ltac:(lia) (Hw1 Hw)) as (t2 & Hr2 & He2 & Hi2 & Hw2).
      exists t2. split; [exact Hr2|]. split; [lia|]. split; [congruence|].
      rewrite Hi1 in Hw2.
      replace (lockedExt t1 =? Z.of_nat (S n)) with (lockedExt t =? Z.of_nat (S (S n)))
        in Hw2
        by (destruct (Z.eqb_spec (lockedExt t1) (Z.of_nat (S n))),
              (Z.eqb_spec (lockedExt t) (Z.of_nat (S (S n)))); lia).
      exact Hw2.
Qed.
End TargetProofs.

(** X27. The calls of [LockOSThread] nest.  From a state with no active
    call, after [n] calls the calling g is wired to its M and [lockedExt] is
    [n]; it stays wired through fewer than [n] calls of [UnlockOSThread],
    and the [n]-th unwires it, unless [lockOSThread] calls of the runtime
    itself are still active.  After that, [UnlockOSThread] is a no-op.
    [LockOSThread] panics rather than let the 32-bit counter wrap, and
    [unlockOSThread] without an active [lockOSThread] throws. *)
Theorem LockOSThread_nesting (tg : target) (w : world) (gg : g) (t : threadlock)
    (n : nat) :
  String.eqb (GOARCH tg) "wasm" = false ->
  heap w !! getg w = Some gg -> getg w <> 0 ->
  lockedExt t = 0 -> (0 < n)%nat -> Z.of_nat n < 4294967296 ->
  (exists t1,
     xtimes n (LockOSThread tg) t w = Done (tt, t1) w /\
     lockedExt t1 = Z.of_nat n /\ wired tg w t1 /\
     (forall k, (k < n)%nat ->
        exists t2, xtimes k (UnlockOSThread tg) t1 w = Done (tt, t2) w /\
                   wired tg w t2) /\
     exists t3,
       xtimes n (UnlockOSThread tg) t1 w = Done (tt, t3) w /\ lockedExt t3 = 0 /\
       (if lockedInt t =? 0 then unwired w t3 else wired tg w t3) /\
       UnlockOSThread tg t3 w = Done (tt, t3) w) /\
  (forall t', lockedExt t' = 4294967295 ->
     LockOSThread tg t' w = Fail (Panic "LockOSThread nesting overflow")) /\
  (forall t', lockedInt t' = 0 ->
     unlockOSThread tg t' w
     = Fail (Throw "runtime: internal error: misuse of lockOSThread/unlockOSThread")).
Proof.
  intros Harch Hg Hgnz He Hn Hb. split; [|split].
  - destruct (LockOSThread_times tg w gg Harch Hg Hgnz n t ltac:(lia) ltac:(lia) Hn)
      as (t1 & Hr1 & He1 & Hi1 & Hw1).
    exists t1. split; [exact Hr1|]. split; [lia|]. split; [exact Hw1|].
    split.
    + intros k Hk.
      destruct (UnlockOSThread_times tg w gg Harch Hg Hgnz k t1 ltac:(lia) Hw1)
        as (t2 & Hr2 & _ & _ & Hw2).
      exists t2. split; [exact Hr2|].
      replace (lockedExt t1 =? Z.of_nat k) with false in Hw2
        by (symmetry; apply Z.eqb_neq; lia).
      rewrite andb_false_r in Hw2. exact Hw2.
    + destruct (UnlockOSThread_times tg w gg Harch Hg Hgnz n t1 ltac:(lia) Hw1)
        as (t3 & Hr3 & He3 & Hi3 & Hw3).
      exists t3. split; [exact Hr3|]. split; [lia|].
      split.
      * rewrite Hi1 in Hw3.
        replace (lockedExt t1 =? Z.of_nat n) with true in Hw3
          by (symmetry; apply Z.eqb_eq; lia).
        replace (negb (n =? 0)%nat) with true in Hw3
          by (symmetry; apply negb_true_iff, Nat.eqb_neq; lia).
        rewrite !andb_true_r in Hw3. exact Hw3.
      * unfold UnlockOSThread.
        xlift @gets_eq. xlift (readg_has _ _ _ Hg Hgnz). xget.
        replace (lockedExt t3) with 0 by lia. reflexivity.
  - intros t' He'. unfold LockOSThread. xget.
    assert (Hstart : exists t0,
              (if (haveTemplateThread t' =? 0) && negb (String.eqb (GOOS tg) "plan9")
               then startTemplateThread tg else xret tt) t' w = Done (tt, t0) w /\
              lockedExt t0 = lockedExt t').
    { destruct (haveTemplateThread t' =? 0) eqn:Eh; [|eexists; split; reflexivity].
      destruct (negb (String.eqb (GOOS tg) "plan9")); [|eexists; split; reflexivity].
      cbn [andb]. unfold startTemplateThread. rewrite Harch. xget. rewrite Eh.
      cbn [negb]. cbv iota. xmod. eexists. split; reflexivity. }
    destruct Hstart as (t0 & Hstart & He0).
    rewrite xbind_eq, Hstart. cbv beta iota. cbn [fst snd].
    xlift @gets_eq. xlift (readg_has _ _ _ Hg Hgnz). xmod. xget.
    cbn [lockedExt tl_set_lockedExt]. rewrite He0, He'.
    change (uint32 (4294967295 + 1) =? 0) with true. cbv iota.
    xmod. reflexivity.
  - intros t' Hi'. unfold unlockOSThread.
    xlift @gets_eq. xlift (readg_has _ _ _ Hg Hgnz). xget. rewrite Hi'.
    rewrite xbind_eq. reflexivity.
Qed.

Lemma LockOSThread_nesting_witness :
  let tg := mkTarget "amd64" "linux" 99 in
  let t := mkThreadlock 0 0 0 ∅ 0 0 in
  exists t1 t3,
    xtimes 2 (LockOSThread tg) t ready_idle_world = Done (tt, t1) ready_idle_world /\
    wired tg ready_idle_world t1 /\ templateThreads t1 = 1 /\
    xtimes 2 (UnlockOSThread tg) t1 ready_idle_world = Done (tt, t3) ready_idle_world /\
    unwired ready_idle_world t3.
Proof.
  intros tg t.
  assert (Hg : heap ready_idle_world !! getg ready_idle_world = Some (g_with _Grunning 0))
    by reflexivity.
  assert (Hgnz : getg ready_idle_world <> 0) by (vm_compute; congruence).
  destruct (LockOSThread_nesting tg ready_idle_world _ t 2 eq_refl Hg Hgnz eq_refl
              ltac:(lia) ltac:(vm_compute; reflexivity))
    as ((t1 & Hr1 & _ & Hw1 & _ & t3 & Hr3 & _ & Hw3 & _) & _).
  exists t1, t3. split; [exact Hr1|]. split; [exact Hw1|].
  split.
  - assert (Hc : xtimes 2 (LockOSThread tg) t ready_idle_world
                 = Done (tt, mkThreadlock 2 0 1 {[1 := 99]} 1 1) ready_idle_world)
      by (vm_compute; reflexivity).
    rewrite Hc in Hr1. injection Hr1 as <-. reflexivity.
  - split; [exact Hr3 | exact Hw3].
Defined.

(** ** The ids of new goroutines *)

Lemma newproc1_prepare_goid pl pc argp narg callerpc i newg w2 gv2 pp2 :
  heap w2 !! newg = Some gv2 -> newg <> 0 ->
  g_stack_hi gv2 <> 0 -> g_atomicstatus gv2 = _Gdead ->
  has_p w2 i pp2 ->
  exists w5 gv5 a b n1 n2,
    newproc1_tail pl pc argp narg callerpc i newg w2
    = (runqput i newg true ;;;
       let* s := get_sched in
       let* ms := gets mainStarted in
       when (negb (sched_npidle s =? 0) && (sched_nmspinning s =? 0) && ms) wakep ;;;
       unlock_m) w5 /\
    heap w5 = <[newg := gv5]> (heap w2) /\
    g_atomicstatus gv5 = _Grunnable /\ g_startpc gv5 = pc /\ g_gopc gv5 = callerpc /\
    g_schedlink gv5 = g_schedlink gv2 /\
    allp w5 = <[i := Some (p_set_goidcache a b pp2)]> (allp w2) /\
    sched w5 = sched_set_goidgen n1 (sched_set_ngsys n2 (sched w2)) /\
    trace w5 = trace w2 ++ newproc1_copy pl argp narg gv2 /\
    curm w5 = curm w2 /\ getg w5 = getg w2 /\ mainStarted w5 = mainStarted w2 /\
    raceenabled w5 = raceenabled w2 /\ rng w5 = rng w2 /\ rng_pos w5 = rng_pos w2 /\
    allgs w5 = allgs w2 /\
    let refill := p_goidcache pp2 =? p_goidcacheend pp2 in
    let gen := uint64 (sched_goidgen (sched w2) + _GoidCacheBatch) in
    let cache := uint64 (gen - (_GoidCacheBatch - 1)) in
    let id := if refill then cache else p_goidcache pp2 in
    g_goid gv5 = int64 id /\ a = uint64 (id + 1) /\
    b = (if refill then uint64 (cache + _GoidCacheBatch) else p_goidcacheend pp2) /\
    n1 = (if refill then gen else sched_goidgen (sched w2)).
Proof.
  intros Hg Hnz Hhi Hst Hp.
  unfold newproc1_tail. cbv zeta.
  rewrite bind_eq, (readg_has _ _ _ Hg Hnz). cbv beta iota.
  apply Z.eqb_neq in Hhi. rewrite Hhi.
  unfold readgstatus. rewrite bind_eq, bind_eq, (readg_has _ _ _ Hg Hnz).
  unfold ret at 1. cbv beta iota. rewrite Hst.
  change (negb (_Gdead =? _Gdead)) with false. cbv iota.
  (* the copy of the arguments *)
  rewrite bind_eq.
  match goal with |- context [when _ (emit ?e) w2] =>
    assert (H1 : when (narg >? 0) (emit e) w2
                 = Done tt (w_set_trace (trace w2 ++ newproc1_copy pl argp narg gv2) w2))
  end.
  { unfold newproc1_copy. cbv zeta. destruct (narg >? 0); [reflexivity|].
    simpl. rewrite w_set_trace_id. reflexivity. }
  rewrite H1. clear H1. cbv beta iota.
  set (wa := w_set_trace _ w2).
  assert (Hga : heap wa !! newg = Some gv2) by exact Hg.
  rewrite bind_eq, (modg_has _ _ _ _ Hga Hnz). cbv beta iota.
  set (g1 := g_set_gopc callerpc gv2).
  rewrite bind_eq, (modg_has _ _ _ _ (upd_g_lookup _ _ _) Hnz), upd_g_twice. cbv beta iota.
  set (g2 := g_set_startpc pc g1).
  rewrite bind_eq, (readg_has _ _ _ (upd_g_lookup _ _ _) Hnz). cbv beta iota.
  rewrite bind_eq. unfold gets at 1. cbv beta iota.
  set (sys := isSystemGoroutine pl _ g2).
  set (wc := upd_g newg g2 wa).
  rewrite bind_eq.
  assert (H2 : forall f, when sys (mod_sched f) wc
               = Done tt (w_set_sched (if sys then f (sched wc) else sched wc) wc)).
  { intros f. destruct sys; [reflexivity|]. rewrite w_set_sched_id. reflexivity. }
  rewrite H2. clear H2. cbv beta iota.
  set (wd := w_set_sched _ wc).
  assert (Hgd : heap wd !! newg = Some g2) by apply lookup_insert_eq.
  rewrite bind_eq, (modg_has _ _ _ _ Hgd Hnz). cbv beta iota.
  set (g3 := g_set_gcscanvalid false g2).
  rewrite bind_eq.
  erewrite (casgstatus_done _ newg g3 _Gdead _Grunnable);
    [| apply upd_g_lookup | exact Hnz | exact Hst | reflexivity | reflexivity
     | discriminate | discriminate | discriminate].
  rewrite upd_g_twice. cbv beta iota.
  set (g4 := g_set_atomicstatus _Grunnable g3).
  set (we := upd_g newg g4 wd).
  assert (Hpe : has_p we i pp2) by exact Hp.
  rewrite bind_eq, (getp_has _ _ _ Hpe). cbv beta iota.
  (* the cache of goroutine ids *)
  rewrite bind_eq.
  set (refill := p_goidcache pp2 =? p_goidcacheend pp2).
  set (gen := uint64 (sched_goidgen (sched we) + _GoidCacheBatch)).
  set (cache := uint64 (gen - (_GoidCacheBatch - 1))).
  set (pp3 := if refill then p_set_goidcache cache (uint64 (cache + _GoidCacheBatch)) pp2
              else pp2).
  set (wf := if refill
             then upd_p i pp3 (w_set_sched (sched_set_goidgen gen (sched we)) we)
             else we).
  match goal with |- context [when refill ?c we] =>
    assert (H3 : when refill c we = Done tt wf)
  end.
  { unfold wf, pp3. destruct refill; [|reflexivity]. unfold when.
    rewrite bind_eq. unfold mod_sched at 1, modify. cbv beta iota.
    rewrite bind_eq. unfold get_sched, gets. cbv beta iota.
    erewrite modp_has; [reflexivity | exact Hpe]. }
  rewrite H3. clear H3. cbv beta iota.
  assert (Hpf : has_p wf i pp3).
  { unfold wf, pp3. destruct refill; [eapply has_p_upd; exact Hpe | exact Hpe]. }
  assert (Hgf : heap wf !! newg = Some g4).
  { unfold wf. destruct refill; apply lookup_insert_eq. }
  rewrite bind_eq, (getp_has _ _ _ Hpf). cbv beta iota.
  rewrite bind_eq, (modg_has _ _ _ _ Hgf Hnz). cbv beta iota.
  set (g5 := g_set_goid _ g4).
  assert (Hpg : has_p (upd_g newg g5 wf) i pp3) by exact Hpf.
  rewrite bind_eq, (modp_has _ _ _ _ Hpg). cbv beta iota.
  set (w5 := upd_p i _ _).
  exists w5, g5, (uint64 (p_goidcache pp3 + 1)), (p_goidcacheend pp3),
    (if refill then gen else sched_goidgen (sched w2)),
    (if sys then uint32 (sched_ngsys (sched w2) + 1) else sched_ngsys (sched w2)).
  split; [reflexivity|].
  split.
  { unfold w5, wf. destruct refill; simpl; rewrite !insert_insert_eq; reflexivity. }
  split; [reflexivity|]. split; [reflexivity|]. split; [reflexivity|].
  split; [reflexivity|].
  split.
  { unfold w5, wf, pp3. destruct refill; simpl; rewrite ?list_insert_insert_eq; reflexivity. }
  split.
  { unfold w5, wf. destruct refill, sys; simpl; try reflexivity;
      destruct (sched w2); reflexivity. }
  assert (Hgen : sched_goidgen (sched we) = sched_goidgen (sched w2)).
  { unfold we, wd. cbn [sched upd_g w_set_heap w_set_sched].
    destruct sys; reflexivity. }
  unfold gen in *. rewrite Hgen in *.
  unfold w5, wf, g5, pp3. unfold cache. fold refill.
  destruct refill; repeat split;
    cbn [g_goid g_set_goid p_goidcache p_goidcacheend p_set_goidcache];
    rewrite ?Hgen; reflexivity.
Qed.

Lemma same_but_guard_goid a b : same_but_guard a b -> g_goid a = g_goid b.
Proof. unfold same_but_guard. intros H. apply (f_equal g_goid) in H. exact H. Qed.

Lemma p_put_goidcache gp next pp :
  p_goidcache (p_put gp next pp) = p_goidcache pp /\
  p_goidcacheend (p_put gp next pp) = p_goidcacheend pp.
Proof.
  unfold p_put. destruct next; [destruct (p_runnext pp =? 0)|]; split; reflexivity.
Qed.

(** newproc1 when the ring of the P has room, with the id it gives to the
    new g. *)
Lemma newproc1_room_goid pl pc argp narg callergp callerpc w i pp gg newg :
  newproc_siz narg < newproc_limit pl -> stack_ok pl -> 0 <= _StackMin pl ->
  m_p (curm w) = Some i -> has_p w i pp ->
  heap w !! getg w = Some gg -> getg w <> 0 ->
  free_g_ready w pp newg ->
  runq_count pp < runqlen \/ (runqput_next w true = true /\ p_runnext pp = 0) ->
  exists w' gv' pp',
    newproc1 pl (Some pc) argp narg callergp callerpc w = Done tt w' /\
    heap w' !! newg = Some gv' /\ has_p w' i pp' /\
    let refill := p_goidcache pp =? p_goidcacheend pp in
    let gen := uint64 (sched_goidgen (sched w) + _GoidCacheBatch) in
    let cache := uint64 (gen - (_GoidCacheBatch - 1)) in
    let id := if refill then cache else p_goidcache pp in
    g_goid gv' = int64 id /\ p_goidcache pp' = uint64 (id + 1) /\
    p_goidcacheend pp'
    = (if refill then uint64 (cache + _GoidCacheBatch) else p_goidcacheend pp) /\
    sched_goidgen (sched w') = (if refill then gen else sched_goidgen (sched w)).
Proof.
  intros Hsiz Hok Hmin Hmp Hp Hgg Hggnz Hfree Hroom.
  rewrite (newproc1_eq _ _ _ _ _ _ _ Hsiz).
  set (w0 := w_set_curm _ w).
  assert (Hcur : curp w0 = Done i w0) by (unfold curp; simpl; rewrite Hmp; reflexivity).
  rewrite bind_eq, Hcur. cbv beta iota.
  destruct (newproc1_obtain pl w0 i pp newg (newproc1_tail pl pc argp narg callerpc i)
              Hok Hmin Hp Hfree)
    as (w2 & gv2 & c & d & Hrun & Hnz & Hh2 & Hst2 & Hhi2 & Hl2 & Ha2 & Hsame2).
  rewrite Hrun.
  destruct (newproc1_prepare_goid pl pc argp narg callerpc i newg w2 gv2 (p_set_gfree c d pp))
    as (w5 & gv5 & a & b & n1 & n2 & Hrun5 & Hh5 & Hst5 & Hpc5 & Hgo5 & Hl5 & Ha5 & Hs5
        & Ht5 & Hm5 & Hg5 & Hms5 & Hr5 & Hrng5 & Hpos5 & _ & Hid & Hida & Hidb & Hidn).
  { exact Hh2. }
  { exact Hnz. }
  { exact Hhi2. }
  { exact Hst2. }
  { unfold has_p. rewrite Ha2. apply list_lookup_insert_eq. eapply lookup_lt_Some. exact Hp. }
  destruct Hsame2 as ((sa & sb & sc & Hs2) & Hm2 & Ht2 & Hg2 & Hms2 & Hr2 & Hrng2 & Hpos2).
  assert (Hgen2 : sched_goidgen (sched w2) = sched_goidgen (sched w)).
  { rewrite Hs2. reflexivity. }
  rewrite Hgen2 in Hid, Hida, Hidb, Hidn.
  change (p_goidcache (p_set_gfree c d pp)) with (p_goidcache pp) in Hid, Hida, Hidb, Hidn.
  change (p_goidcacheend (p_set_gfree c d pp)) with (p_goidcacheend pp)
    in Hid, Hida, Hidb, Hidn.
  set (pp5 := p_set_goidcache a b (p_set_gfree c d pp)) in *.
  assert (Hp5 : has_p w5 i pp5).
  { unfold has_p. rewrite Ha5, Ha2, list_insert_insert_eq.
    apply list_lookup_insert_eq. eapply lookup_lt_Some. exact Hp. }
  assert (Hnext : runqput_next w5 true = runqput_next w true).
  { apply runqput_next_same.
    - rewrite Hr5, Hr2. reflexivity.
    - rewrite Hrng5, Hrng2. reflexivity.
    - rewrite Hpos5, Hpos2. reflexivity. }
  rewrite Hrun5, bind_eq, (runqput_room w5 i pp5 newg true Hp5).
  2:{ rewrite Hnext. exact Hroom. }
  rewrite Hnext. cbv beta iota.
  set (w6 := upd_p i _ _).
  destruct (runqput_drawn_frame w5 true) as (Hh6 & Ha6 & Hs6 & Ht6 & Hm6 & Hg6 & _).
  rewrite bind_eq. change (get_sched w6) with (Done (sched w6) w6). cbv beta iota.
  rewrite bind_eq. change (gets mainStarted w6) with (Done (mainStarted w6) w6).
  cbv beta iota.
  set (wake := negb (sched_npidle (sched w6) =? 0) && (sched_nmspinning (sched w6) =? 0)
               && mainStarted w6).
  assert (Hgg6 : exists gg6, heap w6 !! getg w6 = Some gg6).
  { simpl. rewrite Hh6, Hg6, Hg5, Hg2.
    destruct (Hl2 _ _ Hgg) as (gg2 & Hgg2 & _).
    rewrite Hh5. destruct (decide (newg = getg w)) as [E|Hne].
    - rewrite E, lookup_insert_eq. eauto.
    - rewrite lookup_insert_ne by exact Hne. eauto. }
  destruct Hgg6 as (gg6 & Hgg6).
  destruct (wake_unlock_has w6 gg6 wake Hgg6) as (w' & Hrun' & Ha' & Hk' & Ht' & Hs').
  { simpl. rewrite Hg6, Hg5, Hg2. exact Hggnz. }
  { intros E. unfold wake in E.
    apply andb_prop in E as [E _]. apply andb_prop in E as [_ E]. apply Z.eqb_eq. exact E. }
  destruct (Hk' newg gv5) as (gv' & Hgv' & _ & _ & Hsame).
  { simpl. rewrite Hh6, Hh5. apply lookup_insert_eq. }
  exists w', gv', (p_put newg (runqput_next w true) pp5).
  split; [exact Hrun'|]. split; [exact Hgv'|].
  split.
  { unfold has_p. rewrite Ha'. eapply has_p_upd. unfold has_p. rewrite Ha6. exact Hp5. }
  cbv zeta. destruct (p_put_goidcache newg (runqput_next w true) pp5) as (Hc1 & Hc2).
  split; [rewrite <- (same_but_guard_goid _ _ Hsame); exact Hid|].
  split; [rewrite Hc1; exact Hida|].
  split; [rewrite Hc2; exact Hidb|].
  assert (Hgen6 : sched_goidgen (sched w6) = n1).
  { unfold w6. change (sched (upd_p i ?x ?y)) with (sched y). rewrite Hs6, Hs5. reflexivity. }
  rewrite Hs'. destruct wake; cbn [sched_goidgen sched_set_nmspinning];
    rewrite Hgen6; exact Hidn.
Qed.

(** X28. newproc1 takes the id of the new g from the cache of the P.  With
    an empty cache ([goidcache = goidcacheend]) it reserves the sixteen ids
    after [sched.goidgen] by adding 16 to it: the new g gets
    [sched.goidgen + 1] and the cache holds the other fifteen.  With ids
    left in the cache the new g gets [goidcache], the cache moves on by one
    and [sched.goidgen] is not touched.  (The ring of the P has room, and
    the counters are far from wrapping around.) *)
Theorem newproc1_goid_from_cache pl pc argp narg callergp callerpc w i pp gg newg :
  newproc_siz narg < newproc_limit pl -> stack_ok pl -> 0 <= _StackMin pl ->
  m_p (curm w) = Some i -> has_p w i pp ->
  heap w !! getg w = Some gg -> getg w <> 0 ->
  free_g_ready w pp newg ->
  runq_count pp < runqlen \/ (runqput_next w true = true /\ p_runnext pp = 0) ->
  0 <= sched_goidgen (sched w) < 2 ^ 63 - 17 ->
  0 <= p_goidcache pp < 2 ^ 63 - 1 ->
  exists w' gv' pp',
    newproc1 pl (Some pc) argp narg callergp callerpc w = Done tt w' /\
    heap w' !! newg = Some gv' /\ has_p w' i pp' /\
    if p_goidcache pp =? p_goidcacheend pp
    then g_goid gv' = sched_goidgen (sched w) + 1 /\
         p_goidcache pp' = sched_goidgen (sched w) + 2 /\
         p_goidcacheend pp' = sched_goidgen (sched w) + 17 /\
         sched_goidgen (sched w') = sched_goidgen (sched w) + 16
    else g_goid gv' = p_goidcache pp /\
         p_goidcache pp' = p_goidcache pp + 1 /\
         p_goidcacheend pp' = p_goidcacheend pp /\
         sched_goidgen (sched w') = sched_goidgen (sched w).
Proof.
  intros Hsiz Hok Hmin Hmp Hp Hgg Hggnz Hfree Hroom Hgen Hcache.
  destruct (newproc1_room_goid pl pc argp narg callergp callerpc w i pp gg newg
              Hsiz Hok Hmin Hmp Hp Hgg Hggnz Hfree Hroom)
    as (w' & gv' & pp' & Hrun & Hgv & Hp' & Hid & Ha & Hb & Hn).
  exists w', gv', pp'.
  split; [exact Hrun|]. split; [exact Hgv|]. split; [exact Hp'|].
  cbv zeta in Hid, Ha, Hb, Hn. unfold _GoidCacheBatch in *.
  assert (H63 : 2 ^ 63 = 9223372036854775808) by reflexivity.
  assert (Hu : forall x, 0 <= x < 2 ^ 63 -> uint64 x = x).
  { intros x Hx. unfold uint64. apply Z.mod_small. lia. }
  assert (Hi : forall x, 0 <= x < 2 ^ 63 -> int64 x = x).
  { intros x Hx. unfold int64. rewrite Z.mod_small by lia. lia. }
  destruct (p_goidcache pp =? p_goidcacheend pp).
  - rewrite (Hu (sched_goidgen (sched w) + 16)) in Hid, Ha, Hb, Hn by lia.
    replace (sched_goidgen (sched w) + 16 - (16 - 1)) with (sched_goidgen (sched w) + 1)
      in Hid, Ha, Hb by lia.
    rewrite (Hu (sched_goidgen (sched w) + 1)) in Hid, Ha, Hb by lia.
    rewrite Hi in Hid by lia. rewrite Hu in Ha by lia. rewrite Hu in Hb by lia.
    replace (sched_goidgen (sched w) + 1 + 1) with (sched_goidgen (sched w) + 2) in Ha by lia.
    replace (sched_goidgen (sched w) + 1 + 16) with (sched_goidgen (sched w) + 17) in Hb by lia.
    repeat split; assumption.
  - rewrite Hi in Hid by lia. rewrite Hu in Ha by lia.
    repeat split; assumption.
Qed.

Lemma newproc1_goid_from_cache_witness :
  exists w' gv' pp',
    newproc1 platform_amd64 (Some 4096) 0 16 1 100 ready_idle_world = Done tt w' /\
    heap w' !! 3 = Some gv' /\ has_p w' 0 pp' /\
    g_goid gv' = 1 /\ p_goidcache pp' = 2 /\ p_goidcacheend pp' = 17 /\
    sched_goidgen (sched w') = 16.
Proof.
  assert (Hsiz : newproc_siz 16 < newproc_limit platform_amd64) by (vm_compute; reflexivity).
  assert (Hmin : 0 <= _StackMin platform_amd64) by (vm_compute; congruence).
  assert (Hm : m_p (curm ready_idle_world) = Some 0%nat) by reflexivity.
  assert (Hp : has_p ready_idle_world 0 (p_with [] 0)) by reflexivity.
  assert (Hgg : heap ready_idle_world !! getg ready_idle_world = Some (g_with _Grunning 0))
    by (vm_compute; reflexivity).
  assert (Hggnz : getg ready_idle_world <> 0) by (vm_compute; congruence).
  assert (Hfree : free_g_ready ready_idle_world (p_with [] 0) 3)
    by (left; repeat split).
  assert (Hroom : runq_count (p_with [] 0) < runqlen \/
                  (runqput_next ready_idle_world true = true /\ p_runnext (p_with [] 0) = 0))
    by (left; vm_compute; reflexivity).
  assert (Hgen : 0 <= sched_goidgen (sched ready_idle_world) < 2 ^ 63 - 17)
    by (vm_compute; split; [congruence | reflexivity]).
  assert (Hcache : 0 <= p_goidcache (p_with [] 0) < 2 ^ 63 - 1)
    by (vm_compute; split; [congruence | reflexivity]).
  destruct (newproc1_goid_from_cache platform_amd64 4096 0 16 1 100 ready_idle_world
              0%nat (p_with [] 0) (g_with _Grunning 0) 3 Hsiz platform_amd64_stack_ok
              Hmin Hm Hp Hgg Hggnz Hfree Hroom Hgen Hcache)
    as (w' & gv' & pp' & R1 & R2 & R3 & R4).
  exists w', gv', pp'.
  split; [exact R1|]. split; [exact R2|]. split; [exact R3|].
  change (p_goidcache (p_with [] 0) =? p_goidcacheend (p_with [] 0)) with true in R4.
  exact R4.
Defined.
